(* ===== verification/_CoqProject ===== *)
-Q . S2P
Prelude.v
GoLib.v
Float64.v
Retry.v
Models.v
Breaker.v
Sql.v
Effects.v
Rely.v
Store.v
Concrete.v
StoreSpec.v
StoreRaces.v
Paging.v
Service.v
Redlock.v
Worker.v
Dispatch.v
Reconciler.v
Progress.v
ReconcilerLoop.v
Lifecycle.v
Pool.v
PoolSpec.v
Calendar.v
Cron.v
Scheduler.v
Duration.v
Unicode.v
Etl.v
Webhook.v
Config.v
Api.v
Kafka.v
Readiness.v
Metrics.v
Server.v
Rfc3339.v
Json.v
Codec.v
JobCodec.v
KafkaCodec.v
BodyCodec.v
