(* ===== verification/Prelude.v ===== *)
(** * Conduit: a verification development

    Conduit is a distributed job queue in Go.  A client enqueues a job over HTTP; the job
    service stores it in Postgres and publishes it to Kafka; workers execute it under a
    lease, a circuit breaker, a Redlock lock and a retry policy; a reconciler hands out
    what Kafka did not deliver and recovers what a crashed worker left behind.

    ** How the parts are modelled

    The code that talks to Postgres, Redis, the clock or shared objects is a [prog]
    (Prelude): a finite tree of atomic effects [Ev] (Effects).  [exec] runs one program
    against a [World]; [csteps] interleaves the effects of any number of programs, which is
    how concurrent requests, workers and server processes are modelled.  What the program
    does not control is an oracle of the class [Env], indexed by the number of effects
    performed: the clock, random bytes, which statements or Redis commands fail (before or
    after taking effect), cancellation, the order in which Postgres scans rows and which
    rows other transactions have locked, what a task handler answers, whether the pool
    accepts a job.  Theorems quantify over every environment; witnesses compute with a
    concrete one (Concrete).  Loops with a bound in the code recurse on that bound (the search
    of Next on the 2102400 minutes of four years); loops without one (timers) take the
    number of rounds to run as an argument.

    - Prelude: this file.  Errors, programs, interleaving, tactics, list lemmas, durations.
    - GoLib: the parts of Go's library the code uses: decimal, hex and base64 conversion,
      splitting, trimming, quoting, each with its round trip.
    - Float64: IEEE 754 double arithmetic on integers, with the rounding lemmas used for
      backoff and drift.
    - Models: the structs of pkg/models/models.go.
    - Breaker: internal/circuitbreaker.  A mutex makes each method one step.
    - Retry: internal/retry, delays in float64.
    - Sql: the jobs table and every SQL statement of internal/store/store.go as a function
      on it, with SKIP LOCKED, NULLs, ordering, int4 ranges and the unique index.
    - Effects: the world and the meaning of each effect (Redis nodes, metrics, statements).
    - Rely: rely-guarantee reasoning for one program among others, and [durable], what no
      program ever does to the table.
    - Store: internal/store (PostgresStore), method by method; pgx's treatment of NULL is
      the class [Pgx].
    - StoreSpec, StoreRaces, Paging: the theorems about the store, call by call, under
      interleaving, and for the cursor-paged listing.
    - Service: internal/service (JobService).
    - Redlock: internal/lock.
    - Worker: jobWorker of cmd/server/main.go with all its deferred calls.
    - Dispatch: the two ways a job is claimed, taken together.
    - Reconciler, Progress, ReconcilerLoop: internal/reconciler.  The pass and what it hands
      out; what an undisturbed pass achieves; Start, Stop and the loops as a transition
      system in which the effects of the passes interleave.
    - Lifecycle: Enqueue, the reconciler and the worker put together.
    - Pool: internal/worker (Pool) as a transition system over channel operations.
    - Calendar: the UTC calendar of Go's time package.
    - Cron, Scheduler: internal/scheduler.  Cron expressions and Next; the scheduler with
      its loop and handler goroutines as a transition system.
    - PoolSpec: the pool as a bounded first-in first-out queue, and the simulation.
    - Api: internal/api.  The handlers over Service and Store, the error envelope, the
      middleware chain, and the contract of the API as a relation between the request, the
      response and the table.
    - Unicode, Etl: internal/etl.  The case and letter classes of Go's unicode package are
      an interface of which only the ASCII part is fixed; pgx's Sanitize is the class
      [PgxIdentifier].
    - Webhook: internal/webhook.  net/netip's address classes and net/http's redirect loop;
      DNS and the servers are the class [Net], and may change between two lookups.
    - Duration, Config: internal/config, with time.ParseDuration and Duration.String.
    - Kafka: internal/queue and the consumer's handler of cmd/server/main.go; the marking of
      offsets is sarama's, the class [Session].
    - Readiness: readinessHandler of cmd/server/main.go.
    - Metrics: internal/metrics, the collectors and their registration.
    - Server: run of cmd/server/main.go and internal/logger: what each component is built
      from, the order in which the parts come up and go down, and the exit status of main.
    - Rfc3339, Json, Codec: encoding/json of Go's library as far as the code uses it: the
      text of instants, string literals with their escapes and invalid UTF-8, JSON text with
      the limit on its nesting, and how values are stored in and written from Go types.
    - JobCodec, BodyCodec: jobs, tasks, the webhook's body and the pipeline specification by
      their json tags.
    - KafkaCodec: the producer and the consumer put together.

    ** What is proved

    Safety under concurrency: no job is handed to two claimants (Dispatch, StoreRaces), a
    worker that lost its lease cannot write (StoreSpec), one idempotency key gives one job
    (Service), lock holders exclude each other for the time to live, counted from a clock
    reading they made (Redlock), a reconciler pass only submits jobs it holds (Reconciler),
    rows and identities are durable (StoreSpec).  Functional behaviour of each store method, of Enqueue, of an executed
    attempt with every outcome (Worker), of paging, of the breaker and of the backoff
    sequence.  Accounting of metrics on every path, panics included.  Bounds, order and
    termination of the pool.  Cron fields, Next and what the scheduler fires, when and how
    often.

    Composition: a job published to Kafka is the job the consumer submits, field for field
    (KafkaCodec), and a webhook's receiver decodes the job it was sent for (BodyCodec), both
    through the JSON text.  A reconciler pass that nothing disturbs hands out a full batch or
    all there is (Progress); Stop waits for the loops, and a cancelled loop hands out at most
    the job it was claiming (ReconcilerLoop).  What Run makes of a job that was handed out,
    on every way through it, and the way of a job from the request to its end (Lifecycle).

    Refinement: every request to the API does what the contract [api_spec] allows, for every
    fault (Api); the pool with its channels and goroutines is a bounded queue to its callers
    (PoolSpec).  The ETL executor only runs an INSERT of a query without a writing word, and
    its tokenizer finds exactly the words outside literals and comments (Etl).  The webhook
    executor checks the URL of every request it sends, refuses exactly a list of address
    blocks, and retries exactly what may succeed later (Webhook).  What an accepted
    configuration guarantees (Config), where a claim leaves its Kafka partition (Kafka), what
    a readiness answer tells (Readiness), and that the server's parts come up in the order
    of their dependencies, whatever fails, and go down in the reverse one, the consumer
    apart, when requests and jobs end in time (Server).

    Theorems about progress and about whole listings assume that nothing fails on the way
    and that the driver can read the rows: pgx v5 cannot read the NULL key of a job enqueued
    without one, nor the NULL token of one that is not claimed.  Where a call decides on what
    it read before (UpdateJob, CancelJob), its theorem is about the call alone, and
    StoreRaces shows what interleaving adds.

    Some theorems show behaviour that contradicts what the code or its documentation
    intends: a half-open breaker that never closes again, a cancellation that is
    overwritten, NULL columns that make a job unreadable, attempts used up without an
    execution, a FAILED job nobody picks up, a redelivered message that restarts the retry
    budget, a lock whose Expiry outlives its keys, accepted jobs dropped at shutdown, a
    scheduled entry that runs at the first tick whatever its cron expression says, a host
    name that is resolved again after it was checked, one redirect less than configured, a
    negative queue size that is accepted, a refused Kafka message that is skipped, a
    disconnected client that makes the server look down.

    ** Idealisations

    [time.Duration] and [time.Time] are unbounded integers (no overflow of additions); a nil
    map and an empty map are one value, and so are a nil and an empty slice; the metadata
    columns hold maps, not their JSON; times are instants, written in UTC; float64 has
    no negative zero.  Redis nodes and clients read the same clock.

    ** Not modelled

    gin's routing and request binding, the routes /live, /health and /metrics, and what is
    written to the log.  time.Parse beyond RFC 3339 is the class [TimeParse].  Third-party
    code (pgx, sarama, go-redis, gin, Prometheus, zerolog) is only modelled by its documented
    effects.

    ** Plan

    The pool, the reconciler and the consumer as one transition system over the shared world;
    the JSON of the metadata columns. *)

From stdpp Require Export base gmap strings list sorting.
From Stdlib Require Export ZArith Lia.

#[global] Open Scope Z_scope.

Declare Scope go_scope.
Delimit Scope go_scope with go.

Create HintDb conduit.
Create Rewrite HintDb conduit.

(** ** Tactics shared by every component *)

(** Case on the scrutinee of a match or a conditional of the goal, keeping the
    equation, and discard the contradictory cases. *)
Ltac case_goal :=
  match goal with
  | |- context [match ?x with _ => _ end] => destruct x eqn:?; simplify_eq/=
  end.

(** The same for a match in a hypothesis. *)
Ltac case_hyp H :=
  match type of H with
  | context [match ?x with _ => _ end] => destruct x eqn:?; simplify_eq/=
  end.

(** Turn boolean comparisons of Z and strings in the context into propositions. *)
Ltac bool_to_prop :=
  repeat match goal with
  | H : (_ && _)%bool = true |- _ => apply andb_true_iff in H; destruct H
  | H : (_ || _)%bool = false |- _ => apply orb_false_iff in H; destruct H
  | H : negb _ = true |- _ => apply negb_true_iff in H
  | H : negb _ = false |- _ => apply negb_false_iff in H
  | H : Z.ltb _ _ = true |- _ => apply Z.ltb_lt in H
  | H : Z.ltb _ _ = false |- _ => apply Z.ltb_ge in H
  | H : Z.leb _ _ = true |- _ => apply Z.leb_le in H
  | H : Z.leb _ _ = false |- _ => apply Z.leb_gt in H
  | H : Z.eqb _ _ = true |- _ => apply Z.eqb_eq in H
  | H : Z.eqb _ _ = false |- _ => apply Z.eqb_neq in H
  | H : String.eqb _ _ = true |- _ => apply String.eqb_eq in H
  | H : String.eqb _ _ = false |- _ => apply String.eqb_neq in H
  | H : bool_decide _ = true |- _ => apply bool_decide_eq_true in H
  | H : bool_decide _ = false |- _ => apply bool_decide_eq_false in H
  end.

(** ** Lists filtered by a boolean test *)

Section Filter.
Context {A : Type} (f : A -> bool).
Implicit Types (l : list A) (x : A).

Lemma elem_of_bfilter l x : x ∈ List.filter f l <-> x ∈ l /\ f x = true.
Proof. by rewrite !list_elem_of_In, filter_In. Qed.

Lemma bfilter_id l : (forall x, x ∈ l -> f x = true) -> List.filter f l = l.
Proof.
  induction l as [|x l IH]; simpl; [done|]. intros H. rewrite H by set_solver. f_equal.
  apply IH. set_solver.
Qed.

Lemma bfilter_nil l : (forall x, x ∈ l -> f x = false) -> List.filter f l = [].
Proof.
  induction l as [|x l IH]; simpl; [done|]. intros H. rewrite H by set_solver. apply IH. set_solver.
Qed.

Lemma bfilter_bfilter (g : A -> bool) l :
  List.filter f (List.filter g l) = List.filter (fun x => g x && f x) l.
Proof. induction l as [|x l IH]; simpl; [done|]. destruct (g x); simpl; [|done]. destruct (f x); congruence. Qed.

#[global] Instance bfilter_perm : Proper ((≡ₚ) ==> (≡ₚ)) (List.filter f).
Proof.
  induction 1 as [|x l1 l2 _ IH|x y l|l1 l2 l3 _ IH1 _ IH2]; simpl; [done|..].
  - destruct (f x); by rewrite IH.
  - destruct (f x), (f y); try done. by constructor.
  - by rewrite IH1.
Qed.

Lemma bfilter_NoDup_fmap {B} (g : A -> B) l : NoDup (g <$> l) -> NoDup (g <$> List.filter f l).
Proof.
  induction l as [|x l IH]; [done|]. rewrite fmap_cons, NoDup_cons. intros [Hnin Hnd]. simpl.
  destruct (f x); [|by auto]. rewrite fmap_cons, NoDup_cons. split; [|by auto].
  intros (y & Heq & [Hy _]%elem_of_bfilter)%list_elem_of_fmap. apply Hnin. apply list_elem_of_fmap. eauto.
Qed.
End Filter.

(** ** Results and Go errors *)

(** A Go [(T, error)] pair: callers test the error first and never look at the
    value when it is set. *)
Inductive res (A E : Type) : Type :=
| Ok (a : A)
| Err (e : E).
Arguments Ok {A E} _.
Arguments Err {A E} _.

Definition is_ok {A E} (r : res A E) : bool :=
  match r with Ok _ => true | Err _ => false end.

(** Go error values.  [New m] is a package-level sentinel made by [errors.New],
    identified by its message (the messages of the program are distinct);
    [PgError] is pgx's server error; [Errorf m ws] is a fresh error made by
    [fmt.Errorf] whose text is [m] and which wraps ([%w]) the errors [ws]. *)
Inductive error : Type :=
| New (msg : string)
| PgError (code constraint : string)
| Errorf (msg : string) (wrapped : list error).

(** [err.Error()]. *)
Definition Error (e : error) : string :=
  match e with
  | New m => m
  | PgError code _ => code
  | Errorf m _ => m
  end.

(** [errors.Is(e, target)] for a sentinel [target]: walks the tree of wrapped
    errors. *)
Fixpoint errors_Is (e : error) (target : string) : bool :=
  match e with
  | New m => String.eqb m target
  | PgError _ _ => false
  | Errorf _ ws => existsb (fun w => errors_Is w target) ws
  end.

(** [errors.As(e, &pgErr)]: the first server error of the tree. *)
Fixpoint errors_As_pg (e : error) : option (string * string) :=
  match e with
  | New _ => None
  | PgError code constraint => Some (code, constraint)
  | Errorf _ ws =>
      (fix first (l : list error) : option (string * string) :=
         match l with
         | [] => None
         | w :: l' => match errors_As_pg w with Some p => Some p | None => first l' end
         end) ws
  end.

(** [fmt.Errorf(prefix + "%w", e)]. *)
Definition wrapf (prefix : string) (e : error) : error :=
  Errorf (prefix +:+ Error e) [e].

Lemma wrapf_Is prefix e target : errors_Is (wrapf prefix e) target = errors_Is e target.
Proof. simpl. by rewrite orb_false_r. Qed.
#[export] Hint Rewrite wrapf_Is : conduit.

(** ** Programs

    The parts of the code that talk to Postgres, Redis, the clock and shared
    objects are finite trees of atomic effects.  [E X] is an effect with answer
    type [X]. *)
Inductive prog (E : Type -> Type) (A : Type) : Type :=
| Ret (a : A)
| Vis {X : Type} (e : E X) (k : X -> prog E A).
Arguments Ret {E A} _.
Arguments Vis {E A X} _ _.

Fixpoint prog_bind {E A B} (f : A -> prog E B) (p : prog E A) : prog E B :=
  match p with
  | Ret a => f a
  | Vis e k => Vis e (fun x => prog_bind f (k x))
  end.

(** Every effect the program can perform satisfies [P]. *)
Fixpoint all_effects {E : Type -> Type} (P : forall X, E X -> Prop) {A} (p : prog E A) : Prop :=
  match p with
  | Ret _ => True
  | Vis e k => P _ e /\ forall x, all_effects P (k x)
  end.

Lemma all_effects_bind {E A B} (P : forall X, E X -> Prop) (f : A -> prog E B) (p : prog E A) :
  all_effects P p -> (forall a, all_effects P (f a)) -> all_effects P (prog_bind f p).
Proof. intros Hp Hf. induction p as [a|X e k IH]; simpl in *; [done|]. destruct Hp. auto. Qed.

(** Perform one effect. *)
Definition trigger {E X} (e : E X) : prog E X := Vis e Ret.

(** [let! x := p in q]: run [p], then [q] with its answer; [perform x := e in q] does
    one effect. *)
Notation "'let!' x := p 'in' q" := (prog_bind (fun x => q) p)
  (at level 10, x pattern, p at level 100, q at level 200) : go_scope.
Notation "'perform' x := e 'in' q" := (Vis e (fun x => q))
  (at level 10, x pattern, e at level 100, q at level 200) : go_scope.
#[global] Open Scope go_scope.

Section Run.
Context {E : Type -> Type} {W : Type}.
Variable handle : forall X, E X -> W -> X * W.

(** Sequential execution against a world [W]. *)
Fixpoint run {A} (p : prog E A) (w : W) : A * W :=
  match p with
  | Ret a => (a, w)
  | Vis e k => let '(x, w') := handle _ e w in run (k x) w'
  end.

Lemma run_bind {A B} (p : prog E A) (f : A -> prog E B) w :
  run (prog_bind f p) w = let '(a, w') := run p w in run (f a) w'.
Proof.
  revert w. induction p as [a|X e k IH]; intros w; [done|].
  simpl. destruct (handle X e w) as [x w']. apply IH.
Qed.

Lemma run_trigger {X} (e : E X) w : run (trigger e) w = handle X e w.
Proof. simpl. by destruct (handle X e w). Qed.

(** A property of worlds that every effect keeps is kept by every program. *)
Lemma run_invariant {A} (Inv : W -> Prop) (p : prog E A) w :
  (forall X (e : E X) w, Inv w -> Inv (handle X e w).2) ->
  Inv w -> Inv (run p w).2.
Proof.
  intros Hpres. revert w. induction p as [a|X e k IH]; intros w Hw; [done|].
  simpl. pose proof (Hpres X e w Hw) as H. destruct (handle X e w) as [x w']. by apply IH.
Qed.

(** *** Interleaving

    A configuration is a list of threads and the world they share; a step runs
    the next effect of any one thread. *)
(** The next effect of a program; [None] when it has ended. *)
Definition thread_step {A} (p : prog E A) (w : W) : option (prog E A * W) :=
  match p with
  | Ret _ => None
  | Vis e k => let '(x, w') := handle _ e w in Some (k x, w')
  end.

Inductive cstep {A} : list (prog E A) * W -> list (prog E A) * W -> Prop :=
| CStep (ts : list (prog E A)) i p w p' w' :
    ts !! i = Some p -> thread_step p w = Some (p', w') ->
    cstep (ts, w) (<[i := p']> ts, w').

Definition csteps {A} : list (prog E A) * W -> list (prog E A) * W -> Prop := rtc cstep.

Lemma thread_step_invariant {A} (Inv : W -> Prop) (p p' : prog E A) w w' :
  (forall X (e : E X) w, Inv w -> Inv (handle X e w).2) ->
  thread_step p w = Some (p', w') -> Inv w -> Inv w'.
Proof.
  intros Hpres. destruct p as [a|X e k]; simpl; [done|]. pose proof (Hpres X e w) as H.
  destruct (handle X e w) as [x w1]. intros [= <- <-]. exact H.
Qed.

Lemma csteps_invariant {A} (Inv : W -> Prop) (c c' : list (prog E A) * W) :
  (forall X (e : E X) w, Inv w -> Inv (handle X e w).2) ->
  csteps c c' -> Inv c.2 -> Inv c'.2.
Proof.
  intros Hpres. induction 1 as [c|c1 c2 c3 Hs _ IH]; [done|].
  intros H1. apply IH. destruct Hs. simpl in *. by eapply thread_step_invariant.
Qed.

Lemma csteps_length {A} (c c' : list (prog E A) * W) : csteps c c' -> length c'.1 = length c.1.
Proof.
  induction 1 as [c|c1 c2 c3 Hs _ IH]; [done|]. rewrite IH. destruct Hs. simpl. apply length_insert.
Qed.

(** An interleaving that an executable schedule performs: thread numbers in the
    order they take their steps. *)
Fixpoint run_schedule {A} (sched : list nat) (ts : list (prog E A)) (w : W) : list (prog E A) * W :=
  match sched with
  | [] => (ts, w)
  | i :: sched' =>
      match ts !! i with
      | Some p =>
          match thread_step p w with
          | Some (p', w') => run_schedule sched' (<[i := p']> ts) w'
          | None => run_schedule sched' ts w
          end
      | None => run_schedule sched' ts w
      end
  end.

Lemma run_schedule_csteps {A} sched (ts : list (prog E A)) w :
  csteps (ts, w) (run_schedule sched ts w).
Proof.
  revert ts w. induction sched as [|i sched IH]; intros ts w; simpl; [apply rtc_refl|].
  destruct (ts !! i) as [p|] eqn:Hi; [|apply IH].
  destruct (thread_step p w) as [[p' w']|] eqn:Hs; [|apply IH].
  eapply rtc_l; [by apply (CStep ts i p w p' w')|]. apply IH.
Qed.
End Run.

#[export] Hint Rewrite @run_bind @run_trigger : conduit.

(** A view of the world that the effects in [P] do not change is not changed by a program
    that only performs such effects. *)
Lemma run_frame {E : Type -> Type} {W V A} (handle : forall X, E X -> W -> X * W) (view : W -> V)
    (P : forall X, E X -> Prop) (p : prog E A) w :
  (forall X (e : E X) w, P X e -> view (handle X e w).2 = view w) ->
  all_effects P p -> view (run handle p w).2 = view w.
Proof.
  intros HP. revert w. induction p as [a|X e k IH]; intros w; simpl; [done|]. intros [He Hk].
  pose proof (HP X e w He) as Hv. destruct (handle X e w) as [x w']. rewrite IH; [done|apply Hk].
Qed.

(** The same for an invariant. *)
Lemma run_effects_invariant {E : Type -> Type} {W A} (handle : forall X, E X -> W -> X * W) (Inv : W -> Prop)
    (P : forall X, E X -> Prop) (p : prog E A) w :
  (forall X (e : E X) w, P X e -> Inv w -> Inv (handle X e w).2) ->
  all_effects P p -> Inv w -> Inv (run handle p w).2.
Proof.
  intros HP. revert w. induction p as [a|X e k IH]; intros w; simpl; [done|]. intros [He Hk] Hw.
  pose proof (HP X e w He Hw) as Hv. destruct (handle X e w) as [x w']. by apply IH.
Qed.

(** The same for an invariant of threads that only perform such effects. *)
Lemma csteps_effects_invariant {E : Type -> Type} {W A} (handle : forall X, E X -> W -> X * W) (Inv : W -> Prop)
    (P : forall X, E X -> Prop) (c c' : list (prog E A) * W) :
  (forall X (e : E X) w, P X e -> Inv w -> Inv (handle X e w).2) ->
  csteps handle c c' -> Forall (all_effects P) c.1 -> Inv c.2 -> Inv c'.2.
Proof.
  intros HP. induction 1 as [c|c1 c2 c3 Hs _ IH]; [done|]. intros Hall Hw.
  destruct Hs as [ts i p w p' w' Hi Hstep]. simpl in *.
  pose proof (Forall_lookup_1 _ _ _ _ Hall Hi) as Hp. destruct p as [a|X e k]; simpl in Hstep; [done|].
  destruct Hp as [He Hk]. pose proof (HP X e w He Hw) as Hv. destruct (handle X e w) as [x w1]. injection Hstep as <- <-.
  apply IH; [|exact Hv]. apply Forall_insert; auto.
Qed.

(** Show that a program built from known parts only performs effects in a class. *)
Ltac effects :=
  repeat match goal with
  | |- all_effects _ (prog_bind _ _) => apply all_effects_bind; [|intros ?]
  | |- all_effects _ (Ret _) => exact I
  | |- all_effects _ (Vis _ _) => split; [exact I|intros ?]
  | |- all_effects _ (trigger _) => split; [exact I|intros ?; exact I]
  | |- all_effects _ (match ?x with _ => _ end) => destruct x
  | |- all_effects _ _ => solve [eauto with effects]
  end.
Create HintDb effects.

(** ** Loops

    [until p s] runs the body [f] at most [p] times, until it gives a result. *)
Section Until.
Context {S R : Type} (f : S -> S + R).

Fixpoint until (p : positive) (s : S) : S + R :=
  match p with
  | xH => f s
  | xO p' => match until p' s with inl s' => until p' s' | inr r => inr r end
  | xI p' =>
      match f s with
      | inl s1 => match until p' s1 with inl s' => until p' s' | inr r => inr r end
      | inr r => inr r
      end
  end.

(** A loop whose body keeps [Inv], counts [mu] down, and ends by [mu = 0], ends in a result
    that satisfies [Q] when its fuel exceeds [mu]. *)
Lemma until_result (Inv : S -> Prop) (Q : R -> Prop) (mu : S -> Z) p s :
  (forall s, Inv s -> match f s with inl s' => Inv s' /\ mu s' + 1 <= mu s /\ 0 < mu s | inr r => Q r end) ->
  Inv s -> mu s < Zpos p -> exists r, until p s = inr r /\ Q r.
Proof.
  intros Hf.
  assert (forall p s, Inv s ->
    match until p s with inl s' => Inv s' /\ mu s' + Zpos p <= mu s /\ Zpos p <= mu s | inr r => Q r end) as H.
  { clear p s. induction p as [p IH|p IH|]; intros s Hs; cbn [until].
    - pose proof (Hf s Hs) as H1. destruct (f s) as [s1|r]; [|done]. destruct H1 as (H1 & Hm1 & Hp1).
      pose proof (IH s1 H1) as H2. destruct (until p s1) as [s2|r]; [|done]. destruct H2 as (H2 & Hm2 & Hp2).
      pose proof (IH s2 H2) as H3. destruct (until p s2) as [s3|r]; [|done]. destruct H3 as (H3 & Hm3 & Hp3).
      split; [done|]. lia.
    - pose proof (IH s Hs) as H2. destruct (until p s) as [s2|r]; [|done]. destruct H2 as (H2 & Hm2 & Hp2).
      pose proof (IH s2 H2) as H3. destruct (until p s2) as [s3|r]; [|done]. destruct H3 as (H3 & Hm3 & Hp3).
      split; [done|]. lia.
    - pose proof (Hf s Hs) as H1. destruct (f s) as [s1|r]; [|done]. split_and!; [naive_solver|lia|lia]. }
  intros Hs Hmu. specialize (H p s Hs). destruct (until p s) as [s'|r]; [lia|]. eauto.
Qed.
End Until.

(** ** Durations and instants

    [time.Duration] and [time.Time] are counts of nanoseconds; an instant counts
    from the Unix epoch. *)
Definition Nanosecond : Z := 1.
Definition Microsecond : Z := 1000.
Definition Millisecond : Z := 1000000.
Definition Second : Z := 1000000000.
Definition Minute : Z := 60 * Second.
Definition Hour : Z := 60 * Minute.

(** The zero [time.Time]: January 1, year 1, 00:00:00 UTC. *)
Definition zero_time : Z := -62135596800 * Second.
Definition IsZero (t : Z) : bool := Z.eqb t zero_time.
