(* ===== verification/GoLib.v ===== *)
(** * The parts of Go's standard library the program computes with

    Go strings are byte sequences, here [string] with one [ascii] per byte.
    strconv (decimal integers), strings (splitting), unicode/utf8 (decoding and
    white space), encoding/hex and encoding/base64 (RawURLEncoding), each with the
    round trips and shape lemmas the components use. *)

From S2P Require Import Prelude.
From Stdlib Require Export Ascii.

(** ** Fixed-width integers *)

Definition max_int64 : Z := 9223372036854775807.
Definition min_int64 : Z := -9223372036854775808.

(** A value that a signed integer of [bits] bits holds. *)
Definition fits (bits : Z) (n : Z) : bool :=
  (- 2 ^ (bits - 1) <=? n) && (n <? 2 ^ (bits - 1)).

(** ** Bytes *)

Definition byte_of (a : ascii) : Z := Z.of_N (N_of_ascii a).
Definition ascii_of (b : Z) : ascii := ascii_of_N (Z.to_N b).
Definition bytes_of_string (s : string) : list Z := byte_of <$> String.list_ascii_of_string s.
Definition string_of_bytes (l : list Z) : string := String.string_of_list_ascii (ascii_of <$> l).

Definition is_byte (b : Z) : Prop := 0 <= b < 256.

Lemma ascii_of_byte_of a : ascii_of (byte_of a) = a.
Proof. unfold ascii_of, byte_of. by rewrite N2Z.id, ascii_N_embedding. Qed.

Lemma byte_of_ascii_of b : is_byte b -> byte_of (ascii_of b) = b.
Proof.
  intros Hb. unfold ascii_of, byte_of, is_byte in *. rewrite N_ascii_embedding by lia. lia.
Qed.

Lemma byte_of_range a : is_byte (byte_of a).
Proof. unfold byte_of, is_byte. pose proof (N_ascii_bounded a). lia. Qed.

Lemma bytes_range s : Forall is_byte (bytes_of_string s).
Proof.
  unfold bytes_of_string. apply Forall_fmap, Forall_true. intros a. apply byte_of_range.
Qed.

Lemma string_of_bytes_of_string s : string_of_bytes (bytes_of_string s) = s.
Proof.
  unfold string_of_bytes, bytes_of_string. induction s as [|a s IH]; simpl; [done|].
  rewrite ascii_of_byte_of. f_equal. exact IH.
Qed.

Lemma str_app_cons a (s1 s2 : string) : String a s1 +:+ s2 = String a (s1 +:+ s2).
Proof. done. Qed.

Lemma str_app_nil_l (s : string) : "" +:+ s = s.
Proof. done. Qed.

Lemma str_app_assoc (s1 s2 s3 : string) : (s1 +:+ s2) +:+ s3 = s1 +:+ (s2 +:+ s3).
Proof. induction s1; rewrite ?str_app_nil_l, ?str_app_cons; congruence. Qed.

Lemma str_app_nil_r (s : string) : s +:+ "" = s.
Proof. induction s; rewrite ?str_app_nil_l, ?str_app_cons; congruence. Qed.

Lemma str_length_app (s1 s2 : string) :
  String.length (s1 +:+ s2) = (String.length s1 + String.length s2)%nat.
Proof. induction s1; rewrite ?str_app_nil_l, ?str_app_cons; simpl; congruence. Qed.

Lemma bytes_of_string_app s1 s2 : bytes_of_string (s1 +:+ s2) = bytes_of_string s1 ++ bytes_of_string s2.
Proof.
  unfold bytes_of_string. induction s1; [done|]. rewrite str_app_cons. simpl. f_equal. exact IHs1.
Qed.

Lemma bytes_of_string_of_bytes l : Forall is_byte l -> bytes_of_string (string_of_bytes l) = l.
Proof.
  unfold bytes_of_string, string_of_bytes. rewrite String.list_ascii_of_string_of_list_ascii.
  induction 1 as [|b l Hb _ IH]; simpl; [done|]. rewrite byte_of_ascii_of by done. f_equal. exact IH.
Qed.

(** ** strconv *)

Definition digit_char (d : Z) : ascii := ascii_of (48 + d).
Definition digit_value (a : ascii) : option Z :=
  let b := byte_of a in if (48 <=? b) && (b <=? 57) then Some (b - 48) else None.

(** The decimal digits of [n >= 0], most significant first, before [acc]. *)
Fixpoint format_digits (fuel : nat) (n : Z) (acc : string) : string :=
  match fuel with
  | O => acc
  | S fuel' =>
      let acc' := String (digit_char (n mod 10)) acc in
      if n <? 10 then acc' else format_digits fuel' (n / 10) acc'
  end.

Definition format_nat (n : Z) : string := format_digits (S (Z.to_nat (Z.log2 n))) n "".

(** [strconv.Itoa], [fmt.Sprintf("%d", n)]. *)
Definition Itoa (n : Z) : string := if n <? 0 then String "-" (format_nat (- n)) else format_nat n.

(** The value of a run of decimal digits, [acc] before them; [None] on any other byte. *)
Fixpoint parse_digits (acc : Z) (s : string) : option Z :=
  match s with
  | EmptyString => Some acc
  | String a s' =>
      match digit_value a with
      | Some d => parse_digits (acc * 10 + d) s'
      | None => None
      end
  end.

Definition parse_nat (s : string) : option Z :=
  match s with EmptyString => None | _ => parse_digits 0 s end.

(** [strconv.ParseInt(s, 10, bits)]: an optional sign, at least one digit, and a
    value in range; [None] is the returned error. *)
Definition ParseInt (bits : Z) (s : string) : option Z :=
  let '(neg, digits) :=
    match s with
    | String "-" s' => (true, s')
    | String "+" s' => (false, s')
    | _ => (false, s)
    end in
  match parse_nat digits with
  | Some n => let v := if neg then - n else n in if fits bits v then Some v else None
  | None => None
  end.

(** [strconv.Atoi] on a 64-bit platform. *)
Definition Atoi (s : string) : option Z := ParseInt 64 s.

Lemma digit_value_char d : 0 <= d < 10 -> digit_value (digit_char d) = Some d.
Proof.
  intros Hd. unfold digit_value, digit_char. rewrite byte_of_ascii_of by (unfold is_byte; lia).
  rewrite (proj2 (andb_true_iff _ _)); [f_equal; lia|]. split; apply Z.leb_le; lia.
Qed.

Lemma parse_digits_app acc s1 s2 :
  parse_digits acc (s1 +:+ s2) = parse_digits acc s1 ≫= fun n => parse_digits n s2.
Proof.
  revert acc. induction s1 as [|a s1 IH]; intros acc; [done|].
  rewrite str_app_cons. simpl. by destruct (digit_value a).
Qed.

Lemma format_digits_acc fuel n acc : format_digits fuel n acc = format_digits fuel n "" +:+ acc.
Proof.
  revert n acc. induction fuel as [|fuel IH]; intros n acc; [done|]. cbn [format_digits].
  destruct (n <? 10); [done|]. rewrite IH, (IH _ (String _ "")). by rewrite str_app_assoc.
Qed.

Lemma parse_format_digits fuel n k :
  0 <= n -> (Z.to_nat (Z.log2 n) < fuel)%nat ->
  parse_digits k (format_digits fuel n "") =
    Some (k * 10 ^ Z.of_nat (String.length (format_digits fuel n "")) + n).
Proof.
  revert n. induction fuel as [|fuel IH]; intros n Hn Hf; [lia|]. cbn [format_digits].
  destruct (Z.ltb_spec n 10) as [Hlt|Hge].
  - simpl. rewrite Z.mod_small, digit_value_char by lia. f_equal; lia.
  - assert (Z.log2 (n / 10) < Z.log2 n) as Hlog.
    { apply Z.log2_lt_pow2; [apply Z.div_str_pos; lia|].
      apply Z.div_lt_upper_bound; [lia|]. pose proof (Z.log2_spec n ltac:(lia)) as [_ H].
      rewrite Z.pow_succ_r in H by apply Z.log2_nonneg. lia. }
    rewrite format_digits_acc, parse_digits_app, IH; [|apply Z.div_pos; lia|].
    2:{ pose proof (Z.log2_nonneg (n / 10)). lia. }
    simpl. pose proof (Z.mod_pos_bound n 10 ltac:(lia)).
    rewrite digit_value_char by lia. f_equal.
    rewrite str_length_app. simpl.
    rewrite Nat2Z.inj_add, Z.pow_add_r by lia. change (10 ^ Z.of_nat 1) with 10.
    pose proof (Z.div_mod n 10 ltac:(lia)). lia.
Qed.

Lemma format_digits_head fuel n :
  (0 < fuel)%nat -> exists d s, format_digits fuel n "" = String (digit_char d) s /\ 0 <= d < 10.
Proof.
  intros Hf. assert (forall acc, exists d s, format_digits fuel n acc = String (digit_char d) s /\ 0 <= d < 10) as H; [|done].
  revert n Hf. induction fuel as [|fuel IH]; intros n Hf acc; [lia|]. cbn [format_digits].
  pose proof (Z.mod_pos_bound n 10 ltac:(lia)).
  destruct (n <? 10); [by eauto|]. destruct fuel as [|fuel]; [by simpl; eauto|]. apply IH. lia.
Qed.

Lemma digit_char_not_sign d : 0 <= d < 10 -> digit_char d <> "-"%char /\ digit_char d <> "+"%char.
Proof.
  intros Hd. split; intros Heq%(f_equal byte_of); unfold digit_char in Heq;
    rewrite byte_of_ascii_of in Heq by (unfold is_byte; lia); change (byte_of "-") with 45 in *; change (byte_of "+") with 43 in *; lia.
Qed.

Lemma parse_nat_format n : 0 <= n -> parse_nat (format_nat n) = Some n.
Proof.
  intros Hn. unfold parse_nat, format_nat.
  destruct (format_digits_head (S (Z.to_nat (Z.log2 n))) n ltac:(lia)) as (d & s & Hs & _).
  rewrite Hs, <- Hs, parse_format_digits by lia. f_equal; lia.
Qed.

(** Reading back a printed integer gives the integer. *)
Lemma ParseInt_Itoa bits n : fits bits n = true -> ParseInt bits (Itoa n) = Some n.
Proof.
  intros Hfit. unfold ParseInt, Itoa. destruct (Z.ltb_spec n 0) as [Hneg|Hpos].
  - rewrite parse_nat_format by lia. by rewrite Z.opp_involutive, Hfit.
  - pose proof (parse_nat_format n Hpos) as Hp. unfold format_nat in *.
    destruct (format_digits_head (S (Z.to_nat (Z.log2 n))) n ltac:(lia)) as (d & s & Hs & Hd).
    rewrite Hs in *. destruct (digit_char_not_sign d Hd) as [Hm Hp'].
    assert (match String (digit_char d) s with
            | String "-" s' => (true, s') | String "+" s' => (false, s')
            | _ => (false, String (digit_char d) s) end = (false, String (digit_char d) s)) as ->.
    { destruct (digit_char d) as [[] [] [] [] [] [] [] []]; done. }
    by rewrite Hp, Hfit.
Qed.

(** ** strings *)

Fixpoint contains_char (c : ascii) (s : string) : bool :=
  match s with
  | EmptyString => false
  | String a s' => Ascii.eqb a c || contains_char c s'
  end.

(** [strings.Split(s, c)] for a one-byte separator: never empty. *)
Fixpoint Split (c : ascii) (s : string) : list string :=
  match s with
  | EmptyString => [""]
  | String a s' =>
      if Ascii.eqb a c then "" :: Split c s'
      else match Split c s' with
           | [] => [String a ""]
           | p :: ps => String a p :: ps
           end
  end.

(** [strings.SplitN(s, c, 2)]: cut at the first separator, if there is one. *)
Fixpoint SplitN2 (c : ascii) (s : string) : string * option string :=
  match s with
  | EmptyString => ("", None)
  | String a s' =>
      if Ascii.eqb a c then ("", Some s')
      else let '(p, q) := SplitN2 c s' in (String a p, q)
  end.

(** [strings.Join]. *)
Fixpoint Join (sep : string) (parts : list string) : string :=
  match parts with
  | [] => ""
  | [p] => p
  | p :: ps => p +:+ sep +:+ Join sep ps
  end.

Lemma Split_nonempty c s : Split c s <> [].
Proof. destruct s as [|a s]; simpl; [done|]. destruct (Ascii.eqb a c); [done|]. by destruct (Split c s). Qed.

Lemma Join_Split c s : Join (String c "") (Split c s) = s.
Proof.
  induction s as [|a s IH]; [done|]. simpl. pose proof (Split_nonempty c s) as Hne.
  destruct (Ascii.eqb_spec a c) as [->|Hac].
  - destruct (Split c s) as [|p ps]; [done|]. cbn [Join] in *. by rewrite str_app_nil_l, str_app_cons, str_app_nil_l, IH.
  - destruct (Split c s) as [|p [|q ps]]; [done| |]; cbn [Join] in *; [|rewrite (str_app_cons a)]; by rewrite IH.
Qed.

Lemma SplitN2_app c s1 s2 : contains_char c s1 = false -> SplitN2 c (s1 +:+ String c s2) = (s1, Some s2).
Proof.
  induction s1 as [|a s1 IH]; intros H.
  - rewrite str_app_nil_l. simpl. by rewrite Ascii.eqb_refl.
  - rewrite str_app_cons. simpl in *. apply orb_false_iff in H as [-> H]. by rewrite IH.
Qed.

Lemma contains_char_app c s1 s2 : contains_char c (s1 +:+ s2) = contains_char c s1 || contains_char c s2.
Proof.
  induction s1 as [|a s1 IH]; [done|]. rewrite str_app_cons. simpl. by rewrite IH, orb_assoc.
Qed.

Lemma format_digits_chars c fuel n acc :
  digit_value c = None -> contains_char c acc = false -> contains_char c (format_digits fuel n acc) = false.
Proof.
  intros Hc. revert n acc. induction fuel as [|fuel IH]; intros n acc Hacc; [done|]. cbn [format_digits].
  assert (contains_char c (String (digit_char (n mod 10)) acc) = false) as Hacc'.
  { simpl. rewrite Hacc, orb_false_r. apply Ascii.eqb_neq. intros <-.
    pose proof (Z.mod_pos_bound n 10 ltac:(lia)). by rewrite digit_value_char in Hc. }
  destruct (n <? 10); auto.
Qed.

(** A printed integer is made of digits and a minus sign. *)
Lemma Itoa_chars c n : digit_value c = None -> c <> "-"%char -> contains_char c (Itoa n) = false.
Proof.
  intros Hd Hm. unfold Itoa, format_nat. destruct (n <? 0); [|by apply format_digits_chars].
  cbn [contains_char]. rewrite format_digits_chars, orb_false_r by done. by apply Ascii.eqb_neq.
Qed.

(** ** unicode/utf8 *)

Definition RuneError : Z := 65533.
Definition cont_byte (b : Z) : bool := (128 <=? b) && (b <=? 191).

(** The rune at the head of a byte sequence and its width; an invalid sequence is
    [RuneError] of width 1 ([utf8.DecodeRune]). *)
Definition DecodeRune (l : list Z) : Z * nat :=
  match l with
  | [] => (RuneError, 0%nat)
  | b0 :: l1 =>
      if b0 <? 128 then (b0, 1%nat)
      else if (194 <=? b0) && (b0 <=? 223) then
        match l1 with
        | b1 :: _ => if cont_byte b1 then ((b0 - 192) * 64 + (b1 - 128), 2%nat) else (RuneError, 1%nat)
        | _ => (RuneError, 1%nat)
        end
      else if (224 <=? b0) && (b0 <=? 239) then
        match l1 with
        | b1 :: b2 :: _ =>
            let lo := if b0 =? 224 then 160 else 128 in
            let hi := if b0 =? 237 then 159 else 191 in
            if (lo <=? b1) && (b1 <=? hi) && cont_byte b2
            then ((b0 - 224) * 4096 + (b1 - 128) * 64 + (b2 - 128), 3%nat)
            else (RuneError, 1%nat)
        | _ => (RuneError, 1%nat)
        end
      else if (240 <=? b0) && (b0 <=? 244) then
        match l1 with
        | b1 :: b2 :: b3 :: _ =>
            let lo := if b0 =? 240 then 144 else 128 in
            let hi := if b0 =? 244 then 143 else 191 in
            if (lo <=? b1) && (b1 <=? hi) && cont_byte b2 && cont_byte b3
            then ((b0 - 240) * 262144 + (b1 - 128) * 4096 + (b2 - 128) * 64 + (b3 - 128), 4%nat)
            else (RuneError, 1%nat)
        | _ => (RuneError, 1%nat)
        end
      else (RuneError, 1%nat)
  end.

(** A rune is an ASCII byte or made of bytes that are not. *)
Lemma DecodeRune_ascii b0 l :
  exists w, (1 <= w)%nat /\ DecodeRune (b0 :: l) = (fst (DecodeRune (b0 :: l)), w) /\
    ((w = 1%nat /\ fst (DecodeRune (b0 :: l)) = b0) \/ Forall (fun b => 128 <= b) (take w (b0 :: l))).
Proof.
  unfold DecodeRune. destruct (b0 <? 128) eqn:Hb0; bool_to_prop; [exists 1%nat; simpl; auto|].
  assert (exists w, (1 <= w)%nat /\ (RuneError, 1%nat) = (RuneError, w) /\ ((w = 1%nat /\ RuneError = b0) \/ Forall (fun b => 128 <= b) (take w (b0 :: l)))) as Herr.
  { exists 1%nat. split_and!; [done|done|]. right. simpl. rewrite take_0. auto. }
  unfold cont_byte. repeat (case_match; bool_to_prop; simpl; try exact Herr).
  all: eexists; (split_and!; [|reflexivity|right; simpl; rewrite ?take_0; repeat constructor; lia]); lia.
Qed.

(** [unicode.IsSpace]: the White_Space property. *)
Definition IsSpace (r : Z) : bool :=
  ((9 <=? r) && (r <=? 13)) || (r =? 32) || (r =? 133) || (r =? 160) || (r =? 5760)
  || ((8192 <=? r) && (r <=? 8202)) || (r =? 8232) || (r =? 8233) || (r =? 8239)
  || (r =? 8287) || (r =? 12288).

(** The runes of a byte sequence, each with its bytes; [fuel] bounds the number of
    runes and the length of the sequence is enough. *)
Fixpoint runes_fuel (fuel : nat) (l : list Z) : list (Z * list Z) :=
  match fuel, l with
  | S fuel', _ :: _ =>
      let '(r, w) := DecodeRune l in (r, take w l) :: runes_fuel fuel' (drop w l)
  | _, _ => []
  end.
Definition runes (s : string) : list (Z * list Z) :=
  let l := bytes_of_string s in runes_fuel (length l) l.

(** An ASCII byte of a string is one of its runes. *)
Lemma runes_ascii_byte s b : b ∈ bytes_of_string s -> b < 128 -> b ∈ (runes s).*1.
Proof.
  unfold runes. generalize (bytes_of_string s). intros l Hin Hb. assert (length l <= length l)%nat as Hf by done. revert Hf.
  generalize (length l) at 2 3. intros fuel. revert l Hin.
  induction fuel as [|fuel IH]; intros [|b0 l] Hin Hf; simpl in Hf; [by apply elem_of_nil in Hin|lia|by apply elem_of_nil in Hin|].
  cbn [runes_fuel]. destruct (DecodeRune_ascii b0 l) as (w & Hw & Heq & Hcase). rewrite Heq, fmap_cons. cbn [fst].
  rewrite <- (take_drop w (b0 :: l)) in Hin. apply elem_of_app in Hin as [Hin|Hin].
  - destruct Hcase as [[-> ->]|Hbig].
    + simpl in Hin. rewrite take_0 in Hin. apply list_elem_of_singleton in Hin as ->. left.
    + rewrite Forall_forall in Hbig. specialize (Hbig b Hin). simpl in Hbig. lia.
  - right. apply IH; [done|]. rewrite length_drop. simpl. lia.
Qed.

Definition unrunes (rs : list (Z * list Z)) : string := string_of_bytes (concat rs.*2).

Fixpoint drop_space (rs : list (Z * list Z)) : list (Z * list Z) :=
  match rs with
  | (r, b) :: rs' => if IsSpace r then drop_space rs' else rs
  | [] => []
  end.

(** [strings.TrimSpace]. *)
Definition TrimSpace (s : string) : string :=
  unrunes (reverse (drop_space (reverse (drop_space (runes s))))).

(** [strings.Fields]: the maximal runs of non-space runes. *)
Fixpoint fields_aux (cur : list (Z * list Z)) (rs : list (Z * list Z)) : list string :=
  let flush := match cur with [] => [] | _ => [unrunes (reverse cur)] end in
  match rs with
  | [] => flush
  | (r, b) :: rs' => if IsSpace r then flush ++ fields_aux [] rs' else fields_aux ((r, b) :: cur) rs'
  end.
Definition Fields (s : string) : list string := fields_aux [] (runes s).

(** ** encoding/hex *)

Definition hex_char (d : Z) : ascii := if d <? 10 then digit_char d else ascii_of (87 + d).
Fixpoint HexEncode (l : list Z) : string :=
  match l with
  | [] => ""
  | b :: l' => String (hex_char (b / 16)) (String (hex_char (b mod 16)) (HexEncode l'))
  end.

Lemma HexEncode_length l : String.length (HexEncode l) = (2 * length l)%nat.
Proof. induction l as [|b l IH]; simpl; lia. Qed.

(** ** encoding/base64: RawURLEncoding *)

(** The URL-safe alphabet A-Z a-z 0-9 - _. *)
Definition b64_char (v : Z) : ascii :=
  if v <? 26 then ascii_of (65 + v)
  else if v <? 52 then ascii_of (97 + (v - 26))
  else if v <? 62 then ascii_of (48 + (v - 52))
  else if v =? 62 then "-"%char else "_"%char.

Definition b64_value (a : ascii) : option Z :=
  let b := byte_of a in
  if (65 <=? b) && (b <=? 90) then Some (b - 65)
  else if (97 <=? b) && (b <=? 122) then Some (b - 97 + 26)
  else if (48 <=? b) && (b <=? 57) then Some (b - 48 + 52)
  else if b =? 45 then Some 62
  else if b =? 95 then Some 63 else None.

(** Three bytes to four characters; one or two left over give two or three, with no
    padding. *)
Fixpoint b64_sextets (l : list Z) : list Z :=
  match l with
  | a :: b :: c :: l' =>
      (a / 4) :: ((a mod 4) * 16 + b / 16) :: ((b mod 16) * 4 + c / 64) :: (c mod 64) :: b64_sextets l'
  | [a; b] => [a / 4; (a mod 4) * 16 + b / 16; (b mod 16) * 4]
  | [a] => [a / 4; (a mod 4) * 16]
  | [] => []
  end.

(** Four characters to three bytes; one character left over is an error, and the
    unused bits of the last character are not checked (the encoding is not strict). *)
Fixpoint b64_unsextets (l : list Z) : option (list Z) :=
  match l with
  | w :: x :: y :: z :: l' =>
      match b64_unsextets l' with
      | Some r => Some ((w * 4 + x / 16) :: ((x mod 16) * 16 + y / 4) :: ((y mod 4) * 64 + z) :: r)
      | None => None
      end
  | [w; x; y] => Some [w * 4 + x / 16; (x mod 16) * 16 + y / 4]
  | [w; x] => Some [w * 4 + x / 16]
  | [_] => None
  | [] => Some []
  end.

Definition B64Encode (s : string) : string :=
  String.string_of_list_ascii (b64_char <$> b64_sextets (bytes_of_string s)).

(** The decoder skips carriage returns and line feeds. *)
Definition b64_newline (a : ascii) : bool := Ascii.eqb a "013"%char || Ascii.eqb a "010"%char.

Definition B64Decode (s : string) : option string :=
  match mapM b64_value (List.filter (fun a => negb (b64_newline a)) (String.list_ascii_of_string s)) with
  | Some vs => string_of_bytes <$> b64_unsextets vs
  | None => None
  end.

Definition is_sextet (v : Z) : Prop := 0 <= v < 64.

Lemma b64_char_spec v : is_sextet v -> b64_value (b64_char v) = Some v /\ b64_newline (b64_char v) = false.
Proof.
  intros Hv. assert (v ∈ seqZ 0 64) as Hin by (apply elem_of_seqZ; unfold is_sextet in Hv; lia).
  assert (Forall (fun v => b64_value (b64_char v) = Some v /\ b64_newline (b64_char v) = false) (seqZ 0 64)) as H.
  { apply (bool_decide_unpack _). vm_compute. exact I. }
  rewrite Forall_forall in H. by apply H.
Qed.

(** Induction on lists three elements at a time. *)
Lemma list_ind3 {A} (P : list A -> Prop) :
  P [] -> (forall a, P [a]) -> (forall a b, P [a; b]) ->
  (forall a b c l, P l -> P (a :: b :: c :: l)) -> forall l, P l.
Proof.
  intros H0 H1 H2 H3 l. enough (P l /\ (forall a, P (a :: l)) /\ (forall a b, P (a :: b :: l))) by tauto.
  induction l as [|x l (IH0 & IH1 & IH2)]; split_and!; auto.
Qed.

Lemma b64_sextets_range l : Forall is_byte l -> Forall is_sextet (b64_sextets l).
Proof.
  induction l as [|a|a b|a b c l IH] using list_ind3; cbn [b64_sextets];
    rewrite ?Forall_cons, ?Forall_nil; unfold is_byte, is_sextet in *; intros;
    destruct_and?; split_and?; try (by apply IH);
    Z.to_euclidean_division_equations; lia.
Qed.

Lemma b64_unsextets_sextets l : Forall is_byte l -> b64_unsextets (b64_sextets l) = Some l.
Proof.
  induction l as [|a|a b|a b c l IH] using list_ind3; cbn [b64_sextets b64_unsextets];
    rewrite ?Forall_cons; unfold is_byte in *; intros; destruct_and?; [done| | |].
  - do 2 f_equal. Z.to_euclidean_division_equations; lia.
  - do 3 f_equal; [|f_equal]; Z.to_euclidean_division_equations; lia.
  - rewrite IH by done. do 2 f_equal; [|f_equal; [|f_equal]]; Z.to_euclidean_division_equations; lia.
Qed.

(** Decoding an encoded string gives the string. *)
Lemma B64Decode_Encode s : B64Decode (B64Encode s) = Some s.
Proof.
  unfold B64Decode, B64Encode. rewrite String.list_ascii_of_string_of_list_ascii.
  pose proof (b64_sextets_range _ (bytes_range s)) as Hr.
  assert (forall vs, Forall is_sextet vs ->
    mapM b64_value (List.filter (fun a => negb (b64_newline a)) (b64_char <$> vs)) = Some vs) as Hdec.
  { induction 1 as [|v vs Hv _ IH]; [done|]. destruct (b64_char_spec v Hv) as [Hval Hnl].
    simpl. rewrite Hnl. simpl. rewrite Hval. simpl. change (list_fmap _ _ b64_char vs) with (b64_char <$> vs).
    by rewrite IH. }
  rewrite Hdec by done. rewrite b64_unsextets_sextets by apply bytes_range.
  simpl. by rewrite string_of_bytes_of_string.
Qed.

(** ** strconv.Quote *)

(** The escapes of ASCII; other bytes are kept, which is what Quote does with the bytes of
    printable characters. *)
Definition backslash : ascii := ascii_of 92.

Definition quote_char (c : ascii) : string :=
  let b := byte_of c in
  let esc (x : ascii) : string := String backslash (String x "") in
  if (b =? 34) || (b =? 92) then esc c
  else if b =? 7 then esc "a"%char else if b =? 8 then esc "b"%char else if b =? 12 then esc "f"%char
  else if b =? 10 then esc "n"%char else if b =? 13 then esc "r"%char else if b =? 9 then esc "t"%char
  else if b =? 11 then esc "v"%char
  else if (b <? 32) || (b =? 127) then String backslash (String "x"%char (HexEncode [b]))
  else String c "".

Fixpoint quote_body (s : string) : string :=
  match s with "" => "" | String c s' => quote_char c +:+ quote_body s' end.

Definition Quote (s : string) : string :=
  String (ascii_of 34) (quote_body s +:+ String (ascii_of 34) "").
