(* ===== verification/Float64.v ===== *)
(** * float64

    The IEEE 754 double-precision operations the program uses, as executable integer
    arithmetic: a finite value is [m * 2^e], an operation computes the exact result and
    rounds it to nearest, ties to even, with gradual underflow and overflow to infinity.
    Zero has no sign here: the program only compares, scales and truncates. *)

From S2P Require Import Prelude GoLib.

Inductive f64 := Fin (m e : Z) | Inf (neg : bool) | NaN.

(** The nearest multiple [a'] of [2^(e'-e)] to [a], ties to even. *)
Definition round_shift (a s : Z) : Z :=
  let q := a / s in
  let r := a mod s in
  if (s <? 2 * r) || ((s =? 2 * r) && Z.odd q) then q + 1 else q.

(** [m * 2^e] rounded to 53 significant bits, exponent at least -1074. *)
Definition rnd (m e : Z) : f64 :=
  if m =? 0 then Fin 0 0
  else
    let a := Z.abs m in
    let e' := Z.max (e + Z.log2 a - 52) (-1074) in
    let a' := if e' <=? e then a * 2 ^ (e - e') else round_shift a (2 ^ (e' - e)) in
    if 1024 <=? Z.log2 a' + e' then Inf (m <? 0) else Fin (Z.sgn m * a') e'.

(** [float64(z)] for an integer. *)
Definition of_int (z : Z) : f64 := rnd z 0.

Definition is_neg (x : f64) : bool :=
  match x with Fin m _ => m <? 0 | Inf neg => neg | NaN => false end.

Definition fmul (x y : f64) : f64 :=
  match x, y with
  | NaN, _ | _, NaN => NaN
  | Fin m1 e1, Fin m2 e2 => rnd (m1 * m2) (e1 + e2)
  | Fin m _, Inf _ | Inf _, Fin m _ => if m =? 0 then NaN else Inf (xorb (is_neg x) (is_neg y))
  | Inf n1, Inf n2 => Inf (xorb n1 n2)
  end.

Definition fadd (x y : f64) : f64 :=
  match x, y with
  | NaN, _ | _, NaN => NaN
  | Fin m1 e1, Fin m2 e2 =>
      let e := Z.min e1 e2 in rnd (m1 * 2 ^ (e1 - e) + m2 * 2 ^ (e2 - e)) e
  | Fin _ _, Inf n | Inf n, Fin _ _ => Inf n
  | Inf n1, Inf n2 => if Bool.eqb n1 n2 then Inf n1 else NaN
  end.

(** [x / y] for finite values, [y] not zero: at least 55 bits of the quotient and a last bit
    that says whether it is exact. *)
Definition fdiv (x y : f64) : f64 :=
  match x, y with
  | Fin m1 e1, Fin m2 e2 =>
      if m2 =? 0 then NaN
      else
        let k := 56 + Z.log2 (Z.abs m2) in
        let n := Z.abs m1 * 2 ^ k in
        let q := n / Z.abs m2 in
        let sticky := if n mod Z.abs m2 =? 0 then 0 else 1 in
        rnd (Z.sgn m1 * Z.sgn m2 * (2 * q + sticky)) (e1 - e2 - k - 1)
  | _, _ => NaN
  end.

(** [x < y]; false when one is NaN. *)
Definition flt (x y : f64) : bool :=
  match x, y with
  | NaN, _ | _, NaN => false
  | Fin m1 e1, Fin m2 e2 =>
      let e := Z.min e1 e2 in m1 * 2 ^ (e1 - e) <? m2 * 2 ^ (e2 - e)
  | Inf n1, Inf n2 => n1 && negb n2
  | Fin _ _, Inf n => negb n
  | Inf n, Fin _ _ => n
  end.

(** [x <= y]; false when one is NaN. *)
Definition fle (x y : f64) : bool :=
  match x, y with
  | NaN, _ | _, NaN => false
  | _, _ => negb (flt y x)
  end.

(** [int64(x)]: truncation; [None] where Go leaves the result to the implementation. *)
Definition trunc (x : f64) : option Z :=
  match x with
  | Fin m e =>
      let z := if 0 <=? e then m * 2 ^ e else Z.quot m (2 ^ (- e)) in
      if fits 64 z then Some z else None
  | _ => None
  end.

(** [int64(x)] on amd64, where the conversion gives the lowest integer when the value does
    not fit. *)
Definition int64_of (x : f64) : Z := default (- 2 ^ 63) (trunc x).

(** ** Values

    Every finite value the operations meet is an integer multiple of [2^-2148]. *)

Abbreviation base := 2148.
Definition val (m e : Z) : Z := m * 2 ^ (e + base).

(** A nonnegative finite double. *)
Definition double (m e : Z) : Prop := 0 <= m <= 2 ^ 53 /\ -1074 <= e.

Lemma val_pow m e k : 0 <= k -> 0 <= e + base -> val m (e + k) = val (m * 2 ^ k) e.
Proof. intros Hk He. unfold val. replace (e + k + base) with (k + (e + base)) by lia. rewrite Z.pow_add_r by lia. ring. Qed.

Lemma val_le_mono m1 m2 e : 0 <= e + base -> (val m1 e <= val m2 e <-> m1 <= m2).
Proof. intros He. unfold val. pose proof (Z.pow_pos_nonneg 2 (e + base) ltac:(lia) He). nia. Qed.

Lemma val_lt_mono m1 m2 e : 0 <= e + base -> (val m1 e < val m2 e <-> m1 < m2).
Proof. intros He. unfold val. pose proof (Z.pow_pos_nonneg 2 (e + base) ltac:(lia) He). nia. Qed.

Lemma val_nonneg m e : 0 <= m -> 0 <= val m e.
Proof. intros Hm. unfold val. apply Z.mul_nonneg_nonneg; [done|]. apply Z.pow_nonneg. lia. Qed.

(** A value written with a lower exponent. *)
Lemma val_align m e e0 : e0 <= e -> 0 <= e0 + base -> val m e = val (m * 2 ^ (e - e0)) e0.
Proof. intros He H0. replace e with (e0 + (e - e0)) at 1 by lia. apply val_pow; lia. Qed.

Lemma flt_val m1 e1 m2 e2 :
  - base <= e1 -> - base <= e2 -> (flt (Fin m1 e1) (Fin m2 e2) = true <-> val m1 e1 < val m2 e2).
Proof.
  intros H1 H2. simpl. rewrite Z.ltb_lt. set (e := Z.min e1 e2).
  rewrite (val_align m1 e1 e), (val_align m2 e2 e), val_lt_mono by lia. done.
Qed.

Lemma fadd_val m1 e1 m2 e2 :
  - base <= e1 -> - base <= e2 ->
  exists m e, - base <= e /\ e = Z.min e1 e2 /\ fadd (Fin m1 e1) (Fin m2 e2) = rnd m e /\ val m e = val m1 e1 + val m2 e2.
Proof.
  intros H1 H2. set (e := Z.min e1 e2).
  exists (m1 * 2 ^ (e1 - e) + m2 * 2 ^ (e2 - e)), e. split_and!; [lia|done|done|].
  rewrite (val_align m1 e1 e), (val_align m2 e2 e) by lia. unfold val. ring.
Qed.

(** ** Rounding *)

Lemma round_shift_bounds a s :
  0 <= a -> 0 < s ->
  a / s <= round_shift a s <= a / s + 1 /\ (round_shift a s = a / s + 1 -> a / s * s < a).
Proof.
  intros Ha Hs. pose proof (Z.div_mod a s ltac:(lia)). unfold round_shift.
  destruct (_ || _) eqn:Hc; [|split; lia]. apply orb_true_iff in Hc. split; [lia|]. intros _.
  destruct Hc; bool_to_prop; lia.
Qed.

Lemma val_exp_mono m e1 e2 : 0 <= m -> - base <= e1 -> e1 <= e2 -> val m e1 <= val m e2.
Proof.
  intros Hm H1 H12. unfold val. apply Z.mul_le_mono_nonneg_l; [done|]. apply Z.pow_le_mono_r; lia.
Qed.

(** The exponent [rnd] chooses leaves at most 53 bits, and at least 53 unless it is the
    lowest exponent. *)
Lemma rnd_digits m e e' :
  0 < m -> e' = Z.max (e + Z.log2 m - 52) (-1074) -> e < e' ->
  m / 2 ^ (e' - e) < 2 ^ 53 /\ (e' <> -1074 -> 2 ^ 52 <= m / 2 ^ (e' - e)).
Proof.
  intros Hm He' Hlt. pose proof (Z.log2_spec m Hm) as [Hlo Hhi]. pose proof (Z.log2_nonneg m) as HL.
  set (L := Z.log2 m) in *. set (s := 2 ^ (e' - e)). assert (0 < s) as Hs by (apply Z.pow_pos_nonneg; lia). split.
  - apply Z.div_lt_upper_bound; [done|]. subst s. rewrite <- Z.pow_add_r by lia.
    eapply Z.lt_le_trans; [exact Hhi|]. apply Z.pow_le_mono_r; lia.
  - intros Hne. apply Z.div_le_lower_bound; [done|]. subst s. rewrite <- Z.pow_add_r by lia.
    eapply Z.le_trans; [|exact Hlo]. apply Z.pow_le_mono_r; lia.
Qed.

(** No double lies strictly between [q] and the next multiple of the chosen unit. *)
Lemma no_double_between q e' mx ex :
  double mx ex -> -1074 <= e' -> (e' <> -1074 -> 2 ^ 52 <= q) ->
  val q e' < val mx ex -> val (q + 1) e' <= val mx ex.
Proof.
  intros [[Hx0 Hx] Hex] He' Hq Hlt. destruct (Z.le_gt_cases e' ex) as [Hle|Hgt].
  - rewrite (val_align mx ex e') in Hlt |- * by lia.
    apply val_lt_mono in Hlt; [|lia]. apply val_le_mono; lia.
  - exfalso. assert (val mx ex <= val (2 ^ 53) ex) as H1 by (apply val_le_mono; lia).
    assert (val (2 ^ 53) ex = val (2 ^ 52) (ex + 1)) as H2
      by (rewrite val_pow by lia; unfold val; f_equal).
    assert (val (2 ^ 52) (ex + 1) <= val (2 ^ 52) e') as H3 by (apply val_exp_mono; lia).
    assert (val (2 ^ 52) e' <= val q e') as H4 by (apply val_le_mono; [lia|]; apply Hq; lia). lia.
Qed.

(** What [rnd] does with a positive value: the result is the exact value or lies between
    the doubles on either side of it. *)
Lemma rnd_pos m e :
  0 < m -> - base <= e ->
  let e' := Z.max (e + Z.log2 m - 52) (-1074) in
  exists a, rnd m e = (if 1024 <=? Z.log2 a + e' then Inf false else Fin a e') /\ double a e' /\
    (forall mx ex, double mx ex -> val mx ex <= val m e -> val mx ex <= val a e') /\
    (forall mx ex, double mx ex -> val m e <= val mx ex -> val a e' <= val mx ex).
Proof.
  intros Hpos He e'. unfold rnd. rewrite (proj2 (Z.eqb_neq m 0)), Z.abs_eq, Z.sgn_pos, (proj2 (Z.ltb_ge m 0)) by lia.
  fold e'. cbv zeta. destruct (e' <=? e) eqn:Hc; bool_to_prop.
  - exists (m * 2 ^ (e - e')). rewrite Z.mul_1_l. split; [done|].
    pose proof (Z.log2_spec m Hpos) as [_ Hhi]. pose proof (Z.log2_nonneg m).
    assert (0 < 2 ^ (e - e')) by (apply Z.pow_pos_nonneg; lia). rewrite (val_align m e e') by lia.
    split_and!; [|done|done]. split; [|lia]. split; [nia|].
    transitivity (2 ^ Z.succ (Z.log2 m) * 2 ^ (e - e')); [nia|].
    rewrite <- Z.pow_add_r by lia. apply Z.pow_le_mono_r; lia.
  - set (s := 2 ^ (e' - e)). exists (round_shift m s). rewrite Z.mul_1_l. split; [done|].
    destruct (rnd_digits m e e' Hpos eq_refl Hc) as [Hhi Hlo]. fold s in Hhi, Hlo.
    assert (0 < s) as Hs by (apply Z.pow_pos_nonneg; lia).
    pose proof (round_shift_bounds m s ltac:(lia) Hs) as [[Hr1 Hr2] Hr3]. pose proof (Z.div_pos m s ltac:(lia) Hs).
    pose proof (Z.mul_succ_div_gt m s Hs) as Hup. pose proof (Z.mul_div_le m s Hs) as Hdown.
    assert (forall x, val x e' = val (x * s) e) as Hal by (intros x; by rewrite (val_align x e' e) by lia).
    split_and!; [split; lia|..]; intros mx ex Hd Hle.
    + transitivity (val (m / s) e'); [|apply val_le_mono; lia].
      destruct (Z.le_gt_cases (val mx ex) (val (m / s) e')) as [|Hgt]; [done|]. exfalso.
      apply no_double_between in Hgt; [|done|lia|done].
      assert (val m e < val (m / s + 1) e'); [|lia]. rewrite Hal. apply val_lt_mono; lia.
    + destruct (Z.eq_dec (round_shift m s) (m / s + 1)) as [Heq|Hne].
      * rewrite Heq. apply no_double_between; [done|lia|done|]. eapply Z.lt_le_trans; [|exact Hle].
        rewrite Hal. apply val_lt_mono; [lia|]. by apply Hr3.
      * etransitivity; [|exact Hle]. replace (round_shift m s) with (m / s) by lia.
        rewrite Hal. apply val_le_mono; lia.
Qed.

(** The same for any nonnegative value. *)
Lemma rnd_spec m e :
  0 <= m -> - base <= e ->
  match rnd m e with
  | Fin m' e' => double m' e' /\
      (forall mx ex, double mx ex -> val mx ex <= val m e -> val mx ex <= val m' e') /\
      (forall mx ex, double mx ex -> val m e <= val mx ex -> val m' e' <= val mx ex)
  | Inf neg => neg = false
  | NaN => False
  end.
Proof.
  intros Hm He. destruct (Z.eq_dec m 0) as [->|Hne].
  - split; [split; lia|]. split; intros mx ex _ H; exact H.
  - destruct (rnd_pos m e ltac:(lia) He) as (a & -> & Hd & Hge). by destruct (1024 <=? _).
Qed.

(** No overflow up to [2^1000]. *)
Lemma rnd_finite m e :
  0 <= m -> - base <= e -> val m e <= val 1 1000 -> exists m' e', rnd m e = Fin m' e'.
Proof.
  intros Hm He Hle. destruct (Z.eq_dec m 0) as [->|Hne]; [by exists 0, 0|].
  destruct (rnd_pos m e ltac:(lia) He) as (a & -> & [[Ha0 Ha] _] & _). set (e' := Z.max _ _).
  assert (Z.log2 a <= 53) by (apply Z.log2_le_mono in Ha; by rewrite Z.log2_pow2 in Ha).
  assert (Z.log2 m + e <= 1000).
  { unfold val in Hle. rewrite Z.mul_1_l in Hle. apply Z.log2_le_mono in Hle.
    rewrite Z.log2_mul_pow2, Z.log2_pow2 in Hle by lia. lia. }
  rewrite (proj2 (Z.leb_gt _ _)) by lia. eauto.
Qed.

(** A value that is a double is its own rounding. *)
Lemma rnd_exact m e mx ex :
  0 <= m -> - base <= e -> double mx ex -> val m e = val mx ex -> val mx ex <= val 1 1000 ->
  exists m' e', rnd m e = Fin m' e' /\ double m' e' /\ val m' e' = val mx ex.
Proof.
  intros Hm He Hd Heq Hle. destruct (rnd_finite m e Hm He ltac:(lia)) as (m' & e' & Hr).
  pose proof (rnd_spec m e Hm He) as Hs. rewrite Hr in Hs. destruct Hs as (Hd' & Hge & Hle').
  exists m', e'. split_and!; [done|done|]. apply Z.le_antisymm; [apply Hle'|apply Hge]; (done || lia).
Qed.

(** The product of two doubles, exactly. *)
Lemma val_mul m1 e1 m2 e2 :
  -1074 <= e1 -> -1074 <= e2 -> val (m1 * m2) (e1 + e2) * 2 ^ base = val m1 e1 * val m2 e2.
Proof.
  intros H1 H2. unfold val.
  transitivity (m1 * m2 * (2 ^ (e1 + e2 + base) * 2 ^ base)); [ring|].
  rewrite <- Z.pow_add_r by lia. replace (e1 + e2 + base + base) with ((e1 + base) + (e2 + base)) by lia.
  rewrite Z.pow_add_r by lia. ring.
Qed.

(** Scaling by at least one. *)
Lemma val_mul_ge m1 e1 m2 e2 :
  0 <= m1 -> -1074 <= e1 -> -1074 <= e2 -> val 1 0 <= val m2 e2 -> val m1 e1 <= val (m1 * m2) (e1 + e2).
Proof.
  intros Hm H1 H2 Hge. pose proof (val_mul m1 e1 m2 e2 H1 H2) as Heq.
  pose proof (val_nonneg m1 e1 Hm).
  assert (val 1 0 = 2 ^ base) as Hone by done. rewrite Hone in Hge.
  apply (Z.mul_le_mono_pos_r _ _ (2 ^ base)); [by apply Z.pow_pos_nonneg|]. rewrite Heq.
  apply Z.mul_le_mono_nonneg_l; done.
Qed.

(** Scaling by at most one. *)
Lemma val_mul_le m1 e1 m2 e2 :
  0 <= m1 -> -1074 <= e1 -> -1074 <= e2 -> val m2 e2 <= val 1 0 -> val (m1 * m2) (e1 + e2) <= val m1 e1.
Proof.
  intros Hm H1 H2 Hge. pose proof (val_mul m1 e1 m2 e2 H1 H2) as Heq.
  pose proof (val_nonneg m1 e1 Hm).
  assert (val 1 0 = 2 ^ base) as Hone by done. rewrite Hone in Hge.
  apply (Z.mul_le_mono_pos_r _ _ (2 ^ base)); [by apply Z.pow_pos_nonneg|]. rewrite Heq.
  apply Z.mul_le_mono_nonneg_l; done.
Qed.

(** Truncation between integers. *)
Lemma trunc_val m e lo hi :
  double m e -> 0 <= lo -> hi < 2 ^ 63 -> val lo 0 <= val m e <= val hi 0 ->
  exists z, trunc (Fin m e) = Some z /\ lo <= z <= hi.
Proof.
  intros [[Hm _] He] Hlo Hhi [H1 H2]. unfold trunc.
  assert (forall z, lo <= z <= hi -> exists z', (if fits 64 z then Some z else None) = Some z' /\ lo <= z' <= hi) as Hfit.
  { intros z Hz. exists z. unfold fits. split; [|done].
    destruct (_ && _) eqn:Hf; [done|]. apply andb_false_iff in Hf as [Hf|Hf]; bool_to_prop; lia. }
  destruct (0 <=? e) eqn:Hc; bool_to_prop; apply Hfit.
  - rewrite (val_align m e 0) in H1, H2 by lia. rewrite Z.sub_0_r in *.
    apply val_le_mono in H1; [|lia]. apply val_le_mono in H2; lia.
  - rewrite (val_align lo 0 e) in H1 by lia. rewrite (val_align hi 0 e) in H2 by lia. rewrite Z.sub_0_l in *.
    apply val_le_mono in H1; [|lia]. apply val_le_mono in H2; [|lia].
    assert (0 < 2 ^ (- e)) by (apply Z.pow_pos_nonneg; lia). rewrite Z.quot_div_nonneg by lia.
    split; [apply Z.div_le_lower_bound; lia|]. apply Z.div_le_upper_bound; lia.
Qed.
