(* ===== verification/Retry.v ===== *)
(** * internal/retry: the backoff engine

    Delays are computed in float64 and truncated to nanoseconds; [rand.Float64()] is an
    argument. *)

From S2P Require Import Prelude GoLib Float64.

Module Retry.

Definition msg_no_retry : string := "retry: permanent failure, no retry".
Definition ErrNoRetry : error := New msg_no_retry.

Record Config := mkConfig {
  BaseDelay : Z;
  MaxDelay : Z;
  Multiplier : f64;
  MaxAttempts : Z;
  Jitter : f64;
}.

Record Engine := mkEngine { cfg : Config }.

Definition zero : f64 := Fin 0 0.
Definition one : f64 := of_int 1.
Definition two : f64 := of_int 2.

Definition NewEngine (c : Config) : Engine :=
  let base := if BaseDelay c <=? 0 then Second else BaseDelay c in
  let max := if MaxDelay c <=? 0 then 30 * Second else MaxDelay c in
  let mult := if fle (Multiplier c) one then two else Multiplier c in
  let max := if max <? base then base else max in
  let jitter := if flt (Jitter c) zero then zero else Jitter c in
  let jitter := if flt one jitter then one else jitter in
  mkEngine (mkConfig base max mult (MaxAttempts c) jitter).

(** The loop of Delay: [n] iterations are left. *)
Fixpoint backoff (n : nat) (mult max delay : f64) : f64 :=
  match n with
  | O => delay
  | S n' =>
      let delay := fmul delay mult in
      if flt max delay then max else backoff n' mult max delay
  end.

Definition cap (max delay : f64) : f64 := if flt max delay then max else delay.

(** [r] is the value [rand.Float64()] returns, read only when there is jitter. *)
Definition Delay (e : Engine) (attempt : Z) (r : f64) : Z :=
  let attempt := if attempt <? 0 then 0 else attempt in
  let max := of_int (MaxDelay (cfg e)) in
  let delay := backoff (Z.to_nat attempt) (Multiplier (cfg e)) max (of_int (BaseDelay (cfg e))) in
  let delay := cap max delay in
  let delay := if flt zero (Jitter (cfg e))
               then cap max (fadd delay (fmul (fmul delay (Jitter (cfg e))) r))
               else delay in
  int64_of delay.

Definition ShouldRetry (e : Engine) (attempt : Z) (err : error) : bool :=
  if errors_Is err msg_no_retry then false
  else if (0 <? MaxAttempts (cfg e)) && (MaxAttempts (cfg e) <=? attempt) then false
  else true.

(** The configuration of cmd/server: 1s to 30s, doubling, 10% jitter, 5 attempts.
    [0.1] is 3602879701896397 * 2^-55. *)
Definition main_config : Config :=
  mkConfig Second (30 * Second) two 5 (Fin 3602879701896397 (-55)).

(** ** Bounds *)

(** A nonnegative double between two integers. *)
Definition between (lo hi : Z) (x : f64) : Prop :=
  exists m e, x = Fin m e /\ double m e /\ val lo 0 <= val m e <= val hi 0.

(** A finite double of either sign. *)
Definition finite (x : f64) : Prop := exists m e, x = Fin m e /\ Z.abs m <= 2 ^ 53 /\ -1074 <= e.

Lemma val_big n : n <= 2 ^ 53 -> val n 0 <= val 1 1000.
Proof.
  intros Hn. rewrite (val_align 1 1000 0) by lia. apply val_le_mono; [lia|].
  apply (Z.le_trans _ (2 ^ 53)); [done|]. vm_compute. discriminate.
Qed.

Lemma of_int_between n : 0 <= n <= 2 ^ 53 -> between n n (of_int n).
Proof.
  intros Hn. destruct (rnd_exact n 0 n 0) as (m & e & Hr & Hd & Hv); [lia|lia|split; lia|done|apply val_big; lia|].
  exists m, e. rewrite Hv. split_and!; [exact Hr|done|lia|lia].
Qed.

Lemma cap_between lo hi x :
  0 <= lo <= hi -> hi <= 2 ^ 53 ->
  (x = Inf false \/ exists m e, x = Fin m e /\ double m e /\ val lo 0 <= val m e) ->
  between lo hi (cap (of_int hi) x).
Proof.
  intros Hlo Hhi Hx. destruct (of_int_between hi) as (mh & eh & Hh & Hdh & Hvh); [lia|]. unfold cap. rewrite Hh.
  assert (between lo hi (Fin mh eh)) as Hmax.
  { exists mh, eh. split_and!; [done|done| |lia]. assert (val lo 0 <= val hi 0) by (apply val_le_mono; lia). lia. }
  destruct Hx as [->|(m & e & -> & Hd & Hv)]; [done|].
  destruct Hd as [Hd1 Hd2], Hdh as [Hdh1 Hdh2].
  pose proof (flt_val mh eh m e ltac:(lia) ltac:(lia)) as Hlt.
  destruct (flt (Fin mh eh) (Fin m e)) eqn:Hc; [done|]. exists m, e. split_and!; [done|done|done|].
  destruct (Z.le_gt_cases (val m e) (val hi 0)) as [|Hgt]; [done|]. enough (false = true) by done. apply Hlt. lia.
Qed.

(** The product of the current delay and the multiplier. *)
Lemma fmul_grows lo hi x y :
  between lo hi x -> (exists m e, y = Fin m e /\ double m e /\ val 1 0 <= val m e) ->
  fmul x y = Inf false \/ exists m e, fmul x y = Fin m e /\ double m e /\ val lo 0 <= val m e.
Proof.
  intros (m1 & e1 & -> & [Hm1 He1] & Hv1) (m2 & e2 & -> & [Hm2 He2] & Hv2). simpl.
  pose proof (rnd_spec (m1 * m2) (e1 + e2) ltac:(nia) ltac:(lia)) as Hs.
  destruct (rnd (m1 * m2) (e1 + e2)) as [m e|neg|]; [|left; by subst|done].
  destruct Hs as (Hd & Hge & _). right. exists m, e. split_and!; [done|done|].
  transitivity (val m1 e1); [lia|]. apply Hge; [split; lia|]. apply val_mul_ge; lia.
Qed.

Lemma backoff_between n lo hi mult x :
  0 <= lo <= hi -> hi <= 2 ^ 53 -> between lo hi x ->
  (exists m e, mult = Fin m e /\ double m e /\ val 1 0 <= val m e) ->
  between lo hi (backoff n mult (of_int hi) x).
Proof.
  intros Hlo Hhi Hx Hm. revert x Hx. induction n as [|n IH]; intros x Hx; simpl; [done|].
  pose proof (cap_between lo hi (fmul x mult) Hlo Hhi (fmul_grows lo hi x mult Hx Hm)) as Hc.
  unfold cap in Hc. destruct (flt (of_int hi) (fmul x mult)); [done|]. by apply IH.
Qed.

(** Scaling by a double at most one. *)
Lemma fmul_shrinks hi x y :
  hi <= 2 ^ 53 -> between 0 hi x ->
  (exists m e, y = Fin m e /\ double m e /\ val m e <= val 1 0) -> between 0 hi (fmul x y).
Proof.
  intros Hhi (m1 & e1 & -> & [Hm1 He1] & Hv1) (m2 & e2 & -> & [Hm2 He2] & Hv2).
  pose proof (val_mul_le m1 e1 m2 e2 ltac:(lia) He1 He2 Hv2) as Hle. pose proof (val_big hi Hhi).
  assert (0 <= hi) by (apply (val_le_mono 0 hi 0); lia).
  destruct (rnd_finite (m1 * m2) (e1 + e2)) as (m & e & Hr); [nia|lia|lia|].
  pose proof (rnd_spec (m1 * m2) (e1 + e2) ltac:(nia) ltac:(lia)) as Hs. simpl. rewrite Hr in *.
  destruct Hs as (Hd & _ & Hup). exists m, e. split_and!; [done|done|apply val_nonneg, Hd|].
  apply Hup; [split; lia|lia].
Qed.

(** The jitter added to a delay. *)
Lemma jitter_grows lo hi x j r :
  0 <= lo -> hi <= 2 ^ 53 -> between lo hi x ->
  (exists m e, j = Fin m e /\ double m e /\ val m e <= val 1 0) ->
  (exists m e, r = Fin m e /\ double m e /\ val m e <= val 1 0) ->
  fadd x (fmul (fmul x j) r) = Inf false \/
  exists m e, fadd x (fmul (fmul x j) r) = Fin m e /\ double m e /\ val lo 0 <= val m e.
Proof.
  intros Hlo Hhi Hx Hj Hr. assert (between 0 hi x) as Hx0.
  { destruct Hx as (m & e & -> & Hd & Hv). exists m, e. split_and!; [done|done|apply val_nonneg, Hd|lia]. }
  destruct (fmul_shrinks hi (fmul x j) r Hhi (fmul_shrinks hi x j Hhi Hx0 Hj) Hr) as (m2 & e2 & -> & [Hm2 He2] & _).
  destruct Hx as (mx & ex & -> & [Hmx Hex] & Hvx).
  destruct (fadd_val mx ex m2 e2) as (m & e & He & _ & -> & Hv); [lia..|].
  pose proof (val_nonneg m2 e2 ltac:(lia)). pose proof (val_nonneg mx ex ltac:(lia)).
  assert (0 <= m) as Hm by (apply (val_le_mono 0 m e); [lia|]; change (val 0 e) with 0; lia).
  pose proof (rnd_spec m e Hm He) as Hs. destruct (rnd m e) as [m' e'|neg|]; [|left; by subst|done].
  destruct Hs as (Hd & Hge & _). right. exists m', e'. split_and!; [done|done|].
  transitivity (val mx ex); [lia|]. apply Hge; [split; lia|lia].
Qed.

(** ** NewEngine *)

(** What NewEngine guarantees. *)
Definition wf_engine (e : Engine) : Prop :=
  0 < BaseDelay (cfg e) <= MaxDelay (cfg e) /\
  (exists m x, Multiplier (cfg e) = Fin m x /\ double m x /\ val 1 0 <= val m x) /\
  (exists m x, Jitter (cfg e) = Fin m x /\ double m x /\ val m x <= val 1 0).

(** A configuration with finite numbers and delays below 2^53 ns (104 days), where every
    duration is a double. *)
Definition sane (c : Config) : Prop :=
  finite (Multiplier c) /\ finite (Jitter c) /\ BaseDelay c <= 2 ^ 53 /\ MaxDelay c <= 2 ^ 53.

Lemma of_int_double n : 0 <= n <= 2 ^ 53 -> exists m e, of_int n = Fin m e /\ double m e /\ val m e = val n 0.
Proof. intros Hn. destruct (of_int_between n Hn) as (m & e & H1 & H2 & H3). exists m, e. split_and!; [done|done|lia]. Qed.

Lemma NewEngine_wf c : sane c -> wf_engine (NewEngine c) /\ MaxDelay (cfg (NewEngine c)) <= 2 ^ 53.
Proof.
  intros ((mm & em & Hm & Hmb & Hem) & (mj & ej & Hj & Hjb & Hej) & Hb & Hx).
  destruct (of_int_double 1 ltac:(lia)) as (m1 & e1 & H1 & [Hd1 Hd1'] & Hv1).
  destruct (of_int_double 2 ltac:(lia)) as (m2 & e2 & H2 & Hd2 & Hv2).
  assert (val 1 0 < val 2 0) by (apply val_lt_mono; lia).
  unfold NewEngine, wf_engine, one, two. cbn [cfg BaseDelay MaxDelay Multiplier Jitter]. rewrite H1, H2, Hm, Hj.
  split; [split; [|split]|].
  - unfold Second. repeat case_match; bool_to_prop; lia.
  - pose proof (flt_val m1 e1 mm em ltac:(lia) ltac:(lia)) as Hlt.
    change (fle (Fin mm em) (Fin m1 e1)) with (negb (flt (Fin m1 e1) (Fin mm em))).
    destruct (flt (Fin m1 e1) (Fin mm em)); cbn [negb].
    + exists mm, em. assert (val 1 0 < val mm em) by (rewrite <- Hv1; by apply Hlt).
      assert (0 < mm) by (apply (val_lt_mono 0 mm em); [lia|]; change (val 0 em) with 0; pose proof (val_nonneg 1 0); lia).
      split_and!; [done|split; lia|lia].
    + exists m2, e2. split_and!; [done|done|lia].
  - pose proof (flt_val mj ej 0 0 ltac:(lia) ltac:(lia)) as Hneg. unfold zero.
    destruct (flt (Fin mj ej) (Fin 0 0)).
    + pose proof (flt_val m1 e1 0 0 ltac:(lia) ltac:(lia)) as Hlt. destruct (flt (Fin m1 e1) (Fin 0 0)).
      * exists m1, e1. split_and!; [done|done|lia].
      * exists 0, 0. split_and!; [done|split; lia|by apply val_nonneg].
    + pose proof (flt_val m1 e1 mj ej ltac:(lia) ltac:(lia)) as Hlt. destruct (flt (Fin m1 e1) (Fin mj ej)).
      * exists m1, e1. split_and!; [done|done|lia].
      * exists mj, ej. assert (0 <= mj).
        { apply (val_le_mono 0 mj ej); [lia|]. change (val 0 ej) with (val 0 0). apply Z.nlt_ge. intros Hc%Hneg. done. }
        split_and!; [done|split; lia|]. rewrite <- Hv1. apply Z.nlt_ge. intros Hc%Hlt. done.
  - unfold Second. repeat case_match; bool_to_prop; lia.
Qed.

(** C34: the retry delay is bounded.  For a configuration with a finite multiplier and jitter
    and delays of at most 2^53 ns (104 days, up to where float64 holds every nanosecond), for
    any number of failures and any random number from 0 to 1, the delay lies between BaseDelay (1s when it is not positive) and MaxDelay (30s
    when it is not positive), or is BaseDelay when that is larger. *)
Theorem retry_delay_bounds c attempt r :
  sane c -> (exists m e, r = Fin m e /\ double m e /\ val m e <= val 1 0) ->
  let base := if decide (0 < BaseDelay c) then BaseDelay c else Second in
  let max := if decide (0 < MaxDelay c) then MaxDelay c else 30 * Second in
  base <= Delay (NewEngine c) attempt r <= Z.max base max.
Proof.
  intros Hc Hr base max.
  assert (BaseDelay (cfg (NewEngine c)) = base /\ MaxDelay (cfg (NewEngine c)) = Z.max base max) as [<- <-].
  { unfold NewEngine, base, max. cbn [cfg BaseDelay MaxDelay].
    destruct (Z.leb_spec (BaseDelay c) 0), (Z.leb_spec (MaxDelay c) 0); repeat case_decide; try lia;
      (split; [done|]); case_match; bool_to_prop; lia. }
  destruct (NewEngine_wf c Hc) as [(Hb & Hm & Hj) Hmax]. unfold Delay. set (e := cfg (NewEngine c)) in *.
  set (n := Z.to_nat _).
  pose proof (backoff_between n (BaseDelay e) (MaxDelay e) (Multiplier e) (of_int (BaseDelay e))
    ltac:(lia) ltac:(lia)) as Hbo.
  assert (between (BaseDelay e) (MaxDelay e)
    (cap (of_int (MaxDelay e)) (backoff n (Multiplier e) (of_int (MaxDelay e)) (of_int (BaseDelay e))))) as Hcap.
  { apply cap_between; [lia..|]. right. destruct Hbo as (m & x & -> & Hd & Hv); [|done|by exists m, x; split_and!; [..|lia]].
    destruct (of_int_between (BaseDelay e) ltac:(lia)) as (m & x & -> & Hd & Hv). exists m, x. split_and!; [done|done|lia|].
    assert (val (BaseDelay e) 0 <= val (MaxDelay e) 0) by (apply val_le_mono; lia). lia. }
  set (d := cap _ _) in *. clearbody d.
  assert (between (BaseDelay e) (MaxDelay e)
    (if flt zero (Jitter e) then cap (of_int (MaxDelay e)) (fadd d (fmul (fmul d (Jitter e)) r)) else d))
    as (m & x & -> & Hd & Hv).
  { destruct (flt zero (Jitter e)); [|done]. apply cap_between; [lia..|]. by apply (jitter_grows _ (MaxDelay e)); [lia..| | |]. }
  unfold int64_of. destruct (trunc_val m x (BaseDelay e) (MaxDelay e) Hd) as (z & -> & Hz); [lia|lia|done|done].
Qed.

(** ** The reference: doubling up to the maximum *)

Definition doubling (c : Config) (attempt : Z) : Z := Z.min (BaseDelay c * 2 ^ Z.max 0 attempt) (MaxDelay c).

Lemma fmul_two b x : 0 <= b <= 2 ^ 52 -> between b b x -> between (2 * b) (2 * b) (fmul x two).
Proof.
  intros Hb (m & e & -> & [Hm He] & Hv). destruct (of_int_double 2 ltac:(lia)) as (m2 & e2 & H2 & [Hm2 He2] & Hv2).
  unfold two. rewrite H2. simpl.
  assert (val (m * m2) (e + e2) = val (2 * b) 0) as Hval.
  { apply (Z.mul_reg_r _ _ (2 ^ base)); [by apply Z.pow_nonzero|]. rewrite val_mul by lia.
    replace (val m e) with (val b 0) by lia. rewrite Hv2. unfold val. rewrite Z.add_0_l. ring. }
  destruct (rnd_exact (m * m2) (e + e2) (2 * b) 0) as (m' & e' & Hr & Hd & Hv'); [nia|lia|split; lia|done|apply val_big; lia|].
  exists m', e'. rewrite Hv'. split_and!; [exact Hr|done|lia|lia].
Qed.

Lemma flt_between a b x y :
  between a a x -> between b b y -> (flt x y = true <-> a < b).
Proof.
  intros (m & e & -> & [_ He] & Hv) (m' & e' & -> & [_ He'] & Hv'). rewrite flt_val, <- (val_lt_mono a b 0) by lia. lia.
Qed.

Lemma backoff_doubling n b max x :
  0 < b -> b <= max -> max <= 2 ^ 52 -> between b b x ->
  let v := Z.min (b * 2 ^ Z.of_nat n) max in between v v (backoff n two (of_int max) x).
Proof.
  intros Hb Hle Hmax Hx v. subst v. revert b x Hb Hle Hx. induction n as [|n IH]; intros b x Hb Hle Hx.
  - simpl. by rewrite Z.mul_1_r, Z.min_l by done.
  - cbn [backoff]. pose proof (fmul_two b x ltac:(lia) Hx) as H2.
    pose proof (of_int_between max ltac:(lia)) as Hm.
    rewrite Nat2Z.inj_succ, Z.pow_succ_r by lia. replace (b * (2 * 2 ^ Z.of_nat n)) with (2 * b * 2 ^ Z.of_nat n) by ring.
    pose proof (flt_between max (2 * b) _ _ Hm H2) as Hlt. destruct (flt _ _).
    + assert (max < 2 * b) by (by apply Hlt). assert (0 < 2 ^ Z.of_nat n) by (apply Z.pow_pos_nonneg; lia).
      rewrite Z.min_r by nia. done.
    + apply IH; [lia| |done]. apply Z.nlt_ge. intros Hc%Hlt. done.
Qed.


(** ** Witnesses *)

(** 0.5, in [0, 1). *)
Definition half : f64 := Fin 1 (-1).

Lemma main_config_sane : sane main_config.
Proof.
  split_and!.
  - exists (2 ^ 52), (-51). split; [vm_compute; reflexivity|]. lia.
  - exists 3602879701896397, (-55). split; [reflexivity|]. lia.
  - vm_compute. discriminate.
  - vm_compute. discriminate.
Qed.

Lemma retry_delay_bounds_witness :
  Second <= Delay (NewEngine main_config) 2 half <= 30 * Second.
Proof.
  apply (retry_delay_bounds main_config 2 half).
  - apply main_config_sane.
  - exists 1, (-1). split; [reflexivity|]. split; [split; lia|]. vm_compute. discriminate.
Defined.

End Retry.
