(* ===== verification/Models.v ===== *)
(** * pkg/models: jobs, tasks and the configuration

    The structs of models.go, field for field.  A [map[string]string] is a [gmap];
    a nil map and an empty one are the same value here (the program only reads
    them, and both encode to an absent JSON field).  A [[]byte] is its byte string;
    a pointer to a time is an option. *)

From S2P Require Import Prelude.

(** [type JobState string]. *)
Definition JobState : Type := string.
Definition JobStatePending : JobState := "PENDING".
Definition JobStateRunning : JobState := "RUNNING".
Definition JobStateCompleted : JobState := "COMPLETED".
Definition JobStateFailed : JobState := "FAILED".
Definition JobStateDead : JobState := "DEAD".

(** Close a goal by comparing state names. *)
Ltac state_eq :=
  unfold JobStatePending, JobStateRunning, JobStateCompleted, JobStateFailed, JobStateDead in *; congruence.

Module Task.
Record Task := mkTask {
  ID : string;
  Name : string;
  Payload : string;
  RetryCount : Z;
  MaxRetries : Z;
  Timeout : Z;
  CronExpression : string;
  Queue : string;
  Metadata : gmap string string;
}.

#[global] Instance Task_eq_dec : EqDecision Task.
Proof. solve_decision. Defined.
End Task.

Module Job.
Record Job := mkJob {
  ID : string;
  IdempotencyKey : string;
  Task : Task.Task;
  State : JobState;
  Attempt : Z;
  ScheduledAt : option Z;
  StartedAt : option Z;
  LeaseExpiresAt : option Z;
  LeaseToken : string;
  CompletedAt : option Z;
  LastError : string;
  Metadata : gmap string string;
  CreatedAt : Z;
  UpdatedAt : Z;
}.

#[global] Instance Job_eq_dec : EqDecision Job.
Proof. solve_decision. Defined.

(** The assignments [job.F = v] the code makes. *)
Definition set_ID v (j : Job) : Job :=
  mkJob v (IdempotencyKey j) (Task j) (State j) (Attempt j) (ScheduledAt j) (StartedAt j)
    (LeaseExpiresAt j) (LeaseToken j) (CompletedAt j) (LastError j) (Metadata j) (CreatedAt j) (UpdatedAt j).
Definition set_State v (j : Job) : Job :=
  mkJob (ID j) (IdempotencyKey j) (Task j) v (Attempt j) (ScheduledAt j) (StartedAt j)
    (LeaseExpiresAt j) (LeaseToken j) (CompletedAt j) (LastError j) (Metadata j) (CreatedAt j) (UpdatedAt j).
Definition set_Attempt v (j : Job) : Job :=
  mkJob (ID j) (IdempotencyKey j) (Task j) (State j) v (ScheduledAt j) (StartedAt j)
    (LeaseExpiresAt j) (LeaseToken j) (CompletedAt j) (LastError j) (Metadata j) (CreatedAt j) (UpdatedAt j).
Definition set_ScheduledAt v (j : Job) : Job :=
  mkJob (ID j) (IdempotencyKey j) (Task j) (State j) (Attempt j) v (StartedAt j)
    (LeaseExpiresAt j) (LeaseToken j) (CompletedAt j) (LastError j) (Metadata j) (CreatedAt j) (UpdatedAt j).
Definition set_StartedAt v (j : Job) : Job :=
  mkJob (ID j) (IdempotencyKey j) (Task j) (State j) (Attempt j) (ScheduledAt j) v
    (LeaseExpiresAt j) (LeaseToken j) (CompletedAt j) (LastError j) (Metadata j) (CreatedAt j) (UpdatedAt j).
Definition set_LeaseExpiresAt v (j : Job) : Job :=
  mkJob (ID j) (IdempotencyKey j) (Task j) (State j) (Attempt j) (ScheduledAt j) (StartedAt j)
    v (LeaseToken j) (CompletedAt j) (LastError j) (Metadata j) (CreatedAt j) (UpdatedAt j).
Definition set_LeaseToken v (j : Job) : Job :=
  mkJob (ID j) (IdempotencyKey j) (Task j) (State j) (Attempt j) (ScheduledAt j) (StartedAt j)
    (LeaseExpiresAt j) v (CompletedAt j) (LastError j) (Metadata j) (CreatedAt j) (UpdatedAt j).
Definition set_CompletedAt v (j : Job) : Job :=
  mkJob (ID j) (IdempotencyKey j) (Task j) (State j) (Attempt j) (ScheduledAt j) (StartedAt j)
    (LeaseExpiresAt j) (LeaseToken j) v (LastError j) (Metadata j) (CreatedAt j) (UpdatedAt j).
Definition set_LastError v (j : Job) : Job :=
  mkJob (ID j) (IdempotencyKey j) (Task j) (State j) (Attempt j) (ScheduledAt j) (StartedAt j)
    (LeaseExpiresAt j) (LeaseToken j) (CompletedAt j) v (Metadata j) (CreatedAt j) (UpdatedAt j).
Definition set_CreatedAt v (j : Job) : Job :=
  mkJob (ID j) (IdempotencyKey j) (Task j) (State j) (Attempt j) (ScheduledAt j) (StartedAt j)
    (LeaseExpiresAt j) (LeaseToken j) (CompletedAt j) (LastError j) (Metadata j) v (UpdatedAt j).
Definition set_UpdatedAt v (j : Job) : Job :=
  mkJob (ID j) (IdempotencyKey j) (Task j) (State j) (Attempt j) (ScheduledAt j) (StartedAt j)
    (LeaseExpiresAt j) (LeaseToken j) (CompletedAt j) (LastError j) (Metadata j) (CreatedAt j) v.
End Job.

Abbreviation Task := Task.Task.
Abbreviation Job := Job.Job.

(** The zero [models.Task] and [models.Job]. *)
Definition zero_task : Task := Task.mkTask "" "" "" 0 0 0 "" "" ∅.
Definition zero_job : Job := Job.mkJob "" "" zero_task "" 0 None None None "" None "" ∅ zero_time zero_time.

(** ** Configuration *)

Record HTTPConfig := mkHTTPConfig {
  http_Address : string;
  http_ReadTimeout : Z;
  http_WriteTimeout : Z;
  http_IdleTimeout : Z;
}.

Record KafkaConfig := mkKafkaConfig {
  kafka_Brokers : list string;
  kafka_Topic : string;
  kafka_ConsumerGroup : string;
  kafka_ClientID : string;
  kafka_RequiredAcks : Z;
  kafka_CompressionCodec : Z;
  kafka_FlushFrequencyMs : Z;
  kafka_FlushBytes : Z;
  kafka_ChannelBufferSize : Z;
}.

Record RedisConfig := mkRedisConfig {
  redis_Addresses : list string;
  redis_Username : string;
  redis_Password : string;
  redis_Database : Z;
  redis_PoolSize : Z;
}.

Record PostgresConfig := mkPostgresConfig {
  pg_DSN : string;
  pg_MaxConns : Z;
  pg_MinConns : Z;
  pg_MigrationsPath : string;
  pg_MaxConnLifetime : Z;
  pg_MaxConnIdleTime : Z;
  pg_HealthCheckPeriod : Z;
}.

Record WorkerConfig := mkWorkerConfig {
  worker_Concurrency : Z;
  worker_QueueSize : Z;
  worker_ShutdownTimeout : Z;
}.

Record SchedulerConfig := mkSchedulerConfig {
  sched_Enabled : bool;
  sched_TickInterval : Z;
  sched_MaxConcurrentRuns : Z;
}.

Record ReconcilerConfig := mkReconcilerConfig {
  rec_Enabled : bool;
  rec_Interval : Z;
  rec_IdleInterval : Z;
  rec_BatchSize : Z;
  rec_RunningLease : Z;
}.

Record MetricsConfig := mkMetricsConfig {
  metrics_Namespace : string;
  metrics_Subsystem : string;
  metrics_ListenAddress : string;
}.

Record LoggerConfig := mkLoggerConfig {
  log_Level : string;
  log_Format : string;
  log_ServiceName : string;
  log_Environment : string;
  log_Pretty : bool;
  log_AddCaller : bool;
}.

Record WebhookConfig := mkWebhookConfig {
  webhook_Timeout : Z;
  webhook_MaxRedirects : Z;
  webhook_AllowPrivateNetworks : bool;
}.

Record Config := mkConfig {
  HTTP : HTTPConfig;
  Kafka : KafkaConfig;
  Redis : RedisConfig;
  Postgres : PostgresConfig;
  Worker : WorkerConfig;
  Scheduler : SchedulerConfig;
  Reconciler : ReconcilerConfig;
  Metrics : MetricsConfig;
  Logger : LoggerConfig;
  Webhook : WebhookConfig;
}.
