(* ===== verification/Breaker.v ===== *)
(** * internal/circuitbreaker: the three-state breaker

    [Breaker] is the struct behind the mutex; every method is one atomic step,
    so the methods are functions on the struct.  [now] is the reading of
    [time.Now] inside the call.  The theorems fix the state invariant, when the
    breaker trips and reopens, and what the half-open state admits. *)

From S2P Require Import Prelude.

Module Breaker.

Inductive State := StateClosed | StateOpen | StateHalfOpen.

#[global] Instance State_eq_dec : EqDecision State.
Proof. solve_decision. Defined.

Record Config := mkConfig {
  FailureThreshold : Z;
  SuccessThreshold : Z;
  OpenTimeout : Z;
  HalfOpenRequests : Z;
}.

Record Breaker := mkBreaker {
  cfg : Config;
  state : State;
  failures : Z;
  successes : Z;
  openedAt : Z;
}.

(** The defaults of [New], field by field. *)
Definition normalise (c : Config) : Config :=
  {| FailureThreshold := if FailureThreshold c <=? 0 then 5 else FailureThreshold c;
     SuccessThreshold := if SuccessThreshold c <=? 0 then 2 else SuccessThreshold c;
     OpenTimeout := if OpenTimeout c <=? 0 then 60 * Second else OpenTimeout c;
     HalfOpenRequests := if HalfOpenRequests c <=? 0 then 1 else HalfOpenRequests c |}.

Definition New (c : Config) : Breaker :=
  {| cfg := normalise c; state := StateClosed; failures := 0; successes := 0;
     openedAt := zero_time |}.

Definition Allow (now : Z) (b : Breaker) : bool * Breaker :=
  match state b with
  | StateClosed => (true, b)
  | StateOpen =>
      if OpenTimeout (cfg b) <=? now - openedAt b
      then (true, mkBreaker (cfg b) StateHalfOpen 0 0 (openedAt b))
      else (false, b)
  | StateHalfOpen => (successes b <? HalfOpenRequests (cfg b), b)
  end.

Definition RecordSuccess (b : Breaker) : Breaker :=
  match state b with
  | StateHalfOpen =>
      let s := successes b + 1 in
      if SuccessThreshold (cfg b) <=? s
      then mkBreaker (cfg b) StateClosed 0 0 (openedAt b)
      else mkBreaker (cfg b) StateHalfOpen (failures b) s (openedAt b)
  | StateClosed => mkBreaker (cfg b) StateClosed 0 (successes b) (openedAt b)
  | StateOpen => b
  end.

Definition RecordFailure (now : Z) (b : Breaker) : Breaker :=
  match state b with
  | StateClosed =>
      let f := failures b + 1 in
      if FailureThreshold (cfg b) <=? f
      then mkBreaker (cfg b) StateOpen f (successes b) now
      else mkBreaker (cfg b) StateClosed f (successes b) (openedAt b)
  | StateHalfOpen => mkBreaker (cfg b) StateOpen 0 0 now
  | StateOpen => b
  end.

(** The calls a client may make, at the instant it makes them. *)
Inductive Call := CallAllow (now : Z) | CallSuccess | CallFailure (now : Z).

Definition apply_call (c : Call) (b : Breaker) : Breaker :=
  match c with
  | CallAllow now => (Allow now b).2
  | CallSuccess => RecordSuccess b
  | CallFailure now => RecordFailure now b
  end.

Definition apply_calls (cs : list Call) (b : Breaker) : Breaker :=
  fold_left (fun b c => apply_call c b) cs b.

(** ** The invariant *)

Definition wf_config (c : Config) : Prop :=
  0 < FailureThreshold c /\ 0 < SuccessThreshold c /\ 0 < OpenTimeout c /\ 0 < HalfOpenRequests c.

Definition wf (b : Breaker) : Prop :=
  wf_config (cfg b) /\
  match state b with
  | StateClosed => 0 <= failures b < FailureThreshold (cfg b) /\ successes b = 0
  | StateOpen => 0 <= failures b <= FailureThreshold (cfg b) /\ successes b = 0
  | StateHalfOpen => failures b = 0 /\ 0 <= successes b < SuccessThreshold (cfg b)
  end.

Lemma wf_normalise c : wf_config (normalise c).
Proof.
  unfold wf_config, normalise; simpl. pose proof (eq_refl : Second = 1000000000).
  repeat case_match; bool_to_prop; lia.
Qed.

Lemma wf_New c : wf (New c).
Proof.
  pose proof (wf_normalise c) as H. split; [done|]. destruct H as (Hf & _).
  change (0 <= 0 < FailureThreshold (normalise c) /\ 0 = 0). lia.
Qed.

Lemma wf_apply_call c b : wf b -> wf (apply_call c b).
Proof.
  intros [Hc Hb]. unfold wf_config in Hc.
  destruct c; simpl; unfold Allow, RecordSuccess, RecordFailure;
    destruct (state b) eqn:Hs; repeat case_match; bool_to_prop;
    unfold wf, wf_config; simpl; rewrite ?Hs; intuition lia.
Qed.

Lemma apply_call_cfg c b : cfg (apply_call c b) = cfg b.
Proof.
  destruct c; simpl; unfold Allow, RecordSuccess, RecordFailure; by repeat case_match.
Qed.

#[export] Hint Resolve wf_New wf_apply_call : conduit.

Lemma wf_apply_calls cs b : wf b -> wf (apply_calls cs b).
Proof. revert b. induction cs; simpl; eauto with conduit. Qed.

(** ** Tripping

    The outcomes the client reported, [true] for a success; [Allow] reports nothing. *)
Definition outcomes (cs : list Call) : list bool :=
  omap (fun c => match c with CallAllow _ => None | CallSuccess => Some true | CallFailure _ => Some false end) cs.

(** [k] failures in a row occur somewhere in the outcomes. *)
Definition failure_run (k : nat) (os : list bool) : Prop :=
  exists pre post, os = pre ++ replicate k false ++ post.

(** The failures at the end of the outcomes, with [n] before them. *)
Fixpoint trailing (n : nat) (os : list bool) : nat :=
  match os with
  | [] => n
  | true :: os' => trailing 0 os'
  | false :: os' => trailing (S n) os'
  end.

Lemma replicate_cons_app {A} n (x : A) (l : list A) : replicate (S n) x ++ l = replicate n x ++ x :: l.
Proof. rewrite replicate_S_end, <- app_assoc. done. Qed.

Lemma trailing_snoc n os o : trailing n (os ++ [o]) = if o then 0%nat else S (trailing n os).
Proof. revert n. induction os as [|[] os IH]; intros n; simpl; auto. Qed.

Lemma trailing_suffix n os : exists pre, replicate n false ++ os = pre ++ replicate (trailing n os) false.
Proof.
  revert n. induction os as [|[] os IH]; intros n; simpl.
  - exists []. by rewrite app_nil_r.
  - destruct (IH 0%nat) as [pre Hpre]. exists (replicate n false ++ true :: pre).
    rewrite <- app_assoc. simpl in *. by rewrite <- Hpre.
  - destruct (IH (S n)) as [pre Hpre]. exists pre. by rewrite <- replicate_cons_app.
Qed.

(** A run that ends at the end of the outcomes is counted by [trailing]. *)
Lemma trailing_run os pre k : os = pre ++ replicate k false -> (k <= trailing 0 os)%nat.
Proof.
  revert pre os. induction k as [|k IH]; intros pre os ->; [lia|].
  rewrite replicate_S_end, app_assoc, trailing_snoc. specialize (IH pre _ eq_refl). lia.
Qed.

Lemma failure_run_snoc k os o :
  (0 < k)%nat -> failure_run k (os ++ [o]) -> failure_run k os \/ (o = false /\ k <= S (trailing 0 os))%nat.
Proof.
  intros Hk (pre & post & Heq). destruct post as [|x post _] using rev_ind.
  - right. rewrite app_nil_r in Heq. destruct k as [|k]; [lia|].
    pose proof Heq as Hrun. rewrite replicate_S_end, app_assoc in Heq.
    apply app_inj_tail in Heq as [-> ->]. split; [done|].
    pose proof (trailing_run (pre ++ replicate k false) pre k eq_refl). lia.
  - left. rewrite !app_assoc in Heq. apply app_inj_tail in Heq as [-> _].
    exists pre, post. by rewrite <- app_assoc.
Qed.

Lemma failure_run_trailing k os : (k <= S (trailing 0 os))%nat -> failure_run k (os ++ [false]).
Proof.
  intros Hle. destruct (trailing_suffix 0 os) as [pre Hpre]. simpl in Hpre. set (n := trailing 0 os) in *.
  exists (pre ++ replicate (S n - k) false), []. rewrite app_nil_r, <- app_assoc, <- replicate_add.
  replace (S n - k + k)%nat with (S n) by lia. by rewrite replicate_S_end, app_assoc, <- Hpre.
Qed.

Lemma failure_run_mono k os o : failure_run k os -> failure_run k (os ++ [o]).
Proof. intros (pre & post & ->). exists pre, (post ++ [o]). by rewrite <- !app_assoc. Qed.

Lemma failure_run_app k os os' : failure_run k os -> failure_run k (os ++ os').
Proof.
  induction os' as [|o os' IH] using rev_ind; [by rewrite app_nil_r|].
  intros H. rewrite app_assoc. by apply failure_run_mono, IH.
Qed.

Lemma apply_calls_app cs cs' b : apply_calls (cs ++ cs') b = apply_calls cs' (apply_calls cs b).
Proof. unfold apply_calls. by rewrite fold_left_app. Qed.

Lemma outcomes_app cs cs' : outcomes (cs ++ cs') = outcomes cs ++ outcomes cs'.
Proof. apply omap_app. Qed.

Lemma apply_calls_cfg cs b : cfg (apply_calls cs b) = cfg b.
Proof. revert b. induction cs as [|c cs IH]; intros b; simpl; [done|]. by rewrite IH, apply_call_cfg. Qed.

(** From a closed breaker with no failure counted. *)
Section Trip.
Context (b : Breaker) (Hclosed : state b = StateClosed) (Hzero : failures b = 0).

Abbreviation k := (Z.to_nat (FailureThreshold (cfg b))).

(** Until the first run of failures it is closed, and counts those since the last
    success. *)
Lemma closed_until_run cs :
  0 < FailureThreshold (cfg b) -> ~ failure_run k (outcomes cs) ->
  state (apply_calls cs b) = StateClosed /\ failures (apply_calls cs b) = Z.of_nat (trailing 0 (outcomes cs)).
Proof.
  intros Hk. induction cs as [|c cs IH] using rev_ind; [by split|].
  rewrite outcomes_app. intros Hrun. destruct IH as [Hs Hf].
  { intros H. by apply Hrun, failure_run_app. }
  rewrite apply_calls_app. cbn [apply_calls fold_left]. pose proof (apply_calls_cfg cs b) as Hcfg.
  destruct c as [t| |t]; cbn [apply_call outcomes omap list_omap] in *; unfold Allow, RecordSuccess, RecordFailure; rewrite Hs.
  - by rewrite app_nil_r.
  - by rewrite trailing_snoc.
  - rewrite Hcfg, Hf, trailing_snoc. destruct (Z.leb_spec (FailureThreshold (cfg b)) (Z.of_nat (trailing 0 (outcomes cs)) + 1)).
    + exfalso. apply Hrun, failure_run_trailing. lia.
    + split; [done|]. cbn [failures]. lia.
Qed.

(** The failure that completes the first run opens it. *)
Lemma run_trips cs t :
  0 < FailureThreshold (cfg b) -> ~ failure_run k (outcomes cs) -> failure_run k (outcomes (cs ++ [CallFailure t])) ->
  state (apply_calls (cs ++ [CallFailure t]) b) = StateOpen /\ openedAt (apply_calls (cs ++ [CallFailure t]) b) = t.
Proof.
  intros Hk Hno Hrun. destruct (closed_until_run cs Hk Hno) as [Hs Hf]. pose proof (apply_calls_cfg cs b) as Hcfg.
  rewrite outcomes_app in Hrun. apply failure_run_snoc in Hrun as [?|[_ Hlen]]; [done| |lia].
  rewrite apply_calls_app. cbn [apply_calls fold_left apply_call]. unfold RecordFailure. rewrite Hs, Hcfg, Hf.
  by rewrite (proj2 (Z.leb_le _ _)) by lia.
Qed.

(** A history has no run of failures, or a first one, completed by some failure. *)
Lemma first_run cs :
  0 < FailureThreshold (cfg b) ->
  ~ failure_run k (outcomes cs) \/
  exists pre t post, cs = pre ++ CallFailure t :: post /\
    ~ failure_run k (outcomes pre) /\ failure_run k (outcomes (pre ++ [CallFailure t])).
Proof.
  intros Hk. induction cs as [|c cs [Hno|(pre & t & post & -> & H)]] using rev_ind.
  - left. intros (pre & post & H). destruct pre, k eqn:?; simplify_eq/=; lia.
  - pose proof (outcomes_app cs [c]) as Happ. destruct c as [t| |t]; cbn [outcomes omap list_omap] in Happ.
    + left. by rewrite Happ, app_nil_r.
    + left. rewrite Happ. intros [?|[? _]]%failure_run_snoc; [done..|lia].
    + destruct (decide (k <= S (trailing 0 (outcomes cs)))%nat) as [Hle|Hgt].
      * right. exists cs, t, []. split; [done|]. split; [done|]. rewrite Happ. by apply failure_run_trailing.
      * left. rewrite Happ. intros [?|[_ ?]]%failure_run_snoc; [done|lia..].
  - right. exists pre, t, (post ++ [c]). by rewrite <- app_assoc.
Qed.

(** Open, it stays open until an Allow that comes after the timeout. *)
Lemma open_until_timeout cs b' t :
  state b' = StateOpen -> openedAt b' = t -> (forall u, CallAllow u ∈ cs -> u - t < OpenTimeout (cfg b')) ->
  apply_calls cs b' = b'.
Proof.
  intros Hs Ht. induction cs as [|c cs IH]; intros Hu; [done|]. cbn [apply_calls fold_left].
  assert (apply_call c b' = b') as ->.
  { destruct c as [u| |u]; cbn [apply_call]; unfold Allow, RecordSuccess, RecordFailure; rewrite Hs; [|done..].
    rewrite Ht. specialize (Hu u ltac:(left)). by rewrite (proj2 (Z.leb_gt _ _)). }
  apply IH. intros u Hin. apply Hu. by right.
Qed.
End Trip.

(** ** Claims *)

(** C32: whatever calls a client makes, the breaker keeps its invariant: the
    thresholds of [New] are positive, a closed breaker has counted fewer than
    [FailureThreshold] failures, a half-open one fewer than [SuccessThreshold]
    successes, so the counters never overflow and no state is left undefined. *)
Theorem breaker_invariant c cs : wf (apply_calls cs (New c)) /\ cfg (apply_calls cs (New c)) = normalise c.
Proof.
  split; [eauto using wf_apply_calls with conduit|].
  change (normalise c) with (cfg (New c)). generalize (New c).
  induction cs as [|x cs IH]; intros b; [done|]. simpl. by rewrite IH, apply_call_cfg.
Qed.

(** C33: the breaker trips on a run of failures and on nothing else.  Take a breaker after
    any history that left it closed with no failure counted (a fresh one, or one that a
    success or the half-open probes have just reset), and let any calls follow, Allow
    included.  It is closed after every one of them exactly when FailureThreshold failures
    (5 by default) never came in a row; and the failure that completes the first such run
    opens it, and it stays open through whatever calls until an Allow OpenTimeout (60s by
    default) later. *)
Theorem breaker_trips_iff_run c history cs :
  let b := apply_calls history (New c) in
  let k := Z.to_nat (if decide (FailureThreshold c <= 0) then 5 else FailureThreshold c) in
  let timeout := if decide (OpenTimeout c <= 0) then 60 * Second else OpenTimeout c in
  state b = StateClosed -> failures b = 0 ->
  ((forall n, state (apply_calls (take n cs) b) = StateClosed) <-> ~ failure_run k (outcomes cs)) /\
  (forall pre t rest, cs = pre ++ CallFailure t :: rest ->
     ~ failure_run k (outcomes pre) -> failure_run k (outcomes (pre ++ [CallFailure t])) ->
     (forall u, CallAllow u ∈ rest -> u - t < timeout) ->
     state (apply_calls cs b) = StateOpen /\ openedAt (apply_calls cs b) = t).
Proof.
  intros b k timeout Hs Hf. assert (cfg b = normalise c) as Hcfg by apply apply_calls_cfg.
  assert (Z.to_nat (FailureThreshold (cfg b)) = k /\ OpenTimeout (cfg b) = timeout) as [<- Htime].
  { rewrite Hcfg. unfold k, timeout, normalise. cbn. split; case_decide; case_match; bool_to_prop; done || lia. }
  pose proof (wf_normalise c) as (Hft & _). rewrite <- Hcfg in Hft. clearbody b. split; [split|].
  - intros Hall. destruct (first_run b cs Hft) as [?|(pre & t & post & -> & Hno & Hrun)]; [done|]. exfalso.
    specialize (Hall (length (pre ++ [CallFailure t]))).
    rewrite (cons_middle (CallFailure t) pre post), app_assoc, take_app_length in Hall.
    destruct (run_trips b Hs Hf pre t Hft Hno Hrun) as [Hopen _]. congruence.
  - intros Hno n. apply (closed_until_run b Hs Hf); [done|]. intros Hrun. apply Hno.
    rewrite <- (take_drop n cs), outcomes_app. by apply failure_run_app.
  - intros pre t rest -> Hno Hrun Hu. rewrite (cons_middle (CallFailure t) pre rest), app_assoc, apply_calls_app.
    destruct (run_trips b Hs Hf pre t Hft Hno Hrun) as [Hopen Hat].
    rewrite (open_until_timeout rest _ t Hopen Hat); [done|]. intros u Hin. rewrite apply_calls_cfg, Htime. by apply Hu.
Qed.

(** ** What the half-open state admits *)

(** A client that follows the protocol of [jobWorker.Run]: it records one outcome
    for each call [Allow] admitted, and none otherwise.  [inflight] counts the
    admitted calls that have not reported yet. *)
Inductive usage : Z * Breaker -> bool -> Z * Breaker -> Prop :=
| UseAdmit now n b : (Allow now b).1 = true -> usage (n, b) true (n + 1, (Allow now b).2)
| UseReject now n b : (Allow now b).1 = false -> usage (n, b) false (n, (Allow now b).2)
| UseSuccess n b : 0 < n -> usage (n, b) false (n - 1, RecordSuccess b)
| UseFailure now n b : 0 < n -> usage (n, b) false (n - 1, RecordFailure now b).

(** A client's history, with the number of calls it was admitted. *)
Inductive history : Z * Breaker -> nat -> Z * Breaker -> Prop :=
| HistNil s : history s 0 s
| HistCons s1 adm s2 k s3 :
    usage s1 adm s2 -> history s2 k s3 -> history s1 ((if adm then 1 else 0) + k) s3.

(** A half-open breaker whose probes succeeded [HalfOpenRequests] times while
    [SuccessThreshold] asks for more, with no call in flight, never admits a call
    again, whatever time passes: nothing can report the missing success. *)
Theorem breaker_half_open_stuck b k s :
  wf b -> state b = StateHalfOpen -> HalfOpenRequests (cfg b) <= successes b ->
  history (0, b) k s -> k = 0%nat /\ s = (0, b).
Proof.
  intros Hwf Hs Hfull Hh. remember (0, b) as s0 eqn:Heq. induction Hh as [s0|s1 adm s2 k s3 Hu Hh IH]; subst; [done|].
  assert (forall now, Allow now b = (false, b)) as Hrej.
  { intros now. unfold Allow. rewrite Hs. f_equal. apply Z.ltb_ge. lia. }
  inversion Hu as [now ? ? Ha|now ? ? Ha|? ? Hn|now ? ? Hn]; subst; rewrite ?Hrej in *; simpl in *; [done|..|lia|lia].
  by destruct (IH eq_refl) as [-> ->].
Qed.

(** The production setting of cmd/server/main.go. *)
Definition main_config : Config :=
  {| FailureThreshold := 5; SuccessThreshold := 2; OpenTimeout := 30 * Second; HalfOpenRequests := 1 |}.

(** The history that reaches the stuck state: five failures, the open timeout, one
    admitted probe, one success. *)
Definition stuck_breaker : Breaker :=
  apply_calls ((CallFailure <$> [1; 2; 3; 4; 5]) ++ [CallAllow (31 * Second); CallSuccess]) (New main_config).

(** Two failures in a row among calls of the production breaker do not trip it; the
    fifth one does. *)
Definition five_failures : list Call :=
  [CallAllow 1; CallFailure 2; CallSuccess; CallFailure 3; CallFailure 4; CallAllow 5; CallFailure 6; CallFailure 7].

Lemma breaker_trips_iff_run_witness :
  (forall n, state (apply_calls (take n five_failures) (New main_config)) = StateClosed) /\
  state (apply_calls (five_failures ++ [CallFailure 8; CallAllow 9]) (New main_config)) = StateOpen /\
  openedAt (apply_calls (five_failures ++ [CallFailure 8; CallAllow 9]) (New main_config)) = 8.
Proof.
  assert (~ failure_run 5 (outcomes five_failures)) as Hno.
  { intros (pre & post & H). destruct pre as [|x1 [|x2 pre]]; [discriminate H..|].
    apply (f_equal length) in H. simpl in H. rewrite length_app in H. simpl in H. lia. }
  split.
  - apply (proj1 (breaker_trips_iff_run main_config [] five_failures eq_refl eq_refl)). exact Hno.
  - apply (proj2 (breaker_trips_iff_run main_config [] (five_failures ++ [CallFailure 8; CallAllow 9]) eq_refl eq_refl)
             five_failures 8 [CallAllow 9]).
    + reflexivity.
    + exact Hno.
    + exists [false; true], []. reflexivity.
    + intros u [[= ->]|H%elem_of_nil]%elem_of_cons; [|done]. vm_compute. reflexivity.
Defined.

Lemma breaker_half_open_stuck_witness :
  wf stuck_breaker /\ (0%nat = 0%nat /\ (0, stuck_breaker) = (0, stuck_breaker)).
Proof.
  split; [apply wf_apply_calls, wf_New|].
  apply (breaker_half_open_stuck stuck_breaker 0 (0, stuck_breaker)).
  - apply wf_apply_calls, wf_New.
  - reflexivity.
  - vm_compute. discriminate.
  - constructor.
Defined.

(** A half-open breaker with no success yet admits every call. *)
Lemma half_open_admits (times : list Z) n b :
  state b = StateHalfOpen -> successes b = 0 -> 0 < HalfOpenRequests (cfg b) ->
  history (n, b) (length times) (n + Z.of_nat (length times), b).
Proof.
  intros Hs H0 Hreq. revert n. induction times as [|t times IH]; intros n; cbn [length].
  - change (Z.of_nat 0) with 0. rewrite Z.add_0_r. constructor.
  - assert (Allow t b = (true, b)) as Ha.
    { unfold Allow. rewrite Hs, H0. f_equal. by apply Z.ltb_lt. }
    pose proof (UseAdmit t n b) as Hu. rewrite Ha in Hu.
    pose proof (HistCons _ _ _ _ _ (Hu eq_refl) (IH (n + 1))) as H. cbn [length Nat.add] in *.
    replace (n + Z.of_nat (S _)) with ((n + 1) + Z.of_nat (length times)) by lia. exact H.
Qed.

(** Once the open timeout has passed, every call is admitted until one of
    them reports: [n] calls to [Allow] in a row are all admitted, so the number of
    probes is not bounded by [HalfOpenRequests]. *)
Theorem breaker_probes_unbounded b times :
  wf b -> state b = StateOpen ->
  Forall (fun now => OpenTimeout (cfg b) <= now - openedAt b) times ->
  exists b', history (0, b) (length times) (Z.of_nat (length times), b').
Proof.
  intros [(_ & _ & _ & Hreq) _] Hs Ht. destruct Ht as [|t times Ht _]; [exists b; constructor|].
  assert (Allow t b = (true, mkBreaker (cfg b) StateHalfOpen 0 0 (openedAt b))) as Ha.
  { unfold Allow. rewrite Hs. by apply Z.leb_le in Ht as ->. }
  pose proof (UseAdmit t 0 b) as Hu. rewrite Ha in Hu.
  exists (mkBreaker (cfg b) StateHalfOpen 0 0 (openedAt b)).
  pose proof (half_open_admits times (0 + 1) (mkBreaker (cfg b) StateHalfOpen 0 0 (openedAt b))
                eq_refl eq_refl Hreq) as Hrest.
  pose proof (HistCons _ _ _ _ _ (Hu eq_refl) Hrest) as H.
  cbn [length Nat.add] in *. replace (Z.of_nat (S _)) with (0 + 1 + Z.of_nat (length times)) by lia. exact H.
Qed.

Lemma breaker_probes_unbounded_witness :
  exists b', history (0, apply_calls (CallFailure <$> [1; 2; 3; 4; 5]) (New main_config)) 3 (3, b').
Proof.
  apply (breaker_probes_unbounded (apply_calls (CallFailure <$> [1; 2; 3; 4; 5]) (New main_config))
           [31 * Second; 31 * Second; 31 * Second]).
  - apply wf_apply_calls, wf_New.
  - reflexivity.
  - repeat constructor; vm_compute; discriminate.
Defined.

End Breaker.
