(* ===== verification/Sql.v ===== *)
(** * The jobs table and the SQL statements of internal/store

    A row has the columns of migrations/001_create_jobs.sql (the task_* columns are
    kept together as a [Task]); the table maps the primary key to the row.  Each
    statement the store sends is a constructor of [Stmt], indexed by the type of
    its answer, and [exec_stmt] is its effect: one atomic step on the table, as each
    statement is its own transaction.  What Postgres leaves open is an argument: its
    clock, the rows other transactions have locked, the order in which it reads the
    heap, and the collation that orders text. *)

From S2P Require Import Prelude GoLib Models.

(** ** Rows *)

Record Row := mkRow {
  r_id : string;
  r_key : option string;
  r_task : Task;
  r_state : string;
  r_attempt : Z;
  r_last_error : string;
  r_scheduled_at : option Z;
  r_started_at : option Z;
  r_lease_expires_at : option Z;
  r_lease_token : option string;
  r_completed_at : option Z;
  r_created_at : Z;
  r_updated_at : Z;
  r_metadata : gmap string string;
}.

#[global] Instance Row_eq_dec : EqDecision Row.
Proof. solve_decision. Defined.

Abbreviation Table := (gmap string Row).

(** TIMESTAMPTZ keeps microseconds; pgx drops the rest. *)
Definition pg_ts (t : Z) : Z := t / 1000 * 1000.

(** INT columns hold 32 bits. *)
Definition int4 (n : Z) : bool := fits 32 n.

(** ** What the statements leave to Postgres *)

(** The order of TEXT values. *)
Class Collation := {
  coll_le : relation string;
  coll_le_dec :: RelDecision coll_le;
  coll_le_order :: TotalOrder coll_le;
}.

(** The server's side of one statement: [NOW()], the rows other transactions hold
    locks on, and the order in which the heap is read. *)
Record PgView := mkPgView {
  pv_now : Z;
  pv_locked : gset string;
  pv_scan : Table -> list Row;
}.

Definition rows (t : Table) : list Row := (map_to_list t).*2.

(** Reading the heap gives every row once. *)
Definition wf_view (v : PgView) : Prop := forall t, pv_scan v t ≡ₚ rows t.

(** ** Statements *)

(** The parameters $1 .. $14 of the UPDATE of UpdateJob. *)
Record UpdateArgs := mkUpdateArgs {
  u_state : string;
  u_attempt : Z;
  u_last_error : string;
  u_scheduled_at : option Z;
  u_started_at : option Z;
  u_lease_expires_at : option Z;
  u_lease_token : option string;
  u_completed_at : option Z;
  u_updated_at : Z;
  u_metadata : gmap string string;
  u_task_metadata : gmap string string;
  u_task_retry_count : Z;
  u_id : string;
  u_fence : string;
}.

Inductive Stmt : Type -> Type :=
| SInsert (r : Row) : Stmt unit
| SSelectId (id : string) : Stmt (option Row)
| SSelectKey (key : string) : Stmt (option Row)
| SUpdate (u : UpdateArgs) : Stmt Z
| SCancel (state : string) (updated_at : Z) (id : string) : Stmt unit
| SClaim (started_at lease_expires_at : Z) (token : string) (updated_at : Z) : Stmt (option Row)
| SRenew (lease_expires_at : Z) (id token : string) : Stmt Z
| SRequeue (limit : Z) : Stmt Z
| SRelease (reason id token : string) : Stmt Z
| SList (state : option string) (bound : option (Z * string)) (limit : Z) : Stmt (list Row).

(** ** Effects on one row *)

Definition set_retry (m : gmap string string) (n : Z) (t : Task) : Task :=
  Task.mkTask (Task.ID t) (Task.Name t) (Task.Payload t) n (Task.MaxRetries t) (Task.Timeout t)
    (Task.CronExpression t) (Task.Queue t) m.

(** SET list of UpdateJob: the lease token is cleared when the job leaves the
    worker. *)
Definition update_row (u : UpdateArgs) (r : Row) : Row :=
  mkRow (r_id r) (r_key r) (set_retry (u_task_metadata u) (u_task_retry_count u) (r_task r))
    (u_state u) (u_attempt u) (u_last_error u) (pg_ts <$> u_scheduled_at u) (pg_ts <$> u_started_at u)
    (pg_ts <$> u_lease_expires_at u)
    (if bool_decide (u_state u ∈ [JobStateCompleted; JobStateDead; JobStatePending]) then None else u_lease_token u)
    (pg_ts <$> u_completed_at u) (r_created_at r) (pg_ts (u_updated_at u)) (u_metadata u).

(** WHERE clause of UpdateJob: the fence. *)
Definition update_guard (u : UpdateArgs) (r : Row) : bool :=
  bool_decide (u_fence u = "")
  || bool_decide (r_lease_token r = Some (u_fence u))
  || (bool_decide (r_state r = JobStatePending) && bool_decide (u_state u = JobStateRunning)
      && bool_decide (r_lease_token r = None)).

Definition set_row_state (st : string) (updated : Z) (r : Row) : Row :=
  mkRow (r_id r) (r_key r) (r_task r) st (r_attempt r) (r_last_error r) (r_scheduled_at r) (r_started_at r)
    (r_lease_expires_at r) (r_lease_token r) (r_completed_at r) (r_created_at r) (pg_ts updated) (r_metadata r).

Definition claim_row (started expires : Z) (token : string) (updated : Z) (r : Row) : Row :=
  mkRow (r_id r) (r_key r) (r_task r) JobStateRunning (r_attempt r + 1) (r_last_error r) (r_scheduled_at r)
    (Some (pg_ts started)) (Some (pg_ts expires)) (Some token) (r_completed_at r) (r_created_at r)
    (pg_ts updated) (r_metadata r).

Definition renew_row (expires now : Z) (r : Row) : Row :=
  mkRow (r_id r) (r_key r) (r_task r) (r_state r) (r_attempt r) (r_last_error r) (r_scheduled_at r)
    (r_started_at r) (Some (pg_ts expires)) (r_lease_token r) (r_completed_at r) (r_created_at r) now (r_metadata r).

(** The CASE of RequeueExpiredRunning. *)
Definition exhausted (r : Row) : bool :=
  (0 <? Task.MaxRetries (r_task r)) && (Task.MaxRetries (r_task r) <=? r_attempt r).

Definition lease_expired_error : string := "job lease expired before completion".

Definition requeue_row (now : Z) (r : Row) : Row :=
  mkRow (r_id r) (r_key r) (r_task r) (if exhausted r then JobStateDead else JobStatePending) (r_attempt r)
    lease_expired_error (if exhausted r then r_scheduled_at r else Some now) None None None
    (r_completed_at r) (r_created_at r) now (r_metadata r).

Definition release_row (reason : string) (now : Z) (r : Row) : Row :=
  mkRow (r_id r) (r_key r) (r_task r) JobStatePending (r_attempt r) reason (r_scheduled_at r) None None None
    (r_completed_at r) (r_created_at r) now (r_metadata r).

(** WHERE id = .. AND state = 'RUNNING' AND lease_token = .. *)
Definition holds_lease (token : string) (r : Row) : bool :=
  bool_decide (r_state r = JobStateRunning) && bool_decide (r_lease_token r = Some token).

(** ** Selections *)

Definition due (now : Z) (r : Row) : bool :=
  bool_decide (r_state r = JobStatePending)
  && match r_scheduled_at r with None => true | Some s => s <=? now end.

(** ORDER BY scheduled_at ASC NULLS LAST. *)
Definition claim_le (r1 r2 : Row) : Prop :=
  match r_scheduled_at r1, r_scheduled_at r2 with
  | _, None => True
  | None, Some _ => False
  | Some a, Some b => a <= b
  end.
#[global] Instance claim_le_dec : RelDecision claim_le.
Proof. intros r1 r2. unfold claim_le. repeat case_match; apply _. Defined.
#[global] Instance claim_le_total : Total claim_le.
Proof. intros r1 r2. unfold claim_le. repeat case_match; auto. lia. Qed.
#[global] Instance claim_le_trans : Transitive claim_le.
Proof. intros r1 r2 r3. unfold claim_le. repeat case_match; try done. lia. Qed.

Definition unlocked (v : PgView) (r : Row) : bool := bool_decide (r_id r ∉ pv_locked v).

(** The rows a selection that locks with SKIP LOCKED visits, in order. *)
Definition visit (v : PgView) (keep : Row -> bool) (le : relation Row) {Hdec : RelDecision le} (t : Table) : list Row :=
  List.filter (unlocked v) (merge_sort le (List.filter keep (pv_scan v t))).

Definition select_claim (v : PgView) (t : Table) : option Row :=
  head (visit v (due (pv_now v)) claim_le t).

Definition expired (now : Z) (r : Row) : bool :=
  bool_decide (r_state r = JobStateRunning)
  && match r_lease_expires_at r with Some e => e <=? now | None => false end.

(** ORDER BY lease_expires_at ASC, on rows where it is not NULL. *)
Definition lease_le (r1 r2 : Row) : Prop :=
  default 0 (r_lease_expires_at r1) <= default 0 (r_lease_expires_at r2).
#[global] Instance lease_le_dec : RelDecision lease_le.
Proof. intros r1 r2. unfold lease_le. apply _. Defined.
#[global] Instance lease_le_total : Total lease_le.
Proof. intros r1 r2. unfold lease_le. lia. Qed.
#[global] Instance lease_le_trans : Transitive lease_le.
Proof. intros r1 r2 r3. unfold lease_le. lia. Qed.

Definition select_expired (v : PgView) (limit : Z) (t : Table) : list Row :=
  take (Z.to_nat limit) (visit v (expired (pv_now v)) lease_le t).

Definition key_taken (k : string) (t : Table) : bool :=
  existsb (fun r => bool_decide (r_key r = Some k)) (rows t).

Section Listing.
Context `{!Collation}.

(** ORDER BY created_at DESC, id DESC. *)
Definition list_le (r1 r2 : Row) : Prop :=
  r_created_at r2 < r_created_at r1 \/ (r_created_at r1 = r_created_at r2 /\ coll_le (r_id r2) (r_id r1)).
#[global] Instance list_le_dec : RelDecision list_le.
Proof. intros r1 r2. unfold list_le. apply _. Defined.
#[global] Instance list_le_total : Total list_le.
Proof.
  intros r1 r2. unfold list_le.
  destruct (Z.lt_trichotomy (r_created_at r1) (r_created_at r2)) as [?|[?|?]]; [by auto| |by auto].
  destruct (total coll_le (r_id r1) (r_id r2)); [right|left]; right; split; done.
Qed.
#[global] Instance list_le_trans : Transitive list_le.
Proof.
  intros r1 r2 r3. unfold list_le. intros [?|[? H1]] [?|[? H2]]; [left; lia..|].
  right. split; [lia|]. by trans (r_id r2).
Qed.

(** (created_at, id) < (ts, id'). *)
Definition before_cursor (bound : Z * string) (r : Row) : bool :=
  (r_created_at r <? bound.1)
  || ((r_created_at r =? bound.1) && bool_decide (coll_le (r_id r) bound.2) && bool_decide (r_id r <> bound.2)).

Definition list_keep (state : option string) (bound : option (Z * string)) (r : Row) : bool :=
  match state with None => true | Some s => bool_decide (r_state r = s) end
  && match bound with None => true | Some b => before_cursor b r end.

Definition select_list (v : PgView) (state : option string) (bound : option (Z * string)) (t : Table) : list Row :=
  merge_sort list_le (List.filter (list_keep state bound) (pv_scan v t)).

(** ** Execution *)

(** UPDATE .. WHERE id = .. AND cond: the number of rows affected. *)
Definition update_where (id : string) (cond : Row -> bool) (f : Row -> Row) (t : Table) : Z * Table :=
  match t !! id with
  | Some r => if cond r then (1, <[id := f r]> t) else (0, t)
  | None => (0, t)
  end.

Definition int4_error : error := Errorf "value is out of range for int4" [].
Definition overflow_error : error := PgError "22003" "".

Definition insert_row (r : Row) (t : Table) : res unit error * Table :=
  if negb (int4 (r_attempt r) && int4 (Task.RetryCount (r_task r)) && int4 (Task.MaxRetries (r_task r)))
  then (Err int4_error, t)
  else match t !! r_id r with
       | Some _ => (Err (PgError "23505" "jobs_pkey"), t)
       | None =>
           match r_key r with
           | Some k => if key_taken k t then (Err (PgError "23505" "jobs_idempotency_key_idx"), t)
                       else (Ok tt, <[r_id r := r]> t)
           | None => (Ok tt, <[r_id r := r]> t)
           end
       end.

Definition requeue_all (now : Z) (rs : list Row) (t : Table) : Table :=
  foldr (fun r t => <[r_id r := requeue_row now r]> t) t rs.

Definition exec_stmt (v : PgView) {X} (s : Stmt X) (t : Table) : res X error * Table :=
  match s with
  | SInsert r => insert_row r t
  | SSelectId id => (Ok (t !! id), t)
  | SSelectKey key => (Ok (find (fun r => bool_decide (r_key r = Some key)) (pv_scan v t)), t)
  | SUpdate u =>
      if negb (int4 (u_attempt u) && int4 (u_task_retry_count u)) then (Err int4_error, t)
      else let '(n, t') := update_where (u_id u) (update_guard u) (update_row u) t in (Ok n, t')
  | SCancel st updated id =>
      let '(_, t') := update_where id (fun _ => true) (set_row_state st updated) t in (Ok tt, t')
  | SClaim started expires token updated =>
      match select_claim v t with
      | None => (Ok None, t)
      | Some r =>
          if int4 (r_attempt r + 1)
          then let r' := claim_row started expires token updated r in (Ok (Some r'), <[r_id r := r']> t)
          else (Err overflow_error, t)
      end
  | SRenew expires id token =>
      let '(n, t') := update_where id (holds_lease token) (renew_row expires (pv_now v)) t in (Ok n, t')
  | SRequeue limit =>
      let rs := select_expired v limit t in
      (Ok (Z.of_nat (length rs)), requeue_all (pv_now v) rs t)
  | SRelease reason id token =>
      let '(n, t') := update_where id (holds_lease token) (release_row reason (pv_now v)) t in (Ok n, t')
  | SList st bound limit => (Ok (take (Z.to_nat limit) (select_list v st bound t)), t)
  end.
End Listing.

(** ** Well-formed tables: keys are row ids, idempotency keys are unique *)

Definition wf_table (t : Table) : Prop :=
  (forall id r, t !! id = Some r -> r_id r = id) /\
  (forall id1 id2 r1 r2 k, t !! id1 = Some r1 -> t !! id2 = Some r2 ->
     r_key r1 = Some k -> r_key r2 = Some k -> id1 = id2).

Lemma elem_of_rows t r : r ∈ rows t <-> exists id, t !! id = Some r.
Proof.
  unfold rows. rewrite list_elem_of_fmap. split.
  - intros ([id r'] & -> & H). exists id. by apply elem_of_map_to_list.
  - intros [id H]. exists (id, r). split; [done|]. by apply elem_of_map_to_list.
Qed.

Lemma elem_of_rows_wf t r : wf_table t -> (r ∈ rows t <-> t !! r_id r = Some r).
Proof.
  intros [Hid _]. rewrite elem_of_rows. split; [|by eauto].
  intros [id H]. by rewrite (Hid id r H).
Qed.

Lemma rows_NoDup t : wf_table t -> NoDup (r_id <$> rows t).
Proof.
  intros Hwf. unfold rows. rewrite <- list_fmap_compose.
  rewrite (list_fmap_ext _ fst); [apply NoDup_fst_map_to_list|].
  intros i [id r] Hi%list_elem_of_lookup_2%elem_of_map_to_list. by apply Hwf in Hi.
Qed.

Lemma key_taken_spec k t : key_taken k t = true <-> exists id r, t !! id = Some r /\ r_key r = Some k.
Proof.
  unfold key_taken. rewrite existsb_exists. split.
  - intros (r & Hin & Hk). bool_to_prop. apply list_elem_of_In, elem_of_rows in Hin as [id Hr]. eauto.
  - intros (id & r & Hr & Hk). exists r. split; [|by apply bool_decide_eq_true].
    apply list_elem_of_In, elem_of_rows. eauto.
Qed.

(** The statements that name the row they write without a test of its state. *)
Inductive Label :=
| LUpdate (u : UpdateArgs)
| LCancel (st : string) (updated : Z) (id : string)
| LOther.

Definition label_of {X} (s : Stmt X) : Label :=
  match s with
  | SUpdate u => LUpdate u
  | SCancel st upd id => LCancel st upd id
  | _ => LOther
  end.

(** What a statement may have done to a row that was there before it. *)
Inductive row_step (v : PgView) : Label -> Row -> Row -> Prop :=
| RSame l r : row_step v l r r
| RUpdate u r : update_guard u r = true -> u_id u = r_id r -> row_step v (LUpdate u) r (update_row u r)
| RCancel st upd r : row_step v (LCancel st upd (r_id r)) r (set_row_state st upd r)
| RClaim a b tok c r :
    due (pv_now v) r = true -> r_id r ∉ pv_locked v -> row_step v LOther r (claim_row a b tok c r)
| RRenew e tok r : holds_lease tok r = true -> row_step v LOther r (renew_row e (pv_now v) r)
| RRequeue r :
    expired (pv_now v) r = true -> r_id r ∉ pv_locked v -> row_step v LOther r (requeue_row (pv_now v) r)
| RRelease reason tok r : holds_lease tok r = true -> row_step v LOther r (release_row reason (pv_now v) r).

#[export] Hint Constructors row_step : conduit.

Lemma elem_of_visit v keep le `{!RelDecision le} t r :
  wf_view v -> (r ∈ visit v keep le t <-> r ∈ rows t /\ keep r = true /\ r_id r ∉ pv_locked v).
Proof.
  intros Hv. unfold visit. rewrite elem_of_bfilter, merge_sort_Permutation, elem_of_bfilter, (Hv t).
  unfold unlocked. rewrite bool_decide_eq_true. tauto.
Qed.

Lemma visit_sorted v keep le `{!RelDecision le, !Transitive le, !Total le} t :
  StronglySorted le (visit v keep le t).
Proof.
  unfold visit. pose proof (StronglySorted_merge_sort le (List.filter keep (pv_scan v t))) as H.
  induction H as [|r l Hl IH Hall]; simpl; [constructor|].
  destruct (unlocked v r); [|done]. constructor; [done|].
  rewrite Forall_forall in *. intros x [Hx _]%elem_of_bfilter. by apply Hall.
Qed.

Lemma visit_NoDup v keep le `{!RelDecision le} t :
  wf_view v -> wf_table t -> NoDup (r_id <$> visit v keep le t).
Proof.
  intros Hv Hwf. unfold visit.
  apply bfilter_NoDup_fmap. rewrite merge_sort_Permutation. apply bfilter_NoDup_fmap. rewrite (Hv t).
  by apply rows_NoDup.
Qed.

Lemma select_claim_spec v t r :
  wf_view v -> select_claim v t = Some r ->
  r ∈ rows t /\ due (pv_now v) r = true /\ (r_id r ∉ pv_locked v) /\
  (forall r', r' ∈ rows t -> due (pv_now v) r' = true -> r_id r' ∉ pv_locked v -> claim_le r r').
Proof.
  intros Hv Hsel. unfold select_claim in Hsel.
  pose proof (visit_sorted v (due (pv_now v)) claim_le t) as Hs.
  destruct (visit v (due (pv_now v)) claim_le t) as [|r0 l] eqn:Hl; [done|]. simplify_eq/=.
  assert (r ∈ visit v (due (pv_now v)) claim_le t) as Hin by (rewrite Hl; set_solver).
  apply elem_of_visit in Hin as (? & ? & ?); [|done]. split_and!; [done..|].
  intros r' Hr' Hd' Hl'. assert (r' ∈ visit v (due (pv_now v)) claim_le t) as Hin' by (by apply elem_of_visit).
  rewrite Hl in Hin'. apply StronglySorted_inv in Hs as [_ Hall].
  apply elem_of_cons in Hin' as [->|Hin']; [by unfold claim_le; repeat case_match; lia|].
  rewrite Forall_forall in Hall. by apply Hall.
Qed.

Lemma select_claim_None v t :
  wf_view v -> select_claim v t = None ->
  forall r, r ∈ rows t -> due (pv_now v) r = true -> r_id r ∈ pv_locked v.
Proof.
  intros Hv Hsel r Hr Hd. unfold select_claim in Hsel.
  destruct (decide (r_id r ∈ pv_locked v)) as [|Hn]; [done|].
  assert (r ∈ visit v (due (pv_now v)) claim_le t) as Hin by (by apply elem_of_visit).
  destruct (visit v (due (pv_now v)) claim_le t); [by apply not_elem_of_nil in Hin|done].
Qed.

Lemma elem_of_select_expired v limit t r :
  wf_view v -> r ∈ select_expired v limit t ->
  r ∈ rows t /\ expired (pv_now v) r = true /\ r_id r ∉ pv_locked v.
Proof.
  intros Hv Hr. unfold select_expired in Hr. apply (elem_of_visit v _ lease_le t r Hv).
  rewrite <- (take_drop (Z.to_nat limit) (visit v (expired (pv_now v)) lease_le t)), elem_of_app. auto.
Qed.

Lemma select_expired_NoDup v limit t :
  wf_view v -> wf_table t -> NoDup (r_id <$> select_expired v limit t).
Proof.
  intros Hv Hwf. unfold select_expired. rewrite fmap_take.
  pose proof (visit_NoDup v (expired (pv_now v)) lease_le t Hv Hwf) as Hnd.
  rewrite <- (take_drop (Z.to_nat limit) (r_id <$> visit v (expired (pv_now v)) lease_le t)) in Hnd.
  by apply NoDup_app in Hnd as [? _].
Qed.

Lemma requeue_all_other now rs t id : id ∉ r_id <$> rs -> requeue_all now rs t !! id = t !! id.
Proof.
  induction rs as [|r rs IH]; [done|]. rewrite fmap_cons, not_elem_of_cons. intros [Hne Hin].
  simpl. rewrite lookup_insert_ne by done. by apply IH.
Qed.

Lemma requeue_all_hit now rs t r :
  NoDup (r_id <$> rs) -> r ∈ rs -> requeue_all now rs t !! r_id r = Some (requeue_row now r).
Proof.
  induction rs as [|r0 rs IH]; [by intros _ ?%elem_of_nil|]. rewrite fmap_cons, NoDup_cons.
  intros [Hnin Hnd]. rewrite elem_of_cons. intros [->|Hr]; simpl; [by rewrite lookup_insert_eq|].
  rewrite lookup_insert_ne; [by apply IH|]. intros Heq. apply Hnin. rewrite Heq.
  apply list_elem_of_fmap. eauto.
Qed.

Lemma requeue_all_lookup v limit t id r :
  wf_view v -> wf_table t -> t !! id = Some r ->
  requeue_all (pv_now v) (select_expired v limit t) t !! id =
    Some (if decide (r ∈ select_expired v limit t) then requeue_row (pv_now v) r else r).
Proof.
  intros Hv Hwf Hr. pose proof (select_expired_NoDup v limit t Hv Hwf) as Hnd.
  destruct Hwf as [Hid Hkey]. pose proof (Hid _ _ Hr) as <-. case_decide as Hin.
  - by apply requeue_all_hit.
  - rewrite requeue_all_other; [done|]. intros (r' & Heq & Hr')%list_elem_of_fmap.
    pose proof Hr' as (Hrows & _)%elem_of_select_expired; [|done].
    apply elem_of_rows_wf in Hrows; [|done]. rewrite <- Heq in Hrows. by simplify_eq.
Qed.

Lemma update_where_lookup id cond f t id' r :
  t !! id' = Some r ->
  (update_where id cond f t).2 !! id' =
    Some (if decide (id = id' /\ cond r = true) then f r else r).
Proof.
  intros Hr. unfold update_where. destruct (decide (id = id')) as [->|Hne].
  - rewrite Hr. destruct (cond r) eqn:Hc; simpl.
    + by rewrite lookup_insert_eq, decide_True.
    + rewrite Hr, decide_False; [done|]. by intros [_ ?].
  - rewrite decide_False by (by intros [? _]). repeat case_match; simpl; rewrite ?lookup_insert_ne; done.
Qed.

Lemma update_where_None id cond f t id' :
  t !! id' = None -> (update_where id cond f t).2 !! id' = None.
Proof.
  intros Hr. unfold update_where. destruct (decide (id = id')) as [->|Hne].
  - by rewrite Hr.
  - repeat case_match; simpl; rewrite ?lookup_insert_ne; done.
Qed.

(** The number of rows affected is the number of rows that matched. *)
Lemma update_where_count id cond f t :
  (update_where id cond f t).1 = match t !! id with Some r => if cond r then 1 else 0 | None => 0 end.
Proof. unfold update_where. by repeat case_match. Qed.

Section Exec.
Context `{!Collation} (v : PgView) (Hv : wf_view v).

(** No statement deletes a row, and what it does to a row is one of the cases of
    [row_step]. *)
Lemma exec_stmt_row {X} (s : Stmt X) t id r :
  wf_table t -> t !! id = Some r ->
  exists r', (exec_stmt v s t).2 !! id = Some r' /\ row_step v (label_of s) r r'.
Proof.
  intros Hwf Hr. pose proof (proj1 Hwf _ _ Hr) as Hid.
  destruct s as [r0| | |u|st upd id0|a b tok c|e id0 tok|limit|reason id0 tok|st bound limit]; simpl.
  - unfold insert_row. exists r. split; [|constructor].
    repeat case_match; simpl; try done; rewrite lookup_insert_ne; congruence.
  - eauto with conduit.
  - eauto with conduit.
  - case_match; [by eauto with conduit|].
    pose proof (update_where_lookup (u_id u) (update_guard u) (update_row u) t id r Hr) as H'.
    destruct (update_where _ _ _ t) as [n t'] eqn:Hu. simpl in *. rewrite H'.
    eexists. split; [done|]. case_decide as Hd; [|constructor]. destruct Hd as [Heq Hg].
    apply RUpdate; congruence.
  - pose proof (update_where_lookup id0 (fun _ => true) (set_row_state st upd) t id r Hr) as H'.
    destruct (update_where _ _ _ t) as [n t'] eqn:Hu. simpl in *. rewrite H'.
    eexists. split; [done|]. case_decide as Hd; [|constructor]. destruct Hd as [-> _].
    rewrite <- Hid. constructor.
  - destruct (select_claim v t) as [r0|] eqn:Hsel; [|by eauto with conduit].
    apply select_claim_spec in Hsel as (H1 & H2 & H3 & _); [|done]. apply elem_of_rows_wf in H1; [|done].
    case_match; [|by eauto with conduit]. simpl. destruct (decide (r_id r0 = id)) as [Heq|Hne].
    + subst id. rewrite Heq in *. simplify_eq. rewrite lookup_insert_eq. eauto with conduit.
    + rewrite lookup_insert_ne by done. eauto with conduit.
  - pose proof (update_where_lookup id0 (holds_lease tok) (renew_row e (pv_now v)) t id r Hr) as H'.
    destruct (update_where _ _ _ t) as [n t'] eqn:Hu. simpl in *. rewrite H'.
    eexists. split; [done|]. case_decide; [|constructor]. destruct_and!. eauto with conduit.
  - rewrite (requeue_all_lookup v limit t id r) by done. eexists. split; [done|].
    case_decide as Hin; [|constructor]. apply elem_of_select_expired in Hin as (? & ? & ?); [|done].
    eauto with conduit.
  - pose proof (update_where_lookup id0 (holds_lease tok) (release_row reason (pv_now v)) t id r Hr) as H'.
    destruct (update_where _ _ _ t) as [n t'] eqn:Hu. simpl in *. rewrite H'.
    eexists. split; [done|]. case_decide; [|constructor]. destruct_and!. eauto with conduit.
  - eauto with conduit.
Qed.

(** A row that was not there before was inserted by this statement. *)
Lemma exec_stmt_fresh {X} (s : Stmt X) t id r' :
  wf_table t -> t !! id = None -> (exec_stmt v s t).2 !! id = Some r' ->
  r_id r' = id /\ (forall k, r_key r' = Some k -> key_taken k t = false) /\ is_ok (exec_stmt v s t).1 = true /\
  match s with SInsert r => r' = r | _ => False end.
Proof.
  intros Hwf Hr. assert (forall id0 cond f, (update_where id0 cond f t).2 !! id = None) as Hup
    by (intros; by apply update_where_None).
  destruct s as [r0| | |u|st upd id0|a b tok c|e id0 tok|limit|reason id0 tok|st bound limit]; simpl; try congruence.
  - unfold insert_row. repeat case_match; simpl; intros Hl; try congruence;
      apply lookup_insert_Some in Hl as [[<- <-]|[? ?]]; try congruence; split_and!; try done; intros; congruence.
  - case_match; [simpl; congruence|]. specialize (Hup (u_id u) (update_guard u) (update_row u)).
    destruct (update_where _ _ _ t). simpl in *. congruence.
  - specialize (Hup id0 (fun _ => true) (set_row_state st upd)). destruct (update_where _ _ _ t). simpl in *. congruence.
  - destruct (select_claim v t) as [r0|] eqn:Hsel; simpl; [|congruence].
    apply select_claim_spec in Hsel as (H1 & _); [|done]. apply elem_of_rows_wf in H1; [|done].
    case_match; simpl; [|congruence]. rewrite lookup_insert_ne by congruence. congruence.
  - specialize (Hup id0 (holds_lease tok) (renew_row e (pv_now v))). destruct (update_where _ _ _ t). simpl in *. congruence.
  - rewrite requeue_all_other; [congruence|]. intros (r0 & -> & Hin)%list_elem_of_fmap.
    apply elem_of_select_expired in Hin as (H1 & _); [|done]. apply elem_of_rows_wf in H1; [|done]. congruence.
  - specialize (Hup id0 (holds_lease tok) (release_row reason (pv_now v))). destruct (update_where _ _ _ t). simpl in *. congruence.
Qed.

(** The columns no statement writes after the INSERT. *)
Definition same_identity (r r' : Row) : Prop :=
  r_id r' = r_id r /\ r_key r' = r_key r /\ r_created_at r' = r_created_at r /\
  Task.ID (r_task r') = Task.ID (r_task r) /\ Task.Name (r_task r') = Task.Name (r_task r) /\
  Task.Payload (r_task r') = Task.Payload (r_task r) /\ Task.MaxRetries (r_task r') = Task.MaxRetries (r_task r) /\
  Task.Timeout (r_task r') = Task.Timeout (r_task r) /\
  Task.CronExpression (r_task r') = Task.CronExpression (r_task r) /\ Task.Queue (r_task r') = Task.Queue (r_task r).

Lemma row_step_identity l r r' : row_step v l r r' -> same_identity r r'.
Proof. by destruct 1. Qed.

(** Every statement keeps the table well formed. *)
Lemma exec_stmt_wf {X} (s : Stmt X) t : wf_table t -> wf_table (exec_stmt v s t).2.
Proof.
  intros Hwf.
  assert (forall id r', (exec_stmt v s t).2 !! id = Some r' ->
    (exists r, t !! id = Some r /\ same_identity r r') \/
    (t !! id = None /\ r_id r' = id /\ (forall k, r_key r' = Some k -> key_taken k t = false) /\
     match s with SInsert r => r' = r | _ => False end)) as Hcase.
  { intros id r' Hr'. destruct (t !! id) as [r|] eqn:Hr.
    - left. exists r. split; [done|]. destruct (exec_stmt_row s t id r Hwf Hr) as (r'' & Hr'' & Hs).
      simplify_eq. by eapply row_step_identity.
    - right. destruct (exec_stmt_fresh s t id r' Hwf Hr Hr') as (? & ? & _ & ?). auto. }
  pose proof Hwf as [Hid Hkey]. split.
  - intros id r' [(r & Hr & Hsame & _)|(_ & ? & _)]%Hcase; [|done]. rewrite Hsame. by apply Hid.
  - intros id1 id2 r1' r2' k H1 H2 Hk1 Hk2.
    apply Hcase in H1 as [(r1 & Hr1 & _ & Hkey1 & _)|(Hn1 & Hid1 & Hf1 & Hs1)];
    apply Hcase in H2 as [(r2 & Hr2 & _ & Hkey2 & _)|(Hn2 & Hid2 & Hf2 & Hs2)].
    + apply (Hkey id1 id2 r1 r2 k); congruence.
    + specialize (Hf2 k Hk2). enough (key_taken k t = true) by congruence.
      apply key_taken_spec. exists id1, r1. split; congruence.
    + specialize (Hf1 k Hk1). enough (key_taken k t = true) by congruence.
      apply key_taken_spec. exists id2, r2. split; congruence.
    + destruct s; try done. congruence.
Qed.
End Exec.

#[export] Hint Resolve exec_stmt_wf : conduit.
