(* ===== verification/Effects.v ===== *)
(** * The shared world of a running server

    The effects the code performs ([Ev]), the world they act on, and [handle], the
    meaning of one effect.  Everything outside the program's control (the clock,
    random bytes, failing connections, cancellation, what a task handler answers) is
    an oracle indexed by the number of effects performed so far, so that a theorem
    quantifies over every environment and a witness computes with a concrete one. *)

From S2P Require Import Prelude GoLib Models Float64 Breaker Sql.

(** ** Redis nodes: key to value and expiry instant *)

Abbreviation Node := (gmap string (string * Z)).

(** SET key value NX with a time to live: succeeds when the key is absent or has
    expired. *)
Definition node_setnx (now : Z) (key value : string) (ttl : Z) (n : Node) : bool * Node :=
  match n !! key with
  | Some (_, expiry) => if now <? expiry then (false, n) else (true, <[key := (value, now + ttl)]> n)
  | None => (true, <[key := (value, now + ttl)]> n)
  end.

(** The release script of internal/lock: delete the key only when it holds the
    caller's token. *)
Definition node_release (now : Z) (key value : string) (n : Node) : Z * Node :=
  match n !! key with
  | Some (v, expiry) => if (now <? expiry) && bool_decide (v = value) then (1, delete key n) else (0, n)
  | None => (0, n)
  end.

(** ** Metrics *)

Record Metrics := mkMetrics {
  JobEnqueued : Z;
  JobStarted : Z;
  JobCompleted : Z;
  JobFailed : Z;
  JobCancelled : Z;
  WorkerInFlight : Z;
  JobDurationCount : Z;
}.

Inductive MetricOp := IncEnqueued | IncStarted | IncCompleted | IncFailed | IncCancelled
                    | IncInFlight | DecInFlight | ObserveDuration.

Definition metric (op : MetricOp) (m : Metrics) : Metrics :=
  let '(mkMetrics e s c f x w d) := m in
  match op with
  | IncEnqueued => mkMetrics (e + 1) s c f x w d
  | IncStarted => mkMetrics e (s + 1) c f x w d
  | IncCompleted => mkMetrics e s (c + 1) f x w d
  | IncFailed => mkMetrics e s c (f + 1) x w d
  | IncCancelled => mkMetrics e s c f (x + 1) w d
  | IncInFlight => mkMetrics e s c f x (w + 1) d
  | DecInFlight => mkMetrics e s c f x (w - 1) d
  | ObserveDuration => mkMetrics e s c f x w (d + 1)
  end.

(** ** Effects *)

(** Background work the code starts or stops. *)
Inductive Goroutine :=
| GPublish (topic : string) (job : Job)
| GRenew (job : Job) (lease interval : Z)
| GStopRenew (job : Job).

(** How a task handler ends. *)
Inductive Outcome :=
| Finished (err : option error)
| Panicked.

Inductive Ev : Type -> Type :=
| ENow : Ev Z
| ERand (n : nat) : Ev (option (list Z))
| EFloat : Ev f64
| ESql {X} (s : Stmt X) : Ev (res X error)
| ESetNX (i : nat) (key value : string) (ttl : Z) : Ev (res bool error)
| ERelease (i : nat) (key value : string) : Ev (res Z error)
| EAllow : Ev bool
| ESuccess : Ev unit
| EFailure : Ev unit
| EMetric (op : MetricOp) : Ev unit
| ECtxErr : Ev (option error)
| EWait (d : Z) : Ev (option error)
| EHandler (job : Job) : Ev Outcome
| ESubmit (job : Job) : Ev bool
| EGo (g : Goroutine) : Ev unit.

Record World := mkWorld {
  w_tick : nat;
  w_db : Table;
  w_nodes : list Node;
  w_breaker : Breaker.Breaker;
  w_metrics : Metrics;
  w_go : list Goroutine;
  w_submitted : list Job;
  w_handled : list Job;
}.

(** A call over the network may fail before or after it took effect. *)
Inductive Fault := NoFault | FailBefore (e : error) | FailAfter (e : error).

Class Env := {
  env_now : nat -> Z;
  env_rand : nat -> nat -> option (list Z);
  env_float : nat -> f64;
  env_view : nat -> PgView;
  env_sql : nat -> Fault;
  env_redis : nat -> Fault;
  env_ctx : nat -> option error;
  env_handler : nat -> Job -> Outcome;
  env_submit : nat -> Job -> bool;
}.

Definition wf_env (env : Env) : Prop := forall n, wf_view (env_view n).

(** Random bytes come in the number asked for, each a byte. *)
Definition rand_bytes_ok (env : Env) : Prop :=
  forall n k l, env_rand n k = Some l -> length l = k /\ Forall is_byte l.

Section Handle.
Context {coll : Collation} {env : Env}.

Definition with_fault {X} (f : Fault) (effect : res X error * World) (skipped : World) : res X error * World :=
  match f with
  | NoFault => effect
  | FailBefore e => (Err e, skipped)
  | FailAfter e => (Err e, effect.2)
  end.

Definition tick (w : World) : World :=
  mkWorld (S (w_tick w)) (w_db w) (w_nodes w) (w_breaker w) (w_metrics w) (w_go w) (w_submitted w) (w_handled w).
Definition set_db db (w : World) : World :=
  mkWorld (w_tick w) db (w_nodes w) (w_breaker w) (w_metrics w) (w_go w) (w_submitted w) (w_handled w).
Definition set_nodes ns (w : World) : World :=
  mkWorld (w_tick w) (w_db w) ns (w_breaker w) (w_metrics w) (w_go w) (w_submitted w) (w_handled w).
Definition set_breaker b (w : World) : World :=
  mkWorld (w_tick w) (w_db w) (w_nodes w) b (w_metrics w) (w_go w) (w_submitted w) (w_handled w).
Definition set_metrics m (w : World) : World :=
  mkWorld (w_tick w) (w_db w) (w_nodes w) (w_breaker w) m (w_go w) (w_submitted w) (w_handled w).
Definition add_go g (w : World) : World :=
  mkWorld (w_tick w) (w_db w) (w_nodes w) (w_breaker w) (w_metrics w) (w_go w ++ [g]) (w_submitted w) (w_handled w).
Definition add_submitted j (w : World) : World :=
  mkWorld (w_tick w) (w_db w) (w_nodes w) (w_breaker w) (w_metrics w) (w_go w) (w_submitted w ++ [j]) (w_handled w).
Definition add_handled j (w : World) : World :=
  mkWorld (w_tick w) (w_db w) (w_nodes w) (w_breaker w) (w_metrics w) (w_go w) (w_submitted w) (w_handled w ++ [j]).

(** A command to node [i]; an absent node answers with an error. *)
Definition on_node {X} (i : nat) (f : Node -> X * Node) (w : World) : res X error * World :=
  match w_nodes w !! i with
  | Some n => let '(x, n') := f n in (Ok x, set_nodes (<[i := n']> (w_nodes w)) w)
  | None => (Err (New "redis: no such node"), w)
  end.

Definition handle (X : Type) (e : Ev X) (w0 : World) : X * World :=
  let n := w_tick w0 in
  let w := tick w0 in
  match e with
  | ENow => (env_now n, w)
  | ERand k => (env_rand n k, w)
  | EFloat => (env_float n, w)
  | ESql s =>
      let '(x, db') := exec_stmt (env_view n) s (w_db w) in
      with_fault (env_sql n) (x, set_db db' w) w
  | ESetNX i key value ttl =>
      with_fault (env_redis n) (on_node i (node_setnx (env_now n) key value ttl) w) w
  | ERelease i key value =>
      with_fault (env_redis n) (on_node i (node_release (env_now n) key value) w) w
  | EAllow => let '(ok, b) := Breaker.Allow (env_now n) (w_breaker w) in (ok, set_breaker b w)
  | ESuccess => (tt, set_breaker (Breaker.RecordSuccess (w_breaker w)) w)
  | EFailure => (tt, set_breaker (Breaker.RecordFailure (env_now n) (w_breaker w)) w)
  | EMetric op => (tt, set_metrics (metric op (w_metrics w)) w)
  | ECtxErr => (env_ctx n, w)
  | EWait _ => (env_ctx n, w)
  | EHandler job => (env_handler n job, add_handled job w)
  | ESubmit job => let ok := env_submit n job in (ok, if ok then add_submitted job w else w)
  | EGo g => (tt, add_go g w)
  end.

(** Sequential execution, and execution of threads in any order. *)
Definition exec {A} (p : prog Ev A) (w : World) : A * World := run handle p w.

Lemma exec_bind {A B} (p : prog Ev A) (f : A -> prog Ev B) w :
  exec (prog_bind f p) w = let '(a, w') := exec p w in exec (f a) w'.
Proof. apply run_bind. Qed.

Lemma exec_vis {X A} (e : Ev X) (k : X -> prog Ev A) w :
  exec (Vis e k) w = exec (k (handle X e w).1) (handle X e w).2.
Proof. unfold exec. simpl. by destruct (handle X e w). Qed.

(** Every effect takes one tick. *)
Lemma handle_tick X (e : Ev X) w : w_tick (handle X e w).2 = S (w_tick w).
Proof.
  destruct e; simpl; try done.
  - destruct (exec_stmt _ s _). by destruct (env_sql (w_tick w)).
  - destruct (env_redis (w_tick w)); simpl; unfold on_node; simpl; repeat case_match; done.
  - destruct (env_redis (w_tick w)); simpl; unfold on_node; simpl; repeat case_match; done.
  - by destruct (Breaker.Allow _ _).
  - by destruct (env_submit _ _).
Qed.

Lemma exec_tick_le {A} (p : prog Ev A) w : (w_tick w <= w_tick (exec p w).2)%nat.
Proof.
  revert w. induction p as [a|X e k IH]; intros w; [done|]. rewrite exec_vis. etrans; [|apply IH]. rewrite handle_tick. lia.
Qed.

(** *** Effects that leave part of the world alone *)

(** No metric, no handler, nothing started or submitted. *)
Definition quiet (X : Type) (e : Ev X) : Prop :=
  match e with EMetric _ | EHandler _ | EGo _ | ESubmit _ => False | _ => True end.

Definition bookkeeping (w : World) : Metrics * list Job * list Goroutine * list Job :=
  (w_metrics w, w_handled w, w_go w, w_submitted w).

Lemma exec_quiet {A} (p : prog Ev A) w : all_effects quiet p -> bookkeeping (exec p w).2 = bookkeeping w.
Proof.
  apply run_frame. clear. intros X e w He. destruct e; simpl in *; try done.
  - destruct (exec_stmt _ s _). by destruct (env_sql (w_tick w)).
  - destruct (env_redis (w_tick w)); simpl; unfold on_node; simpl; repeat case_match; done.
  - destruct (env_redis (w_tick w)); simpl; unfold on_node; simpl; repeat case_match; done.
  - by destruct (Breaker.Allow _ _).
Qed.

(** No statement. *)
Definition no_sql (X : Type) (e : Ev X) : Prop := match e with ESql _ => False | _ => True end.

Lemma handle_no_sql X (e : Ev X) w : no_sql X e -> w_db (handle X e w).2 = w_db w.
Proof.
  intros He. destruct e; simpl in *; try done.
  - destruct (env_redis (w_tick w)); simpl; unfold on_node; simpl; repeat case_match; done.
  - destruct (env_redis (w_tick w)); simpl; unfold on_node; simpl; repeat case_match; done.
  - by destruct (Breaker.Allow _ _).
  - by destruct (env_submit _ _).
Qed.

Lemma exec_no_sql {A} (p : prog Ev A) w : all_effects no_sql p -> w_db (exec p w).2 = w_db w.
Proof. apply run_frame. intros X e w'. apply handle_no_sql. Qed.

(** The table after one effect is the table before it, or the table after one
    statement executed on it. *)
Lemma handle_db X (e : Ev X) w :
  w_db (handle X e w).2 = w_db w \/
  exists Y (s : Stmt Y), w_db (handle X e w).2 = (exec_stmt (env_view (w_tick w)) s (w_db w)).2.
Proof.
  destruct e; simpl; auto.
  - destruct (exec_stmt _ s _) as [x db'] eqn:He. destruct (env_sql (w_tick w)); simpl; auto;
      right; exists X, s; by rewrite He.
  - left. destruct (env_redis (w_tick w)); simpl; try done; unfold on_node; simpl; repeat case_match; done.
  - left. destruct (env_redis (w_tick w)); simpl; try done; unfold on_node; simpl; repeat case_match; done.
  - left. by destruct (Breaker.Allow _ _).
  - left. by case_match.
Qed.

(** A property of tables that every statement keeps is kept by every interleaving of
    any threads. *)
Lemma handle_db_invariant (Inv : Table -> Prop) :
  (forall n X (s : Stmt X) t, Inv t -> Inv (exec_stmt (env_view n) s t).2) ->
  forall X (e : Ev X) w, Inv (w_db w) -> Inv (w_db (handle X e w).2).
Proof. intros Hs X e w Hw. destruct (handle_db X e w) as [->|(Y & s & ->)]; auto. Qed.

Lemma handle_wf_table : wf_env env ->
  forall X (e : Ev X) w, wf_table (w_db w) -> wf_table (w_db (handle X e w).2).
Proof. intros Henv. apply handle_db_invariant. intros. by apply exec_stmt_wf. Qed.
End Handle.
