(* ===== verification/Rely.v ===== *)
(** * Reasoning about one thread among others

    [wp R G p Q w]: from [w], whatever steps the other threads take as long as they stay
    in the relation [R], every step of the program [p] stays in [G] and [p] can only end
    in a result and a world that satisfy [Q].  The relation used for the job table is
    [durable]: it stays well formed, loses no row and never rewrites the columns that
    identify a job.  Every effect of every program is in it. *)

From S2P Require Import Prelude GoLib Models Breaker Sql Effects.

Section Rely.
Context {E : Type -> Type} {W : Type}.
Variable handle : forall X, E X -> W -> X * W.

Fixpoint wp (R G : W -> W -> Prop) {A} (p : prog E A) (Q : A -> W -> Prop) (w : W) : Prop :=
  match p with
  | Ret a => Q a w
  | Vis e k => forall w1, R w w1 -> G w1 (handle _ e w1).2 /\ wp R G (k (handle _ e w1).1) Q (handle _ e w1).2
  end.

Definition stable (R : W -> W -> Prop) {A} (Q : A -> W -> Prop) : Prop := forall a w w1, Q a w -> R w w1 -> Q a w1.

Section One.
Variables R G : W -> W -> Prop.
Context {R_pre : PreOrder R}.

Lemma wp_stable {A} (p : prog E A) Q w w1 : stable R Q -> wp R G p Q w -> R w w1 -> wp R G p Q w1.
Proof. intros HQ. destruct p as [a|X e k]; simpl; [apply HQ|]. intros H H1 w2 H2. apply H. by transitivity w1. Qed.

Lemma wp_bind {A B} (p : prog E A) (f : A -> prog E B) Q w :
  wp R G p (fun a w1 => wp R G (f a) Q w1) w -> wp R G (prog_bind f p) Q w.
Proof.
  revert w. induction p as [a|X e k IH]; intros w; simpl; [done|]. intros H w1 H1. destruct (H w1 H1). auto.
Qed.

Lemma wp_mono {A} (p : prog E A) (Q Q' : A -> W -> Prop) w :
  (forall a w1, Q a w1 -> Q' a w1) -> wp R G p Q w -> wp R G p Q' w.
Proof.
  intros HQ. revert w. induction p as [a|X e k IH]; intros w; simpl; [auto|]. intros H w1 H1. destruct (H w1 H1). auto.
Qed.
End One.

(** Threads that each satisfy their postcondition among steps of [R i] satisfy it in every
    interleaving, when what each guarantees is what the others rely on. *)
Lemma csteps_wp {A} (R G : nat -> W -> W -> Prop) (Q : nat -> A -> W -> Prop) (c c' : list (prog E A) * W) :
  (forall i, PreOrder (R i)) -> (forall i, stable (R i) (Q i)) ->
  (forall i j X (e : E X) w, (i < length c.1)%nat -> (j < length c.1)%nat -> i <> j ->
     G i w (handle X e w).2 -> R j w (handle X e w).2) ->
  (forall i p, c.1 !! i = Some p -> wp (R i) (G i) p (Q i) c.2) ->
  csteps handle c c' ->
  forall i p, c'.1 !! i = Some p -> wp (R i) (G i) p (Q i) c'.2.
Proof.
  intros HR HQ HG H0 Hsteps. revert HG H0. induction Hsteps as [c|c1 c2 c3 Hs _ IH]; [done|].
  intros HG H1. apply IH; clear IH c3; destruct Hs as [ts1 j p w1 p' w2 Hj Hstep]; simpl in *.
  { by rewrite length_insert. }
  pose proof (H1 _ _ Hj) as Hp. destruct p as [a|X e k]; simpl in Hstep; [done|].
  destruct (Hp w1 (reflexivity w1)) as [Hg Hk].
  intros i q [(<- & <- & _)|[Hne Hi]]%list_lookup_insert_Some.
  - destruct (handle X e w1). by simplify_eq/=.
  - apply (wp_stable (R i) (G i) q (Q i) w1); [done|by apply H1|].
    pose proof (HG j i X e w1 ltac:(by eapply lookup_lt_Some) ltac:(by eapply lookup_lt_Some) Hne Hg) as Hr.
    destruct (handle X e w1). by simplify_eq/=.
Qed.
End Rely.

(** No promise to the others. *)
Definition any_step (w w' : World) : Prop := True.

(** ** The job table between two steps *)

Lemma same_identity_refl r : same_identity r r.
Proof. done. Qed.

Lemma same_identity_trans r1 r2 r3 : same_identity r1 r2 -> same_identity r2 r3 -> same_identity r1 r3.
Proof. unfold same_identity. intuition congruence. Qed.

#[export] Hint Resolve same_identity_refl same_identity_trans : conduit.

Definition durable (w w' : World) : Prop :=
  wf_table (w_db w) ->
  wf_table (w_db w') /\
  forall id r, w_db w !! id = Some r -> exists r', w_db w' !! id = Some r' /\ same_identity r r'.

#[global] Instance durable_pre : PreOrder durable.
Proof.
  split.
  - intros w Hwf. eauto with conduit.
  - intros w1 w2 w3 H12 H23 Hwf. destruct (H12 Hwf) as [Hwf2 Hid2]. destruct (H23 Hwf2) as [Hwf3 Hid3].
    split; [done|]. intros id r Hr. destruct (Hid2 id r Hr) as (r2 & Hr2 & Hs2).
    destruct (Hid3 id r2 Hr2) as (r3 & Hr3 & Hs3). eauto with conduit.
Qed.

Lemma handle_durable {coll : Collation} {env : Env} X (e : Ev X) w :
  wf_env env -> durable w (handle X e w).2.
Proof.
  intros Henv Hwf. split; [by apply handle_wf_table|]. intros id r Hr.
  destruct (handle_db X e w) as [->|(Y & s & ->)]; [by eauto with conduit|].
  destruct (exec_stmt_row _ (Henv (w_tick w)) s _ id r Hwf Hr) as (r2 & Hr2 & Hstep).
  exists r2. split; [done|]. by eapply row_step_identity.
Qed.

Lemma csteps_durable {coll : Collation} {env : Env} {A} (c c' : list (prog Ev A) * World) :
  wf_env env -> csteps handle c c' -> durable c.2 c'.2.
Proof.
  intros Henv Hsteps. apply (csteps_invariant handle (durable c.2) c c'); [|done|reflexivity].
  intros X e w Hw. transitivity w; [done|]. by apply handle_durable.
Qed.
