(* ===== verification/Store.v ===== *)
(** * internal/store: PostgresStore

    Every method is a program over the effects of [Effects]: it reads the clock or
    random bytes, sends its statements one by one, and decides on the answers, as
    store.go does.  UpdateJob and CancelJob are two statements, so other threads can
    run between their SELECT and their UPDATE.

    [scan_null] is what pgx's [Scan] gives for an SQL NULL read into a Go string:
    [None] is a scan error, which is what pgx v5 documents. *)

From S2P Require Import Prelude GoLib Models Breaker Sql Effects.

(** ** errors.go *)

Definition msg_not_found : string := "store: job not found".
Definition msg_invalid_transition : string := "store: invalid state transition".
Definition msg_duplicate_key : string := "store: duplicate idempotency key".
Definition ErrJobNotFound : error := New msg_not_found.
Definition ErrInvalidTransition : error := New msg_invalid_transition.
Definition ErrDuplicateIdempotencyKey : error := New msg_duplicate_key.

(** [pgx.ErrNoRows] and the scan error of pgx. *)
Definition msg_no_rows : string := "no rows in result set".
Definition ErrNoRows : error := New msg_no_rows.
Definition scan_error : error := Errorf "cannot scan NULL into *string" [].
Definition rand_error : error := Errorf "crypto/rand: read failed" [].

Class Pgx := { scan_null : option string }.

(** ** The state machine *)

Definition CanTransition (from to : JobState) : bool :=
  if bool_decide (from = JobStateCompleted) || bool_decide (from = JobStateDead) then false
  else if bool_decide (from = JobStatePending) then
    bool_decide (to = JobStateRunning) || bool_decide (to = JobStateDead)
  else if bool_decide (from = JobStateRunning) then
    bool_decide (to = JobStateCompleted) || bool_decide (to = JobStateFailed) || bool_decide (to = JobStateDead)
  else if bool_decide (from = JobStateFailed) then
    bool_decide (to = JobStatePending) || bool_decide (to = JobStateDead)
  else false.

(** ** Rows and jobs *)

Definition nullableString (value : string) : option string :=
  if bool_decide (value = "") then None else Some value.

(** The row CreateJob inserts. *)
Definition job_row (job : Job) : Row :=
  mkRow (Job.ID job) (nullableString (Job.IdempotencyKey job)) (Job.Task job) (Job.State job) (Job.Attempt job)
    (Job.LastError job) (pg_ts <$> Job.ScheduledAt job) (pg_ts <$> Job.StartedAt job)
    (pg_ts <$> Job.LeaseExpiresAt job) (nullableString (Job.LeaseToken job)) (pg_ts <$> Job.CompletedAt job)
    (pg_ts (Job.CreatedAt job)) (pg_ts (Job.UpdatedAt job)) (Job.Metadata job).

(** The parameters UpdateJob passes. *)
Definition update_args (job : Job) (now : Z) : UpdateArgs :=
  mkUpdateArgs (Job.State job) (Job.Attempt job) (Job.LastError job) (Job.ScheduledAt job) (Job.StartedAt job)
    (Job.LeaseExpiresAt job) (nullableString (Job.LeaseToken job)) (Job.CompletedAt job) now (Job.Metadata job)
    (Task.Metadata (Job.Task job)) (Task.RetryCount (Job.Task job)) (Job.ID job) (Job.LeaseToken job).

Section Store.
Context {coll : Collation} {env : Env} {pgx : Pgx}.

Definition scan_text (column : option string) : option string :=
  match column with Some s => Some s | None => scan_null end.

Definition scan_row (r : Row) : option Job :=
  key ← scan_text (r_key r);
  token ← scan_text (r_lease_token r);
  Some (Job.mkJob (r_id r) key (r_task r) (r_state r) (r_attempt r) (r_scheduled_at r) (r_started_at r)
          (r_lease_expires_at r) token (r_completed_at r) (r_last_error r) (r_metadata r)
          (r_created_at r) (r_updated_at r)).

Definition scanJob (row : res (option Row) error) : res Job error :=
  match row with
  | Err e => Err e
  | Ok None => Err ErrNoRows
  | Ok (Some r) => match scan_row r with Some job => Ok job | None => Err scan_error end
  end.

(** The tail shared by GetJob, GetJobByIdempotencyKey and ClaimNextJob. *)
Definition found (r : res Job error) : res Job error :=
  match r with
  | Ok job => Ok job
  | Err e => if errors_Is e msg_no_rows then Err ErrJobNotFound else Err e
  end.

Definition isIdempotencyUniqueViolation (e : error) : bool :=
  match errors_As_pg e with
  | Some (code, constraint) =>
      bool_decide (code = "23505") && bool_decide (constraint = "jobs_idempotency_key_idx")
  | None => false
  end.

Definition newLeaseToken : prog Ev (option string) :=
  perform bytes := ERand 16 in
  Ret (option_map HexEncode bytes).

(** ** The methods *)

Definition CreateJob (job : Job) : prog Ev (option error) :=
  perform now := ENow in
  let job := if IsZero (Job.CreatedAt job) then Job.set_CreatedAt now job else job in
  let job := Job.set_UpdatedAt now job in
  perform r := ESql (SInsert (job_row job)) in
  Ret match r with
       | Ok _ => None
       | Err e => if isIdempotencyUniqueViolation e then Some ErrDuplicateIdempotencyKey else Some e
       end.

Definition GetJob (id : string) : prog Ev (res Job error) :=
  perform r := ESql (SSelectId id) in
  Ret (found (scanJob r)).

Definition GetJobByIdempotencyKey (key : string) : prog Ev (res Job error) :=
  perform r := ESql (SSelectKey key) in
  Ret (found (scanJob r)).

Definition affected (r : res Z error) : option error :=
  match r with
  | Err e => Some e
  | Ok n => if n =? 0 then Some ErrInvalidTransition else None
  end.

(** The fenced UPDATE of UpdateJob. *)
Definition write_job (job : Job) : prog Ev (option error) :=
  perform now := ENow in
  perform r := ESql (SUpdate (update_args job now)) in
  Ret (affected r).

Definition UpdateJob (job : Job) : prog Ev (option error) :=
  let! existing := GetJob (Job.ID job) in
  match existing with
  | Err e => Ret (Some e)
  | Ok existing =>
      if negb (CanTransition (Job.State existing) (Job.State job)) then Ret (Some ErrInvalidTransition)
      else write_job job
  end.

Definition CancelJob (id : string) : prog Ev (option error) :=
  let! job := GetJob id in
  match job with
  | Err e => Ret (Some e)
  | Ok job =>
      if negb (CanTransition (Job.State job) JobStateDead) then Ret (Some ErrInvalidTransition)
      else
        perform now := ENow in
        perform r := ESql (SCancel JobStateDead now id) in
        Ret match r with Ok _ => None | Err e => Some e end
  end.

Definition ClaimNextJob (leaseDuration : Z) : prog Ev (res Job error) :=
  perform now := ENow in
  let! token := newLeaseToken in
  match token with
  | None => Ret (Err (wrapf "store: generate lease token: " rand_error))
  | Some token =>
      perform r := ESql (SClaim now (now + leaseDuration) token now) in
      Ret (found (scanJob r))
  end.

Definition RenewLease (job : Job) (leaseDuration : Z) : prog Ev (option error) :=
  if bool_decide (Job.LeaseToken job = "") then Ret (Some ErrInvalidTransition)
  else
    perform now := ENow in
    perform r := ESql (SRenew (now + leaseDuration) (Job.ID job) (Job.LeaseToken job)) in
    Ret (affected r).

Definition RequeueExpiredRunning (limit : Z) : prog Ev (res Z error) :=
  if limit <=? 0 then Ret (Ok 0) else trigger (ESql (SRequeue limit)).

Definition ReleaseClaim (job : Job) (reason : string) : prog Ev (option error) :=
  perform r := ESql (SRelease reason (Job.ID job) (Job.LeaseToken job)) in
  Ret (affected r).

(** ** Listing *)

Record ListFilter := mkListFilter {
  lf_State : JobState;
  lf_Limit : Z;
  lf_Cursor : string;
}.

Definition encodeCursor (t : Z) (id : string) : string :=
  B64Encode (Itoa (t / 1000) +:+ String "|"%char id).

Definition decodeCursor (c : string) : res (Z * string) error :=
  match B64Decode c with
  | None => Err (Errorf "illegal base64 data" [])
  | Some raw =>
      match SplitN2 "|"%char raw with
      | (_, None) => Err (Errorf "malformed cursor" [])
      | (micros, Some id) =>
          match ParseInt 64 micros with
          | None => Err (Errorf "strconv.ParseInt" [])
          | Some m => Ok (m * 1000, id)
          end
      end
  end.

Definition clamp_limit (n : Z) : Z :=
  let n := if n <=? 0 then 50 else n in if 500 <? n then 500 else n.

(** The scan loop: the first row that does not scan ends it with an error. *)
Fixpoint scan_rows (rs : list Row) : res (list Job) error :=
  match rs with
  | [] => Ok []
  | r :: rs' =>
      match scan_row r with
      | None => Err scan_error
      | Some job => match scan_rows rs' with Ok js => Ok (job :: js) | Err e => Err e end
      end
  end.

(** One page: [limit] jobs, and a cursor when one more was there. *)
Definition cut_page (limit : Z) (jobs : list Job) : list Job * string :=
  if limit <? Z.of_nat (length jobs) then
    match jobs !! Z.to_nat (limit - 1) with
    | Some last => (take (Z.to_nat limit) jobs, encodeCursor (Job.CreatedAt last) (Job.ID last))
    | None => (take (Z.to_nat limit) jobs, "")
    end
  else (jobs, "").

Definition ListJobs (filter : ListFilter) : prog Ev (res (list Job * string) error) :=
  let limit := clamp_limit (lf_Limit filter) in
  let state := if bool_decide (lf_State filter = "") then None else Some (lf_State filter) in
  match (if bool_decide (lf_Cursor filter = "") then Ok None
         else match decodeCursor (lf_Cursor filter) with
              | Ok b => Ok (Some b)
              | Err e => Err (wrapf "store: invalid cursor: " e)
              end) with
  | Err e => Ret (Err e)
  | Ok bound =>
      perform r := ESql (SList state bound (limit + 1)) in
      Ret match r with
           | Err e => Err e
           | Ok rs => match scan_rows rs with Ok jobs => Ok (cut_page limit jobs) | Err e => Err e end
           end
  end.

(** ** Lemmas *)

Definition terminal (st : JobState) : Prop := st = JobStateCompleted \/ st = JobStateDead.

Lemma CanTransition_terminal from to : terminal from -> CanTransition from to = false.
Proof. by intros [->| ->]. Qed.

Lemma scan_row_state r job : scan_row r = Some job -> Job.State job = r_state r /\ Job.ID job = r_id r.
Proof.
  unfold scan_row. destruct (scan_text (r_key r)), (scan_text (r_lease_token r)); simpl; by intros [= <-].
Qed.

(** What a read returns is the row that is there. *)
Lemma exec_GetJob id w job w' :
  exec (GetJob id) w = (Ok job, w') ->
  w_db w' = w_db w /\ w_tick w' = S (w_tick w) /\ exists r, w_db w !! id = Some r /\ scan_row r = Some job.
Proof.
  unfold exec, GetJob. simpl. destruct (env_sql (w_tick w)) as [|e|e]; simpl; intros [= Hres <-].
  - split_and!; [done..|]. destruct (w_db w !! id) as [r|] eqn:Hr; simpl in *; [|done].
    exists r. split; [done|]. destruct (scan_row r); simpl in *; by simplify_eq.
  - by destruct (errors_Is e msg_no_rows).
  - by destruct (errors_Is e msg_no_rows).
Qed.

Lemma exec_GetJob_db id w : w_db (exec (GetJob id) w).2 = w_db w.
Proof. unfold exec, GetJob. simpl. by destruct (env_sql (w_tick w)). Qed.

(** ** The store's calls, as one type *)

Inductive StoreCall :=
| CallCreate (job : Job)
| CallUpdate (job : Job)
| CallGet (id : string)
| CallGetByKey (key : string)
| CallCancel (id : string)
| CallClaim (lease : Z)
| CallRenew (job : Job) (lease : Z)
| CallRequeue (limit : Z)
| CallRelease (job : Job) (reason : string)
| CallList (filter : ListFilter).

Definition ignore {A} (p : prog Ev A) : prog Ev unit := let! _ := p in Ret tt.

Definition store_call (c : StoreCall) : prog Ev unit :=
  match c with
  | CallCreate job => ignore (CreateJob job)
  | CallUpdate job => ignore (UpdateJob job)
  | CallGet id => ignore (GetJob id)
  | CallGetByKey key => ignore (GetJobByIdempotencyKey key)
  | CallCancel id => ignore (CancelJob id)
  | CallClaim lease => ignore (ClaimNextJob lease)
  | CallRenew job lease => ignore (RenewLease job lease)
  | CallRequeue limit => ignore (RequeueExpiredRunning limit)
  | CallRelease job reason => ignore (ReleaseClaim job reason)
  | CallList filter => ignore (ListJobs filter)
  end.

Lemma exec_ignore {A} (p : prog Ev A) w : (exec (ignore p) w).2 = (exec p w).2.
Proof. unfold ignore. rewrite exec_bind. by destruct (exec p w). Qed.

Lemma exec_sql {X A} (s : Stmt X) (k : res X error -> prog Ev A) w :
  exists r w', exec (Vis (ESql s) k) w = exec (k r) w' /\ w_tick w' = S (w_tick w) /\
    (w_db w' = w_db w \/ w_db w' = (exec_stmt (env_view (w_tick w)) s (w_db w)).2).
Proof.
  unfold exec. simpl. destruct (exec_stmt _ s (w_db w)) as [x db'] eqn:He.
  destruct (env_sql (w_tick w)); simpl; do 2 eexists; split_and!; eauto.
Qed.

(** The store's methods only read the clock and random bytes and send statements. *)
Lemma UpdateJob_quiet job : all_effects quiet (UpdateJob job).
Proof. unfold UpdateJob, GetJob, write_job. effects. Qed.

Lemma ReleaseClaim_quiet job reason : all_effects quiet (ReleaseClaim job reason).
Proof. unfold ReleaseClaim. effects. Qed.

Lemma ClaimNextJob_quiet lease : all_effects quiet (ClaimNextJob lease).
Proof. unfold ClaimNextJob, newLeaseToken. effects. Qed.

Lemma RequeueExpiredRunning_quiet limit : all_effects quiet (RequeueExpiredRunning limit).
Proof. unfold RequeueExpiredRunning. effects. Qed.
End Store.

#[export] Hint Resolve UpdateJob_quiet ReleaseClaim_quiet ClaimNextJob_quiet RequeueExpiredRunning_quiet : effects.
