(* ===== verification/Concrete.v ===== *)
(** * A concrete environment

    Instances of the parameters, to evaluate the model on given inputs: a collation,
    pgx with its documented treatment of NULL, an environment without faults whose
    clock advances one millisecond per effect, and small tables. *)

From S2P Require Import Prelude GoLib Float64 Models Breaker Sql Effects Store.

(** Strings ordered by their code. *)
#[global] Program Instance code_collation : Collation := {
  coll_le s1 s2 := (encode s1 <= encode s2)%positive;
}.
Next Obligation. intros s1 s2. apply _. Defined.
Next Obligation.
  split; [split; [split|]|].
  - intros s. cbv beta. apply Pos.le_refl.
  - intros s1 s2 s3. cbv beta. apply Pos.le_trans.
  - intros s1 s2 H1 H2. apply (inj encode). by apply Pos.le_antisym.
  - intros s1 s2. unfold strict. destruct (Pos.lt_total (encode s1) (encode s2)) as [H|[H|H]].
    + left. lia.
    + right. left. by apply (inj encode).
    + right. right. lia.
Qed.

(** pgx v5 refuses to scan NULL into a string. *)
Definition pgx_v5 : Pgx := {| scan_null := None |}.

(** A driver that reads NULL as the empty string. *)
Definition pgx_lenient : Pgx := {| scan_null := Some "" |}.

Definition t0 : Z := 1700000000 * Second.

Definition calm_view (n : nat) : PgView :=
  {| pv_now := t0 + Z.of_nat n * Millisecond; pv_locked := ∅; pv_scan := rows |}.

(** No faults; the handler's answer is given. *)
Definition calm_env (outcome : Outcome) : Env := {|
  env_now n := t0 + Z.of_nat n * Millisecond;
  env_rand n k := Some (replicate k (Z.of_nat n mod 256));
  env_float _ := Fin 1 (-1);
  env_view := calm_view;
  env_sql _ := NoFault;
  env_redis _ := NoFault;
  env_ctx _ := None;
  env_handler _ _ := outcome;
  env_submit _ _ := true;
|}.

Lemma calm_env_wf outcome : wf_env (calm_env outcome).
Proof. intros n t. reflexivity. Qed.

Lemma wf_table_singleton r : wf_table {[ r_id r := r ]}.
Proof.
  split.
  - intros id r' [<- <-]%lookup_singleton_Some. done.
  - intros id1 id2 r1 r2 k [<- <-]%lookup_singleton_Some [<- <-]%lookup_singleton_Some. done.
Qed.

Definition zero_metrics : Metrics := mkMetrics 0 0 0 0 0 0 0.

(** A world with the given table, [n] empty Redis nodes and a closed breaker. *)
Definition world (n : nat) (t : Table) : World :=
  mkWorld 0 t (replicate n ∅) (Breaker.New Breaker.main_config) zero_metrics [] [] [].

Definition webhook_task : Task := Task.mkTask "t1" "webhook" "" 0 3 0 "" "default" ∅.

(** A row in the given state, attempt and lease, scheduled at [t0]. *)
Definition sample_row (st : string) (attempt : Z) (token : option string) (expires : option Z) : Row :=
  mkRow "job-1" (Some "key-1") webhook_task st attempt "" (Some t0) None expires token None t0 t0 ∅.

(** The job a worker holds for [sample_row]. *)
Definition sample_job (st : string) (attempt : Z) (token : string) : Job :=
  Job.mkJob "job-1" "key-1" webhook_task st attempt (Some t0) None None token None "" ∅ t0 t0.
