(* ===== verification/StoreSpec.v ===== *)
(** * What the store's methods do

    The state machine and the fence hold call by call, whatever faults, clocks and
    scan orders the environment chooses; every interleaving of any threads keeps the
    table well formed and loses no job. *)

From S2P Require Import Prelude GoLib Models Breaker Sql Effects Rely Store Concrete.

Section StoreSpec.
Context {coll : Collation} {env : Env} {pgx : Pgx}.

(** ** Rows in a terminal state *)

Lemma row_step_terminal v l r r' :
  row_step v l r r' -> terminal (r_state r) ->
  r' = r \/ match l with LUpdate u => u_id u = r_id r | LCancel _ _ id => id = r_id r | LOther => False end.
Proof.
  intros Hs Ht. destruct Hs; auto;
    unfold due, holds_lease, expired in *; bool_to_prop; destruct Ht; state_eq.
Qed.

Lemma exec_stmt_terminal v {X} (s : Stmt X) t id r :
  wf_view v -> wf_table t -> t !! id = Some r -> terminal (r_state r) ->
  match label_of s with LUpdate u => u_id u <> id | LCancel _ _ id' => id' <> id | LOther => True end ->
  (exec_stmt v s t).2 !! id = Some r.
Proof.
  intros Hv Hwf Hr Ht Hl. destruct (exec_stmt_row v Hv s t id r Hwf Hr) as (r' & Hr' & Hs).
  rewrite Hr'. pose proof (proj1 Hwf _ _ Hr) as Hid.
  destruct (row_step_terminal _ _ _ _ Hs Ht) as [->|Hl']; [done|].
  revert Hl Hl'. destruct (label_of s); naive_solver congruence.
Qed.

(** The table after a call that sends one statement. *)
Definition db_after_one {X} (s : Stmt X) (w w' : World) : Prop :=
  w_db w' = w_db w \/ exists v, wf_view v /\ w_db w' = (exec_stmt v s (w_db w)).2.

Lemma exec_one_stmt {X A} (s : Stmt X) (f : res X error -> A) w :
  wf_env env -> db_after_one s w (exec (Vis (ESql s) (fun r => Ret (f r))) w).2.
Proof.
  intros Henv. destruct (exec_sql s (fun r => Ret (f r)) w) as (r & w' & -> & _ & [H|H]).
  - left. exact H.
  - right. exists (env_view (w_tick w)). split; [apply Henv|exact H].
Qed.

Lemma one_stmt_terminal {X} (s : Stmt X) w w' id r :
  db_after_one s w w' -> wf_table (w_db w) -> w_db w !! id = Some r -> terminal (r_state r) ->
  match label_of s with LUpdate u => u_id u <> id | LCancel _ _ id' => id' <> id | LOther => True end ->
  w_db w' !! id = Some r.
Proof. intros [->|(v & Hv & ->)] Hwf Hr Ht Hl; [done|]. by apply exec_stmt_terminal. Qed.

(** A read that precedes a write: the write is not sent when the row it is about is in
    a terminal state. *)
Lemma guarded_write_terminal {X} (id id' : string) (to : JobState) (s : Z -> Stmt X)
    (f : res X error -> option error) w r :
  wf_env env -> wf_table (w_db w) -> w_db w !! id = Some r -> terminal (r_state r) ->
  (forall now, match label_of (s now) with
               | LUpdate u => u_id u = id' | LCancel _ _ i => i = id' | LOther => True end) ->
  w_db (exec (let! existing := GetJob id' in
              match existing with
              | Err e => Ret (Some e)
              | Ok existing =>
                  if negb (CanTransition (Job.State existing) to) then Ret (Some ErrInvalidTransition)
                  else perform now := ENow in perform r := ESql (s now) in Ret (f r)
              end) w).2 !! id = Some r.
Proof.
  intros Henv Hwf Hr Ht Hl. rewrite exec_bind. destruct (exec (GetJob id') w) as [[job|e] w1] eqn:Hget.
  2:{ simpl. replace w1 with (exec (GetJob id') w).2 by (by rewrite Hget). by rewrite exec_GetJob_db. }
  apply exec_GetJob in Hget as (Hdb & _ & r0 & Hr0 & Hscan).
  destruct (negb (CanTransition (Job.State job) to)) eqn:Hc; [simpl; by rewrite Hdb|].
  unfold exec at 1. cbn [run]. change (handle Z ENow w1) with (env_now (w_tick w1), tick w1).
  set (now := env_now (w_tick w1)). fold (@exec coll env (option error) (perform r := ESql (s now) in Ret (f r)) (tick w1)).
  pose proof (exec_one_stmt (s now) f (tick w1) Henv) as Hone.
  eapply one_stmt_terminal; [exact Hone|..]; simpl; rewrite ?Hdb; [done..|].
  specialize (Hl now). revert Hl. destruct (label_of (s now)); [| |done]; intros Hl;
    rewrite Hl; intros Heq; rewrite Heq in Hr0; simplify_eq; apply scan_row_state in Hscan as [Hs _]; rewrite Hs in Hc;
    rewrite CanTransition_terminal in Hc; done.
Qed.

(** Alone, no call changes a row in a terminal state. *)
Lemma exec_call_terminal c w id r :
  wf_env env -> wf_table (w_db w) -> w_db w !! id = Some r -> terminal (r_state r) ->
  w_db (exec (store_call c) w).2 !! id = Some r.
Proof.
  intros Henv Hwf Hr Ht.
  destruct c; simpl store_call; rewrite exec_ignore.
  - unfold CreateJob, exec at 1. cbn [run]. change (handle Z ENow w) with (env_now (w_tick w), tick w).
    eapply one_stmt_terminal; [apply (exec_one_stmt (SInsert _) _ (tick w) Henv)|done..].
  - apply (guarded_write_terminal id (Job.ID job) (Job.State job) (fun now => SUpdate (update_args job now))); done.
  - by rewrite exec_GetJob_db.
  - eapply one_stmt_terminal; [apply (exec_one_stmt (SSelectKey _) _ w Henv)|done..].
  - apply (guarded_write_terminal id id0 JobStateDead (fun now => SCancel JobStateDead now id0)); done.
  - unfold ClaimNextJob, newLeaseToken, exec at 1. cbn [run prog_bind handle].
    destruct (env_rand _ _) as [bytes|]; [|done]. cbn [option_map].
    eapply one_stmt_terminal; [apply (exec_one_stmt (SClaim _ _ _ _) _ (tick (tick w)) Henv)|done..].
  - unfold RenewLease. case_bool_decide; [done|]. unfold exec at 1. cbn [run].
    eapply one_stmt_terminal; [apply (exec_one_stmt (SRenew _ _ _) _ (tick w) Henv)|done..].
  - unfold RequeueExpiredRunning. case_match; [done|].
    eapply one_stmt_terminal; [apply (exec_one_stmt (SRequeue limit) (fun r => r) w Henv)|done..].
  - eapply one_stmt_terminal; [apply (exec_one_stmt (SRelease _ _ _) _ w Henv)|done..].
  - unfold ListJobs. repeat case_match; try done;
      (eapply one_stmt_terminal; [apply (exec_one_stmt (SList _ _ _) _ w Henv)|done..]).
Qed.

(** The call cannot send the UPDATE of UpdateJob or CancelJob for this row. *)
Definition spares (id : string) (c : StoreCall) : Prop :=
  match c with CallUpdate job => Job.ID job <> id | CallCancel id' => id' <> id | _ => True end.

Definition spares_row (id : string) (X : Type) (e : Ev X) : Prop :=
  match e with
  | ESql s => match label_of s with LUpdate u => u_id u <> id | LCancel _ _ id' => id' <> id | LOther => True end
  | _ => True
  end.

Lemma store_call_spares id c : spares id c -> all_effects (spares_row id) (store_call c).
Proof.
  intros Hc. unfold store_call, ignore. destruct c; apply all_effects_bind; try (intros ?; exact I);
    unfold CreateJob, UpdateJob, write_job, CancelJob, GetJob, GetJobByIdempotencyKey, ClaimNextJob, newLeaseToken,
      RenewLease, RequeueExpiredRunning, ReleaseClaim, ListJobs; effects; simpl; by intros.
Qed.

Lemma handle_spares id r X (e : Ev X) w :
  wf_env env -> terminal (r_state r) -> spares_row id X e ->
  wf_table (w_db w) /\ w_db w !! id = Some r ->
  wf_table (w_db (handle X e w).2) /\ w_db (handle X e w).2 !! id = Some r.
Proof.
  intros Henv Ht He [Hwf Hr]. split; [by apply handle_wf_table|].
  destruct e; try (by rewrite handle_no_sql). simpl in He.
  pose proof (exec_stmt_terminal _ s (w_db w) id r (Henv (w_tick w)) Hwf Hr Ht He) as Hs. simpl.
  destruct (exec_stmt _ s _). by destruct (env_sql (w_tick w)).
Qed.

(** C11: a job in COMPLETED or DEAD is final.  No call of the store that runs alone changes
    any column of its row, in any environment; and calls that interleave statement by
    statement leave it as it is too, UpdateJob and CancelJob of that very job apart
    (these two decide on a state they read before; StoreRaces.v shows what then happens). *)
Theorem store_terminal_final w id r :
  wf_env env -> wf_table (w_db w) -> w_db w !! id = Some r -> r_state r = JobStateCompleted \/ r_state r = JobStateDead ->
  (forall c, w_db (exec (store_call c) w).2 !! id = Some r) /\
  (forall cs ts' w',
     (forall job, CallUpdate job ∈ cs -> Job.ID job <> id) -> CallCancel id ∉ cs ->
     csteps handle (store_call <$> cs, w) (ts', w') -> w_db w' !! id = Some r).
Proof.
  intros Henv Hwf Hr Ht. split; [intros c; by apply exec_call_terminal|].
  intros cs ts' w' Hupd Hcan Hsteps.
  apply (csteps_effects_invariant handle (fun w => wf_table (w_db w) /\ w_db w !! id = Some r) (spares_row id)
           (store_call <$> cs, w) (ts', w')); [|exact Hsteps| |by split].
  - intros X e w1. by apply handle_spares.
  - apply Forall_fmap, Forall_forall. intros c Hc. apply store_call_spares. destruct c; simpl; try done.
    + by apply Hupd.
    + by intros ->.
Qed.

(** ** The fence *)

(** The UPDATE of UpdateJob may write this row. *)
Definition fence_open (job : Job) (r : Row) : Prop :=
  Job.LeaseToken job = "" \/ r_lease_token r = Some (Job.LeaseToken job) \/
  (r_state r = JobStatePending /\ Job.State job = JobStateRunning /\ r_lease_token r = None).

#[global] Instance fence_open_dec job r : Decision (fence_open job r).
Proof. unfold fence_open. apply _. Defined.

Lemma update_guard_fence job now r : update_guard (update_args job now) r = true <-> fence_open job r.
Proof.
  unfold update_guard, fence_open. simpl. rewrite !orb_true_iff, !andb_true_iff, !bool_decide_eq_true. tauto.
Qed.

Lemma exec_update v job now t :
  exec_stmt v (SUpdate (update_args job now)) t =
    if negb (int4 (Job.Attempt job) && int4 (Task.RetryCount (Job.Task job))) then (Err int4_error, t)
    else match t !! Job.ID job with
         | Some r => if decide (fence_open job r)
                     then (Ok 1, <[Job.ID job := update_row (update_args job now) r]> t) else (Ok 0, t)
         | None => (Ok 0, t)
         end.
Proof.
  simpl. case_match; [done|]. unfold update_where. cbn [u_id update_args].
  destruct (t !! Job.ID job) as [r|]; [|done]. case_decide as Hf.
  - by apply update_guard_fence with (now := now) in Hf as ->.
  - destruct (update_guard (update_args job now) r) eqn:Hg; [|done].
    by apply update_guard_fence in Hg.
Qed.

Lemma exec_holder_write (f : Row -> Row) id token (t : Table) :
  (forall r, t !! id = Some r -> r_lease_token r <> Some token) ->
  update_where id (holds_lease token) f t = (0, t).
Proof.
  intros Hne. unfold update_where. destruct (t !! id) as [r|] eqn:Hr; [|done].
  unfold holds_lease. rewrite (bool_decide_false (r_lease_token r = Some token)), andb_false_r by auto. done.
Qed.

Lemma with_fault_noop {X} (f : Fault) (r : res X error) w :
  (with_fault f (r, w) w).2 = w /\ ((with_fault f (r, w) w).1 = r \/ exists e, (with_fault f (r, w) w).1 = Err e).
Proof. destruct f; simpl; eauto. Qed.

(** A statement that changes nothing leaves the table alone whether or not its answer
    arrives. *)
Lemma exec_noop_stmt {X A} (s : Stmt X) (r : res X error) (f : res X error -> A) w :
  exec_stmt (env_view (w_tick w)) s (w_db w) = (r, w_db w) ->
  w_db (exec (Vis (ESql s) (fun x => Ret (f x))) w).2 = w_db w /\
  ((exec (Vis (ESql s) (fun x => Ret (f x))) w).1 = f r \/
   exists e, (exec (Vis (ESql s) (fun x => Ret (f x))) w).1 = f (Err e)).
Proof.
  intros Hs. unfold exec. simpl. rewrite Hs. destruct (env_sql (w_tick w)); simpl; eauto.
Qed.

(** C2: a worker that lost its lease cannot write.  When the row no longer carries its
    token (another claim took it over, or the reconciler requeued it), the UPDATE of
    UpdateJob, RenewLease and ReleaseClaim change nothing and report an error, at
    whatever moment between the threads' steps they run. *)
Theorem store_stale_writer_rejected job lease reason w :
  Job.LeaseToken job <> "" ->
  (forall r, w_db w !! Job.ID job = Some r -> ~ fence_open job r) ->
  (w_db (exec (write_job job) w).2 = w_db w /\ is_Some (exec (write_job job) w).1) /\
  (w_db (exec (RenewLease job lease) w).2 = w_db w /\ is_Some (exec (RenewLease job lease) w).1) /\
  (w_db (exec (ReleaseClaim job reason) w).2 = w_db w /\ is_Some (exec (ReleaseClaim job reason) w).1).
Proof.
  intros Htok Hfence.
  assert (forall r, w_db w !! Job.ID job = Some r -> r_lease_token r <> Some (Job.LeaseToken job)) as Hne.
  { intros r Hr Heq. apply (Hfence r Hr). unfold fence_open. auto. }
  assert (forall w1 X (s : Stmt X) r (f : res X error -> option error),
    w_db w1 = w_db w -> exec_stmt (env_view (w_tick w1)) s (w_db w) = (r, w_db w) ->
    is_Some (f r) -> (forall e, is_Some (f (Err e))) ->
    w_db (exec (Vis (ESql s) (fun x => Ret (f x))) w1).2 = w_db w /\
    is_Some (exec (Vis (ESql s) (fun x => Ret (f x))) w1).1) as Hcall.
  { intros w1 X s r f Hdb Hs Hf He. rewrite <- Hdb in *.
    destruct (exec_noop_stmt s r f w1 Hs) as [-> [->|[e ->]]]; auto. }
  split; [|split].
  - unfold write_job, exec. cbn [run handle].
    destruct (negb (int4 (Job.Attempt job) && int4 (Task.RetryCount (Job.Task job)))) eqn:Hi.
    + apply (Hcall (tick w) _ _ (Err int4_error)); [done| |done..|by intros]. by rewrite exec_update, Hi.
    + apply (Hcall (tick w) _ _ (Ok 0)); [done| |done..|by intros]. rewrite exec_update, Hi.
      destruct (w_db w !! Job.ID job) as [r|] eqn:Hr; [|done]. rewrite decide_False by auto. done.
  - unfold RenewLease. rewrite bool_decide_false by done. unfold exec. cbn [run handle].
    apply (Hcall (tick w) _ _ (Ok 0)); [done| |done..|by intros]. simpl. by rewrite exec_holder_write.
  - unfold ReleaseClaim. apply (Hcall w _ _ (Ok 0)); [done| |done..|by intros]. simpl. by rewrite exec_holder_write.
Qed.

(** ** What a successful call did *)

Lemma exec_sql_ok {X A} (s : Stmt X) (f : res X error -> A) w a w' :
  exec (Vis (ESql s) (fun x => Ret (f x))) w = (a, w') ->
  (forall e, f (Err e) <> a) ->
  exists x, exec_stmt (env_view (w_tick w)) s (w_db w) = (Ok x, w_db w') /\ a = f (Ok x).
Proof.
  unfold exec. simpl. destruct (exec_stmt _ s _) as [[x|e] db'] eqn:He; destruct (env_sql (w_tick w)) as [|e'|e'];
    simpl; intros [= <- <-] Hne; try (exfalso; by eapply Hne). by exists x.
Qed.

Lemma CanTransition_edges from to :
  CanTransition from to = true ->
  (from, to) ∈ [(JobStatePending, JobStateRunning); (JobStatePending, JobStateDead);
                (JobStateRunning, JobStateCompleted); (JobStateRunning, JobStateFailed); (JobStateRunning, JobStateDead);
                (JobStateFailed, JobStatePending); (JobStateFailed, JobStateDead)].
Proof.
  unfold CanTransition. case_match; [done|]. repeat (case_bool_decide; [|try done]); subst;
    rewrite ?orb_true_iff, ?bool_decide_eq_true; set_solver.
Qed.

Lemma update_lease_token job now r :
  let token := r_lease_token (update_row (update_args job now) r) in
  (Job.State job ∈ [JobStateCompleted; JobStateDead; JobStatePending] \/ Job.LeaseToken job = "" -> token = None) /\
  (Job.State job ∉ [JobStateCompleted; JobStateDead; JobStatePending] -> Job.LeaseToken job <> "" ->
   token = Some (Job.LeaseToken job)).
Proof.
  simpl. unfold nullableString. split.
  - intros [Hs| ->]; [by rewrite bool_decide_true|by case_bool_decide].
  - intros Hs Ht. by rewrite !bool_decide_false.
Qed.

(** C8: a successful UpdateJob found the job's row, in a state with an edge to the new
    one, under the job's lease token (or none was given, or the row was an unclaimed
    PENDING one being started).  It replaced that row, and no other, by one with the
    job's state, attempt, error, times (to the microsecond), metadata, task metadata and
    retry count, without a lease token when the new state is COMPLETED, DEAD or PENDING;
    the columns that say which job it is are the old ones. *)
Theorem store_update_effect job w w' :
  exec (UpdateJob job) w = (None, w') ->
  let usec (t : Z) := t / 1000 * 1000 in
  let final := [JobStateCompleted; JobStateDead; JobStatePending] in
  exists r r', w_db w !! Job.ID job = Some r /\ w_db w' = <[Job.ID job := r']> (w_db w) /\
    (* the edge and the fence *)
    (r_state r, Job.State job) ∈
      [(JobStatePending, JobStateRunning); (JobStatePending, JobStateDead);
       (JobStateRunning, JobStateCompleted); (JobStateRunning, JobStateFailed); (JobStateRunning, JobStateDead);
       (JobStateFailed, JobStatePending); (JobStateFailed, JobStateDead)] /\
    (Job.LeaseToken job = "" \/ r_lease_token r = Some (Job.LeaseToken job) \/
     (r_state r = JobStatePending /\ Job.State job = JobStateRunning /\ r_lease_token r = None)) /\
    (* written *)
    r_state r' = Job.State job /\ r_attempt r' = Job.Attempt job /\ r_last_error r' = Job.LastError job /\
    r_scheduled_at r' = usec <$> Job.ScheduledAt job /\ r_started_at r' = usec <$> Job.StartedAt job /\
    r_lease_expires_at r' = usec <$> Job.LeaseExpiresAt job /\ r_completed_at r' = usec <$> Job.CompletedAt job /\
    (Job.State job ∈ final \/ Job.LeaseToken job = "" -> r_lease_token r' = None) /\
    (Job.State job ∉ final -> Job.LeaseToken job <> "" -> r_lease_token r' = Some (Job.LeaseToken job)) /\
    r_updated_at r' = usec (env_now (S (w_tick w))) /\ r_metadata r' = Job.Metadata job /\
    Task.Metadata (r_task r') = Task.Metadata (Job.Task job) /\
    Task.RetryCount (r_task r') = Task.RetryCount (Job.Task job) /\
    (* kept *)
    r_id r' = r_id r /\ r_key r' = r_key r /\ r_created_at r' = r_created_at r /\
    Task.ID (r_task r') = Task.ID (r_task r) /\ Task.Name (r_task r') = Task.Name (r_task r) /\
    Task.Payload (r_task r') = Task.Payload (r_task r) /\ Task.MaxRetries (r_task r') = Task.MaxRetries (r_task r) /\
    Task.Timeout (r_task r') = Task.Timeout (r_task r) /\ Task.Queue (r_task r') = Task.Queue (r_task r) /\
    Task.CronExpression (r_task r') = Task.CronExpression (r_task r).
Proof.
  unfold UpdateJob. rewrite exec_bind. destruct (exec (GetJob (Job.ID job)) w) as [[ex|e] w1] eqn:Hget; [|done].
  apply exec_GetJob in Hget as (Hdb & Htick & r & Hr & Hscan). apply scan_row_state in Hscan as [Hst _].
  destruct (negb (CanTransition (Job.State ex) (Job.State job))) eqn:Hc; [done|]. bool_to_prop.
  unfold write_job, exec at 1. cbn [run handle]. intros Hw.
  apply (exec_sql_ok (SUpdate (update_args job (env_now (w_tick w1)))) affected (tick w1)) in Hw as (n & Hs & Hn); [|done].
  rewrite exec_update in Hs. cbn [tick w_db] in Hs. rewrite Hdb, Hr in Hs.
  case_match; [done|]. case_decide as Hf; [|by simplify_eq]. injection Hs as _ Hdb'. rewrite Htick in Hdb'.
  exists r, (update_row (update_args job (env_now (S (w_tick w)))) r).
  destruct (update_lease_token job (env_now (S (w_tick w))) r) as [Hnone Hsome].
  rewrite Hst in Hc. apply CanTransition_edges in Hc.
  split_and!; (exact Hnone || exact Hsome || done || reflexivity).
Qed.

(** Without faults UpdateJob succeeds exactly on an edge of the state machine with an open
    fence. *)
Lemma exec_UpdateJob_ok job w r ex :
  (forall n, env_sql n = NoFault) -> w_db w !! Job.ID job = Some r -> scan_row r = Some ex ->
  CanTransition (r_state r) (Job.State job) = true -> fence_open job r ->
  int4 (Job.Attempt job) && int4 (Task.RetryCount (Job.Task job)) = true ->
  exec (UpdateJob job) w =
    (None, set_db (<[Job.ID job := update_row (update_args job (env_now (S (w_tick w)))) r]> (w_db w)) (tick (tick (tick w)))).
Proof.
  intros Hf Hr Hs Hc Hfence Hi. unfold UpdateJob, GetJob. cbn [prog_bind]. rewrite exec_vis. cbn [handle exec_stmt].
  rewrite Hf. cbn [with_fault fst snd]. change (w_db (tick w)) with (w_db w). rewrite Hr. cbn [scanJob]. rewrite Hs. cbn [found].
  apply scan_row_state in Hs as [Hst _]. rewrite Hst, Hc. cbn [negb]. unfold write_job. rewrite exec_vis.
  cbn [handle fst snd]. rewrite exec_vis. cbn [handle]. rewrite Hf, exec_update, Hi. cbn [negb].
  change (w_db (tick (tick (set_db (w_db w) (tick w))))) with (w_db w).
  rewrite Hr, decide_True by done. done.
Qed.

(** The row a successful claim took, and what it made of it. *)
Definition claimed (lease : Z) (w : World) (job : Job) (w' : World) (r : Row) (bytes : list Z) : Prop :=
  let v := env_view (S (S (w_tick w))) in
  let now := env_now (w_tick w) in
  env_rand (S (w_tick w)) 16 = Some bytes /\
  w_db w !! Job.ID job = Some r /\ due (pv_now v) r = true /\ (r_id r ∉ pv_locked v) /\
  (forall r', r' ∈ rows (w_db w) -> due (pv_now v) r' = true -> r_id r' ∉ pv_locked v -> claim_le r r') /\
  w_db w' = <[Job.ID job := claim_row now (now + lease) (HexEncode bytes) now r]> (w_db w) /\
  Job.State job = JobStateRunning /\ Job.Attempt job = r_attempt r + 1 /\ Job.LeaseToken job = HexEncode bytes /\
  Job.LeaseExpiresAt job = Some (pg_ts (now + lease)) /\ Job.Task job = r_task r.

Lemma exec_ClaimNextJob_ok lease w job w' :
  wf_env env -> wf_table (w_db w) -> exec (ClaimNextJob lease) w = (Ok job, w') ->
  exists r bytes, claimed lease w job w' r bytes.
Proof.
  intros Henv Hwf. unfold ClaimNextJob, newLeaseToken, exec at 1. cbn [run prog_bind handle].
  destruct (env_rand _ 16) as [bytes|] eqn:Hb; [|done]. cbn [option_map]. set (now := env_now (w_tick w)).
  set (token := HexEncode bytes). intros Hc.
  apply (exec_sql_ok (SClaim now (now + lease) token now) (fun r => found (scanJob r)) (tick (tick w))) in Hc
    as (row & Hs & Hj); [|by intros e; simpl; destruct (errors_Is e msg_no_rows)].
  cbn [tick w_tick w_db] in Hs, Hb. set (v := env_view (S (S (w_tick w)))) in *. cbn [exec_stmt] in Hs.
  destruct (select_claim v (w_db w)) as [r|] eqn:Hsel; [|by injection Hs as <- _; cbn in Hj].
  apply select_claim_spec in Hsel as (Hin & Hdue & Hlock & Hmin); [|apply Henv].
  apply elem_of_rows_wf in Hin; [|done]. case_match; [|done]. injection Hs as <- Hdb.
  exists r, bytes. unfold claimed. fold v now. unfold found, scanJob, scan_row in Hj. cbn in Hj.
  destruct (scan_text (r_key r)) as [key|]; simplify_eq/=. split_and!; auto.
Qed.


Lemma expired_spec now r :
  expired now r = true <-> r_state r = JobStateRunning /\ exists e, r_lease_expires_at r = Some e /\ e <= now.
Proof.
  unfold expired. rewrite andb_true_iff, bool_decide_eq_true.
  destruct (r_lease_expires_at r) as [e|]; [rewrite Z.leb_le|]; naive_solver.
Qed.

Lemma due_spec now r :
  due now r = true <-> r_state r = JobStatePending /\ forall t, r_scheduled_at r = Some t -> t <= now.
Proof.
  unfold due. rewrite andb_true_iff, bool_decide_eq_true.
  destruct (r_scheduled_at r) as [t|]; [rewrite Z.leb_le|]; naive_solver.
Qed.

Lemma exhausted_spec r :
  exhausted r = true <-> 0 < Task.MaxRetries (r_task r) /\ Task.MaxRetries (r_task r) <= r_attempt r.
Proof. unfold exhausted. by rewrite andb_true_iff, Z.ltb_lt, Z.leb_le. Qed.

Lemma requeue_row_exhausted now r :
  (0 < Task.MaxRetries (r_task r) /\ Task.MaxRetries (r_task r) <= r_attempt r ->
   r_state (requeue_row now r) = JobStateDead /\ r_scheduled_at (requeue_row now r) = r_scheduled_at r) /\
  (~ (0 < Task.MaxRetries (r_task r) /\ Task.MaxRetries (r_task r) <= r_attempt r) ->
   r_state (requeue_row now r) = JobStatePending /\ r_scheduled_at (requeue_row now r) = Some now).
Proof.
  unfold requeue_row. simpl. rewrite <- exhausted_spec. by destruct (exhausted r).
Qed.

(** C10: RequeueExpiredRunning handles at most [limit] rows, all RUNNING with a lease that
    has expired; the count it returns is their number, and a count below [limit] means no
    such row that could be locked is left.  A handled row becomes DEAD when it has a
    retry limit and its attempts have reached it, else PENDING and due at once; it loses
    its lease and says why, and keeps everything else.  Other rows keep every column. *)
Theorem store_requeue_effect limit w n w' :
  wf_env env -> wf_table (w_db w) -> 0 < limit -> exec (RequeueExpiredRunning limit) w = (Ok n, w') ->
  let now := pv_now (env_view (w_tick w)) in
  exists rs, n = Z.of_nat (length rs) /\ n <= limit /\ NoDup (r_id <$> rs) /\
    (forall id, id ∉ r_id <$> rs -> w_db w' !! id = w_db w !! id) /\
    (forall r, r ∈ rs ->
       w_db w !! r_id r = Some r /\ r_state r = JobStateRunning /\
       (exists e, r_lease_expires_at r = Some e /\ e <= now) /\
       exists r', w_db w' !! r_id r = Some r' /\
         (0 < Task.MaxRetries (r_task r) /\ Task.MaxRetries (r_task r) <= r_attempt r ->
          r_state r' = JobStateDead /\ r_scheduled_at r' = r_scheduled_at r) /\
         (~ (0 < Task.MaxRetries (r_task r) /\ Task.MaxRetries (r_task r) <= r_attempt r) ->
          r_state r' = JobStatePending /\ r_scheduled_at r' = Some now) /\
         r_last_error r' = "job lease expired before completion" /\ r_updated_at r' = now /\
         r_started_at r' = None /\ r_lease_expires_at r' = None /\ r_lease_token r' = None /\
         r_id r' = r_id r /\ r_key r' = r_key r /\ r_task r' = r_task r /\ r_attempt r' = r_attempt r /\
         r_completed_at r' = r_completed_at r /\ r_created_at r' = r_created_at r /\ r_metadata r' = r_metadata r) /\
    (n < limit -> forall id r e, w_db w !! id = Some r -> r_state r = JobStateRunning ->
       r_lease_expires_at r = Some e -> e <= now -> id ∉ pv_locked (env_view (w_tick w)) -> r ∈ rs).
Proof.
  intros Henv Hwf Hlim Hc now. unfold RequeueExpiredRunning in Hc. rewrite (proj2 (Z.leb_gt _ _)) in Hc by done.
  apply (exec_sql_ok (SRequeue limit) (fun r => r)) in Hc as (x & Hs & Hx); [|done]. injection Hx as <-.
  pose proof (Henv (w_tick w)) as Hv. set (v := env_view (w_tick w)) in *.
  injection Hs as Hn Hdb. set (rs := select_expired v limit (w_db w)) in *. exists rs.
  assert (Z.of_nat (length rs) <= limit) as Hle.
  { subst rs. unfold select_expired. rewrite length_take. lia. }
  split_and!; [done|lia|by apply select_expired_NoDup| | |].
  - intros id Hid. rewrite <- Hdb. by apply requeue_all_other.
  - intros r Hr. pose proof Hr as (Hrow & He & _)%elem_of_select_expired; [|done].
    apply elem_of_rows_wf in Hrow; [|done]. apply expired_spec in He as (Hst & e & Hlease & Hpast).
    split_and!; [done..|by exists e|]. exists (requeue_row now r).
    rewrite <- Hdb. split; [apply requeue_all_hit; [by apply select_expired_NoDup|exact Hr]|]. destruct (requeue_row_exhausted now r) as [Hdead Hpending].
    split_and!; (exact Hdead || exact Hpending || reflexivity).
  - intros Hlt id r e Hr Hst Hlease Hpast Hl. pose proof (proj1 Hwf id r Hr) as <-. subst rs. unfold select_expired in *.
    rewrite take_ge; [|rewrite <- Hn, length_take in Hlt; lia]. apply elem_of_visit; [done|].
    split_and!; [by apply elem_of_rows_wf|apply expired_spec; by eauto|done].
Qed.

(** ** Any threads, any interleaving *)

(** C12: jobs are durable and idempotency keys unique.  Whatever programs the threads
    run and however their effects interleave, the table stays well formed (no two rows
    with one idempotency key), no row ever disappears, and the columns that identify a
    job (id, key, creation time, task name, payload, limits) keep their value. *)
Theorem store_durable {A} (ts ts' : list (prog Ev A)) w w' :
  wf_env env -> wf_table (w_db w) -> csteps handle (ts, w) (ts', w') ->
  wf_table (w_db w') /\
  forall id r, w_db w !! id = Some r -> exists r', w_db w' !! id = Some r' /\ same_identity r r'.
Proof. intros Henv Hwf Hsteps. by apply (csteps_durable (ts, w) (ts', w') Henv Hsteps). Qed.
End StoreSpec.

(** ** Witnesses *)

Definition completed_row : Row := sample_row JobStateCompleted 1 None None.

Definition running_row : Row := sample_row JobStateRunning 1 (Some "tok-a") (Some t0).

(** The table with one row, and a world without faults around it. *)
Abbreviation calm := (calm_env (Finished None)).
Definition one_row (r : Row) : World := world 3 {[ r_id r := r ]}.

Lemma one_row_wf r : wf_table (w_db (one_row r)).
Proof. apply wf_table_singleton. Qed.

(** A cancellation of a completed job, alone; and a claim with a requeue, interleaved. *)
Definition claim_and_requeue : list StoreCall := [CallClaim Minute; CallRequeue 10].

Lemma store_terminal_final_witness :
  let c' := run_schedule (handle (env := calm)) [0; 1; 0; 0]%nat
              (store_call (pgx := pgx_lenient) <$> claim_and_requeue) (one_row completed_row) in
  w_db (exec (env := calm) (store_call (pgx := pgx_lenient) (CallCancel "job-1")) (one_row completed_row)).2 !! "job-1"
  = Some completed_row /\ w_db c'.2 !! "job-1" = Some completed_row.
Proof.
  intros c'.
  destruct (store_terminal_final (env := calm) (pgx := pgx_lenient) (one_row completed_row) "job-1" completed_row)
    as [Halone Hmany].
  - apply calm_env_wf.
  - apply one_row_wf.
  - reflexivity.
  - left. reflexivity.
  - split; [apply Halone|]. apply (Hmany claim_and_requeue c'.1).
    + intros job [H|[H|H%elem_of_nil]%elem_of_cons]%elem_of_cons; done.
    + unfold claim_and_requeue. rewrite !not_elem_of_cons. split_and!; [done..|apply not_elem_of_nil].
    + unfold c'. rewrite <- surjective_pairing. apply run_schedule_csteps.
Defined.

Lemma store_stale_writer_rejected_witness :
  w_db (exec (env := calm) (write_job (sample_job JobStateCompleted 1 "tok-b")) (one_row running_row)).2
  = w_db (one_row running_row).
Proof.
  refine (proj1 (proj1 (store_stale_writer_rejected (env := calm)
    (sample_job JobStateCompleted 1 "tok-b") 0 "" (one_row running_row) _ _))).
  - discriminate.
  - intros r Hr. vm_compute in Hr. injection Hr as <-. intros [H|[H|(H & _)]]; discriminate.
Defined.

Definition after_update : option error * World :=
  exec (env := calm) (UpdateJob (pgx := pgx_v5) (sample_job JobStateCompleted 1 "tok-a")) (one_row running_row).

Lemma store_update_effect_witness :
  exists r r', w_db (one_row running_row) !! "job-1" = Some r /\
    w_db after_update.2 = <["job-1" := r']> (w_db (one_row running_row)) /\
    r_state r = JobStateRunning /\ r_state r' = JobStateCompleted /\ r_lease_token r' = None /\
    r_updated_at r' = t0 + Millisecond.
Proof.
  destruct (store_update_effect (env := calm) (pgx := pgx_v5) (sample_job JobStateCompleted 1 "tok-a")
              (one_row running_row) after_update.2 ltac:(vm_compute; reflexivity))
    as (r & r' & Hr & Hdb & _ & _ & Hst & _ & _ & _ & _ & _ & _ & Htok & _ & Hupd & _).
  exists r, r'. split_and!; [exact Hr|exact Hdb| |exact Hst| |exact Hupd].
  - assert (Some r = Some running_row) as [= ->] by (rewrite <- Hr; reflexivity). reflexivity.
  - apply Htok. left. apply list_elem_of_here.
Defined.

Definition pending_row : Row := sample_row JobStatePending 0 None None.

Definition after_claim : res Job error * World :=
  exec (env := calm) (ClaimNextJob (pgx := pgx_v5) (5 * Minute)) (one_row pending_row).

Definition claimed_job : Job :=
  match after_claim.1 with Ok job => job | Err _ => zero_job end.


Definition after_requeue : res Z error * World :=
  exec (env := calm) (RequeueExpiredRunning 10) (one_row running_row).

(** A running row of a job that may be tried three times, on its first attempt. *)
Lemma store_requeue_effect_witness :
  exists r', w_db after_requeue.2 !! "job-1" = Some r' /\ r_state r' = JobStatePending /\
    r_scheduled_at r' = Some t0 /\ r_lease_token r' = None.
Proof.
  destruct (store_requeue_effect (env := calm) 10 (one_row running_row) 1 after_requeue.2)
    as (rs & _ & _ & _ & _ & Hdone & Hleft).
  - apply calm_env_wf.
  - apply one_row_wf.
  - lia.
  - vm_compute. reflexivity.
  - destruct (Hdone running_row) as (_ & _ & _ & r' & Hr' & _ & Hpending & _ & _ & _ & _ & Htok & _).
    + apply (Hleft ltac:(lia) "job-1" running_row t0); try reflexivity. apply not_elem_of_empty.
    + destruct Hpending as [Hst Hsch]; [vm_compute; intros [_ H]; by apply H|].
      exists r'. split_and!; [exact Hr'|exact Hst|exact Hsch|exact Htok].
Defined.

(** Two threads: one claims, the other cancels. *)
Definition two_threads : list (prog Ev unit) :=
  [store_call (pgx := pgx_v5) (CallClaim Minute); store_call (pgx := pgx_v5) (CallCancel "job-1")].

Lemma store_durable_witness :
  let c' := run_schedule (handle (env := calm)) [0; 1; 0; 0; 1; 1]%nat two_threads (one_row pending_row) in
  wf_table (w_db c'.2) /\
  forall id r, w_db (one_row pending_row) !! id = Some r -> exists r', w_db c'.2 !! id = Some r' /\ same_identity r r'.
Proof.
  intros c'. apply (store_durable (env := calm) two_threads c'.1 (one_row pending_row) c'.2).
  - apply calm_env_wf.
  - apply one_row_wf.
  - unfold c'. rewrite <- surjective_pairing. apply run_schedule_csteps.
Defined.
