(* ===== verification/StoreRaces.v ===== *)
(** * The store under concurrent threads

    Claims never collide in any interleaving; the read-then-write methods can.  The
    counterexamples run a given schedule of two threads. *)

From S2P Require Import Prelude GoLib Models Breaker Sql Effects Store Concrete StoreSpec.

Section Claims.
Context {coll : Collation} {env : Env} {pgx : Pgx}.

(** The points a thread that runs ClaimNextJob can be at before it has ended. *)
Inductive claiming : prog Ev (res Job error) -> Prop :=
| Claiming0 lease : claiming (ClaimNextJob lease)
| Claiming1 lease now :
    claiming (let! token := newLeaseToken in
              match token with
              | None => Ret (Err (wrapf "store: generate lease token: " rand_error))
              | Some token => perform r := ESql (SClaim now (now + lease) token now) in Ret (found (scanJob r))
              end)
| Claiming2 now expires token :
    claiming (perform r := ESql (SClaim now expires token now) in Ret (found (scanJob r))).

Definition runs_in (t : Table) (job : Job) : Prop :=
  exists r, t !! Job.ID job = Some r /\ r_state r = JobStateRunning.

(** One step of a claiming thread: it leaves the table alone, or takes one PENDING row
    to RUNNING and hands that row out at most to itself. *)
Lemma claiming_step p w p' w' :
  wf_env env -> wf_table (w_db w) -> claiming p -> thread_step handle p w = Some (p', w') ->
  (w_db w' = w_db w /\ (claiming p' \/ exists e, p' = Ret (Err e))) \/
  (exists r row, w_db w !! r_id r = Some r /\ r_state r = JobStatePending /\
     r_id row = r_id r /\ r_state row = JobStateRunning /\ w_db w' = <[r_id r := row]> (w_db w) /\
     ((exists e, p' = Ret (Err e)) \/ exists job, p' = Ret (Ok job) /\ Job.ID job = r_id r)).
Proof.
  intros Henv Hwf Hc. destruct Hc as [lease|lease now|now expires token]; cbn -[exec_stmt found scanJob].
  - intros [= <- <-]. left. split; [done|]. left. apply Claiming1.
  - intros [= <- <-]. left. split; [done|].
    destruct (env_rand (w_tick w) 16); simpl; [left; constructor|right; eauto].
  - destruct (exec_stmt (env_view (w_tick w)) (SClaim now expires token now) (w_db w)) as [x db'] eqn:He.
    cbn [exec_stmt] in He. destruct (select_claim (env_view (w_tick w)) (w_db w)) as [r|] eqn:Hsel.
    + apply select_claim_spec in Hsel as (Hin & Hdue & _); [|apply Henv]. apply elem_of_rows_wf in Hin; [|done].
      unfold due in Hdue. bool_to_prop. destruct (int4 (r_attempt r + 1)); injection He as <- <-.
      * set (row := claim_row now expires token now r).
        assert ((exists e, found (scanJob (Ok (Some row))) = Err e) \/
                exists job, found (scanJob (Ok (Some row))) = Ok job /\ Job.ID job = r_id r) as Hfound.
        { unfold found, scanJob. destruct (scan_row row) as [job|] eqn:Hs; [|left; eauto].
          right. exists job. split; [done|]. by apply scan_row_state in Hs as [_ ->]. }
        destruct (env_sql (w_tick w)) as [|e|e]; cbn [with_fault snd]; intros [= <- <-];
          cbn [scanJob] in *.
        -- right. exists r, row. split_and!; try done. destruct Hfound as [[e ->]|(job & -> & ?)]; eauto.
        -- left. split; [done|]. right. by simpl; destruct (errors_Is e msg_no_rows); eauto.
        -- right. exists r, row. split_and!; try done. left. by simpl; destruct (errors_Is e msg_no_rows); eauto.
      * left. destruct (env_sql (w_tick w)) as [|e|e]; cbn [with_fault snd] in *; simplify_eq; (split; [done|]);
          right; cbn [scanJob] in *; by simpl; try destruct (errors_Is e msg_no_rows); eauto.
    + injection He as <- <-.
      destruct (env_sql (w_tick w)) as [|e|e]; intros [= <- <-]; left; (split; [done|]);
        right; cbn [scanJob] in *; by simpl; try destruct (errors_Is e msg_no_rows); eauto.
Qed.

Definition claims_inv (c : list (prog Ev (res Job error)) * World) : Prop :=
  wf_table (w_db c.2) /\
  (forall i p, c.1 !! i = Some p -> claiming p \/ exists r, p = Ret r) /\
  (forall i job, c.1 !! i = Some (Ret (Ok job)) -> runs_in (w_db c.2) job) /\
  (forall i j job1 job2, c.1 !! i = Some (Ret (Ok job1)) -> c.1 !! j = Some (Ret (Ok job2)) ->
     Job.ID job1 = Job.ID job2 -> i = j).

Lemma runs_in_insert t r row job :
  t !! r_id r = Some r -> r_state r = JobStatePending -> runs_in t job ->
  Job.ID job <> r_id r /\ runs_in (<[r_id r := row]> t) job.
Proof.
  intros Hr Hp (r0 & Hr0 & Hs). assert (Job.ID job <> r_id r) as Hne.
  { intros Heq. rewrite Heq in Hr0. simplify_eq. state_eq. }
  split; [done|]. exists r0. by rewrite lookup_insert_ne.
Qed.

Lemma claims_inv_step c c' : wf_env env -> cstep handle c c' -> claims_inv c -> claims_inv c'.
Proof.
  intros Henv Hs (Hwf & Hst & Hrun & Hdist). destruct Hs as [ts i p w p' w' Hi Hp]. simpl in *.
  destruct (Hst i p Hi) as [Hc|[r ->]]; [|done].
  pose proof (thread_step_invariant handle (fun w => wf_table (w_db w)) p p' w w' (handle_wf_table Henv) Hp Hwf) as Hwf'.
  destruct (claiming_step p w p' w' Henv Hwf Hc Hp)
    as [[Hdb Hp']|(r & row & Hr & Hpend & Hid & Hrow & Hdb & Hp')]; (split; [done|]); cbn [fst snd]; rewrite Hdb.
  - assert (forall job, p' <> Ret (Ok job)) as Hno.
    { intros job ->. destruct Hp' as [Hcl|[e He]]; [inversion Hcl|done]. }
    split; [|split].
    + intros j q [(-> & <- & _)|[_ Hq]]%list_lookup_insert_Some; [|by eauto].
      destruct Hp' as [?|[e ->]]; eauto.
    + intros j job [(-> & Heq & _)|[_ Hq]]%list_lookup_insert_Some; [by apply Hno in Heq|eauto].
    + intros j1 j2 job1 job2 [(_ & Heq & _)|[_ H1]]%list_lookup_insert_Some
        [(_ & Heq' & _)|[_ H2]]%list_lookup_insert_Some; try (by apply Hno in Heq); try (by apply Hno in Heq'); eauto.
  - assert (forall j job, ts !! j = Some (Ret (Ok job)) -> Job.ID job <> r_id r /\ runs_in (<[r_id r := row]> (w_db w)) job) as Hold.
    { intros j job Hj. apply runs_in_insert; eauto. }
    assert (forall job, p' = Ret (Ok job) -> Job.ID job = r_id r) as Hnew.
    { intros job ->. destruct Hp' as [[e He]|(job' & He & Hj)]; [done|]. by simplify_eq. }
    split; [|split].
    + intros j q [(-> & <- & _)|[_ Hq]]%list_lookup_insert_Some; [|by eauto].
      right. destruct Hp' as [[e ->]|(job & -> & _)]; eauto.
    + intros j job [(-> & Heq & _)|[_ Hq]]%list_lookup_insert_Some; [|by eapply Hold].
      exists row. rewrite (Hnew job Heq), lookup_insert_eq. done.
    + intros j1 j2 job1 job2 [(<- & Heq & _)|[Hn1 H1]]%list_lookup_insert_Some
        [(<- & Heq' & _)|[Hn2 H2]]%list_lookup_insert_Some Hids; [done|..|by eauto].
      * apply Hnew in Heq. destruct (Hold _ _ H2) as [? _]. congruence.
      * apply Hnew in Heq'. destruct (Hold _ _ H1) as [? _]. congruence.
Qed.

(** No job is handed out twice.  Any number of threads run ClaimNextJob with any
    interleaving of their statements, lock conflicts and lost answers: two threads that
    both got a job got different jobs, and every job handed out is RUNNING. *)
Theorem claims_never_collide leases w ts' w' :
  wf_env env -> wf_table (w_db w) ->
  csteps handle (ClaimNextJob <$> leases, w) (ts', w') ->
  (forall i j job1 job2, ts' !! i = Some (Ret (Ok job1)) -> ts' !! j = Some (Ret (Ok job2)) ->
     Job.ID job1 = Job.ID job2 -> i = j) /\
  (forall i job, ts' !! i = Some (Ret (Ok job)) -> runs_in (w_db w') job).
Proof.
  intros Henv Hwf Hsteps.
  assert (claims_inv (ClaimNextJob <$> leases, w)) as H0.
  { split; [done|]. simpl. setoid_rewrite list_lookup_fmap. split; [|split].
    - intros i p (lease & _ & ->)%fmap_Some. left. constructor.
    - intros i job (lease & _ & ?)%fmap_Some. done.
    - intros i j job1 job2 (lease & _ & ?)%fmap_Some. done. }
  assert (claims_inv (ts', w')) as (_ & _ & Hrun & Hd); [|done].
  revert H0. induction Hsteps as [c|c1 c2 c3 Hs _ IH]; [done|]. intros H1. apply IH.
  by eapply claims_inv_step.
Qed.
End Claims.

(** Two rows, three claiming threads. *)
Definition two_pending : World :=
  world 3 (<["job-2" := mkRow "job-2" None webhook_task JobStatePending 0 "" (Some t0) None None None None t0 t0 ∅]>
             {["job-1" := pending_row]}).

Definition three_claims : list (prog Ev (res Job error)) * World :=
  run_schedule (handle (env := calm)) [0; 1; 2; 2; 1; 0; 1; 0; 2]%nat
    (ClaimNextJob (pgx := pgx_lenient) <$> [Minute; Minute; Minute]) two_pending.

Lemma claims_never_collide_witness :
  (forall i j job1 job2, three_claims.1 !! i = Some (Ret (Ok job1)) -> three_claims.1 !! j = Some (Ret (Ok job2)) ->
     Job.ID job1 = Job.ID job2 -> i = j) /\
  (forall i job, three_claims.1 !! i = Some (Ret (Ok job)) -> runs_in (w_db three_claims.2) job).
Proof.
  apply (claims_never_collide (env := calm) (pgx := pgx_lenient) [Minute; Minute; Minute] two_pending three_claims.1 three_claims.2).
  - apply calm_env_wf.
  - change (wf_table (exec_stmt (calm_view 0) (SInsert (mkRow "job-2" None webhook_task JobStatePending 0 ""
      (Some t0) None None None None t0 t0 ∅)) {["job-1" := pending_row]}).2).
    apply exec_stmt_wf; [intros t; reflexivity|apply (wf_table_singleton pending_row)].
  - unfold three_claims. rewrite <- surjective_pairing. apply run_schedule_csteps.
Defined.

(** ** Read-then-write methods *)

Section Races.
Context {coll : Collation} {env : Env} {pgx : Pgx}.

(** Two steps of two threads, each with its effect. *)
Lemma cstep_0 {A} (p0 p1 p' : prog Ev A) w w' :
  thread_step handle p0 w = Some (p', w') -> cstep handle ([p0; p1], w) ([p'; p1], w').
Proof. intros H. by apply (CStep handle [p0; p1] 0 p0 w p' w'). Qed.

Lemma cstep_1 {A} (p0 p1 p' : prog Ev A) w w' :
  thread_step handle p1 w = Some (p', w') -> cstep handle ([p0; p1], w) ([p0; p'], w').
Proof. intros H. by apply (CStep handle [p0; p1] 1 p1 w p' w'). Qed.

(** One statement that gets its answer. *)
Lemma step_sql {X A} (s : Stmt X) (k : res X error -> prog Ev A) w x t' :
  env_sql (w_tick w) = NoFault -> exec_stmt (env_view (w_tick w)) s (w_db w) = (x, t') ->
  thread_step handle (Vis (ESql s) k) w = Some (k x, set_db t' (tick w)).
Proof. intros Hf Hs. unfold thread_step. simpl. rewrite Hs, Hf. done. Qed.

Definition row_state_is (t : Table) (id : string) (st : string) : Prop :=
  exists r, t !! id = Some r /\ r_state r = st.

(** Cancellation can be lost.  When a worker's UpdateJob has read the row and the
    row is cancelled before its UPDATE runs, CancelJob reports success and the row is
    DEAD, and the worker's UPDATE still passes the fence (the cancellation left the lease
    token in place) and turns the DEAD row into COMPLETED. *)
Theorem cancel_race_revives_dead_job job w r ex :
  (forall n, env_sql n = NoFault) ->
  w_db w !! Job.ID job = Some r -> scan_row r = Some ex -> r_state r = JobStateRunning ->
  r_lease_token r = Some (Job.LeaseToken job) -> Job.State job = JobStateCompleted ->
  int4 (Job.Attempt job) && int4 (Task.RetryCount (Job.Task job)) = true ->
  exists p w1 p2 w2,
    csteps handle ([CancelJob (Job.ID job); UpdateJob job], w) ([Ret None; p], w1) /\
    row_state_is (w_db w1) (Job.ID job) JobStateDead /\
    csteps handle ([Ret None; p], w1) (p2, w2) /\
    row_state_is (w_db w2) (Job.ID job) JobStateCompleted.
Proof.
  intros Hf Hr Hscan Hrun Htok Hst Hi.
  pose proof (scan_row_state _ _ Hscan) as [Hexst _]. rewrite Hrun in Hexst.
  set (id := Job.ID job) in *.
  assert (forall t n, t !! id = Some r -> found (scanJob (exec_stmt (env_view n) (SSelectId id) t).1) = Ok ex) as Hsel.
  { intros t n Ht. cbn [exec_stmt fst scanJob]. rewrite Ht. cbn [scanJob]. by rewrite Hscan. }
  set (w1 := set_db (w_db w) (tick w)). set (w2 := set_db (w_db w1) (tick w1)). set (w3 := tick w2).
  set (now := env_now (w_tick w2)).
  set (dead := set_row_state JobStateDead now r).
  set (w4 := set_db (<[id := dead]> (w_db w3)) (tick w3)). set (w5 := tick w4). set (now' := env_now (w_tick w4)).
  set (w6 := set_db (<[id := update_row (update_args job now') dead]> (w_db w5)) (tick w5)).
  exists (write_job job), w4, [Ret None; Ret None], w6.
  assert (thread_step handle (UpdateJob job) w = Some (write_job job, w1)) as S1.
  { unfold UpdateJob, GetJob. cbn [prog_bind].
    rewrite (step_sql _ _ w (Ok (w_db w !! id)) (w_db w)) by done. do 2 f_equal. cbn [prog_bind].
    pose proof (Hsel (w_db w) 0%nat Hr) as Hs. cbn [exec_stmt fst] in Hs. rewrite Hs, Hexst, Hst. done. }
  assert (thread_step handle (CancelJob id) w1 = Some
    (perform now := ENow in perform r := ESql (SCancel JobStateDead now id) in
     Ret match r with Ok _ => None | Err e => Some e end, w2)) as S2.
  { unfold CancelJob, GetJob. cbn [prog_bind].
    rewrite (step_sql _ _ w1 (Ok (w_db w1 !! id)) (w_db w1)) by done. do 2 f_equal. cbn [prog_bind].
    pose proof (Hsel (w_db w1) 0%nat Hr) as Hs. cbn [exec_stmt fst] in Hs. rewrite Hs, Hexst. done. }
  split; [|split; [|split]].
  - eapply rtc_l; [apply cstep_1, S1|]. eapply rtc_l; [apply cstep_0, S2|].
    eapply rtc_l; [apply cstep_0; reflexivity|]. eapply rtc_l; [|apply rtc_refl]. apply cstep_0.
    rewrite (step_sql _ _ w3 (Ok tt) (<[id := dead]> (w_db w3))); [done..|].
    cbn [exec_stmt]. unfold update_where. change (w_db w3) with (w_db w). by rewrite Hr.
  - exists dead. split; [apply lookup_insert_eq|done].
  - eapply rtc_l; [apply cstep_1; reflexivity|]. eapply rtc_l; [|apply rtc_refl]. apply cstep_1.
    rewrite (step_sql _ _ w5 (Ok 1) (<[id := update_row (update_args job now') dead]> (w_db w5))); [done..|].
    change (handle Z ENow w4).1 with now'. rewrite exec_update, Hi. cbn [negb].
    fold id. change (w_db w5) with (<[id := dead]> (w_db w)). rewrite lookup_insert_eq, decide_True; [done|].
    right. left. exact Htok.
  - exists (update_row (update_args job now') dead). split; [apply lookup_insert_eq|exact Hst].
Qed.

(** ** NULL columns *)

(** The rows GetJob can return. *)
Lemma scan_row_null r :
  scan_null = None -> (r_lease_token r = None \/ r_key r = None) -> scan_row r = None.
Proof.
  intros Hn [Hl|Hk]; unfold scan_row, scan_text; rewrite ?Hl, ?Hk, Hn; [|done]. by destruct (r_key r).
Qed.

Lemma exec_GetJob_null id w r :
  scan_null = None -> w_db w !! id = Some r -> (r_lease_token r = None \/ r_key r = None) ->
  exists e, (exec (GetJob id) w).1 = Err e.
Proof.
  intros Hn Hr Hc. destruct (exec (GetJob id) w) as [[job|e] w'] eqn:Hg; [|by eauto].
  apply exec_GetJob in Hg as (_ & _ & r0 & Hr0 & Hs). simplify_eq. rewrite scan_row_null in Hs; done.
Qed.

(** With pgx's documented treatment of NULL, a job without a lease token or without
    an idempotency key (every job that waits as PENDING) cannot be read back: GetJob
    fails, and so UpdateJob (the Kafka path's claim) and CancelJob fail and change
    nothing. *)
Theorem null_columns_block_job id job w r :
  scan_null = None -> w_db w !! id = Some r -> (r_lease_token r = None \/ r_key r = None) -> Job.ID job = id ->
  (exists e, (exec (GetJob id) w).1 = Err e) /\
  (is_Some (exec (UpdateJob job) w).1 /\ w_db (exec (UpdateJob job) w).2 = w_db w) /\
  (is_Some (exec (CancelJob id) w).1 /\ w_db (exec (CancelJob id) w).2 = w_db w).
Proof.
  intros Hn Hr Hc Hid. pose proof (exec_GetJob_null id w r Hn Hr Hc) as [e He].
  pose proof (exec_GetJob_db id w) as Hdb. split; [by eauto|].
  unfold UpdateJob, CancelJob. rewrite !exec_bind, Hid.
  destruct (exec (GetJob id) w) as [res w']. simpl in *. subst res. simpl. auto.
Qed.

(** With pgx's documented treatment of NULL, ClaimNextJob strands a job without
    idempotency key: its UPDATE commits, the row is RUNNING under a token nobody holds,
    and the call returns an error instead of the job. *)
Theorem claim_strands_unkeyed_job lease w r :
  scan_null = None -> (forall n, env_sql n = NoFault) -> (forall n k, is_Some (env_rand n k)) ->
  select_claim (env_view (S (S (w_tick w)))) (w_db w) = Some r -> r_key r = None -> int4 (r_attempt r + 1) = true ->
  exists e, (exec (ClaimNextJob lease) w).1 = Err e /\
    row_state_is (w_db (exec (ClaimNextJob lease) w).2) (r_id r) JobStateRunning.
Proof.
  intros Hn Hf Hrand Hsel Hk Hi. unfold ClaimNextJob, newLeaseToken, exec. cbn [run prog_bind handle tick w_tick].
  destruct (Hrand (S (w_tick w)) 16%nat) as [bytes ->]. cbn [option_map run handle tick w_tick w_db exec_stmt].
  rewrite Hsel, Hi, Hf. cbn [with_fault run found scanJob]. rewrite scan_row_null by auto.
  eexists. split; [done|]. eexists. split; [apply lookup_insert_eq|done].
Qed.

(** ** Released claims *)

Lemma sql_handled {X A} (s : Stmt X) (f : res X error -> A) w :
  w_handled (exec (Vis (ESql s) (fun r => Ret (f r))) w).2 = w_handled w.
Proof. unfold exec. simpl. destruct (exec_stmt _ s _). by destruct (env_sql (w_tick w)). Qed.

Lemma claim_release_handled lease job reason w :
  w_handled (exec (ClaimNextJob lease) w).2 = w_handled w /\
  w_handled (exec (ReleaseClaim job reason) w).2 = w_handled w.
Proof.
  split; [|apply sql_handled]. unfold ClaimNextJob, newLeaseToken, exec. cbn [run prog_bind handle].
  destruct (env_rand _ _); [|done]. apply (sql_handled _ _ (tick (tick w))).
Qed.

(** A claim that is released (the circuit was open, the execution lock was taken, the
    pool was full) still counts as an attempt: after ClaimNextJob and ReleaseClaim the row
    is PENDING and due as before, with [attempt] one higher and nothing executed. *)
Theorem released_claim_consumes_attempt lease reason w job w1 w2 :
  wf_env env -> wf_table (w_db w) ->
  exec (ClaimNextJob lease) w = (Ok job, w1) -> exec (ReleaseClaim job reason) w1 = (None, w2) ->
  exists r r', w_db w !! Job.ID job = Some r /\ w_db w2 !! Job.ID job = Some r' /\
    r_attempt r' = r_attempt r + 1 /\ r_state r' = JobStatePending /\ r_scheduled_at r' = r_scheduled_at r /\
    r_lease_token r' = None /\ w_handled w2 = w_handled w.
Proof.
  intros Henv Hwf Hc Hrel. assert (w_handled w2 = w_handled w) as Hh.
  { pose proof (claim_release_handled lease job reason w) as [H1 _].
    pose proof (claim_release_handled lease job reason w1) as [_ H2]. rewrite Hc in H1. rewrite Hrel in H2. simpl in *. congruence. }
  destruct (exec_ClaimNextJob_ok lease w job w1 Henv Hwf Hc)
    as (r & bytes & _ & Hr & _ & _ & _ & Hdb & _ & _ & Htok & _).
  apply (exec_sql_ok (SRelease reason (Job.ID job) (Job.LeaseToken job)) affected) in Hrel as (n & Hs & Hn); [|done].
  cbn [exec_stmt] in Hs. unfold update_where in Hs. rewrite Hdb, lookup_insert_eq in Hs.
  unfold holds_lease in Hs. cbn [r_state r_lease_token claim_row] in Hs.
  rewrite !bool_decide_true in Hs by congruence. injection Hs as _ Hdb2.
  eexists r, _. rewrite <- Hdb2, lookup_insert_eq. by split_and!.
Qed.
End Races.

(** ** Witnesses *)

Lemma cancel_race_witness :
  exists p w1 p2 w2,
    csteps (handle (env := calm)) ([CancelJob (pgx := pgx_v5) "job-1";
       UpdateJob (pgx := pgx_v5) (sample_job JobStateCompleted 1 "tok-a")], one_row running_row) ([Ret None; p], w1) /\
    row_state_is (w_db w1) "job-1" JobStateDead /\
    csteps (handle (env := calm)) ([Ret None; p], w1) (p2, w2) /\
    row_state_is (w_db w2) "job-1" JobStateCompleted.
Proof.
  destruct (scan_row (pgx := pgx_v5) running_row) as [ex|] eqn:Hscan; [|vm_compute in Hscan; discriminate].
  apply (cancel_race_revives_dead_job (env := calm) (pgx := pgx_v5) (sample_job JobStateCompleted 1 "tok-a")
           (one_row running_row) running_row ex); reflexivity || exact Hscan || (intros; reflexivity).
Defined.

Lemma null_columns_block_job_witness :
  exists e, (exec (env := calm) (GetJob (pgx := pgx_v5) "job-1") (one_row pending_row)).1 = Err e.
Proof.
  refine (proj1 (null_columns_block_job (env := calm) (pgx := pgx_v5) "job-1" (sample_job JobStateRunning 1 "tok-a")
            (one_row pending_row) pending_row _ _ _ _)); [reflexivity|reflexivity|left; reflexivity|reflexivity].
Defined.

Definition unkeyed_row : Row :=
  mkRow "job-2" None webhook_task JobStatePending 0 "" (Some t0) None None None None t0 t0 ∅.

Lemma claim_strands_unkeyed_job_witness :
  exists e, (exec (env := calm) (ClaimNextJob (pgx := pgx_v5) Minute) (one_row unkeyed_row)).1 = Err e /\
    row_state_is (w_db (exec (env := calm) (ClaimNextJob (pgx := pgx_v5) Minute) (one_row unkeyed_row)).2)
      "job-2" JobStateRunning.
Proof.
  apply (claim_strands_unkeyed_job (env := calm) (pgx := pgx_v5) Minute (one_row unkeyed_row) unkeyed_row);
    try reflexivity. intros n k. eexists. reflexivity.
Defined.

Definition after_release : option error * World :=
  exec (env := calm) (ReleaseClaim claimed_job "circuit open") after_claim.2.

Lemma released_claim_witness :
  exists r r', w_db (one_row pending_row) !! Job.ID claimed_job = Some r /\ w_db after_release.2 !! Job.ID claimed_job = Some r' /\
    r_attempt r' = r_attempt r + 1 /\ r_state r' = JobStatePending /\ r_scheduled_at r' = r_scheduled_at r /\
    r_lease_token r' = None /\ w_handled after_release.2 = w_handled (one_row pending_row).
Proof.
  apply (released_claim_consumes_attempt (env := calm) (pgx := pgx_v5) (5 * Minute) "circuit open" (one_row pending_row)
           claimed_job after_claim.2 after_release.2).
  - apply calm_env_wf.
  - apply one_row_wf.
  - vm_compute. reflexivity.
  - vm_compute. reflexivity.
Defined.
