(* ===== verification/Paging.v ===== *)
(** * Listing jobs page by page (internal/store: ListJobs and its cursors)

    The cursor round trip, and the theorem that walking the pages gives the whole
    listing, once each, in order. *)

From S2P Require Import Prelude GoLib Models Breaker Sql Effects Store Concrete StoreSpec.

(** Decoding the cursor made for a row gives back its creation time in whole
    microseconds and its id, whatever bytes the id holds. *)
Theorem cursor_roundtrip t id :
  fits 64 (t / 1000) = true -> decodeCursor (encodeCursor t id) = Ok (t / 1000 * 1000, id).
Proof.
  intros Hfit. unfold decodeCursor, encodeCursor. rewrite B64Decode_Encode, SplitN2_app by (by apply Itoa_chars).
  by rewrite ParseInt_Itoa.
Qed.

Lemma cursor_roundtrip_witness : decodeCursor (encodeCursor t0 "a|b") = Ok (t0 / 1000 * 1000, "a|b").
Proof. apply (cursor_roundtrip t0 "a|b"). vm_compute. reflexivity. Defined.

Lemma decode_cursor_encode t id :
  t mod 1000 = 0 -> fits 64 (t / 1000) = true -> decodeCursor (encodeCursor t id) = Ok (t, id).
Proof.
  intros Hm Hfit. unfold decodeCursor, encodeCursor. rewrite B64Decode_Encode, SplitN2_app by (by apply Itoa_chars).
  rewrite ParseInt_Itoa by done. do 2 f_equal. pose proof (Z.div_mod t 1000 ltac:(lia)). lia.
Qed.

Lemma encodeCursor_nonempty t id : encodeCursor t id <> "".
Proof.
  unfold encodeCursor. intros Heq%(f_equal B64Decode). rewrite B64Decode_Encode in Heq.
  apply (f_equal (fmap (contains_char "|"%char))) in Heq. simpl in Heq.
  rewrite contains_char_app in Heq. simpl in Heq. by rewrite orb_true_r in Heq.
Qed.

Section Paging.
Context {coll : Collation} {env : Env} {pgx : Pgx}.

(** ** The reference listing *)

(** Every row of the table in the given state, newest first. *)
Definition listing (st : option string) (t : Table) : list Row :=
  merge_sort list_le (List.filter (list_keep st None) (rows t)).

Lemma list_le_antisym t r1 r2 :
  wf_table t -> r1 ∈ rows t -> r2 ∈ rows t -> list_le r1 r2 -> list_le r2 r1 -> r1 = r2.
Proof.
  intros Hwf H1 H2 L1 L2. assert (r_id r1 = r_id r2) as Hid.
  { destruct L1 as [?|[? L1]], L2 as [?|[? L2]]; [lia..|]. by apply (anti_symm coll_le). }
  apply elem_of_rows_wf in H1; [|done]. apply elem_of_rows_wf in H2; [|done].
  rewrite Hid in H1. congruence.
Qed.

Lemma elem_of_select v st b t r : wf_view v -> r ∈ select_list v st b t -> r ∈ rows t.
Proof.
  intros Hv. unfold select_list. rewrite merge_sort_Permutation, elem_of_bfilter, (Hv t). by intros [? _].
Qed.

Lemma elem_of_listing st t r : r ∈ listing st t -> r ∈ rows t.
Proof. unfold listing. rewrite merge_sort_Permutation, elem_of_bfilter. by intros [? _]. Qed.

Lemma listing_NoDup st t : wf_table t -> NoDup (r_id <$> listing st t).
Proof.
  intros Hwf. unfold listing. rewrite merge_sort_Permutation. by apply bfilter_NoDup_fmap, rows_NoDup.
Qed.

(** A selection is determined by the rows it keeps. *)
Lemma select_list_unique v st b t l :
  wf_view v -> wf_table t -> StronglySorted list_le l -> (forall r, r ∈ l -> r ∈ rows t) ->
  l ≡ₚ List.filter (list_keep st b) (rows t) -> select_list v st b t = l.
Proof.
  intros Hv Hwf Hs Hin Hp. apply (StronglySorted_unique_strong list_le); [| |done|].
  - intros r1 r2 H1%elem_of_select H2 L1 L2; [|done]. apply (list_le_antisym t); auto.
  - unfold select_list. apply StronglySorted_merge_sort; apply _.
  - rewrite Hp. unfold select_list. by rewrite merge_sort_Permutation, (Hv t).
Qed.

Lemma select_list_first v st t : wf_view v -> wf_table t -> select_list v st None t = listing st t.
Proof.
  intros Hv Hwf. apply select_list_unique; [done..| | |].
  - apply StronglySorted_merge_sort; apply _.
  - apply elem_of_listing.
  - apply merge_sort_Permutation.
Qed.

(** The rows after a row of a sorted list without repeated ids are those before its
    cursor. *)
Lemma filter_before_cursor l1 r l2 :
  StronglySorted list_le (l1 ++ r :: l2) -> NoDup (r_id <$> l1 ++ r :: l2) ->
  List.filter (before_cursor (r_created_at r, r_id r)) (l1 ++ r :: l2) = l2.
Proof.
  intros [Hle [_ Hs2]]%StronglySorted_app Hnd. rewrite fmap_app, fmap_cons in Hnd.
  apply NoDup_app in Hnd as (_ & Hdis & Hnd2). apply NoDup_cons in Hnd2 as [Hnin _].
  rewrite List.filter_app. simpl. unfold before_cursor at 2. simpl.
  rewrite Z.ltb_irrefl, (bool_decide_false (r_id r <> r_id r)), andb_false_r by (by intros []). simpl.
  rewrite bfilter_nil, bfilter_id; [done|..].
  - intros x Hx. apply StronglySorted_cons in Hs2 as [Hall _]. rewrite Forall_forall in Hall.
    assert (r_id x <> r_id r) as Hne by (intros Heq; apply Hnin; rewrite <- Heq; by apply list_elem_of_fmap_2).
    unfold before_cursor. simpl. apply orb_true_iff. destruct (Hall x Hx) as [Hlt|[Heq Hc]].
    + left. by apply Z.ltb_lt.
    + right. rewrite Heq, Z.eqb_refl, !bool_decide_true by done. done.
  - intros x Hx. assert (r_id x <> r_id r) as Hne.
    { intros Heq. apply (Hdis (r_id x)); [by apply list_elem_of_fmap_2|]. rewrite Heq. left. }
    unfold before_cursor. simpl. apply orb_false_iff. destruct (Hle x r Hx ltac:(left)) as [Hlt|[Heq Hc]].
    + split; [apply Z.ltb_ge; lia|]. rewrite (proj2 (Z.eqb_neq _ _)) by lia. done.
    + rewrite Heq, Z.ltb_irrefl, Z.eqb_refl. split; [done|]. simpl.
      rewrite (bool_decide_false (coll_le _ _)); [done|]. intros Hc'. apply Hne. by apply (anti_symm coll_le).
Qed.

Lemma select_list_rest v st t l1 r l2 :
  wf_view v -> wf_table t -> listing st t = l1 ++ r :: l2 ->
  select_list v st (Some (r_created_at r, r_id r)) t = l2.
Proof.
  intros Hv Hwf Hl. pose proof (listing_NoDup st t Hwf) as Hnd.
  assert (StronglySorted list_le (listing st t)) as Hs by (apply StronglySorted_merge_sort; apply _).
  rewrite Hl in Hs, Hnd. apply select_list_unique; [done..| | |].
  - apply StronglySorted_app in Hs as (_ & _ & Hs). by apply StronglySorted_cons in Hs as [_ Hs].
  - intros x Hx. apply (elem_of_listing st). rewrite Hl. set_solver.
  - rewrite <- (filter_before_cursor l1 r l2 Hs Hnd) at 1. rewrite <- Hl. unfold listing.
    rewrite merge_sort_Permutation, bfilter_bfilter. unfold list_keep at 2. simpl.
    apply Permutation_refl'. apply filter_ext. intros x. unfold list_keep. by rewrite andb_true_r.
Qed.

(** ** Walking the pages *)

(** A client that follows [next_cursor] until it is empty. *)
Fixpoint list_all (fuel : nat) (st : JobState) (limit : Z) (cursor : string) (w : World) : res (list Job) error :=
  match fuel with
  | O => Err (Errorf "out of fuel" [])
  | S fuel' =>
      match exec (ListJobs (mkListFilter st limit cursor)) w with
      | (Err e, _) => Err e
      | (Ok (jobs, next), w') =>
          if bool_decide (next = "") then Ok jobs
          else match list_all fuel' st limit next w' with
               | Ok rest => Ok (jobs ++ rest)
               | Err e => Err e
               end
      end
  end.

Definition job_of (r : Row) : Job := default zero_job (scan_row r).

(** Timestamps as Postgres stores them, and rows the driver can scan. *)
Definition listable (t : Table) : Prop :=
  forall r, r ∈ rows t ->
    r_created_at r mod 1000 = 0 /\ fits 64 (r_created_at r / 1000) = true /\ is_Some (scan_row r).

Lemma scan_rows_ok rs : (forall r, r ∈ rs -> is_Some (scan_row r)) -> scan_rows rs = Ok (job_of <$> rs).
Proof.
  induction rs as [|r rs IH]; intros H; [done|]. simpl. unfold job_of.
  destruct (H r ltac:(left)) as [job ->]. simpl. rewrite IH; [done|]. intros x Hx. apply H. by right.
Qed.

Lemma job_of_cursor r : is_Some (scan_row r) -> Job.CreatedAt (job_of r) = r_created_at r /\ Job.ID (job_of r) = r_id r.
Proof.
  intros [job Hs]. unfold job_of. rewrite Hs. simpl. unfold scan_row in Hs.
  destruct (scan_text (r_key r)), (scan_text (r_lease_token r)); by simplify_eq/=.
Qed.

(** The page cut from a listing: all of it, or [limit] rows and the cursor of the last. *)
Lemma cut_page_spec limit l :
  0 < limit -> (forall r, r ∈ l -> is_Some (scan_row r)) ->
  (Z.of_nat (length l) <= limit /\ cut_page limit (job_of <$> take (Z.to_nat (limit + 1)) l) = (job_of <$> l, "")) \/
  (exists l1 r l2, l = l1 ++ r :: l2 /\
     cut_page limit (job_of <$> take (Z.to_nat (limit + 1)) l) =
       (job_of <$> l1 ++ [r], encodeCursor (r_created_at r) (r_id r))).
Proof.
  intros Hlim Hscan. unfold cut_page. rewrite length_fmap, length_take.
  destruct (Z.le_gt_cases (Z.of_nat (length l)) limit) as [Hle|Hgt].
  - left. split; [done|]. rewrite (proj2 (Z.ltb_ge _ _)) by lia. by rewrite take_ge by lia.
  - right. rewrite (proj2 (Z.ltb_lt _ _)) by lia.
    destruct (lookup_lt_is_Some_2 l (Z.to_nat (limit - 1)) ltac:(lia)) as [r Hr].
    exists (take (Z.to_nat (limit - 1)) l), r, (drop (S (Z.to_nat (limit - 1))) l).
    split; [by rewrite take_drop_middle|].
    rewrite list_lookup_fmap, lookup_take_lt, Hr by lia. simpl.
    destruct (job_of_cursor r) as [-> ->]; [apply Hscan; by eapply list_elem_of_lookup_2|]. f_equal.
    rewrite <- fmap_take, take_take. f_equal. rewrite <- (take_S_r l _ r Hr). f_equal. lia.
Qed.

Definition state_filter (st : JobState) : option string := if bool_decide (st = "") then None else Some st.

(** One call: the page cut from what the cursor leaves. *)
Lemma exec_ListJobs st limit cursor bound l w :
  (forall n, env_sql n = NoFault) -> wf_env env -> listable (w_db w) ->
  (if bool_decide (cursor = "") then bound = None
   else exists b, decodeCursor cursor = Ok b /\ bound = Some b) ->
  (forall v, wf_view v -> select_list v (state_filter st) bound (w_db w) = l) ->
  (exec (ListJobs (mkListFilter st limit cursor)) w).1 =
    Ok (cut_page (clamp_limit limit) (job_of <$> take (Z.to_nat (clamp_limit limit + 1)) l)) /\
  w_db (exec (ListJobs (mkListFilter st limit cursor)) w).2 = w_db w.
Proof.
  intros Hf Henv Hlist Hb Hl. unfold ListJobs. cbn [lf_Cursor lf_Limit lf_State].
  assert ((if bool_decide (cursor = "") then Ok None
           else match decodeCursor cursor with
                | Ok b => Ok (Some b) | Err e => Err (wrapf "store: invalid cursor: " e) end) = Ok bound) as ->.
  { case_bool_decide; [by subst|]. by destruct Hb as (b & -> & ->). }
  fold (state_filter st). unfold exec. cbn [run handle]. rewrite Hf. cbn [with_fault].
  cbn [exec_stmt]. cbn [with_fault run]. change (w_db (tick w)) with (w_db w).
  pose proof (Hl (env_view (w_tick w)) (Henv (w_tick w))) as Hsel.
  match goal with |- context [select_list ?v ?s ?b ?t] => replace (select_list v s b t) with l by (symmetry; exact Hsel) end.
  rewrite scan_rows_ok; [done|]. intros r Hr. apply (Hlist r). apply (elem_of_select (env_view (w_tick w)) (state_filter st) bound);
    [apply Henv|]. rewrite Hsel. rewrite <- (take_drop (Z.to_nat (clamp_limit limit + 1)) l). apply elem_of_app. by left.
Qed.

Lemma clamp_limit_pos n : 0 < clamp_limit n <= 500.
Proof. unfold clamp_limit. repeat case_match; bool_to_prop; lia. Qed.

Lemma list_all_suffix fuel st limit cursor pre l w :
  (forall n, env_sql n = NoFault) -> wf_env env -> wf_table (w_db w) -> listable (w_db w) ->
  listing (state_filter st) (w_db w) = pre ++ l -> (length l < fuel)%nat ->
  (pre = [] /\ cursor = "" \/ exists pre' r, pre = pre' ++ [r] /\ cursor = encodeCursor (r_created_at r) (r_id r)) ->
  list_all fuel st limit cursor w = Ok (job_of <$> l).
Proof.
  intros Hf Henv. revert cursor pre l w. induction fuel as [|fuel IH]; intros cursor pre l w Hwf Hlist Hl Hlen Hcur; [lia|].
  assert (forall r, r ∈ pre ++ l -> r ∈ rows (w_db w)) as Hin by (intros r Hr; apply (elem_of_listing (state_filter st)); by rewrite Hl).
  assert (exists bound, (if bool_decide (cursor = "") then bound = None
             else exists b, decodeCursor cursor = Ok b /\ bound = Some b) /\
           forall v, wf_view v -> select_list v (state_filter st) bound (w_db w) = l) as (bound & Hb & Hsel).
  { destruct Hcur as [[-> ->]|(pre' & r & -> & ->)].
    - exists None. split; [by rewrite bool_decide_true|]. intros v Hv. by rewrite select_list_first.
    - exists (Some (r_created_at r, r_id r)). destruct (Hlist r) as (? & ? & _); [apply Hin; set_solver|].
      rewrite bool_decide_false by apply encodeCursor_nonempty.
      split; [eexists; split; [by apply decode_cursor_encode|reflexivity]|].
      intros v Hv. rewrite <- app_assoc in Hl. by apply (select_list_rest v (state_filter st) _ pre' r l). }
  pose proof (exec_ListJobs st limit cursor bound l w Hf Henv Hlist Hb Hsel) as [Hres Hdb].
  pose proof (clamp_limit_pos limit) as [Hpos _].
  cbn [list_all]. destruct (exec (ListJobs _) w) as [res w']. simpl in Hres, Hdb. subst res.
  destruct (cut_page_spec (clamp_limit limit) l Hpos) as [[_ ->]|(l1 & r & l2 & -> & ->)].
  - intros r Hr. apply (Hlist r), Hin. set_solver.
  - done.
  - rewrite bool_decide_false by apply encodeCursor_nonempty.
    rewrite (IH _ (pre ++ l1 ++ [r]) l2); rewrite ?Hdb; try done.
    + f_equal. rewrite <- fmap_app, <- app_assoc. done.
    + by rewrite Hl, <- !app_assoc.
    + rewrite length_app in Hlen. simpl in Hlen. lia.
    + right. exists (pre ++ l1), r. by rewrite app_assoc.
Qed.

(** A text column as the driver reads it: its value, or what it makes of NULL. *)
Definition text_read (column : option string) (s : string) : Prop :=
  column = Some s \/ (column = None /\ scan_null = Some s).

Lemma scan_row_reads r job :
  scan_row r = Some job <->
  exists key token, text_read (r_key r) key /\ text_read (r_lease_token r) token /\
    job = Job.mkJob (r_id r) key (r_task r) (r_state r) (r_attempt r) (r_scheduled_at r) (r_started_at r)
            (r_lease_expires_at r) token (r_completed_at r) (r_last_error r) (r_metadata r) (r_created_at r) (r_updated_at r).
Proof.
  assert (forall column s, scan_text column = Some s <-> text_read column s) as Htext.
  { intros [c|] s; unfold text_read; simpl; naive_solver. }
  unfold scan_row. setoid_rewrite <- Htext. destruct (scan_text (r_key r)), (scan_text (r_lease_token r)); simpl; naive_solver.
Qed.

Lemma job_of_scan r job : scan_row r = Some job -> job_of r = job.
Proof. unfold job_of. by intros ->. Qed.

Lemma elem_of_jobs st t job :
  wf_table t -> listable t ->
  job ∈ job_of <$> listing (state_filter st) t <->
  exists r, t !! r_id r = Some r /\ (st = "" \/ r_state r = st) /\ scan_row r = Some job.
Proof.
  intros Hwf Hlist. unfold listing, state_filter, list_keep. rewrite list_elem_of_fmap. split.
  - intros (r & -> & Hr). rewrite merge_sort_Permutation, elem_of_bfilter in Hr. destruct Hr as [Hr Hk].
    destruct (Hlist r Hr) as (_ & _ & [j Hj]). exists r. rewrite andb_true_r in Hk.
    split; [by apply elem_of_rows_wf|]. split; [|by rewrite (job_of_scan r j Hj)].
    case_bool_decide; [by left|right]. by bool_to_prop.
  - intros (r & Hr & Hst & Hj). exists r. split; [by rewrite (job_of_scan r job Hj)|].
    rewrite merge_sort_Permutation, elem_of_bfilter. split; [by apply elem_of_rows_wf|]. rewrite andb_true_r.
    case_bool_decide; [done|]. destruct Hst; [done|]. by apply bool_decide_eq_true.
Qed.

Lemma listing_length st t : (length (listing st t) <= size t)%nat.
Proof.
  unfold listing. rewrite merge_sort_Permutation. etransitivity; [apply filter_length_le|].
  unfold rows. by rewrite length_fmap, length_map_to_list.
Qed.

(** C22: the pages cover the listing.  On a table that does not change, without faults, with
    rows the driver can read and times it can encode: a client that starts without a cursor
    and follows [next_cursor], with any page size, reaches the end within one call more than
    there are rows and has got exactly the jobs of the requested state (of any, when none is
    given), each once, newest first, ties by descending id. *)
Theorem pages_cover_listing st limit w :
  (forall n, env_sql n = NoFault) -> wf_env env -> wf_table (w_db w) ->
  (forall id r, w_db w !! id = Some r ->
     r_created_at r mod 1000 = 0 /\ - 2 ^ 63 <= r_created_at r / 1000 < 2 ^ 63 /\
     exists key token, text_read (r_key r) key /\ text_read (r_lease_token r) token) ->
  exists jobs, list_all (S (size (w_db w))) st limit "" w = Ok jobs /\ NoDup (Job.ID <$> jobs) /\
    StronglySorted (fun j1 j2 => Job.CreatedAt j2 < Job.CreatedAt j1 \/
                      (Job.CreatedAt j1 = Job.CreatedAt j2 /\ coll_le (Job.ID j2) (Job.ID j1))) jobs /\
    forall job, job ∈ jobs <->
      exists r key token, w_db w !! r_id r = Some r /\ (st = "" \/ r_state r = st) /\
        text_read (r_key r) key /\ text_read (r_lease_token r) token /\
        job = Job.mkJob (r_id r) key (r_task r) (r_state r) (r_attempt r) (r_scheduled_at r) (r_started_at r)
                (r_lease_expires_at r) token (r_completed_at r) (r_last_error r) (r_metadata r) (r_created_at r)
                (r_updated_at r).
Proof.
  intros Hf Henv Hwf Hrows. assert (listable (w_db w)) as Hlist.
  { intros r (id & Hr)%elem_of_rows. destruct (Hrows id r Hr) as (Hm & Hfit & key & token & Hk & Ht).
    split_and!; [done| |eexists; apply scan_row_reads; by exists key, token].
    unfold fits. apply andb_true_iff. split; [apply Z.leb_le|apply Z.ltb_lt]; lia. }
  set (l := listing (state_filter st) (w_db w)).
  assert (forall r, r ∈ l -> Job.CreatedAt (job_of r) = r_created_at r /\ Job.ID (job_of r) = r_id r) as Hjob.
  { intros r Hr. apply job_of_cursor, Hlist. by eapply elem_of_listing. }
  exists (job_of <$> l). split_and!.
  - apply (list_all_suffix _ _ _ _ [] l); auto. pose proof (listing_length (state_filter st) (w_db w)). subst l. lia.
  - rewrite <- list_fmap_compose. rewrite (list_fmap_ext _ r_id); [by apply listing_NoDup|].
    intros i r Hr%list_elem_of_lookup_2. by apply Hjob.
  - assert (StronglySorted list_le l) as Hs by (apply StronglySorted_merge_sort; apply _).
    clearbody l. induction Hs as [|r l Hs IH Hall]; [constructor|]. rewrite fmap_cons. constructor.
    + apply IH. intros x Hx. apply Hjob. by right.
    + apply Forall_fmap, Forall_forall. intros x Hx. rewrite Forall_forall in Hall. simpl.
      destruct (Hjob r ltac:(left)) as [-> ->]. destruct (Hjob x ltac:(by right)) as [-> ->]. by apply Hall.
  - intros job. subst l. rewrite elem_of_jobs by done. setoid_rewrite scan_row_reads. naive_solver.
Qed.
End Paging.

(** ** Witness: three running jobs listed two at a time *)

Definition listed_row (id key : string) (created : Z) : Row :=
  mkRow id (Some key) webhook_task JobStateRunning 1 "" (Some t0) None (Some t0) (Some "tok") None created created ∅.

Definition three_jobs : Table :=
  <["a" := listed_row "a" "k1" t0]> (<["b" := listed_row "b" "k2" (t0 + Second)]> {["c" := listed_row "c" "k3" t0]}).

Lemma three_jobs_rows id r :
  three_jobs !! id = Some r ->
  (id = "a" /\ r = listed_row "a" "k1" t0) \/ (id = "b" /\ r = listed_row "b" "k2" (t0 + Second)) \/
  (id = "c" /\ r = listed_row "c" "k3" t0).
Proof. unfold three_jobs. rewrite !lookup_insert_Some, lookup_singleton_Some. naive_solver. Qed.

Lemma three_jobs_wf : wf_table three_jobs.
Proof.
  split; [|intros id1 id2 r1 r2 k H1%three_jobs_rows H2%three_jobs_rows];
    [intros id r H%three_jobs_rows|]; naive_solver.
Qed.

Definition walk : res (list Job) error :=
  list_all (env := calm) (pgx := pgx_v5) 4 JobStateRunning 2 "" (world 3 three_jobs).

Lemma pages_cover_listing_witness :
  exists jobs, walk = Ok jobs /\ Job.ID <$> jobs = ["b"; "c"; "a"] /\ NoDup (Job.ID <$> jobs).
Proof.
  destruct (pages_cover_listing (env := calm) (pgx := pgx_v5) JobStateRunning 2 (world 3 three_jobs))
    as (jobs & Hwalk & Hnd & _).
  - reflexivity.
  - apply calm_env_wf.
  - apply three_jobs_wf.
  - intros id r Hr%three_jobs_rows. destruct Hr as [[-> ->]|[[-> ->]|[-> ->]]];
      (split; [reflexivity|]; split; [split; [vm_compute; discriminate|reflexivity]|]);
      do 2 eexists; (split; left; reflexivity).
  - exists jobs. split; [exact Hwalk|]. split; [|exact Hnd].
    assert (exists js, walk = Ok js /\ Job.ID <$> js = ["b"; "c"; "a"]) as (js & Hjs & Hids)
      by (eexists; split; vm_compute; reflexivity).
    change (walk = Ok jobs) in Hwalk. rewrite Hwalk in Hjs. injection Hjs as ->. exact Hids.
Defined.
