(* ===== verification/Service.v ===== *)
(** * internal/service: JobService

    Enqueue looks the idempotency key up, fills in the id, state and schedule, inserts
    the row and starts a goroutine that publishes to Kafka.  Two requests with one key
    can both miss in the lookup: the unique index decides, and the loser returns the
    winner's id. *)

From S2P Require Import Prelude GoLib Models Breaker Sql Effects Rely Store Concrete StoreSpec.

(** ** job_service.go *)

(** [b[i] = v]. *)
Definition set_byte (i : nat) (f : Z -> Z) (b : list Z) : list Z := alter f i b.

Definition uuid_bytes (b : list Z) : list Z :=
  set_byte 8 (fun x => Z.lor (Z.land x 0x3f) 0x80) (set_byte 6 (fun x => Z.lor (Z.land x 0x0f) 0x40) b).

(** [h[i:j]]. *)
Definition slice (i j : nat) (h : string) : string := String.substring i (j - i) h.

Definition uuid_text (b : list Z) : string :=
  let h := HexEncode b in
  slice 0 8 h +:+ "-" +:+ slice 8 12 h +:+ "-" +:+ slice 12 16 h +:+ "-" +:+ slice 16 20 h +:+ "-" +:+
  slice 20 (String.length h) h.

Definition shouldPublishImmediately (job : Job) (now : Z) : bool :=
  match Job.ScheduledAt job with
  | None => true
  | Some t => negb (now <? t)
  end.

(** The text of a version 4 UUID: [x] stands for a hex digit, [y] for 8, 9, a or b. *)
Definition uuid_v4 : string := "xxxxxxxx-xxxx-4xxx-yxxx-xxxxxxxxxxxx".

Definition is_hex (c : ascii) : bool := existsb (fun d => Ascii.eqb c (hex_char d)) (seqZ 0 16).
Definition is_char (p c : ascii) : bool := Ascii.eqb p c.
Definition is_variant (c : ascii) : bool := existsb (fun d => Ascii.eqb c (hex_char d)) (seqZ 8 4).

Fixpoint matches (pat s : string) : bool :=
  match pat, s with
  | "", "" => true
  | String p pat', String c s' =>
      (if Ascii.eqb p "x"%char then is_hex c
       else if Ascii.eqb p "y"%char then is_variant c else is_char p c) && matches pat' s'
  | _, _ => false
  end.

(** A property of bytes holds when it holds of the 256 of them. *)
Lemma byte_cases (P : Z -> bool) : forallb P (seqZ 0 256) = true -> forall b, is_byte b -> P b = true.
Proof.
  intros H b Hb. rewrite forallb_forall in H. apply H. apply list_elem_of_In, elem_of_seqZ. unfold is_byte in Hb. lia.
Qed.

Lemma byte_hex b : is_byte b -> is_hex (hex_char (b / 16)) && is_hex (hex_char (b mod 16)) = true.
Proof. apply (byte_cases (fun b => is_hex (hex_char (b / 16)) && is_hex (hex_char (b mod 16)))). vm_compute. reflexivity. Qed.

Lemma byte_version b : is_byte b ->
  let b' := Z.lor (Z.land b 0x0f) 0x40 in is_char "4"%char (hex_char (b' / 16)) && is_hex (hex_char (b' mod 16)) = true.
Proof.
  apply (byte_cases (fun b => let b' := Z.lor (Z.land b 0x0f) 0x40 in
    is_char "4"%char (hex_char (b' / 16)) && is_hex (hex_char (b' mod 16)))). vm_compute. reflexivity.
Qed.

Lemma byte_variant b : is_byte b ->
  let b' := Z.lor (Z.land b 0x3f) 0x80 in is_variant (hex_char (b' / 16)) && is_hex (hex_char (b' mod 16)) = true.
Proof.
  apply (byte_cases (fun b => let b' := Z.lor (Z.land b 0x3f) 0x80 in
    is_variant (hex_char (b' / 16)) && is_hex (hex_char (b' mod 16)))). vm_compute. reflexivity.
Qed.

Lemma uuid_text_matches b : length b = 16%nat -> Forall is_byte b -> matches uuid_v4 (uuid_text (uuid_bytes b)) = true.
Proof.
  intros Hlen Hb. do 16 (destruct b as [|? b]; [done|]). destruct b; [|done].
  repeat match goal with H : Forall is_byte (?x :: _) |- _ =>
    apply Forall_cons in H as [Hx H];
    pose proof (byte_hex _ Hx); pose proof (byte_version _ Hx); pose proof (byte_variant _ Hx); clear Hx end.
  cbv -[is_hex is_variant is_char hex_char Z.lor Z.land Z.div Z.modulo andb]. cbv zeta in *.
  repeat match goal with H : (_ && _)%bool = true |- _ => apply andb_true_iff in H as [? ?] end.
  repeat match goal with H : _ = true |- _ => rewrite H; clear H end. reflexivity.
Qed.

Section Service.
Context {coll : Collation} {env : Env} {pgx : Pgx}.

Definition newJobID : prog Ev (res string error) :=
  perform b := ERand 16 in
  Ret match b with
       | None => Err rand_error
       | Some b => Ok (uuid_text (uuid_bytes b))
       end.

(** From the id on: fill in, insert, publish. *)
Definition persist (topic : string) (job : Job) : prog Ev (res string error) :=
  let job := if bool_decide (Job.State job = "") then Job.set_State JobStatePending job else job in
  perform now := ENow in
  let job := match Job.ScheduledAt job with None => Job.set_ScheduledAt (Some now) job | Some _ => job end in
  let! err := CreateJob job in
  match err with
  | Some e =>
      if errors_Is e msg_duplicate_key && negb (bool_decide (Job.IdempotencyKey job = "")) then
        let! existing := GetJobByIdempotencyKey (Job.IdempotencyKey job) in
        Ret match existing with
             | Err lookupErr => Err (wrapf "service: lookup duplicate idempotency key: " lookupErr)
             | Ok existing => Ok (Job.ID existing)
             end
      else Ret (Err (wrapf "service: persist job: " e))
  | None =>
      if shouldPublishImmediately job now then
        perform _ := EGo (GPublish topic job) in Ret (Ok (Job.ID job))
      else Ret (Ok (Job.ID job))
  end.

Definition with_id (topic : string) (job : Job) : prog Ev (res string error) :=
  if bool_decide (Job.ID job = "") then
    let! id := newJobID in
    match id with
    | Err e => Ret (Err (wrapf "service: generate job id: " e))
    | Ok id => persist topic (Job.set_ID id job)
    end
  else persist topic job.

Definition Enqueue (topic : string) (job : Job) : prog Ev (res string error) :=
  if negb (bool_decide (Job.IdempotencyKey job = "")) then
    let! existing := GetJobByIdempotencyKey (Job.IdempotencyKey job) in
    match existing with
    | Ok existing => Ret (Ok (Job.ID existing))
    | Err e =>
        if negb (errors_Is e msg_not_found) then Ret (Err (wrapf "service: lookup idempotency key: " e))
        else with_id topic job
    end
  else with_id topic job.

Definition Cancel (id : string) : prog Ev (option error) :=
  let! err := CancelJob id in
  Ret (option_map (wrapf ("service: cancel job " +:+ id +:+ ": ")) err).

(** ** One key, one job *)

(** The table holds the job [id] under the key [k] (any job when [k] is empty). *)
Definition stored (k : string) (id : string) (w : World) : Prop :=
  wf_table (w_db w) /\ exists r, w_db w !! id = Some r /\ (k <> "" -> r_key r = Some k).

Definition enqueued (k : string) (r : res string error) (w : World) : Prop :=
  wf_table (w_db w) /\ match r with Ok id => stored k id w | Err _ => True end.

Lemma enqueued_stable k : stable durable (enqueued k).
Proof.
  intros [id|e] w w1 [Hwf H] Hd; destruct (Hd Hwf) as [Hwf1 Hid]; split; auto.
  destruct H as (_ & r & Hr & Hk). destruct (Hid id r Hr) as (r' & Hr' & Hs). split; [done|].
  exists r'. split; [done|]. intros Hne. destruct Hs as (_ & -> & _). auto.
Qed.

Abbreviation wp' := (wp handle durable any_step).

Lemma handle_sql_db {X} (s : Stmt X) w :
  wf_env env -> wf_table (w_db w) -> wf_table (w_db (handle _ (ESql s) w).2).
Proof. intros Henv Hwf. by apply handle_wf_table. Qed.

(** A lookup by key that answers found that row. *)
Lemma lookup_key_wp k w :
  wf_env env -> wf_table (w_db w) -> k <> "" ->
  wp' (GetJobByIdempotencyKey k)
    (fun r w1 => wf_table (w_db w1) /\ match r with Ok job => stored k (Job.ID job) w1 | Err _ => True end) w.
Proof.
  intros Henv Hwf Hk w1 Hd. split; [done|]. destruct (Hd Hwf) as [Hwf1 _]. cbn [wp].
  split; [by apply handle_sql_db|]. cbn [handle exec_stmt].
  set (v := env_view (w_tick w1)). change (w_db (tick w1)) with (w_db w1).
  destruct (find _ (pv_scan v (w_db w1))) as [r|] eqn:Hf;
    destruct (env_sql (w_tick w1)) as [|e|e]; cbn [with_fault fst snd scanJob found]; try (by destruct (errors_Is e msg_no_rows)); [|done].
  destruct (scan_row r) as [job|] eqn:Hs; [|done]. cbn [found].
  apply find_some in Hf as [Hin Hkey]. bool_to_prop.
  apply list_elem_of_In in Hin. rewrite (Henv (w_tick w1) (w_db w1) : pv_scan v _ ≡ₚ _) in Hin. apply elem_of_rows_wf in Hin; [|done].
  apply scan_row_state in Hs as [_ ->]. split; [done|]. by exists r.
Qed.

(** An INSERT that reports success is in the table. *)
Lemma create_wp job w :
  wf_env env -> wf_table (w_db w) ->
  wp' (CreateJob job) (fun e w1 => wf_table (w_db w1) /\
    match e with None => stored (Job.IdempotencyKey job) (Job.ID job) w1 | Some _ => True end) w.
Proof.
  intros Henv Hwf w1 Hd1. split; [done|]. intros w2 Hd2. split; [done|]. destruct (Hd1 Hwf) as [Hwf1 _]. destruct (Hd2 Hwf1) as [Hwf2 _].
  cbn [wp handle fst]. split; [by apply (handle_sql_db (SInsert _) w2)|]. cbn [handle exec_stmt]. change (w_db (tick w2)) with (w_db w2).
  set (job' := Job.set_UpdatedAt _ _). assert (Job.ID job' = Job.ID job /\ Job.IdempotencyKey job' = Job.IdempotencyKey job) as [Hid Hkey].
  { unfold job'. by destruct (IsZero (Job.CreatedAt job)). }
  pose proof (exec_stmt_wf (env_view (w_tick w2)) (Henv (w_tick w2)) (SInsert (job_row job')) (w_db w2) Hwf2) as Hwf3. cbn [exec_stmt] in Hwf3.
  destruct (insert_row (job_row job') (w_db w2)) as [[[]|e] t'] eqn:Hi;
    destruct (env_sql (w_tick w2)) as [|e'|e']; cbn [with_fault fst snd]; try (by destruct (isIdempotencyUniqueViolation _)); [].
  split; [exact Hwf3|]. exists (job_row job'). cbn [w_db set_db]. unfold insert_row in Hi.
  assert (t' = <[r_id (job_row job') := job_row job']> (w_db w2)) as -> by (repeat case_match; congruence).
  cbn [job_row r_id r_key]. rewrite <- Hid. split; [apply lookup_insert_eq|]. rewrite Hkey. unfold nullableString.
  intros Hne. by rewrite bool_decide_false.
Qed.

Lemma persist_wp topic job w :
  wf_env env -> wf_table (w_db w) -> wp' (persist topic job) (enqueued (Job.IdempotencyKey job)) w.
Proof.
  intros Henv Hwf. unfold persist. set (job1 := if bool_decide _ then _ else job).
  assert (Job.IdempotencyKey job1 = Job.IdempotencyKey job) as <- by (unfold job1; by case_bool_decide).
  clearbody job1. clear job. intros w1 Hd1. split; [done|]. destruct (Hd1 Hwf) as [Hwf1 _]. cbn [handle fst snd].
  set (job2 := match Job.ScheduledAt job1 with Some _ => job1 | None => _ end).
  assert (Job.IdempotencyKey job1 = Job.IdempotencyKey job2) as -> by (unfold job2; by destruct (Job.ScheduledAt job1)).
  generalize (env_now (w_tick w1)). clearbody job2. intros now. apply wp_bind.
  eapply wp_mono; [|by apply create_wp]. intros [e|] w2 [Hwf2 Hst]; cbn beta iota.
  - destruct (errors_Is e msg_duplicate_key); [|split; done]. case_bool_decide as Hk; [split; done|].
    apply wp_bind. eapply wp_mono; [|by apply (lookup_key_wp (Job.IdempotencyKey job2))].
    intros [ex|e'] w3 [Hwf3 H3]; split; done.
  - destruct (shouldPublishImmediately job2 now); [|split; done].
    intros w3 Hd3. split; [done|]. cbn [wp handle snd].
    apply (enqueued_stable (Job.IdempotencyKey job2) (Ok (Job.ID job2)) w2 w3); done.
Qed.

Lemma with_id_wp topic job w :
  wf_env env -> wf_table (w_db w) -> wp' (with_id topic job) (enqueued (Job.IdempotencyKey job)) w.
Proof.
  intros Henv Hwf. unfold with_id. case_bool_decide; [|by apply persist_wp].
  intros w1 Hd. split; [done|]. destruct (Hd Hwf) as [Hwf1 _]. cbn [handle fst snd prog_bind].
  destruct (env_rand (w_tick w1) 16) as [b|]; [|split; done].
  by apply (persist_wp topic (Job.set_ID _ job) (tick w1)).
Qed.

Lemma Enqueue_wp topic job w :
  wf_env env -> wf_table (w_db w) -> wp' (Enqueue topic job) (enqueued (Job.IdempotencyKey job)) w.
Proof.
  intros Henv Hwf. unfold Enqueue. case_bool_decide as Hk; [by apply with_id_wp|]. cbn [negb].
  apply wp_bind. eapply wp_mono; [|by apply lookup_key_wp].
  intros [ex|e] w1 [Hwf1 H1]; [split; done|]. destruct (errors_Is e msg_not_found); [by apply with_id_wp|split; done].
Qed.

(** C5: one idempotency key, one job.  However many clients enqueue with one key, in
    whatever interleaving of their statements with each other, with faults and with lost
    answers, all that are told a job id are told the same one, and that job is in the
    table under the key. *)
Theorem enqueue_idempotent topic k (jobs : list Job) w ts' w' :
  wf_env env -> wf_table (w_db w) -> k <> "" -> (forall job, job ∈ jobs -> Job.IdempotencyKey job = k) ->
  csteps handle (Enqueue topic <$> jobs, w) (ts', w') ->
  (forall i id, ts' !! i = Some (Ret (Ok id)) -> exists r, w_db w' !! id = Some r /\ r_key r = Some k) /\
  (forall i j id1 id2, ts' !! i = Some (Ret (Ok id1)) -> ts' !! j = Some (Ret (Ok id2)) -> id1 = id2).
Proof.
  intros Henv Hwf Hk Hjobs Hsteps.
  assert (forall i id, ts' !! i = Some (Ret (Ok id)) -> stored k id w') as Hst.
  { intros i id Hi.
    pose proof (csteps_wp handle (fun _ => durable) (fun _ => any_step) (fun _ => enqueued k)
      (Enqueue topic <$> jobs, w) (ts', w') (fun _ => durable_pre) (fun _ => enqueued_stable k)
      (fun _ _ X e w _ _ _ _ => handle_durable X e w Henv)) as Hcs.
    refine (proj2 (Hcs _ Hsteps i (Ret (Ok id)) Hi)).
    simpl. intros j p. rewrite list_lookup_fmap. intros (job & Hj & ->)%fmap_Some.
    rewrite <- (Hjobs job (list_elem_of_lookup_2 _ _ _ Hj)). by apply Enqueue_wp. }
  split.
  - intros i id (_ & r & Hr & Hkey)%Hst. eauto.
  - intros i j id1 id2 (Hwf' & r1 & Hr1 & Hk1)%Hst (_ & r2 & Hr2 & Hk2)%Hst. by apply (proj2 Hwf' _ _ r1 r2 k); auto.
Qed.

(** ** What a successful Enqueue did *)

(** The job Enqueue inserts for the request [job]: the given id or a generated one, the
    given state or PENDING, the given time or [now]. *)
Definition filled (id : string) (now : Z) (job : Job) : Job :=
  let job := Job.set_ID id job in
  let job := if bool_decide (Job.State job = "") then Job.set_State JobStatePending job else job in
  match Job.ScheduledAt job with None => Job.set_ScheduledAt (Some now) job | Some _ => job end.

(** The columns CreateJob stamps. *)
Definition stamped (now : Z) (job : Job) : Job :=
  Job.set_UpdatedAt now (if IsZero (Job.CreatedAt job) then Job.set_CreatedAt now job else job).

(** Only the server reports a violated constraint; a lost connection does not look like
    one. *)
Definition honest_faults : Prop :=
  forall n e, env_sql n = FailBefore e \/ env_sql n = FailAfter e ->
    isIdempotencyUniqueViolation e = false /\ errors_Is e msg_duplicate_key = false.

Lemma exec_lookup_key k w :
  wf_env env -> wf_table (w_db w) ->
  w_db (exec (GetJobByIdempotencyKey k) w).2 = w_db w /\ w_go (exec (GetJobByIdempotencyKey k) w).2 = w_go w /\
  match (exec (GetJobByIdempotencyKey k) w).1 with
  | Ok job => exists r, w_db w !! Job.ID job = Some r /\ r_key r = Some k
  | Err _ => True
  end.
Proof.
  intros Henv Hwf. unfold exec, GetJobByIdempotencyKey. cbn [run handle exec_stmt].
  set (v := env_view (w_tick w)). change (w_db (tick w)) with (w_db w).
  destruct (find _ (pv_scan v (w_db w))) as [r|] eqn:Hf;
    destruct (env_sql (w_tick w)) as [|e|e]; cbn [with_fault fst snd scanJob found run];
    (split; [done|]); (split; [done|]); try (by destruct (errors_Is e msg_no_rows)); [|done].
  destruct (scan_row r) as [job|] eqn:Hs; [|done]. cbn [found].
  apply find_some in Hf as [Hin Hkey]. bool_to_prop.
  apply list_elem_of_In in Hin. rewrite (Henv (w_tick w) (w_db w) : pv_scan v _ ≡ₚ _) in Hin.
  apply elem_of_rows_wf in Hin; [|done]. apply scan_row_state in Hs as [_ ->]. eauto.
Qed.

(** CreateJob inserts a fresh row, or reports the duplicate key of a row that was there,
    or fails in another way. *)
Lemma exec_CreateJob job w :
  honest_faults ->
  let res := exec (CreateJob job) w in
  w_go res.2 = w_go w /\
  match res.1 with
  | None => w_db w !! Job.ID job = None /\
            w_db res.2 = <[Job.ID job := job_row (stamped (env_now (w_tick w)) job)]> (w_db w)
  | Some e => errors_Is e msg_duplicate_key = true -> w_db res.2 = w_db w
  end.
Proof.
  intros Hh. unfold CreateJob, exec. cbn [run handle]. fold (stamped (env_now (w_tick w)) job).
  set (job' := stamped _ job). assert (Job.ID job' = Job.ID job) as <-
    by (unfold job', stamped; by destruct (IsZero (Job.CreatedAt job))).
  clearbody job'. cbn [exec_stmt tick w_tick w_db]. specialize (Hh (S (w_tick w))).
  destruct (insert_row (job_row job') (w_db w)) as [x t'] eqn:Hi.
  destruct (env_sql (S (w_tick w))) as [|e|e]; cbn [with_fault run fst snd].
  2, 3: destruct (Hh e) as [H1 H2]; [by auto|]; rewrite H1; by rewrite H2.
  unfold insert_row in Hi. cbn [job_row r_id r_key] in Hi.
  split; [done|]. repeat case_match; simplify_eq/=; auto; try done.
Qed.

(** What [persist], and so Enqueue, did when it answers with an id. *)
Definition enqueue_post (topic : string) (job : Job) (id : string) (w w' : World) : Prop :=
  (Job.IdempotencyKey job <> "" /\ w_db w' = w_db w /\ w_go w' = w_go w /\
   exists r, w_db w !! id = Some r /\ r_key r = Some (Job.IdempotencyKey job)) \/
  (exists n, (w_tick w <= n < w_tick w')%nat /\ w_db w !! id = None /\ (Job.ID job <> "" -> id = Job.ID job) /\
     w_db w' = <[id := job_row (stamped (env_now (S n)) (filled id (env_now n) job))]> (w_db w) /\
     w_go w' = w_go w ++ (if shouldPublishImmediately (filled id (env_now n) job) (env_now n)
                          then [GPublish topic (filled id (env_now n) job)] else [])).

Lemma exec_persist topic job w id w' :
  wf_env env -> wf_table (w_db w) -> honest_faults ->
  exec (persist topic job) w = (Ok id, w') -> enqueue_post topic job id w w'.
Proof.
  intros Henv Hwf Hh. set (n := w_tick w). assert (Job.set_ID (Job.ID job) job = job) as Hset by (by destruct job).
  unfold persist. rewrite exec_vis. cbn [handle fst snd]. fold n.
  assert (match Job.ScheduledAt (if bool_decide (Job.State job = "") then Job.set_State JobStatePending job else job) with
      | Some _ => if bool_decide (Job.State job = "") then Job.set_State JobStatePending job else job
      | None => Job.set_ScheduledAt (Some (env_now n)) (if bool_decide (Job.State job = "") then Job.set_State JobStatePending job else job)
      end = filled (Job.ID job) (env_now n) job) as -> by (unfold filled; by rewrite Hset).
  set (job' := filled (Job.ID job) (env_now n) job).
  assert (Job.ID job' = Job.ID job /\ Job.IdempotencyKey job' = Job.IdempotencyKey job) as [Hid Hkey].
  { unfold job', filled. rewrite Hset. repeat case_match; done. }
  rewrite exec_bind.
  pose proof (exec_CreateJob job' (tick w) Hh) as [Hgo Hcreate].
  pose proof (handle_durable (env := env) Z ENow w Henv Hwf) as [Hwf1 _].
  pose proof (exec_tick_le (CreateJob job') (tick w)) as Htick. cbn [tick w_tick] in Htick. fold n in Htick.
  destruct (exec (CreateJob job') (tick w)) as [[e|] w1] eqn:Hc; cbn [fst snd] in *.
  - destruct (errors_Is e msg_duplicate_key); [|done]. case_bool_decide as Hk; [done|]. rewrite Hkey in *. cbn [andb negb].
    specialize (Hcreate eq_refl). cbn [tick w_db w_go] in Hcreate, Hgo. rewrite exec_bind.
    pose proof (exec_lookup_key (Job.IdempotencyKey job) w1 Henv) as Hl. rewrite Hcreate in Hl.
    destruct Hl as (Hdb & Hgo' & Hres); [done|].
    destruct (exec (GetJobByIdempotencyKey _) w1) as [[ex|e'] w2]; [|done]. cbn [fst snd] in *.
    intros [= <- <-]. left. split_and!; [done|congruence..|done].
  - destruct Hcreate as [Hnone Hdb]. cbn [tick w_db w_go w_tick] in *. rewrite Hid in Hnone, Hdb.
    destruct (shouldPublishImmediately job' (env_now n)) eqn:Hp; intros [= <- <-]; right; exists n; rewrite Hid; fold job';
      (split_and!; [subst n; simpl; lia|subst n; simpl; lia|done|done|done|]); rewrite Hp; cbn [add_go tick w_go]; by rewrite ?app_nil_r, Hgo.
Qed.

Lemma exec_Enqueue topic job w id w' :
  wf_env env -> wf_table (w_db w) -> honest_faults ->
  exec (Enqueue topic job) w = (Ok id, w') -> enqueue_post topic job id w w'.
Proof.
  intros Henv Hwf Hh.
  assert (forall w0, w_db w0 = w_db w -> w_go w0 = w_go w -> (w_tick w <= w_tick w0)%nat ->
    exec (with_id topic job) w0 = (Ok id, w') -> enqueue_post topic job id w w') as Hrest.
  { intros w0 Hdb Hgo Ht. unfold with_id. case_bool_decide as Hid.
    - unfold newJobID, exec at 1. cbn [run handle prog_bind]. destruct (env_rand (w_tick w0) 16) as [b|]; [|done].
      set (gen := uuid_text _). intros H. apply exec_persist in H; [|done..|by simpl; rewrite Hdb|done].
      unfold enqueue_post in *. cbn [tick w_db w_go w_tick] in H. rewrite Hdb, Hgo in H.
      destruct H as [H|(n & Hn & H1 & H2 & H3 & H4)]; [by left|]. right. exists n.
      split_and!; [lia|lia|done..].
    - intros H. apply exec_persist in H; [|done..|by rewrite Hdb|done]. unfold enqueue_post in *. rewrite Hdb, Hgo in H.
      destruct H as [H|(n & Hn & H)]; [by left|]. right. exists n. split; [lia|done]. }
  unfold Enqueue. case_bool_decide as Hk; cbn [negb]; [by apply Hrest|].
  rewrite exec_bind. pose proof (exec_lookup_key (Job.IdempotencyKey job) w Henv Hwf) as (Hdb & Hgo & Hres).
  assert (w_tick (exec (GetJobByIdempotencyKey (Job.IdempotencyKey job)) w).2 = S (w_tick w)) as Ht.
  { unfold exec, GetJobByIdempotencyKey. cbn [run handle exec_stmt]. by destruct (env_sql (w_tick w)). }
  destruct (exec (GetJobByIdempotencyKey _) w) as [[ex|e] w1]; cbn [fst snd] in *.
  - intros [= <- <-]. left. done.
  - destruct (errors_Is e msg_not_found); [|done]. cbn [negb]. apply Hrest; [done..|lia].
Qed.

(** The inserted row and the published job, column by column. *)
Lemma job_row_filled id now now' job :
  let usec (t : Z) := t / 1000 * 1000 in
  job_row (stamped now' (filled id now job)) =
    mkRow id (if decide (Job.IdempotencyKey job = "") then None else Some (Job.IdempotencyKey job)) (Job.Task job)
      (if decide (Job.State job = "") then JobStatePending else Job.State job) (Job.Attempt job) (Job.LastError job)
      (Some (usec (default now (Job.ScheduledAt job)))) (usec <$> Job.StartedAt job) (usec <$> Job.LeaseExpiresAt job)
      (if decide (Job.LeaseToken job = "") then None else Some (Job.LeaseToken job)) (usec <$> Job.CompletedAt job)
      (usec (if decide (Job.CreatedAt job = zero_time) then now' else Job.CreatedAt job)) (usec now') (Job.Metadata job).
Proof.
  destruct job as [i k t st at' [sch|] sta le tok com err md cr up]; unfold filled, stamped, job_row, nullableString, IsZero;
    cbn; (destruct (decide (st = "")); [rewrite bool_decide_true by done|rewrite bool_decide_false by done]); cbn;
    (destruct (decide (cr = zero_time)) as [->|]; [rewrite Z.eqb_refl|rewrite (proj2 (Z.eqb_neq _ _)) by done]);
    cbn; unfold bool_decide; repeat case_match; done.
Qed.

Lemma filled_fields id now job :
  filled id now job =
    Job.mkJob id (Job.IdempotencyKey job) (Job.Task job)
      (if decide (Job.State job = "") then JobStatePending else Job.State job) (Job.Attempt job)
      (Some (default now (Job.ScheduledAt job))) (Job.StartedAt job) (Job.LeaseExpiresAt job) (Job.LeaseToken job)
      (Job.CompletedAt job) (Job.LastError job) (Job.Metadata job) (Job.CreatedAt job) (Job.UpdatedAt job).
Proof.
  destruct job as [i k t st at' [sch|] sta le tok com err md cr up]; unfold filled; cbn;
    (destruct (decide (st = "")); [rewrite bool_decide_true by done|rewrite bool_decide_false by done]); done.
Qed.

Lemma publish_due id now job :
  shouldPublishImmediately (filled id now job) now = true <-> default now (Job.ScheduledAt job) <= now.
Proof. rewrite filled_fields. unfold shouldPublishImmediately. cbn. rewrite negb_true_iff, Z.ltb_ge. done. Qed.

(** C21: a successful Enqueue either found the key and changed nothing, or inserted
    exactly one row, which was not there before, under the id it returns (the requested
    one, if any).  The row has the request's columns, with PENDING for a missing state, the
    clock for a missing schedule and creation time, and NULL for an empty key or token.
    The job is published to Kafka, with the same defaults, when its schedule is not after
    the clock reading, and not published otherwise. *)
Theorem enqueue_effect topic job w id w' :
  wf_env env -> wf_table (w_db w) -> honest_faults ->
  exec (Enqueue topic job) w = (Ok id, w') ->
  let usec (t : Z) := t / 1000 * 1000 in
  let text s := if decide (s = "") then None else Some s in
  (Job.IdempotencyKey job <> "" /\ w_db w' = w_db w /\ w_go w' = w_go w /\
   exists r, w_db w !! id = Some r /\ r_key r = Some (Job.IdempotencyKey job)) \/
  (exists n, (w_tick w <= n < w_tick w')%nat /\ w_db w !! id = None /\ (Job.ID job <> "" -> id = Job.ID job) /\
   let now := env_now n in
   let now' := env_now (S n) in
   let state := if decide (Job.State job = "") then JobStatePending else Job.State job in
   let scheduled := default now (Job.ScheduledAt job) in
   w_db w' = <[id := mkRow id (text (Job.IdempotencyKey job)) (Job.Task job) state (Job.Attempt job) (Job.LastError job)
                       (Some (usec scheduled)) (usec <$> Job.StartedAt job) (usec <$> Job.LeaseExpiresAt job)
                       (text (Job.LeaseToken job)) (usec <$> Job.CompletedAt job)
                       (usec (if decide (Job.CreatedAt job = zero_time) then now' else Job.CreatedAt job))
                       (usec now') (Job.Metadata job)]> (w_db w) /\
   (scheduled <= now ->
    w_go w' = w_go w ++ [GPublish topic
      (Job.mkJob id (Job.IdempotencyKey job) (Job.Task job) state (Job.Attempt job) (Some scheduled) (Job.StartedAt job)
         (Job.LeaseExpiresAt job) (Job.LeaseToken job) (Job.CompletedAt job) (Job.LastError job) (Job.Metadata job)
         (Job.CreatedAt job) (Job.UpdatedAt job))]) /\
   (now < scheduled -> w_go w' = w_go w)).
Proof.
  intros Henv Hwf Hh Hexec usec text. apply exec_Enqueue in Hexec as [H|(n & Hn & Hnone & Hid & Hdb & Hgo)]; [by left| |done..].
  right. exists n. split; [done|]. split; [done|]. split; [done|]. split; [by rewrite Hdb, job_row_filled|]. split.
  - intros Hdue. rewrite Hgo, (proj2 (publish_due id (env_now n) job)) by done. by rewrite filled_fields.
  - intros Hlate. rewrite Hgo. destruct (shouldPublishImmediately _ _) eqn:Hp; [apply publish_due in Hp; lia|apply app_nil_r].
Qed.

(** A generated job id is the text of a version 4 UUID, whatever random bytes are
    read; when none can be read, Enqueue without an id fails and inserts nothing. *)
Theorem newJobID_uuid_v4 w :
  rand_bytes_ok env ->
  match env_rand (w_tick w) 16 with
  | Some _ => exists id, exec newJobID w = (Ok id, tick w) /\ matches uuid_v4 id = true
  | None => forall topic job, Job.ID job = "" ->
      is_ok (exec (with_id topic job) w).1 = false /\ w_db (exec (with_id topic job) w).2 = w_db w
  end.
Proof.
  intros Hr. destruct (env_rand (w_tick w) 16) as [b|] eqn:Hb.
  - destruct (Hr _ _ _ Hb) as [Hlen Hf]. exists (uuid_text (uuid_bytes b)).
    split; [unfold exec; simpl; by rewrite Hb|by apply uuid_text_matches].
  - intros topic job Hid. unfold with_id. rewrite bool_decide_true by done. rewrite exec_bind.
    unfold newJobID. rewrite exec_vis. cbn [handle fst snd]. by rewrite Hb.
Qed.
End Service.

(** ** Witnesses *)

Definition request (key : string) : Job :=
  Job.mkJob "" key webhook_task "" 0 None None None "" None "" ∅ zero_time zero_time.

(** Two clients with one key; both look it up before either inserts. *)
Definition enqueue_race : list (prog Ev (res string error)) * World :=
  run_schedule (handle (env := calm)) [0; 1; 0; 0; 1; 1; 0; 0; 1; 1; 1; 0]%nat
    (Enqueue (pgx := pgx_lenient) "conduit.jobs" <$> [request "k"; request "k"]) (world 3 ∅).

Lemma enqueue_idempotent_witness :
  (exists id, enqueue_race.1 = [Ret (Ok id); Ret (Ok id)]) /\
  (forall i id, enqueue_race.1 !! i = Some (Ret (Ok id)) ->
     exists r, w_db enqueue_race.2 !! id = Some r /\ r_key r = Some "k") /\
  (forall i j id1 id2, enqueue_race.1 !! i = Some (Ret (Ok id1)) -> enqueue_race.1 !! j = Some (Ret (Ok id2)) -> id1 = id2).
Proof.
  split; [eexists; vm_compute; reflexivity|].
  apply (enqueue_idempotent (env := calm) (pgx := pgx_lenient) "conduit.jobs" "k" [request "k"; request "k"] (world 3 ∅)).
  - apply calm_env_wf.
  - split; intros; simplify_map_eq.
  - discriminate.
  - intros job Hj. apply elem_of_cons in Hj as [->|Hj]; [reflexivity|]. apply list_elem_of_singleton in Hj as ->. reflexivity.
  - unfold enqueue_race. rewrite <- surjective_pairing. apply run_schedule_csteps.
Defined.

Definition after_enqueue : res string error * World :=
  exec (env := calm) (Enqueue (pgx := pgx_v5) "conduit.jobs" (request "")) (world 3 ∅).

Lemma enqueue_effect_witness :
  exists r j, w_db after_enqueue.2 !! "00000000-0000-4000-8000-000000000000" = Some r /\
    r_state r = JobStatePending /\ w_go after_enqueue.2 = [GPublish "conduit.jobs" j].
Proof.
  destruct (enqueue_effect (env := calm) (pgx := pgx_v5) "conduit.jobs" (request "") (world 3 ∅)
              "00000000-0000-4000-8000-000000000000" after_enqueue.2)
    as [(Hk & _)|(n & _ & _ & _ & Hdb & Hpub & _)].
  - apply calm_env_wf.
  - split; intros; simplify_map_eq.
  - intros n e [H|H]; discriminate.
  - vm_compute. reflexivity.
  - exfalso. apply Hk. reflexivity.
  - do 2 eexists. split; [rewrite Hdb; apply lookup_insert_eq|]. split; [reflexivity|].
    refine (Hpub _). apply Z.le_refl.
Defined.

Lemma newJobID_uuid_v4_witness :
  exists id, exec (env := calm) newJobID (world 3 ∅) = (Ok id, tick (world 3 ∅)) /\ matches uuid_v4 id = true.
Proof.
  apply (newJobID_uuid_v4 (env := calm) (pgx := pgx_v5) (world 3 ∅)).
  intros n k l. simpl. intros [= <-]. split; [apply length_replicate|].
  apply Forall_replicate. unfold is_byte. apply Z.mod_pos_bound. reflexivity.
Defined.
