(* ===== verification/Redlock.v ===== *)
(** * internal/lock: the Redlock manager

    Acquire sets the key on every node with NX and a time to live, keeps the lock when a
    quorum answered in time, and otherwise takes its keys back and tries again.  The
    manager's clients are the nodes 0, 1, .. of the world. *)

From S2P Require Import Prelude GoLib Float64 Models Breaker Sql Effects Rely Store Concrete.

Module Redlock.

Record Config := mkConfig {
  Quorum : Z;
  TTL : Z;
  RetryCount : Z;
  RetryDelay : Z;
  DriftFactor : f64;
}.

Record Lock := mkLock {
  Resource : string;
  Value : string;
  Expiry : Z;
}.

(** [clients] is the number of clients. *)
Record Manager := mkManager {
  clients : nat;
  cfg : Config;
}.

(** [0.01] is 5764607523034235 * 2^-59. *)
Definition NewManager (n : nat) (c : Config) : Manager :=
  mkManager n (mkConfig
    (if Quorum c <=? 0 then Z.of_nat n / 2 + 1 else Quorum c)
    (if TTL c <=? 0 then 10 * Second else TTL c)
    (if RetryCount c <=? 0 then 3 else RetryCount c)
    (if RetryDelay c <=? 0 then 200 * Millisecond else RetryDelay c)
    (if fle (DriftFactor c) (Fin 0 0) then Fin 5764607523034235 (-59) else DriftFactor c)).

(** The configuration of cmd/server. *)
Definition main_config : Config :=
  mkConfig 0 (30 * Second) 3 (100 * Millisecond) (Fin 5764607523034235 (-59)).

Definition drift (c : Config) : Z := int64_of (fmul (of_int (TTL c)) (DriftFactor c)) + 2 * Millisecond.

Section Redlock.
Context {coll : Collation} {env : Env}.

Definition generateToken : prog Ev (res string error) :=
  perform b := ERand 16 in
  Ret match b with Some b => Ok (HexEncode b) | None => Err rand_error end.

(** [for _, client := range m.clients]: SetNX on each, counting the successes. *)
Fixpoint set_all (nodes : list nat) (resource value : string) (ttl acquired : Z) : prog Ev Z :=
  match nodes with
  | [] => Ret acquired
  | i :: nodes' =>
      perform r := ESetNX i resource value ttl in
      set_all nodes' resource value ttl (match r with Ok true => acquired + 1 | _ => acquired end)
  end.

Fixpoint release_all (nodes : list nat) (resource value : string) : prog Ev unit :=
  match nodes with
  | [] => Ret tt
  | i :: nodes' => perform _ := ERelease i resource value in release_all nodes' resource value
  end.

Definition lock_error (m : Manager) (resource : string) : error :=
  Errorf ("lock: could not acquire lock on " +:+ resource +:+ " after " +:+ Itoa (RetryCount (cfg m)) +:+ " attempts") [].

Definition nodes_of (m : Manager) : list nat := seq 0 (clients m).

(** [k] attempts are left. *)
Fixpoint acquire_loop (m : Manager) (resource value : string) (k : nat) (first : bool) : prog Ev (res Lock error) :=
  match k with
  | O => Ret (Err (lock_error m resource))
  | S k' =>
      let! cancelled := (if first then Ret None else trigger (EWait (RetryDelay (cfg m)))) in
      match cancelled with
      | Some e => Ret (Err e)
      | None =>
          perform start := ENow in
          let! acquired := set_all (nodes_of m) resource value (TTL (cfg m)) 0 in
          perform now := ENow in
          let validity := TTL (cfg m) - (now - start) - drift (cfg m) in
          if (Quorum (cfg m) <=? acquired) && (0 <? validity) then
            perform now' := ENow in
            Ret (Ok (mkLock resource value (now' + validity)))
          else
            let! _ := release_all (nodes_of m) resource value in
            acquire_loop m resource value k' false
      end
  end.

Definition acquire_with (m : Manager) (resource value : string) : prog Ev (res Lock error) :=
  acquire_loop m resource value (Z.to_nat (RetryCount (cfg m))) true.

Definition Acquire (m : Manager) (resource : string) : prog Ev (res Lock error) :=
  let! value := generateToken in
  match value with
  | Err e => Ret (Err (wrapf "lock: generate token: " e))
  | Ok value => acquire_with m resource value
  end.

(** The errors of the nodes, [redis.Nil] apart. *)
Fixpoint release_errs (nodes : list nat) (resource value : string) : prog Ev (list error) :=
  match nodes with
  | [] => Ret []
  | i :: nodes' =>
      perform r := ERelease i resource value in
      let! errs := release_errs nodes' resource value in
      Ret match r with
           | Err e => if errors_Is e "redis: nil" then errs else e :: errs
           | Ok _ => errs
           end
  end.

Definition Release (m : Manager) (lock : Lock) : prog Ev (option error) :=
  let! errs := release_errs (nodes_of m) (Resource lock) (Value lock) in
  Ret match errs with [] => None | _ => Some (Errorf (Join (String "010"%char "") (Error <$> errs)) errs) end.

Lemma Acquire_effects (P : forall X, Ev X -> Prop) m resource :
  (forall n, P _ (ERand n)) -> P _ ENow -> (forall d, P _ (EWait d)) ->
  (forall i k v t, P _ (ESetNX i k v t)) -> (forall i k v, P _ (ERelease i k v)) ->
  all_effects P (Acquire m resource).
Proof.
  intros Hr Hn Hw Hs Hd. unfold Acquire. apply all_effects_bind; [split; [done|by intros]|]. intros [v|e]; [|done].
  assert (forall l acq, all_effects P (set_all l resource v (TTL (cfg m)) acq)) as Hset
    by (intros l; induction l; intros acq; simpl; auto).
  assert (forall l, all_effects P (release_all l resource v)) as Hrel by (intros l; induction l; simpl; auto).
  unfold acquire_with. generalize true. induction (Z.to_nat (RetryCount (cfg m))) as [|k IH]; intros first; [done|].
  cbn [acquire_loop]. apply all_effects_bind; [by destruct first; simpl; auto|]. intros [e|]; [done|].
  split; [done|]. intros start. apply all_effects_bind; [done|]. intros acq. split; [done|]. intros now.
  case_match; [by simpl; auto|]. apply all_effects_bind; auto.
Qed.

Lemma Release_effects (P : forall X, Ev X -> Prop) m lock :
  (forall i k v, P _ (ERelease i k v)) -> all_effects P (Release m lock).
Proof.
  intros Hd. unfold Release. apply all_effects_bind; [|done].
  induction (nodes_of m) as [|i l IH]; [done|]. split; [done|]. intros r. by apply all_effects_bind.
Qed.

(** ** What the other clients leave alone *)

(** Clocks do not run backwards. *)
Definition monotone_clock : Prop := forall n, env_now n <= env_now (S n).

Lemma clock_mono n k : monotone_clock -> (n <= k)%nat -> env_now n <= env_now k.
Proof. intros Hm. induction 1 as [|k _ IH]; [lia|]. specialize (Hm k). lia. Qed.

Definition now (w : World) : Z := env_now (w_tick w).

(** A step that keeps the keys holding [v] until they expire. *)
Definition keeps (resource v : string) (w w' : World) : Prop :=
  (w_tick w <= w_tick w')%nat /\
  forall i n e, w_nodes w !! i = Some n -> n !! resource = Some (v, e) ->
    e <= now w' \/ exists n', w_nodes w' !! i = Some n' /\ n' !! resource = Some (v, e).

(** What a client with the token [v] guarantees: the keys of every other token are kept. *)
Definition leaves_others (resource v : string) (w w' : World) : Prop :=
  forall v', v' <> v -> keeps resource v' w w'.

(** The client holds the nodes [I] until [until]. *)
Definition owns (resource v : string) (until : Z) (I : list nat) (w : World) : Prop :=
  until <= now w \/
  forall i, i ∈ I -> exists n e, w_nodes w !! i = Some n /\ n !! resource = Some (v, e) /\ until <= e.

Lemma keeps_pre resource v : monotone_clock -> PreOrder (keeps resource v).
Proof.
  intros Hm. split.
  - intros w. split; [done|]. intros i n e Hi Hn. right. eauto.
  - intros w1 w2 w3 [Ht12 H12] [Ht23 H23]. split; [lia|]. intros i n e Hi Hn.
    destruct (H12 i n e Hi Hn) as [Hexp|(n' & Hi' & Hn')]; [|by eauto].
    left. pose proof (clock_mono _ _ Hm Ht23). unfold now in *. lia.
Qed.

Lemma owns_stable resource v until I w w' :
  monotone_clock -> owns resource v until I w -> keeps resource v w w' -> owns resource v until I w'.
Proof.
  intros Hm Ho [Ht Hk]. pose proof (clock_mono _ _ Hm Ht) as Hc. unfold owns, now in *. destruct Ho as [Ho|Ho]; [left; lia|].
  destruct (Z.le_gt_cases until (env_now (w_tick w'))) as [|Hgt]; [by left|]. right.
  intros i Hi. destruct (Ho i Hi) as (n & e & Hn & He & Hle). destruct (Hk i n e Hn He) as [?|(n' & Hn' & He')]; [lia|].
  eauto.
Qed.

Lemma same_nodes_keeps resource v w w' :
  w_nodes w' = w_nodes w -> (w_tick w <= w_tick w')%nat -> keeps resource v w w'.
Proof. intros Hn Ht. split; [done|]. rewrite Hn. intros i n e Hi He. right. eauto. Qed.

(** A command that keeps the unexpired key of [v] on its node. *)
Lemma on_node_keeps {X} resource v i (f : Node -> X * Node) w :
  monotone_clock ->
  (forall n e, n !! resource = Some (v, e) -> e <= now w \/ (f n).2 !! resource = Some (v, e)) ->
  keeps resource v w (with_fault (env_redis (w_tick w)) (on_node i f (tick w)) (tick w)).2.
Proof.
  intros Hm Hf.
  assert (keeps resource v w (on_node i f (tick w)).2) as Heff.
  { unfold on_node. cbn [tick w_nodes]. destruct (w_nodes w !! i) as [n|] eqn:Hi; [|apply same_nodes_keeps; simpl; auto].
    destruct (f n) as [x n'] eqn:Hfn. split; [simpl; lia|]. cbn [set_nodes w_nodes snd].
    intros j nj e Hj He. pose proof (Hm (w_tick w)) as Hc. unfold now in *. cbn [set_nodes tick w_tick].
    destruct (decide (i = j)) as [<-|Hne].
    - rewrite Hi in Hj. injection Hj as <-. destruct (Hf n e He) as [?|Hk]; [left; lia|]. right. exists n'. rewrite Hfn in Hk.
      split; [|done]. apply list_lookup_insert_eq. by eapply lookup_lt_Some.
    - right. exists nj. by rewrite list_lookup_insert_ne by done. }
  destruct (env_redis (w_tick w)); cbn [with_fault snd]; [done|apply same_nodes_keeps; simpl; auto|done].
Qed.

Lemma setnx_leaves resource v i ttl w :
  monotone_clock -> leaves_others resource v w (handle _ (ESetNX i resource v ttl) w).2.
Proof.
  intros Hm v' Hne. apply on_node_keeps; [done|]. intros n e He. unfold node_setnx. rewrite He.
  destruct (_ <? e) eqn:Hc; [by right|]. left. bool_to_prop. done.
Qed.

Lemma release_leaves resource v i w :
  monotone_clock -> leaves_others resource v w (handle _ (ERelease i resource v) w).2.
Proof.
  intros Hm v' Hne. apply on_node_keeps; [done|]. intros n e He. right. unfold node_release. rewrite He.
  rewrite (bool_decide_false (v' = v)) by done. by rewrite andb_false_r.
Qed.

(** Setting the key on a node outside [I] keeps [I], and a success adds the node. *)
Lemma setnx_owns resource v i ttl I s w :
  monotone_clock -> i ∉ I -> s <= now w -> owns resource v (s + ttl) I w ->
  let res := handle _ (ESetNX i resource v ttl) w in
  owns resource v (s + ttl) (match res.1 with Ok true => i :: I | _ => I end) res.2.
Proof.
  intros Hm Hi Hs Ho. cbn [handle].
  assert (forall r w', w_tick w' = S (w_tick w) ->
    (forall j, j <> i -> w_nodes w' !! j = w_nodes w !! j) ->
    (match r with Ok true => exists n, w_nodes w' !! i = Some n /\ n !! resource = Some (v, now w + ttl) | _ => True end) ->
    owns resource v (s + ttl) (match r : res bool error with Ok true => i :: I | _ => I end) w') as Hcase.
  { intros r w' Ht Hj Hr. pose proof (Hm (w_tick w)) as Hc. unfold owns, now in *. rewrite Ht.
    destruct Ho as [Ho|Ho]; [left; lia|]. right.
    assert (forall j, j ∈ I -> exists n e, w_nodes w' !! j = Some n /\ n !! resource = Some (v, e) /\ s + ttl <= e) as HI.
    { intros j Hin. destruct (Ho j Hin) as (n & e & H1 & H2 & H3). exists n, e. rewrite Hj; [done|]. by intros ->. }
    destruct r as [[]|]; [|done..]. intros j [->|Hin]%elem_of_cons; [|by apply HI].
    destruct Hr as (n & H1 & H2). exists n, (env_now (w_tick w) + ttl). split_and!; [done|done|lia]. }
  unfold on_node. cbn [tick w_nodes]. destruct (w_nodes w !! i) as [n|] eqn:Hni.
  2:{ destruct (env_redis (w_tick w)); by apply Hcase. }
  destruct (node_setnx (env_now (w_tick w)) resource v ttl n) as [ok n'] eqn:Hset.
  assert (forall r : res bool error, (r = Ok ok \/ exists e, r = Err e) -> owns resource v (s + ttl) (match r with Ok true => i :: I | _ => I end)
    (set_nodes (<[i:=n']> (w_nodes w)) (tick w))) as Hdone.
  { intros r Hr. apply Hcase; [done|simpl; intros j Hj; by rewrite list_lookup_insert_ne by congruence|].
    destruct Hr as [->|[e ->]]; [|done]. destruct ok; [|done]. exists n'. split.
    - simpl. apply list_lookup_insert_eq. by eapply lookup_lt_Some.
    - unfold node_setnx in Hset. repeat case_match; simplify_eq; by rewrite lookup_insert_eq. }
  destruct (env_redis (w_tick w)) as [|e|e]; cbn [with_fault fst snd].
  - apply (Hdone (Ok ok)). by left.
  - by apply (Hcase (Err e) (tick w)).
  - apply (Hdone (Err e)). eauto.
Qed.

(** *** A program with its clock readings

    [logged p []] performs the effects of [p] and returns, with its result, the answers the
    clock gave it, in order. *)
Definition reading {X} (e : Ev X) : X -> list Z :=
  match e with ENow => fun t => [t] | _ => fun _ => [] end.

Fixpoint logged {A} (p : prog Ev A) (log : list Z) : prog Ev (list Z * A) :=
  match p with
  | Ret a => Ret (log, a)
  | Vis e k => Vis e (fun x => logged (k x) (log ++ reading e x))
  end.

Lemma exec_logged {A} (p : prog Ev A) log w :
  (exec (logged p log) w).1.2 = (exec p w).1 /\ (exec (logged p log) w).2 = (exec p w).2.
Proof.
  revert log w. induction p as [a|X e k IH]; intros log w; [done|]. cbn [logged]. rewrite !exec_vis. apply IH.
Qed.

Definition no_clock (X : Type) (e : Ev X) : Prop := match e with ENow => False | _ => True end.

Lemma wp_logged_bind {A B} R G (p : prog Ev A) (f : A -> prog Ev B) Q log w :
  wp handle R G (logged p log) (fun '(log', a) w1 => wp handle R G (logged (f a) log') Q w1) w ->
  wp handle R G (logged (prog_bind f p) log) Q w.
Proof.
  revert log w. induction p as [a|X e k IH]; intros log w; simpl; [done|]. intros H w1 H1. destruct (H w1 H1). auto.
Qed.

(** A program that does not read the clock adds nothing to the log. *)
Lemma wp_logged {A} R G (p : prog Ev A) Q log w :
  all_effects no_clock p -> wp handle R G p Q w ->
  wp handle R G (logged p log) (fun '(log', a) w1 => log' = log /\ Q a w1) w.
Proof.
  revert w. induction p as [a|X e k IH]; intros w; simpl; [done|]. intros [He Hk] H w1 H1.
  destruct (H w1 H1) as [Hg Hw]. split; [done|].
  replace (log ++ reading e (handle X e w1).1) with log by (destruct e; simpl; rewrite ?app_nil_r; done).
  by apply IH.
Qed.

Lemma set_all_no_clock l resource v ttl acquired : all_effects no_clock (set_all l resource v ttl acquired).
Proof. revert acquired. induction l as [|i l IH]; intros acquired; simpl; [done|]. split; [done|]. intros r. apply IH. Qed.

Lemma release_all_no_clock l resource v : all_effects no_clock (release_all l resource v).
Proof. induction l as [|i l IH]; simpl; [done|]. split; [done|]. by intros r. Qed.

Section Client.
Context (m : Manager) (resource v : string) (Hm : monotone_clock).

Abbreviation R := (keeps resource v).
Abbreviation G := (leaves_others resource v).

#[local] Instance R_pre : PreOrder R := keeps_pre resource v Hm.

Lemma now_mono w w' : R w w' -> now w <= now w'.
Proof. intros [Ht _]. by apply clock_mono. Qed.

Lemma set_all_wp l I ttl acquired s w :
  NoDup l -> NoDup I -> (forall i, i ∈ I -> i ∉ l) -> Z.of_nat (length I) = acquired ->
  s <= now w -> owns resource v (s + ttl) I w ->
  wp handle R G (set_all l resource v ttl acquired)
    (fun acq w' => exists I', NoDup I' /\ (forall i, i ∈ I' -> i ∈ I \/ i ∈ l) /\ Z.of_nat (length I') = acq /\
       s <= now w' /\ owns resource v (s + ttl) I' w') w.
Proof.
  revert I acquired w. induction l as [|i l IH]; intros I acquired w Hl HI Hdis Hlen Hs Ho; cbn [set_all wp].
  { exists I. auto. }
  intros w1 Hr. split; [by apply setnx_leaves|]. apply NoDup_cons in Hl as [Hil Hl].
  pose proof (now_mono _ _ Hr). pose proof (owns_stable _ _ _ _ _ _ Hm Ho Hr) as Ho1.
  assert (i ∉ I) as HiI by (intros Hin; apply (Hdis i Hin); left).
  pose proof (setnx_owns resource v i ttl I s w1 Hm HiI ltac:(lia) Ho1) as Ho2. cbv zeta in Ho2.
  assert (s <= now (handle _ (ESetNX i resource v ttl) w1).2) as Hs2.
  { pose proof (Hm (w_tick w1)). unfold now in *. rewrite handle_tick. lia. }
  destruct (handle _ (ESetNX i resource v ttl) w1) as [r w2]. cbn [fst snd] in *.
  assert (forall I2 acq, NoDup I2 -> (forall j, j ∈ I2 -> j = i \/ j ∈ I) -> Z.of_nat (length I2) = acq -> owns resource v (s + ttl) I2 w2 ->
    wp handle R G (set_all l resource v ttl acq)
    (fun acq w' => exists I', NoDup I' /\ (forall j, j ∈ I' -> j ∈ I \/ j ∈ i :: l) /\ Z.of_nat (length I') = acq /\
       s <= now w' /\ owns resource v (s + ttl) I' w') w2) as Hnext.
  { intros I2 acq H1 H2 H3 H4. eapply wp_mono; [|apply (IH I2 acq w2); try done].
    - intros a w3 (I' & HI' & Hsub & Hrest). exists I'. split; [done|]. split; [|done].
      intros j Hj. destruct (Hsub j Hj) as [[->|]%H2|]; set_solver.
    - intros j [->|Hj]%H2; [done|]. intros Hjl. apply (Hdis j Hj). by right. }
  destruct r as [[]|]; [apply (Hnext (i :: I))|by apply (Hnext I); auto..].
  - by constructor.
  - intros j [->|]%elem_of_cons; auto.
  - simpl. lia.
  - done.
Qed.

Lemma release_all_wp l w : wp handle R G (release_all l resource v) (fun _ _ => True) w.
Proof. revert w. induction l as [|i l IH]; intros w; simpl; [done|]. intros w1 _. split; [by apply release_leaves|apply IH]. Qed.

(** The lock was won in an attempt that ends the log with the clock readings [s] at its start,
    [t1] after the nodes were asked and [t2] for the Expiry. *)
Definition won (log : list Z) (l : Lock) (w : World) : Prop :=
  exists pre s t1 t2 I, log = pre ++ [s; t1; t2] /\ s <= t1 <= t2 /\ t2 <= now w /\
    Expiry l = t2 + (TTL (cfg m) - (t1 - s) - drift (cfg m)) /\
    t1 - s + drift (cfg m) < TTL (cfg m) /\
    NoDup I /\ (forall i, i ∈ I -> (i < clients m)%nat) /\ Quorum (cfg m) <= Z.of_nat (length I) /\
    owns resource v (s + TTL (cfg m)) I w.

Definition outcome (r : list Z * res Lock error) (w : World) : Prop :=
  match r with (log, Ok l) => won log l w | (_, Err _) => True end.

Lemma outcome_stable : stable R outcome.
Proof.
  intros [log [l|e]] w w1; [|done]. intros (pre & s & t1 & t2 & I & H) Hr. exists pre, s, t1, t2, I.
  pose proof (now_mono _ _ Hr). destruct_and!. split_and!; try done; [lia|]. by eapply owns_stable.
Qed.

Lemma tick_keeps resource' v' w : keeps resource' v' w (tick w).
Proof. apply same_nodes_keeps; simpl; auto. Qed.

Lemma tick_leaves w : G w (tick w).
Proof. intros v' _. apply tick_keeps. Qed.

Lemma acquire_loop_wp k first log w : wp handle R G (logged (acquire_loop m resource v k first) log) outcome w.
Proof.
  revert first log w. induction k as [|k IH]; intros first log w; [done|]. cbn [acquire_loop].
  assert (forall log w, wp handle R G (logged
    (perform start := ENow in
     let! acquired := set_all (nodes_of m) resource v (TTL (cfg m)) 0 in
     perform now := ENow in
     let validity := TTL (cfg m) - (now - start) - drift (cfg m) in
     if (Quorum (cfg m) <=? acquired) && (0 <? validity) then
       perform now' := ENow in
       Ret (Ok (mkLock resource v (now' + validity)))
     else
       let! _ := release_all (nodes_of m) resource v in
       acquire_loop m resource v k false) log) outcome w) as Hbody.
  { clear log w. intros log w w1 Hr1. split; [apply tick_leaves|]. cbn [handle fst snd reading]. set (s := env_now (w_tick w1)).
    apply wp_logged_bind. assert (s <= now (tick w1)) as Hs by apply Hm.
    eapply wp_mono; [|apply wp_logged; [apply set_all_no_clock|apply (set_all_wp _ [] _ _ s)]]; try done;
      [|apply NoDup_seq|constructor|by intros i Hi%elem_of_nil|by right; intros i Hi%elem_of_nil].
    intros [log' acq] w2 (-> & I & HI & Hsub & Hlen & Hs2 & Ho). cbn [logged].
    intros w3 Hr3. split; [apply tick_leaves|]. cbn [handle fst snd reading].
    set (t1 := env_now (w_tick w3)). destruct (_ && _) eqn:Hwin; bool_to_prop.
    - cbn [logged]. intros w4 Hr4. split; [apply tick_leaves|]. cbn [handle fst snd wp reading].
      exists log, s, t1, (env_now (w_tick w4)), I.
      pose proof (now_mono _ _ Hr3). pose proof (now_mono _ _ Hr4) as H4. pose proof (Hm (w_tick w3)). pose proof (Hm (w_tick w4)).
      unfold now in *. cbn [tick w_tick] in *. split_and!; try lia; try done.
      + by rewrite <- !app_assoc.
      + intros i Hi. destruct (Hsub i Hi) as [[]%elem_of_nil|Hin]. unfold nodes_of in Hin. apply elem_of_seq in Hin. lia.
      + apply (owns_stable _ _ _ _ w2 _ Hm Ho). transitivity w3; [done|]. transitivity (tick w3); [apply tick_keeps|].
        transitivity w4; [done|]. apply tick_keeps.
    - apply wp_logged_bind. eapply wp_mono; [|apply wp_logged; [apply release_all_no_clock|apply release_all_wp]].
      intros [log' []] w4 _. apply IH. }
  destruct first; [apply Hbody|]. cbn [prog_bind trigger logged]. intros w1 Hr1. split; [apply tick_leaves|].
  cbn [handle fst snd]. destruct (env_ctx (w_tick w1)); [done|apply Hbody].
Qed.
End Client.

(** Two majorities meet. *)
Lemma majorities_meet n (I J : list nat) :
  NoDup I -> NoDup J -> (forall i, i ∈ I -> (i < n)%nat) -> (forall i, i ∈ J -> (i < n)%nat) ->
  (n < length I + length J)%nat -> exists i, i ∈ I /\ i ∈ J.
Proof.
  intros HI HJ HIn HJn Hlen.
  destruct (decide (Exists (fun i => i ∈ J) I)) as [(i & Hi & Hj)%Exists_exists|Hno]; [by exists i|]. exfalso.
  assert (NoDup (I ++ J)) as Hnd.
  { apply NoDup_app. split_and!; [done| |done]. intros i Hi Hj. apply Hno, Exists_exists. eauto. }
  assert (I ++ J ⊆+ seq 0 n) as Hsub.
  { apply NoDup_submseteq; [done|]. intros i [Hi|Hi]%elem_of_app; apply elem_of_seq; [apply HIn in Hi|apply HJn in Hi]; lia. }
  apply submseteq_length in Hsub. rewrite length_app, length_seq in Hsub. lia.
Qed.

(** Two owners of a quorum of unexpired keys are one. *)
Lemma owners_agree m resource v1 v2 u1 u2 I J w :
  Z.of_nat (clients m) < 2 * Quorum (cfg m) ->
  NoDup I -> NoDup J -> (forall i, i ∈ I -> (i < clients m)%nat) -> (forall i, i ∈ J -> (i < clients m)%nat) ->
  Quorum (cfg m) <= Z.of_nat (length I) -> Quorum (cfg m) <= Z.of_nat (length J) ->
  owns resource v1 u1 I w -> owns resource v2 u2 J w -> now w < u1 -> now w < u2 -> v1 = v2.
Proof.
  intros Hq HI HJ HIn HJn HIq HJq [?|HI1] [?|HJ1] H1 H2; [lia..|].
  destruct (majorities_meet (clients m) I J HI HJ HIn HJn ltac:(lia)) as (i & Hi & Hj).
  destruct (HI1 i Hi) as (n & e & Hn & He & _). destruct (HJ1 i Hj) as (n' & e' & Hn' & He' & _). congruence.
Qed.

(** C13: mutual exclusion.  Any number of clients with distinct tokens run Acquire on one
    resource against the same nodes, with any interleaving, any failing or lost commands
    and any keys left by others; clocks agree and do not run backwards, and the quorum is
    a majority (NewManager's default).  [s], [t1] and [t1'] are the last three clock
    readings a winner made: the start of its winning attempt, the end of its round over the
    nodes, and the one its Expiry is computed from.  Two clients that both won are not both
    within TTL of their [s]; and not both before their Expiry, as long as at most the drift
    allowance passed between each one's last two readings. *)
Theorem redlock_mutual_exclusion m resource (vs : list string) w ts' w' :
  monotone_clock -> Z.of_nat (clients m) < 2 * Quorum (cfg m) -> NoDup vs ->
  csteps handle ((fun v => logged (acquire_with m resource v) []) <$> vs, w) (ts', w') ->
  let allowance := int64_of (fmul (of_int (TTL (cfg m))) (DriftFactor (cfg m))) + 2 * Millisecond in
  forall i j log1 log2 l1 l2, i <> j -> ts' !! i = Some (Ret (log1, Ok l1)) -> ts' !! j = Some (Ret (log2, Ok l2)) ->
  exists pre1 s1 t1 t1' pre2 s2 t2 t2',
    log1 = pre1 ++ [s1; t1; t1'] /\ log2 = pre2 ++ [s2; t2; t2'] /\
    Expiry l1 = t1' + (TTL (cfg m) - (t1 - s1) - allowance) /\ t1 - s1 + allowance < TTL (cfg m) /\
    Expiry l2 = t2' + (TTL (cfg m) - (t2 - s2) - allowance) /\ t2 - s2 + allowance < TTL (cfg m) /\
    ~ (now w' < s1 + TTL (cfg m) /\ now w' < s2 + TTL (cfg m)) /\
    (t1' - t1 <= allowance -> t2' - t2 <= allowance -> ~ (now w' < Expiry l1 /\ now w' < Expiry l2)).
Proof.
  intros Hm Hq Hvs Hsteps allowance i j log1 log2 l1 l2 Hij Hi Hj.
  set (tok := fun k => default "" (vs !! k)).
  assert (forall k p, ts' !! k = Some p ->
    wp handle (keeps resource (tok k)) (leaves_others resource (tok k)) p (outcome m resource (tok k)) w') as Hall.
  { apply (csteps_wp handle (fun k => keeps resource (tok k))
      (fun k => leaves_others resource (tok k)) (fun k => outcome m resource (tok k))
      ((fun v => logged (acquire_with m resource v) []) <$> vs, w) (ts', w')); [..|exact Hsteps].
    - intros k. by apply keeps_pre.
    - intros k. by apply outcome_stable.
    - intros k1 k2 X e w0. simpl. rewrite !length_fmap. intros [v1 H1]%lookup_lt_is_Some_2 [v2 H2]%lookup_lt_is_Some_2 Hne Hg.
      apply Hg. unfold tok. rewrite H1, H2. simpl. intros ->. apply Hne. by eapply NoDup_lookup.
    - simpl. intros k p. rewrite list_lookup_fmap. intros (v & Hv & ->)%fmap_Some.
      unfold tok. rewrite Hv. by apply acquire_loop_wp. }
  assert (forall k p, ts' !! k = Some p -> vs !! k = Some (tok k)) as Htok.
  { intros k p Hk%lookup_lt_Some. apply csteps_length in Hsteps. simpl in Hsteps. rewrite length_fmap in Hsteps.
    rewrite Hsteps in Hk. apply lookup_lt_is_Some_2 in Hk as [v Hv]. unfold tok. by rewrite Hv. }
  destruct (Hall _ _ Hi) as (pre1 & s1 & t1 & t1' & I & Hlog1 & Hs1 & _ & He1 & Hv1 & HI & HIn & HIq & Ho1).
  destruct (Hall _ _ Hj) as (pre2 & s2 & t2 & t2' & J & Hlog2 & Hs2 & _ & He2 & Hv2 & HJ & HJn & HJq & Ho2).
  exists pre1, s1, t1, t1', pre2, s2, t2, t2'.
  assert (~ (now w' < s1 + TTL (cfg m) /\ now w' < s2 + TTL (cfg m))) as Hex.
  { intros [Hn1 Hn2]. pose proof (owners_agree m resource _ _ _ _ I J w' Hq HI HJ HIn HJn HIq HJq Ho1 Ho2 Hn1 Hn2) as Heq.
    apply Hij. eapply NoDup_lookup; [exact Hvs|by eapply Htok|]. rewrite Heq. by eapply Htok. }
  do 7 (split; [assumption|]). intros Hp1 Hp2 [Hn1 Hn2]. apply Hex. unfold drift in He1, He2. fold allowance in He1, He2. lia.
Qed.

(** ** Release *)

(** The key of [resource] on every node, the unexpired key of [v] removed where the
    command took effect. *)
Lemma handle_release i resource v w :
  let w' := (handle _ (ERelease i resource v) w).2 in
  length (w_nodes w') = length (w_nodes w) /\
  forall j n, w_nodes w !! j = Some n -> exists n', w_nodes w' !! j = Some n' /\
    (n' = n \/ (j = i /\ n' = delete resource n /\ exists e, n !! resource = Some (v, e))) /\
    (j = i -> env_redis (w_tick w) = NoFault -> forall e, n' !! resource = Some (v, e) -> e <= now w).
Proof.
  cbn [handle]. unfold on_node. cbn [tick w_nodes].
  destruct (w_nodes w !! i) as [ni|] eqn:Hi.
  2:{ assert (forall j n, w_nodes w !! j = Some n -> exists n', w_nodes w !! j = Some n' /\
        (n' = n \/ (j = i /\ n' = delete resource n /\ exists e, n !! resource = Some (v, e))) /\
        (j = i -> env_redis (w_tick w) = NoFault -> forall e, n' !! resource = Some (v, e) -> e <= now w)) as H.
      { intros j n Hj. exists n. split_and!; [done|by left|]. intros ->. congruence. }
      by destruct (env_redis (w_tick w)). }
  unfold node_release, now. destruct (env_redis (w_tick w)) as [|e0|e0] eqn:Hf; cbn [with_fault snd];
    destruct (ni !! resource) as [[v0 e]|] eqn:Hk; cbn [snd set_nodes w_nodes tick];
    try (destruct ((env_now (w_tick w) <? e) && bool_decide (v0 = v)) eqn:Hc; cbn [snd set_nodes w_nodes tick]);
    rewrite ?length_insert; (split; [done|]); intros j n Hj;
    (destruct (decide (i = j)) as [<-|Hne]; [rewrite Hi in Hj; injection Hj as <-|];
     [|rewrite ?list_lookup_insert_ne by done; exists n; split_and!; [done|by left|congruence]]);
    rewrite ?list_lookup_insert_eq by (by eapply lookup_lt_Some);
    eexists; (split; [first [done|exact Hi]|]); (split; [|intros _ Hno; try done]).
  all: try (by left).
  all: try (bool_to_prop; subst; right; split_and!; [done|done|by eexists]).
  - intros e1. by rewrite lookup_delete_eq.
  - intros e1 He1. rewrite Hk in He1. injection He1 as -> ->. apply andb_false_iff in Hc as [Hc|Hc]; bool_to_prop; [lia|done].
  - intros e1 He1. congruence.
Qed.

(** The nodes lose at most the caller's keys. *)
Definition only_released (resource v : string) (w w' : World) : Prop :=
  (w_tick w <= w_tick w')%nat /\ length (w_nodes w') = length (w_nodes w) /\
  forall j n, w_nodes w !! j = Some n -> exists n', w_nodes w' !! j = Some n' /\
    (n' = n \/ (n' = delete resource n /\ exists e, n !! resource = Some (v, e))).

#[global] Instance only_released_pre resource v : PreOrder (only_released resource v).
Proof.
  split.
  - intros w. split_and!; [done|done|]. eauto.
  - intros w1 w2 w3 (Ht1 & Hl1 & H1) (Ht2 & Hl2 & H2). split_and!; [lia|congruence|]. intros j n Hj.
    destruct (H1 j n Hj) as (n2 & Hn2 & Hc2). destruct (H2 j n2 Hn2) as (n3 & Hn3 & Hc3). exists n3. split; [done|].
    destruct Hc2 as [->|[-> He]]; [done|]. destruct Hc3 as [->|[-> (e & He')]]; [by right|]. by rewrite lookup_delete_eq in He'.
Qed.

Lemma handle_release_only i resource v w : only_released resource v w (handle _ (ERelease i resource v) w).2.
Proof.
  destruct (handle_release i resource v w) as [Hl H]. split_and!; [rewrite handle_tick; lia|done|].
  intros j n Hj. destruct (H j n Hj) as (n' & Hn' & Hc & _). exists n'. naive_solver.
Qed.

(** No unexpired key of [v] on node [i]. *)
Definition clean (resource v : string) (i : nat) (w : World) : Prop :=
  forall n e, w_nodes w !! i = Some n -> n !! resource = Some (v, e) -> e <= now w.

Lemma clean_stable resource v i w w' :
  monotone_clock -> clean resource v i w -> only_released resource v w w' -> clean resource v i w'.
Proof.
  intros Hm Hcl (Ht & Hlen & H) n' e Hn' He. pose proof (clock_mono _ _ Hm Ht). unfold now in *.
  destruct (lookup_lt_is_Some_2 (w_nodes w) i) as [n Hn]; [rewrite <- Hlen; by eapply lookup_lt_Some|].
  destruct (H i n Hn) as (n2 & Hn2 & Hc). rewrite Hn' in Hn2. injection Hn2 as <-.
  destruct Hc as [->|[-> _]]; [|by rewrite lookup_delete_eq in He]. specialize (Hcl n e Hn He). unfold now in Hcl. lia.
Qed.

Lemma exec_release_errs l resource v w :
  let res := exec (release_errs l resource v) w in
  only_released resource v w res.2 /\
  (monotone_clock -> (forall n, env_redis n = NoFault) -> (forall i, i ∈ l -> is_Some (w_nodes w !! i)) ->
   res.1 = [] /\ forall i, i ∈ l -> clean resource v i res.2).
Proof.
  revert w. induction l as [|i l IH]; intros w.
  { split; [simpl; reflexivity|]. intros _ _ _. split; [done|]. by intros i Hi%elem_of_nil. }
  cbn [release_errs]. rewrite exec_vis, exec_bind. pose proof (handle_release_only i resource v w) as Ho.
  destruct (handle_release i resource v w) as [Hlen Hnode].
  assert ((forall n, env_redis n = NoFault) -> is_Some (w_nodes w !! i) -> exists z, (handle _ (ERelease i resource v) w).1 = Ok z) as Hok.
  { intros Hf [n Hn]. cbn [handle]. rewrite Hf. unfold on_node. cbn [with_fault tick w_nodes]. rewrite Hn.
    destruct (node_release _ _ _ n) as [z n']. by exists z. }
  destruct (handle _ (ERelease i resource v) w) as [r w1] eqn:Hh. cbn [fst snd] in *.
  destruct (IH w1) as [Ho1 H1]. destruct (exec (release_errs l resource v) w1) as [errs w2]. cbn [fst snd] in *.
  split; [simpl; by transitivity w1|]. intros Hm Hf Hex. destruct (Hok Hf ltac:(apply Hex; left)) as [z ->].
  assert (clean resource v i w1) as Hcl.
  { intros n e Hn He. pose proof (Hm (w_tick w)). destruct (Hex i ltac:(left)) as [n0 Hn0].
    destruct (Hnode i n0 Hn0) as (n' & Hn' & _ & Hgone). rewrite Hn in Hn'. injection Hn' as <-.
    specialize (Hgone eq_refl (Hf _) e He). destruct Ho as (Ht & _). pose proof (clock_mono _ _ Hm Ht). unfold now in *. lia. }
  destruct H1 as [-> H2]; [done|done| |].
  { intros j Hj. apply lookup_lt_is_Some. rewrite Hlen. apply lookup_lt_is_Some. apply Hex. by right. }
  split; [done|]. intros j [->|Hj]%elem_of_cons; [by eapply clean_stable|by apply H2].
Qed.

(** Release takes back the caller's lock and nothing else: whatever fails, every key of
    another resource or another token stays on its node; without faults it reports success
    and no node is left with an unexpired key of the caller. *)
Theorem redlock_release_own m lock w :
  let res := exec (Release m lock) w in
  (forall i n k v e, w_nodes w !! i = Some n -> n !! k = Some (v, e) -> k <> Resource lock \/ v <> Value lock ->
     exists n', w_nodes res.2 !! i = Some n' /\ n' !! k = Some (v, e)) /\
  (monotone_clock -> (forall n, env_redis n = NoFault) -> (clients m <= length (w_nodes w))%nat ->
   res.1 = None /\ forall i, (i < clients m)%nat -> clean (Resource lock) (Value lock) i res.2).
Proof.
  unfold Release. rewrite exec_bind. destruct (exec_release_errs (nodes_of m) (Resource lock) (Value lock) w) as [(_ & _ & Ho) H].
  destruct (exec (release_errs _ _ _) w) as [errs w1]. cbn [fst snd] in *. split.
  - intros i n k v e Hn Hk Hne. destruct (Ho i n Hn) as (n' & Hn' & Hc). exists n'. split; [done|].
    destruct Hc as [->|[-> (e' & He')]]; [done|]. rewrite lookup_delete_ne; [done|]. intros <-. rewrite Hk in He'. naive_solver.
  - intros Hm Hf Hlen. destruct H as [Herr Hcl]; [done|done| |].
    { intros i Hi. apply elem_of_seq in Hi. apply lookup_lt_is_Some. lia. }
    subst errs. split; [done|]. intros i Hi. apply Hcl. apply elem_of_seq. lia.
Qed.
End Redlock.

(** ** A slow client, and witnesses *)

(** The clock jumps by 40 seconds at tick [k]. *)
Definition slow_env (k : nat) : Env := {|
  env_now n := if (n <? k)%nat then t0 else t0 + 40 * Second;
  env_rand n len := Some (replicate len (Z.of_nat n mod 256));
  env_float _ := Fin 1 (-1);
  env_view := calm_view;
  env_sql _ := NoFault;
  env_redis _ := NoFault;
  env_ctx _ := None;
  env_handler _ _ := Finished None;
  env_submit _ _ := true;
|}.

Lemma slow_clock k : monotone_clock (env := slow_env k).
Proof. intros n. simpl. destruct (_ <? k)%nat eqn:H1, (S n <? k)%nat eqn:H2; unfold t0, Second; try lia.
  apply Nat.ltb_ge in H1. apply Nat.ltb_lt in H2. lia. Qed.

Definition main_manager : Manager := NewManager 3 main_config.

(** The Expiry of a lock can outlive its keys.  Acquire adds the remaining validity to a
    clock reading made after the one it checked the validity with: a client held up between
    the two gets a lock whose Expiry is in the future although every key has expired, and a
    second client gets the same lock: both hold one that claims to be valid. *)
Theorem redlock_expiry_overstates :
  exists env : Env, monotone_clock (env := env) /\ exists l1 l2 w1 w2,
    exec (env := env) (acquire_with main_manager "job:exec:1" "a") (world 3 ∅) = (Ok l1, w1) /\
    exec (env := env) (acquire_with main_manager "job:exec:1" "b") w1 = (Ok l2, w2) /\
    now (env := env) w2 < Expiry l1 /\ now (env := env) w2 < Expiry l2.
Proof.
  exists (slow_env 5). split; [apply slow_clock|]. do 4 eexists.
  split; [vm_compute; reflexivity|]. split; [vm_compute; reflexivity|]. split; vm_compute; reflexivity.
Qed.

(** The first client wins, its keys expire, the second client wins. *)
Definition two_clients : list (prog Ev (list Z * res Lock error)) :=
  (fun v => logged (acquire_with main_manager "job:exec:1" v) []) <$> ["a"; "b"].

Definition two_winners : list (prog Ev (list Z * res Lock error)) * World :=
  run_schedule (handle (env := slow_env 6)) [0; 0; 0; 0; 0; 0; 1; 1; 1; 1; 1; 1]%nat two_clients (world 3 ∅).

Lemma redlock_mutual_exclusion_witness :
  exists log1 l1 log2 l2, two_winners.1 = [Ret (log1, Ok l1); Ret (log2, Ok l2)] /\
    exists s1 t1 t1' s2 t2 t2', log1 = [s1; t1; t1'] /\ log2 = [s2; t2; t2'] /\
      ~ (now (env := slow_env 6) two_winners.2 < s1 + 30 * Second /\
         now (env := slow_env 6) two_winners.2 < s2 + 30 * Second).
Proof.
  do 4 eexists. split; [vm_compute; reflexivity|].
  edestruct (redlock_mutual_exclusion (env := slow_env 6) main_manager "job:exec:1" ["a"; "b"] (world 3 ∅)
               two_winners.1 two_winners.2) with (i := 0%nat) (j := 1%nat)
    as (pre1 & s1 & t1 & t1' & pre2 & s2 & t2 & t2' & Hlog1 & Hlog2 & _ & _ & _ & _ & Hex & _).
  - apply slow_clock.
  - vm_compute. reflexivity.
  - apply (bool_decide_unpack (NoDup ["a"; "b"])). vm_compute. exact I.
  - unfold two_winners. rewrite <- surjective_pairing. apply run_schedule_csteps.
  - discriminate.
  - vm_compute. reflexivity.
  - vm_compute. reflexivity.
  - exists s1, t1, t1', s2, t2, t2'. split_and!; [| |exact Hex].
    + destruct pre1 as [|? [|? [|? [|? ?]]]]; [exact Hlog1|discriminate Hlog1..].
    + destruct pre2 as [|? [|? [|? [|? ?]]]]; [exact Hlog2|discriminate Hlog2..].
Defined.
End Redlock.
