(* ===== verification/Worker.v ===== *)
(** * cmd/server: jobWorker

    Run waits for the job's schedule, asks the breaker, takes the execution lock, claims
    the row when the job came from Kafka, and executes the handler; what follows depends
    on how the handler ends.  Deferred calls run in reverse order on every way out, a
    panic of the handler included. *)

From S2P Require Import Prelude GoLib Float64 Retry Models Breaker Sql Effects Rely Store Concrete StoreSpec Redlock.

Module Worker.

(** The fields of jobWorker that are not part of the world; [handlers] are the names with
    a registered handler. *)
Record jobWorker := mkWorker {
  lockMgr : Redlock.Manager;
  retry : Retry.Engine;
  handlers : list string;
  lease : Z;
}.

(** How Run ends: it returns, or the handler's panic goes through it. *)
Inductive RunResult := Returned (err : option error) | Panics.

Definition maxInWorkerSleep : Z := 60 * Second.

(** The names defaultHandlers registers. *)
Definition default_names : list string := ["webhook"; "sql.etl"].

Section Worker.
Context {coll : Collation} {env : Env} {pgx : Pgx}.
Variable jw : jobWorker.

Definition effectiveLease : Z := if 0 <? lease jw then lease jw else 5 * Minute.

Definition newWorkerLeaseToken : prog Ev (res string error) :=
  perform b := ERand 16 in
  Ret match b with Some b => Ok (HexEncode b) | None => Err rand_error end.

(** A claimed job has a lease to renew or to release. *)
Definition holds_claim (job : Job) : bool :=
  negb (negb (bool_decide (Job.State job = JobStateRunning)) || bool_decide (Job.LeaseToken job = "")).

Definition releaseClaim (job : Job) (reason : string) : prog Ev unit :=
  if negb (holds_claim job) then Ret tt
  else let! _ := ReleaseClaim job reason in Ret tt.

Definition renewal_interval : Z :=
  let interval := Z.quot effectiveLease 2 in
  if interval <? Second then Second else interval.

Definition startLeaseRenewal (job : Job) : prog Ev unit :=
  if negb (holds_claim job) then Ret tt
  else perform _ := EGo (GRenew job effectiveLease renewal_interval) in Ret tt.

Definition stopRenewLease (job : Job) : prog Ev unit :=
  if negb (holds_claim job) then Ret tt
  else perform _ := EGo (GStopRenew job) in Ret tt.

(** The renewal goroutine, up to [k] firings of its timer. *)
Fixpoint renew_loop (k : nat) (job : Job) (lease interval : Z) : prog Ev unit :=
  match k with
  | O => Ret tt
  | S k' =>
      perform cancelled := EWait interval in
      match cancelled with
      | Some _ => Ret tt
      | None =>
          let! err := RenewLease job lease in
          match err with
          | Some _ => Ret tt
          | None => renew_loop k' job lease interval
          end
      end
  end.

Definition no_handler (name : string) : error :=
  Errorf ("worker: no handler registered for task " +:+ Quote name +:+ ": " +:+ Retry.msg_no_retry) [Retry.ErrNoRetry].

Definition execute (job : Job) : prog Ev Outcome :=
  if negb (bool_decide (Task.Name (Job.Task job) ∈ handlers jw))
  then Ret (Finished (Some (no_handler (Task.Name (Job.Task job)))))
  else trigger (EHandler job).

Definition shouldRetry (job : Job) (err : error) : bool :=
  if 0 <? Task.MaxRetries (Job.Task job)
  then negb (errors_Is err Retry.msg_no_retry) && (Job.Attempt job <? Task.MaxRetries (Job.Task job))
  else Retry.ShouldRetry (retry jw) (Job.Attempt job) err.

(** [jw.retry.Delay(job.Attempt)]: the random number is drawn when there is jitter. *)
Definition retry_delay (attempt : Z) : prog Ev Z :=
  if flt Retry.zero (Retry.Jitter (Retry.cfg (retry jw)))
  then perform r := EFloat in Ret (Retry.Delay (retry jw) attempt r)
  else Ret (Retry.Delay (retry jw) attempt Retry.zero).

Definition failed_job (job : Job) (runErr : error) : Job :=
  Job.set_LastError (Error runErr) (Job.set_State JobStateFailed job).

Definition rescheduled_job (job : Job) (nextRun : Z) : Job :=
  Job.set_LeaseExpiresAt None (Job.set_StartedAt None (Job.set_ScheduledAt (Some nextRun) (Job.set_State JobStatePending job))).

Definition scheduleRetry (job : Job) (runErr : error) : prog Ev RunResult :=
  let! delay := retry_delay (Job.Attempt job) in
  perform now := ENow in
  let nextRun := now + delay in
  let job := failed_job job runErr in
  let! err := UpdateJob job in
  match err with
  | Some _ => Ret (Returned (Some runErr))
  | None =>
      let! _ := UpdateJob (rescheduled_job job nextRun) in
      Ret (Returned (Some runErr))
  end.

Definition dead_job (job : Job) (runErr : error) : Job :=
  Job.set_LeaseExpiresAt None (Job.set_LastError (Error runErr) (Job.set_State JobStateDead job)).

Definition deadLetter (job : Job) (runErr : error) : prog Ev RunResult :=
  let! _ := UpdateJob (dead_job job runErr) in
  Ret (Returned (Some runErr)).

Definition completed_job (job : Job) (completedAt : Z) : Job :=
  Job.set_LeaseExpiresAt None (Job.set_CompletedAt (Some completedAt) (Job.set_State JobStateCompleted job)).

(** From the call of execute to the end of Run. *)
Definition attempt_job (job : Job) : prog Ev RunResult :=
  let! outcome := execute job in
  match outcome with
  | Panicked => Ret Panics
  | Finished (Some err) =>
      perform _ := EFailure in
      perform _ := EMetric IncFailed in
      if shouldRetry job err then scheduleRetry job err else deadLetter job err
  | Finished None =>
      perform _ := ESuccess in
      perform _ := EMetric IncCompleted in
      perform completedAt := ENow in
      let! err := UpdateJob (completed_job job completedAt) in
      Ret (Returned err)
  end.

(** The job as the Kafka path claims it. *)
Definition running_job (job : Job) (now : Z) (token : string) : Job :=
  Job.set_LeaseToken token (Job.set_LeaseExpiresAt (Some (now + effectiveLease)) (Job.set_StartedAt (Some now)
    (Job.set_State JobStateRunning (Job.set_Attempt (Job.Attempt job + 1) job)))).

Definition claim_job (job : Job) : prog Ev (res Job error) :=
  if bool_decide (Job.State job = JobStateRunning) then Ret (Ok job)
  else
    perform now := ENow in
    let! token := newWorkerLeaseToken in
    match token with
    | Err e => Ret (Err (wrapf "worker: generate lease token: " e))
    | Ok token =>
        let job := running_job job now token in
        let! err := UpdateJob job in
        Ret match err with Some e => Err e | None => Ok job end
    end.

(** Between the metrics' Inc and the deferred Dec. *)
Definition tracked (job : Job) : prog Ev RunResult :=
  perform _ := EMetric IncInFlight in
  perform _ := ENow in
  perform _ := EMetric IncStarted in
  let! _ := startLeaseRenewal job in
  let! result := attempt_job job in
  let! _ := stopRenewLease job in
  perform _ := EMetric DecInFlight in
  perform _ := ENow in
  perform _ := EMetric ObserveDuration in
  Ret result.

(** With the execution lock held. *)
Definition locked (job : Job) : prog Ev RunResult :=
  let! claimed := claim_job job in
  match claimed with
  | Err e => Ret (Returned (Some e))
  | Ok job => tracked job
  end.

(** [Some r]: Run returns [r] without executing. *)
Definition await_schedule (job : Job) : prog Ev (option RunResult) :=
  match Job.ScheduledAt job with
  | None => Ret None
  | Some at_time =>
      perform now := ENow in
      let wait := at_time - now in
      if 0 <? wait then
        if maxInWorkerSleep <? wait then Ret (Some (Returned None))
        else
          perform cancelled := EWait wait in
          Ret match cancelled with Some e => Some (Returned (Some e)) | None => None end
      else Ret None
  end.

Definition Run (job : Job) : prog Ev RunResult :=
  let! early := await_schedule job in
  match early with
  | Some r => Ret r
  | None =>
      perform allowed := EAllow in
      if negb allowed then
        let! _ := releaseClaim job "circuit open" in
        Ret (Returned None)
      else
        let! lck := Redlock.Acquire (lockMgr jw) ("job:exec:" +:+ Job.ID job) in
        match lck with
        | Err _ =>
            let! _ := releaseClaim job "could not acquire execution lock" in
            Ret (Returned None)
        | Ok lck =>
            let! result := locked job in
            let! _ := Redlock.Release (lockMgr jw) lck in
            Ret result
        end
  end.

(** ** Accounting *)

Lemma exec_quiet_frame {A} (p : prog Ev A) w :
  all_effects quiet p -> w_metrics (exec p w).2 = w_metrics w /\ w_handled (exec p w).2 = w_handled w.
Proof. intros Hq. pose proof (exec_quiet p w Hq) as Hb. unfold bookkeeping in Hb. by injection Hb. Qed.

Lemma scheduleRetry_quiet job err : all_effects quiet (scheduleRetry job err).
Proof. unfold scheduleRetry, retry_delay. effects. Qed.

Lemma deadLetter_quiet job err : all_effects quiet (deadLetter job err).
Proof. unfold deadLetter. effects. Qed.

Lemma claim_job_quiet job : all_effects quiet (claim_job job).
Proof. unfold claim_job, newWorkerLeaseToken. effects. Qed.

Lemma releaseClaim_quiet job reason : all_effects quiet (releaseClaim job reason).
Proof. unfold releaseClaim. effects. Qed.

Lemma await_schedule_quiet job : all_effects quiet (await_schedule job).
Proof. unfold await_schedule. effects. Qed.

Lemma Acquire_quiet m resource : all_effects quiet (Redlock.Acquire m resource).
Proof. by apply Redlock.Acquire_effects. Qed.

Lemma Release_quiet m lock : all_effects quiet (Redlock.Release m lock).
Proof. by apply Redlock.Release_effects. Qed.

(** Neither scheduleRetry nor deadLetter panics. *)
Lemma failure_returns job err w :
  (exec (scheduleRetry job err) w).1 = Returned (Some err) /\ (exec (deadLetter job err) w).1 = Returned (Some err).
Proof.
  split.
  - unfold scheduleRetry. rewrite exec_bind. destruct (exec (retry_delay _) w) as [d w1]. rewrite exec_vis, exec_bind.
    destruct (exec (UpdateJob _) _) as [[e|] w2]; [done|]. rewrite exec_bind. by destruct (exec (UpdateJob _) w2).
  - unfold deadLetter. rewrite exec_bind. by destruct (exec (UpdateJob _) w).
Qed.

(** What the attempt adds to the books: nothing when the handler panics, one failure or one
    completion otherwise; the handler is called at most once. *)
Definition accounted (job : Job) (r : RunResult) (w w' : World) : Prop :=
  (r = Panics /\ w_metrics w' = w_metrics w \/
   r <> Panics /\ (w_metrics w' = metric IncFailed (w_metrics w) \/ w_metrics w' = metric IncCompleted (w_metrics w))) /\
  (w_handled w' = w_handled w \/ w_handled w' = w_handled w ++ [job]).

Lemma attempt_accounted job w : accounted job (exec (attempt_job job) w).1 w (exec (attempt_job job) w).2.
Proof.
  unfold attempt_job. rewrite exec_bind.
  assert (w_metrics (exec (execute job) w).2 = w_metrics w /\
    (w_handled (exec (execute job) w).2 = w_handled w \/ w_handled (exec (execute job) w).2 = w_handled w ++ [job])) as [Hm Hh].
  { unfold execute. case_match; [by auto|]. unfold trigger. rewrite exec_vis. simpl. auto. }
  destruct (exec (execute job) w) as [[[err|]|] w1]; cbn [fst snd] in Hm, Hh.
  - rewrite !exec_vis. cbn [handle fst snd]. set (w2 := set_metrics _ _).
    assert (w_metrics w2 = metric IncFailed (w_metrics w) /\ w_handled w2 = w_handled w1) as [Hm2 Hh2]
      by (split; [change (w_metrics w2) with (metric IncFailed (w_metrics w1)); by rewrite Hm|done]).
    destruct (failure_returns job err w2) as [Hs Hd].
    pose proof (exec_quiet_frame _ w2 (scheduleRetry_quiet job err)) as [Hqm Hqh].
    pose proof (exec_quiet_frame _ w2 (deadLetter_quiet job err)) as [Hdm Hdh].
    destruct (shouldRetry job err); (split; [right; split; [by rewrite ?Hs, ?Hd|left; congruence]|]); destruct Hh; (left; congruence) || (right; congruence).
  - rewrite !exec_vis, exec_bind. cbn [handle fst snd]. set (w2 := tick (set_metrics _ _)).
    assert (w_metrics w2 = metric IncCompleted (w_metrics w) /\ w_handled w2 = w_handled w1) as [Hm2 Hh2]
      by (split; [change (w_metrics w2) with (metric IncCompleted (w_metrics w1)); by rewrite Hm|done]).
    set (job' := completed_job job _). pose proof (exec_quiet_frame _ w2 (UpdateJob_quiet job')) as [Hqm Hqh].
    destruct (exec (UpdateJob _) w2) as [e w3]. cbn [fst snd] in *. split; [right; split; [done|right; cbn; congruence]|].
    destruct Hh; (left; cbn; congruence) || (right; cbn; congruence).
  - split; [by left|done].
Qed.

Definition added (f : Metrics -> Z) (w w' : World) : Z := f (w_metrics w') - f (w_metrics w).

(** The in-flight gauge is back, every start has its duration, and ends as a completion, a
    failure or a panic; the handler ran at most once, and only in a started attempt. *)
Definition balanced (r : RunResult) (w w' : World) : Prop :=
  added WorkerInFlight w w' = 0 /\
  added JobStarted w w' = added JobDurationCount w w' /\
  added JobStarted w w' = added JobCompleted w w' + added JobFailed w w' + (match r with Panics => 1 | _ => 0 end) /\
  0 <= added JobStarted w w' <= 1 /\
  exists l, w_handled w' = w_handled w ++ l /\ Z.of_nat (length l) <= added JobStarted w w'.

Lemma quiet_balanced r w w' :
  w_metrics w' = w_metrics w -> w_handled w' = w_handled w -> r <> Panics -> balanced r w w'.
Proof.
  intros Hm Hh Hr. unfold balanced, added. rewrite Hm. destruct r; [|done]. split_and!; try lia.
  exists []. rewrite app_nil_r. split; [done|simpl; lia].
Qed.

Lemma renewal_frame job w :
  w_metrics (exec (startLeaseRenewal job) w).2 = w_metrics w /\ w_handled (exec (startLeaseRenewal job) w).2 = w_handled w /\
  w_metrics (exec (stopRenewLease job) w).2 = w_metrics w /\ w_handled (exec (stopRenewLease job) w).2 = w_handled w.
Proof. unfold startLeaseRenewal, stopRenewLease. by destruct (negb (holds_claim job)). Qed.

Lemma tracked_balanced job w : balanced (exec (tracked job) w).1 w (exec (tracked job) w).2.
Proof.
  unfold tracked. rewrite !exec_vis. cbn [handle fst snd]. set (w1 := set_metrics (metric IncStarted _) _).
  rewrite exec_bind. destruct (renewal_frame job w1) as (Hm2 & Hh2 & _).
  destruct (exec (startLeaseRenewal job) w1) as [u1 w2]. cbn [fst snd] in Hm2, Hh2. rewrite exec_bind.
  destruct (attempt_accounted job w2) as [Hacc Hh3].
  destruct (exec (attempt_job job) w2) as [r w3]. cbn [fst snd] in Hacc, Hh3. rewrite exec_bind.
  destruct (renewal_frame job w3) as (_ & _ & Hm4 & Hh4).
  destruct (exec (stopRenewLease job) w3) as [u2 w4]. cbn [fst snd] in Hm4, Hh4. rewrite !exec_vis. cbn [handle fst snd].
  set (w5 := set_metrics (metric ObserveDuration _) _).
  assert (w_metrics w5 = metric ObserveDuration (metric DecInFlight (w_metrics w4))) as Hm5 by done.
  assert (w_metrics w1 = metric IncStarted (metric IncInFlight (w_metrics w))) as Hm1 by done.
  assert (w_handled w5 = w_handled w4 /\ w_handled w1 = w_handled w) as [Hh5 Hh1] by done.
  change (exec (Ret r) w5) with (r, w5). cbn [fst snd]. clearbody w1 w5.
  rewrite Hm4 in Hm5. rewrite Hm2 in Hacc. rewrite Hh4 in Hh5. rewrite Hh2 in Hh3.
  unfold balanced, added. rewrite Hm5.
  assert (exists l, w_handled w5 = w_handled w ++ l /\ Z.of_nat (length l) <= 1) as (l & Hl & Hlen).
  { destruct Hh3 as [Hh3|Hh3]; [exists []; rewrite app_nil_r|exists [job]]; (split; [congruence|simpl; lia]). }
  destruct Hacc as [[-> Hm3]|[Hr [Hm3|Hm3]]]; rewrite Hm3, Hm1; destruct (w_metrics w); simpl; try (destruct r; [|done]);
    (split_and!; [lia..|exists l; split; [done|lia]]).
Qed.

(** Quiet steps before and after do not matter. *)
Definition same_books (w w' : World) : Prop := w_metrics w' = w_metrics w /\ w_handled w' = w_handled w.

Lemma same_books_trans w1 w2 w3 : same_books w1 w2 -> same_books w2 w3 -> same_books w1 w3.
Proof. unfold same_books. intuition congruence. Qed.

Lemma balanced_frame r w w1 w2 w' : same_books w w1 -> balanced r w1 w2 -> same_books w2 w' -> balanced r w w'.
Proof. intros [Hm Hh] Hb [Hm' Hh']. unfold balanced, added in *. by rewrite Hm', Hh', <- Hm, <- Hh. Qed.

Lemma locked_balanced job w : balanced (exec (locked job) w).1 w (exec (locked job) w).2.
Proof.
  unfold locked. rewrite exec_bind. destruct (exec_quiet_frame _ w (claim_job_quiet job)) as [Hm Hh].
  destruct (exec (claim_job job) w) as [[job'|e] w1]; cbn [fst snd] in Hm, Hh.
  - eapply balanced_frame; [by split|apply tracked_balanced|done].
  - by apply quiet_balanced.
Qed.

Lemma await_schedule_returns job w r : (exec (await_schedule job) w).1 = Some r -> r <> Panics.
Proof.
  unfold await_schedule. destruct (Job.ScheduledAt job) as [t|]; [|done]. rewrite exec_vis. cbn [handle fst snd].
  repeat case_match; try done; [by intros [= <-]|]. rewrite exec_vis. cbn [handle fst snd]. destruct (env_ctx _); [by intros [= <-]|done].
Qed.

(** C17: the books balance.  However the effects of a Run turn out (any environment, any fault,
    a panicking handler), the in-flight gauge is back to its value, every started attempt
    has observed its duration and is counted as one completion, one failure or one panic,
    and the handler ran at most once, in a started attempt. *)
Theorem run_balanced job w : balanced (exec (Run job) w).1 w (exec (Run job) w).2.
Proof.
  unfold Run. rewrite exec_bind. destruct (exec_quiet_frame _ w (await_schedule_quiet job)) as [Hm1 Hh1].
  pose proof (await_schedule_returns job w) as Hr.
  destruct (exec (await_schedule job) w) as [[r|] w1]; cbn [fst snd] in *; [apply quiet_balanced; auto|].
  rewrite exec_vis. cbn [handle]. destruct (Breaker.Allow _ _) as [ok b]. cbn [fst snd]. set (w2 := set_breaker _ _).
  assert (same_books w w2) as H2 by done. clearbody w2. clear Hm1 Hh1 w1.
  destruct ok; cbn [negb]; rewrite exec_bind.
  - destruct (exec_quiet_frame _ w2 (Acquire_quiet (lockMgr jw) ("job:exec:" +:+ Job.ID job))) as [Hm3 Hh3].
    destruct (exec (Redlock.Acquire _ _) w2) as [[lck|e] w3]; cbn [fst snd] in *; rewrite exec_bind.
    + pose proof (locked_balanced job w3) as Hb. destruct (exec (locked job) w3) as [r w4]. cbn [fst snd] in Hb.
      rewrite exec_bind. destruct (exec_quiet_frame _ w4 (Release_quiet (lockMgr jw) lck)) as [Hm5 Hh5].
      destruct (exec (Redlock.Release _ _) w4) as [e w5]. cbn [fst snd] in *.
      eapply balanced_frame; [eapply same_books_trans; [exact H2|by split]|exact Hb|by split].
    + destruct (exec_quiet_frame _ w3 (releaseClaim_quiet job "could not acquire execution lock")) as [Hm4 Hh4].
      destruct (exec (releaseClaim _ _) w3) as [u w4]. cbn [fst snd] in *. destruct H2. apply quiet_balanced; [cbn; congruence..|done].
  - destruct (exec_quiet_frame _ w2 (releaseClaim_quiet job "circuit open")) as [Hm4 Hh4].
    destruct (exec (releaseClaim _ _) w2) as [u w4]. cbn [fst snd] in *. destruct H2. apply quiet_balanced; [cbn; congruence..|done].
Qed.

(** ** What becomes of the row *)

(** The table holds the job's row, RUNNING under the job's own lease, and the driver can
    read it. *)
Definition claimed_in (t : Table) (job : Job) (r : Row) : Prop :=
  t !! Job.ID job = Some r /\ r_state r = JobStateRunning /\ r_lease_token r = Some (Job.LeaseToken job) /\
  Job.LeaseToken job <> "" /\ is_Some (scan_text (r_key r)) /\
  int4 (Job.Attempt job) && int4 (Task.RetryCount (Job.Task job)) = true.

Lemma scan_row_some r : is_Some (scan_text (r_key r)) -> is_Some (r_lease_token r) -> is_Some (scan_row r).
Proof. intros [k Hk] [t Ht]. unfold scan_row. rewrite Hk, Ht. simpl. eauto. Qed.

(** A write of the job's holder along an edge from the state of the row. *)
Lemma holder_update job job' r w :
  (forall n, env_sql n = NoFault) -> w_db w !! Job.ID job = Some r -> r_lease_token r = Some (Job.LeaseToken job) ->
  is_Some (scan_text (r_key r)) -> int4 (Job.Attempt job) && int4 (Task.RetryCount (Job.Task job)) = true ->
  Job.ID job' = Job.ID job -> Job.LeaseToken job' = Job.LeaseToken job -> Job.Attempt job' = Job.Attempt job ->
  Job.Task job' = Job.Task job -> CanTransition (r_state r) (Job.State job') = true ->
  exec (UpdateJob job') w =
    (None, set_db (<[Job.ID job := update_row (update_args job' (env_now (S (w_tick w)))) r]> (w_db w)) (tick (tick (tick w)))).
Proof.
  intros Hf Hr Htok Hk Hi Hid Ht Ha Htask Hc. destruct (scan_row_some r Hk) as [ex Hs]; [by rewrite Htok|].
  rewrite <- Hid in Hr |- *. apply (exec_UpdateJob_ok job' w r ex); [done|done|done|done| |by rewrite Ha, Htask].
  right. left. by rewrite Ht.
Qed.

(** The clock readings and random numbers of an attempt that starts in [w]. *)
Definition clock_of (w : World) (t : Z) : Prop := exists n, (w_tick w <= n)%nat /\ t = env_now n.
Definition float_of (w : World) (f : f64) : Prop := f = Retry.zero \/ exists n, (w_tick w <= n)%nat /\ f = env_float n.

(** The row [r'] and the world [w'] after an attempt from [w], by the handler's outcome. *)
Definition settled (job : Job) (o : Outcome) (r r' : Row) (w w' : World) : Prop :=
  match o with
  | Panicked => r' = r /\ w_breaker w' = w_breaker w
  | Finished None =>
      r_state r' = JobStateCompleted /\ r_lease_token r' = None /\ r_lease_expires_at r' = None /\
      is_Some (r_completed_at r') /\ r_attempt r' = Job.Attempt job /\
      w_breaker w' = Breaker.RecordSuccess (w_breaker w)
  | Finished (Some err) =>
      r_last_error r' = Error err /\ r_lease_token r' = None /\ r_lease_expires_at r' = None /\
      r_attempt r' = Job.Attempt job /\
      (exists t, clock_of w t /\ w_breaker w' = Breaker.RecordFailure t (w_breaker w)) /\
      if shouldRetry job err
      then r_state r' = JobStatePending /\ r_started_at r' = None /\
           exists t f, clock_of w t /\ float_of w f /\
             r_scheduled_at r' = Some (pg_ts (t + Retry.Delay (retry jw) (Job.Attempt job) f))
      else r_state r' = JobStateDead
  end.

Lemma exec_execute job w :
  w_db (exec (execute job) w).2 = w_db w /\ w_breaker (exec (execute job) w).2 = w_breaker w /\
  (w_tick w <= w_tick (exec (execute job) w).2)%nat.
Proof. unfold execute, trigger. case_match; [done|]. rewrite exec_vis. simpl. auto. Qed.

Lemma scheduleRetry_effect job err w r :
  (forall n, env_sql n = NoFault) -> claimed_in (w_db w) job r ->
  exists r' t f, w_db (exec (scheduleRetry job err) w).2 = <[Job.ID job := r']> (w_db w) /\
    w_breaker (exec (scheduleRetry job err) w).2 = w_breaker w /\
    r_last_error r' = Error err /\ r_lease_token r' = None /\ r_lease_expires_at r' = None /\
    r_attempt r' = Job.Attempt job /\ r_state r' = JobStatePending /\ r_started_at r' = None /\
    clock_of w t /\ float_of w f /\
    r_scheduled_at r' = Some (pg_ts (t + Retry.Delay (retry jw) (Job.Attempt job) f)).
Proof.
  intros Hf (Hr & Hst & Htok & Hne & Hk & Hi). unfold scheduleRetry. rewrite exec_bind.
  assert (exists f w1, exec (retry_delay (Job.Attempt job)) w = (Retry.Delay (retry jw) (Job.Attempt job) f, w1) /\
    w_db w1 = w_db w /\ w_breaker w1 = w_breaker w /\ (w_tick w <= w_tick w1)%nat /\ float_of w f)
    as (f & w1 & -> & Hdb1 & Hb1 & Ht1 & Hff).
  { unfold retry_delay, float_of. case_match; [rewrite exec_vis|]; do 2 eexists; split_and!; try reflexivity; simpl; eauto. }
  rewrite exec_vis, exec_bind. cbn [handle fst snd]. set (n := w_tick w1).
  rewrite (holder_update job (failed_job job err) r (tick w1)); try done; [|simpl; by rewrite Hdb1|by rewrite Hst].
  rewrite exec_bind. set (r1 := update_row _ r).
  set (w2 := set_db _ _). rewrite (holder_update job (rescheduled_job (failed_job job err) _) r1 w2); try done;
    [|unfold w2; simpl; by rewrite lookup_insert_eq|by simpl; unfold nullableString; rewrite bool_decide_false].
  exists (update_row (update_args (rescheduled_job (failed_job job err) (env_now n + Retry.Delay (retry jw) (Job.Attempt job) f))
    (env_now (S (w_tick w2)))) r1), (env_now n), f. change (exec (Ret ?x) ?y) with (x, y). cbn [snd set_db w_db w_breaker tick].
  change (w_db w2) with (<[Job.ID job := r1]> (w_db w1)). rewrite insert_insert_eq, Hdb1.
  split_and!; try reflexivity; [done| |done]. by exists n.
Qed.

(** An executed job is settled.  With the row claimed by the job and no failing
    statement, one attempt leaves the row COMPLETED when the handler succeeds; PENDING and
    scheduled the backoff delay ahead when it fails with attempts left; DEAD with the error
    when it fails for good; and RUNNING under the same lease when it panics.  The lease is
    given up in the first three cases, the attempt count is kept, no other row changes, and
    the breaker records the outcome. *)
Theorem attempt_settles job w r :
  (forall n, env_sql n = NoFault) -> claimed_in (w_db w) job r ->
  exists r', w_db (exec (attempt_job job) w).2 = <[Job.ID job := r']> (w_db w) /\
    settled job (exec (execute job) w).1 r r' w (exec (attempt_job job) w).2.
Proof.
  intros Hf Hcl. pose proof Hcl as (Hr & Hst & Htok & Hne & Hk & Hi). unfold attempt_job. rewrite exec_bind.
  destruct (exec_execute job w) as (Hdb & Hb & Ht).
  destruct (exec (execute job) w) as [[[err|]|] w1]; cbn [fst snd] in *.
  - rewrite !exec_vis. cbn [handle fst snd]. set (w2 := set_metrics _ _).
    assert (w_db w2 = w_db w) as Hdb2 by done. assert (w_tick w <= w_tick w2)%nat as Ht2 by (simpl; lia).
    assert (w_breaker w2 = Breaker.RecordFailure (env_now (w_tick w1)) (w_breaker w)) as Hb2 by (rewrite <- Hb; done).
    assert (clock_of w (env_now (w_tick w1))) as Hclk by (by exists (w_tick w1)).
    clearbody w2. rewrite <- Hdb2 in Hcl, Hr |- *. unfold settled. destruct (shouldRetry job err).
    + destruct (scheduleRetry_effect job err w2 r Hf Hcl) as (r' & t & f & H1 & H2 & H3). exists r'. rewrite H2, Hb2.
      destruct H3 as (? & ? & ? & ? & ? & ? & (n & Hn & ->) & Hff & ?).
      assert (float_of w f) by (destruct Hff as [->|(k & Hk' & ->)]; [by left|right; exists k; split; [lia|done]]).
      split_and!; try done; [by eexists|]. exists (env_now n), f. split_and!; try done. exists n. split; [lia|done].
    + unfold deadLetter. rewrite exec_bind, (holder_update job (dead_job job err) r w2); try done; [|by rewrite Hst].
      eexists. split; [reflexivity|]. split_and!; try done. by eexists.
  - rewrite !exec_vis, exec_bind. cbn [handle fst snd]. set (w2 := tick (set_metrics _ _)).
    set (job' := completed_job job _).
    rewrite (holder_update job job' r w2); try done; [|by change (w_db w2) with (w_db w1); rewrite Hdb|by rewrite Hst].
    eexists. split; [cbn; by rewrite Hdb|]. split_and!; try done. rewrite <- Hb. done.
  - exists r. cbn. rewrite insert_id by done. split; [done|]. by rewrite Hb.
Qed.
End Worker.
End Worker.
