(* ===== verification/Dispatch.v ===== *)
(** * Two ways to a worker

    A job reaches the worker pool through the reconciler, which claims it with
    ClaimNextJob, or as a Kafka message, which the worker claims with UpdateJob.  Claims
    of both kinds, by any number of processes, never give one job to two of them.  A
    Kafka message that is delivered again after a failed attempt, however, claims the job
    with the message's own attempt count. *)

From S2P Require Import Prelude GoLib Float64 Retry Models Breaker Sql Effects Rely Store Concrete StoreSpec Redlock Worker.

Section Dispatch.
Context {coll : Collation} {env : Env} {pgx : Pgx}.
Variable jw : Worker.jobWorker.

(** A claim whose lease token has been drawn. *)
Inductive Source :=
| FromStore (now lease : Z)
| FromKafka (job : Job) (now : Z).

Definition dispatch (s : Source) (token : string) : prog Ev (res Job error) :=
  match s with
  | FromStore now lease =>
      perform r := ESql (SClaim now (now + lease) token now) in
      Ret (found (scanJob r))
  | FromKafka job now =>
      let job := Worker.running_job jw job now token in
      let! err := UpdateJob job in
      Ret match err with Some e => Err e | None => Ok job end
  end.

(** ClaimNextJob and the worker's claim are [dispatch] with a fresh token. *)
Lemma ClaimNextJob_dispatch lease :
  ClaimNextJob lease =
    (perform now := ENow in
     let! token := newLeaseToken in
     match token with
     | None => Ret (Err (wrapf "store: generate lease token: " rand_error))
     | Some token => dispatch (FromStore now lease) token
     end).
Proof. reflexivity. Qed.

Lemma claim_job_dispatch job :
  Job.State job <> JobStateRunning ->
  Worker.claim_job jw job =
    (perform now := ENow in
     let! token := Worker.newWorkerLeaseToken in
     match token with
     | Err e => Ret (Err (wrapf "worker: generate lease token: " e))
     | Ok token => dispatch (FromKafka job now) token
     end).
Proof. intros Hs. unfold Worker.claim_job. by rewrite bool_decide_false. Qed.

(** The job is RUNNING under the token. *)
Definition runs_under (t : Table) (id token : string) : Prop :=
  exists r, t !! id = Some r /\ r_state r = JobStateRunning /\ r_lease_token r = Some token.

(** A step that leaves the jobs running under [v] alone. *)
Definition keeps_runs (v : string) (w w' : World) : Prop :=
  wf_table (w_db w) -> wf_table (w_db w') /\ forall id, runs_under (w_db w) id v -> runs_under (w_db w') id v.

Definition keeps_others (v : string) (w w' : World) : Prop := forall v', v' <> v -> keeps_runs v' w w'.

#[global] Instance keeps_runs_pre v : PreOrder (keeps_runs v).
Proof.
  split; [by intros w Hwf|]. intros w1 w2 w3 H12 H23 Hwf. destruct (H12 Hwf) as [Hwf2 H2]. destruct (H23 Hwf2) as [Hwf3 H3].
  auto.
Qed.

(** The statements of a claim with the token [v]. *)
Definition claims_with {X} (v : string) (s : Stmt X) : Prop :=
  match s with
  | SSelectId _ => True
  | SClaim _ _ token _ => token = v
  | SUpdate u => u_state u = JobStateRunning /\ u_fence u = v /\ u_lease_token u = Some v
  | _ => False
  end.

(** They only turn PENDING rows, and rows of [v] itself, into rows of [v]. *)
Lemma claim_stmt_others view {X} (s : Stmt X) t v v' id :
  wf_view view -> wf_table t -> claims_with v s -> v <> "" -> v' <> v ->
  runs_under t id v' -> runs_under (exec_stmt view s t).2 id v'.
Proof.
  intros Hv Hwf Hs Hne Hv' (r & Hr & Hst & Htok).
  destruct s as [r0| | |u|st upd id0|a b tok c|e id0 tok|limit|reason id0 tok|st bound limit]; try done; simpl in *.
  - by exists r.
  - destruct Hs as (Hus & Huf & Hul). case_match; [by exists r|].
    pose proof (update_where_lookup (u_id u) (update_guard u) (update_row u) t id r Hr) as H'.
    destruct (update_where _ _ _ t) as [n t']. simpl in *. rewrite decide_False in H'; [by exists r|].
    intros [_ Hg]. unfold update_guard in Hg. rewrite Huf, Htok, Hst, !orb_true_iff, !andb_true_iff, !bool_decide_eq_true in Hg.
    destruct Hg as [[?|?]|[[? _] _]]; [done|congruence|done].
  - subst tok. destruct (select_claim view t) as [r0|] eqn:Hsel; [|by exists r].
    apply select_claim_spec in Hsel as (Hin & Hdue & _); [|done]. apply elem_of_rows_wf in Hin; [|done].
    case_match; [|by exists r]. exists r. simpl. rewrite lookup_insert_ne; [done|]. intros <-. simplify_eq.
    unfold due in Hdue. bool_to_prop. state_eq.
Qed.

Lemma handle_keeps_others {X} (s : Stmt X) v w :
  wf_env env -> claims_with v s -> v <> "" -> keeps_others v w (handle _ (ESql s) w).2.
Proof.
  intros Henv Hs Hne v' Hv' Hwf. split; [by apply handle_wf_table|]. intros id Hr.
  pose proof (claim_stmt_others (env_view (w_tick w)) s (w_db w) v v' id (Henv _) Hwf Hs Hne Hv' Hr) as Hk.
  cbn [handle]. change (w_db (tick w)) with (w_db w). destruct (exec_stmt _ s (w_db w)) as [x t'].
  by destruct (env_sql (w_tick w)).
Qed.

(** A claim that reports a job has it running under its token. *)
Definition dispatched (v : string) (r : res Job error) (w : World) : Prop :=
  wf_table (w_db w) /\ match r with Ok job => runs_under (w_db w) (Job.ID job) v | Err _ => True end.

Lemma dispatched_stable v : stable (keeps_runs v) (dispatched v).
Proof. intros [job|e] w w1 [Hwf H] Hk; destruct (Hk Hwf) as [Hwf1 Hr]; split; auto. Qed.

Lemma tick_keeps_others v w : keeps_others v w (tick w).
Proof. by intros v' _ Hwf. Qed.

Lemma dispatch_wp s v w :
  wf_env env -> wf_table (w_db w) -> v <> "" ->
  wp handle (keeps_runs v) (keeps_others v) (dispatch s v) (dispatched v) w.
Proof.
  intros Henv Hwf Hne. destruct s as [now lease|job now].
  - intros w1 Hk. destruct (Hk Hwf) as [Hwf1 _]. split; [by apply handle_keeps_others|].
    split; [by apply handle_wf_table|]. cbn [handle exec_stmt]. change (w_db (tick w1)) with (w_db w1).
    destruct (select_claim _ (w_db w1)) as [r|] eqn:Hsel; [destruct (int4 (r_attempt r + 1))|];
      destruct (env_sql (w_tick w1)) as [|e|e]; cbn [with_fault fst snd found scanJob]; try (by destruct (errors_Is e msg_no_rows)); try done.
    apply select_claim_spec in Hsel as (Hin & _); [|apply Henv].
    destruct (scan_row (claim_row now (now + lease) v now r)) as [job|] eqn:Hscan; [|done]. cbn [found].
    apply scan_row_state in Hscan as [_ ->]. exists (claim_row now (now + lease) v now r). cbn [w_db set_db].
    split; [apply lookup_insert_eq|done].
  - cbn [dispatch]. set (job' := Worker.running_job jw job now v). apply wp_bind. unfold UpdateJob, GetJob.
    intros w1 Hk1. destruct (Hk1 Hwf) as [Hwf1 _]. split; [by apply (handle_keeps_others (SSelectId (Job.ID job')) v)|].
    assert (wf_table (w_db (handle _ (ESql (SSelectId (Job.ID job'))) w1).2)) as Hwf2 by (by apply handle_wf_table).
    destruct (handle _ (ESql (SSelectId (Job.ID job'))) w1) as [row w2]. cbn [fst snd prog_bind] in *.
    destruct (found (scanJob row)) as [ex|e]; [|done]. destruct (negb (CanTransition _ _)); [done|].
    intros w3 Hk3. destruct (Hk3 Hwf2) as [Hwf3 _]. split; [apply tick_keeps_others|]. cbn [handle fst snd].
    intros w4 Hk4. destruct (Hk4 Hwf3) as [Hwf4 _].
    assert (claims_with v (SUpdate (update_args job' (env_now (w_tick w3))))) as Hcl.
    { simpl. unfold nullableString. by rewrite bool_decide_false. }
    split; [by apply handle_keeps_others|].
    split; [by apply handle_wf_table|]. cbn [handle]. rewrite exec_update. change (w_db (tick w4)) with (w_db w4).
    set (n := env_now (w_tick w3)).
    destruct (negb _); [destruct (env_sql (w_tick w4)); exact I|].
    destruct (w_db w4 !! Job.ID job') as [r|] eqn:Hr; [|destruct (env_sql (w_tick w4)); exact I].
    case_decide; destruct (env_sql (w_tick w4)); cbn [with_fault fst snd affected Z.eqb]; try exact I.
    exists (update_row (update_args job' n) r). cbn [w_db set_db]. split; [apply lookup_insert_eq|].
    split; [done|]. change (nullableString v = Some v). unfold nullableString. by rewrite bool_decide_false.
Qed.

(** C1: no job is dispatched twice.  Any number of processes claim jobs at once, through
    ClaimNextJob or for Kafka messages (two deliveries of one message included), with
    distinct lease tokens and any interleaving, lock conflict or lost answer: two claims
    that succeed are for different jobs, and each of their rows is RUNNING under the
    winner's token. *)
Theorem dispatch_never_collides (cs : list (Source * string)) w ts' w' :
  wf_env env -> wf_table (w_db w) -> NoDup (snd <$> cs) -> "" ∉ (snd <$> cs) ->
  csteps handle ((fun c => dispatch c.1 c.2) <$> cs, w) (ts', w') ->
  (forall i job, ts' !! i = Some (Ret (Ok job)) ->
     exists c, cs !! i = Some c /\ runs_under (w_db w') (Job.ID job) c.2) /\
  (forall i j job1 job2, i <> j -> ts' !! i = Some (Ret (Ok job1)) -> ts' !! j = Some (Ret (Ok job2)) ->
     Job.ID job1 <> Job.ID job2).
Proof.
  intros Henv Hwf Hnd Hne Hsteps. set (tok := fun k => default "" (snd <$> cs !! k)).
  assert (forall k p, ts' !! k = Some p -> wp handle (keeps_runs (tok k)) (keeps_others (tok k)) p (dispatched (tok k)) w') as Hall.
  { apply (csteps_wp handle (fun k => keeps_runs (tok k)) (fun k => keeps_others (tok k)) (fun k => dispatched (tok k))
      ((fun c => dispatch c.1 c.2) <$> cs, w) (ts', w')); [..|exact Hsteps].
    - intros k. apply _.
    - intros k. apply dispatched_stable.
    - intros k1 k2 X e w0. simpl. rewrite !length_fmap. intros [c1 H1]%lookup_lt_is_Some_2 [c2 H2]%lookup_lt_is_Some_2 Hk Hg.
      apply Hg. unfold tok. rewrite H1, H2. simpl. intros Heq. apply Hk.
      eapply (NoDup_lookup (snd <$> cs)); [done|by rewrite list_lookup_fmap, H1|by rewrite list_lookup_fmap, H2; simpl; f_equal].
    - simpl. intros k p. rewrite list_lookup_fmap. intros (c & Hc & ->)%fmap_Some.
      unfold tok. rewrite Hc. apply dispatch_wp; [done..|]. simpl. intros Heq. apply Hne. rewrite <- Heq.
      apply list_elem_of_fmap_2. by eapply list_elem_of_lookup_2. }
  assert (forall i job, ts' !! i = Some (Ret (Ok job)) ->
     exists c, cs !! i = Some c /\ runs_under (w_db w') (Job.ID job) c.2) as Hrun.
  { intros i job Hi. pose proof (Hall _ _ Hi) as [_ Hr]. apply lookup_lt_Some in Hi. apply csteps_length in Hsteps.
    simpl in Hsteps. rewrite length_fmap in Hsteps. rewrite Hsteps in Hi. apply lookup_lt_is_Some_2 in Hi as [c Hc].
    exists c. split; [done|]. unfold tok in Hr. by rewrite Hc in Hr. }
  split; [done|]. intros i j job1 job2 Hij Hi Hj Heq.
  destruct (Hrun i job1 Hi) as (c1 & Hc1 & r1 & Hr1 & _ & Ht1). destruct (Hrun j job2 Hj) as (c2 & Hc2 & r2 & Hr2 & _ & Ht2).
  apply Hij. eapply (NoDup_lookup (snd <$> cs)); [done|by rewrite list_lookup_fmap, Hc1|].
  rewrite list_lookup_fmap, Hc2. simpl. f_equal. rewrite Heq in Hr1. congruence.
Qed.

(** A Kafka message forgets the attempts made.  When the message of a job is delivered
    again while the job waits for its next attempt (PENDING, no lease, [r_attempt] attempts
    used, a later [scheduled_at]), the claim succeeds and writes the attempt count and the
    schedule of the message: fewer attempts are counted than were made, so the retry budget
    starts over. *)
Theorem kafka_redelivery_resets_attempt job w r ex bytes :
  (forall n, env_sql n = NoFault) -> env_rand (S (w_tick w)) 16 = Some bytes ->
  w_db w !! Job.ID job = Some r -> scan_row r = Some ex -> r_state r = JobStatePending -> r_lease_token r = None ->
  Job.State job = JobStatePending -> Job.Attempt job + 1 < r_attempt r ->
  int4 (Job.Attempt job + 1) && int4 (Task.RetryCount (Job.Task job)) = true ->
  exists job' r' w', exec (Worker.claim_job jw job) w = (Ok job', w') /\ w_db w' !! Job.ID job = Some r' /\
    r_state r' = JobStateRunning /\ r_attempt r' = Job.Attempt job + 1 /\ r_attempt r' < r_attempt r /\
    r_scheduled_at r' = pg_ts <$> Job.ScheduledAt job.
Proof.
  intros Hf Hb Hr Hs Hst Htok Hjs Hatt Hi. rewrite claim_job_dispatch by (rewrite Hjs; done).
  rewrite exec_vis, exec_bind. cbn [handle fst snd]. unfold Worker.newWorkerLeaseToken. rewrite exec_vis. cbn [handle fst snd].
  change (w_tick (tick w)) with (S (w_tick w)). rewrite Hb.
  change (exec (Ret ?x) ?y) with (x, y). cbv beta iota. cbn [dispatch].
  set (job' := Worker.running_job _ _ _ _). rewrite exec_bind.
  rewrite (exec_UpdateJob_ok job' _ r ex); [..|exact Hi]; [|done|exact Hr|exact Hs|by rewrite Hst|by right; right].
  change (exec (Ret ?x) ?y) with (x, y). do 3 eexists. split; [reflexivity|]. cbn [set_db w_db tick].
  split; [apply lookup_insert_eq|]. split_and!; done.
Qed.
End Dispatch.

(** ** Witnesses *)

Definition main_worker : Worker.jobWorker :=
  Worker.mkWorker Redlock.main_manager (Retry.NewEngine Retry.main_config) Worker.default_names (5 * Minute).

(** The reconciler and a Kafka consumer claim the same job. *)
Definition two_claims : list (Source * string) :=
  [(FromStore t0 Minute, "tok-a"); (FromKafka (sample_job JobStatePending 0 "") t0, "tok-b")].

Definition claim_race : list (prog Ev (res Job error)) * World :=
  run_schedule (handle (env := calm)) [1; 0; 1; 1]%nat
    ((fun c => dispatch (pgx := pgx_lenient) main_worker c.1 c.2) <$> two_claims) (one_row pending_row).

Lemma dispatch_never_collides_witness :
  (forall i job, claim_race.1 !! i = Some (Ret (Ok job)) ->
     exists c, two_claims !! i = Some c /\ runs_under (w_db claim_race.2) (Job.ID job) c.2) /\
  (forall i j job1 job2, i <> j -> claim_race.1 !! i = Some (Ret (Ok job1)) -> claim_race.1 !! j = Some (Ret (Ok job2)) ->
     Job.ID job1 <> Job.ID job2).
Proof.
  apply (dispatch_never_collides (env := calm) (pgx := pgx_lenient) main_worker two_claims (one_row pending_row)).
  - apply calm_env_wf.
  - apply one_row_wf.
  - apply (bool_decide_unpack (NoDup ["tok-a"; "tok-b"])). vm_compute. exact I.
  - apply (bool_decide_unpack ("" ∉ ["tok-a"; "tok-b"])). vm_compute. exact I.
  - unfold claim_race. rewrite <- surjective_pairing. apply run_schedule_csteps.
Defined.

Lemma kafka_redelivery_witness :
  exists job' r' w', exec (env := calm) (Worker.claim_job (pgx := pgx_lenient) main_worker (sample_job JobStatePending 0 ""))
      (one_row (sample_row JobStatePending 4 None None)) = (Ok job', w') /\ w_db w' !! "job-1" = Some r' /\
    r_state r' = JobStateRunning /\ r_attempt r' = 1 /\ r_attempt r' < 4 /\ r_scheduled_at r' = Some t0.
Proof.
  destruct (scan_row (pgx := pgx_lenient) (sample_row JobStatePending 4 None None)) as [ex|] eqn:Hscan;
    [|vm_compute in Hscan; discriminate].
  apply (kafka_redelivery_resets_attempt (env := calm) (pgx := pgx_lenient) main_worker (sample_job JobStatePending 0 "")
    (one_row (sample_row JobStatePending 4 None None)) (sample_row JobStatePending 4 None None) ex (replicate 16 1));
    try reflexivity. exact Hscan.
Defined.

Lemma attempt_settles_witness :
  exists r', w_db (exec (env := calm) (Worker.attempt_job (pgx := pgx_v5) main_worker (sample_job JobStateRunning 1 "tok-a"))
      (one_row running_row)).2 = <["job-1" := r']> (w_db (one_row running_row)) /\
    Worker.settled (env := calm) main_worker (sample_job JobStateRunning 1 "tok-a")
      (exec (env := calm) (Worker.execute main_worker (sample_job JobStateRunning 1 "tok-a")) (one_row running_row)).1
      running_row r' (one_row running_row)
      (exec (env := calm) (Worker.attempt_job (pgx := pgx_v5) main_worker (sample_job JobStateRunning 1 "tok-a")) (one_row running_row)).2.
Proof.
  apply (Worker.attempt_settles (env := calm) (pgx := pgx_v5) main_worker (sample_job JobStateRunning 1 "tok-a")
    (one_row running_row) running_row).
  - reflexivity.
  - split_and!; try reflexivity; [discriminate|]. by exists "key-1".
Defined.
