(* ===== verification/Reconciler.v ===== *)
(** * internal/reconciler

    One pass recovers RUNNING rows whose lease expired, then claims due jobs one by one and
    hands them to the pool, at most BatchSize of each; the goroutine repeats the pass after
    Interval, or after IdleInterval when the pass found nothing to do. *)

From S2P Require Import Prelude GoLib Float64 Retry Models Breaker Sql Effects Rely Store Concrete StoreSpec Redlock Worker Dispatch.

Module Reconciler.

Record Config := mkConfig {
  Interval : Z;
  IdleInterval : Z;
  BatchSize : Z;
  RunningLease : Z;
}.

Definition New (c : Config) : Config :=
  let interval := if Interval c <=? 0 then Minute else Interval c in
  let idle := if IdleInterval c <=? 0 then interval else IdleInterval c in
  let idle := if idle <? interval then interval else idle in
  mkConfig interval idle
    (if BatchSize c <=? 0 then 100 else BatchSize c)
    (if RunningLease c <=? 0 then 5 * Minute else RunningLease c).

Section Reconciler.
Context {coll : Collation} {env : Env} {pgx : Pgx}.
Variable cfg : Config.

Definition nextInterval (hadWork : bool) : Z := if hadWork then Interval cfg else IdleInterval cfg.

(** [for claimed < r.cfg.BatchSize]: [n] more jobs may be claimed. *)
Fixpoint claim_loop (n : nat) (claimed : Z) (hadWork : bool) : prog Ev bool :=
  match n with
  | O => Ret (if 0 <? claimed then true else hadWork)
  | S n' =>
      perform cancelled := ECtxErr in
      match cancelled with
      | Some _ => Ret hadWork
      | None =>
          let! r := ClaimNextJob (RunningLease cfg) in
          match r with
          | Err e =>
              if errors_Is e msg_not_found then Ret (if 0 <? claimed then true else hadWork)
              else Ret true
          | Ok job =>
              perform accepted := ESubmit job in
              if negb accepted then
                let! _ := ReleaseClaim job "worker pool rejected claimed job" in
                Ret true
              else claim_loop n' (claimed + 1) hadWork
          end
      end
  end.

Definition reconcile : prog Ev bool :=
  let! requeued := RequeueExpiredRunning (BatchSize cfg) in
  let hadWork := match requeued with Err _ => true | Ok n => 0 <? n end in
  claim_loop (Z.to_nat (BatchSize cfg)) 0 hadWork.

(** The goroutine of Start, up to [k] firings of its timer. *)
Fixpoint timer_loop (k : nat) (interval : Z) : prog Ev unit :=
  match k with
  | O => Ret tt
  | S k' =>
      perform stopped := EWait interval in
      match stopped with
      | Some _ => Ret tt
      | None => let! hadWork := reconcile in timer_loop k' (nextInterval hadWork)
      end
  end.

Definition Start_loop (k : nat) : prog Ev unit :=
  let! hadWork := reconcile in
  timer_loop k (nextInterval hadWork).

(** ** What a pass submits *)

(** The jobs handed to the pool are different jobs, RUNNING under their own lease. *)
Definition handed_out (js : list Job) (w : World) : Prop :=
  wf_table (w_db w) /\ NoDup (Job.ID <$> js) /\
  forall job, job ∈ js -> runs_under (w_db w) (Job.ID job) (Job.LeaseToken job).

Lemma claim_submits_fresh js w job w1 lease :
  wf_env env -> handed_out js w -> exec (ClaimNextJob lease) w = (Ok job, w1) -> handed_out (js ++ [job]) w1.
Proof.
  intros Henv (Hwf & Hnd & Hrun) Hc. assert (wf_table (w_db w1)) as Hwf1.
  { pose proof (run_invariant handle (fun w => wf_table (w_db w)) (ClaimNextJob lease) w (handle_wf_table Henv) Hwf) as H.
    change (run handle (ClaimNextJob lease) w) with (exec (ClaimNextJob lease) w) in H. by rewrite Hc in H. }
  destruct (exec_ClaimNextJob_ok lease w job w1 Henv Hwf Hc)
    as (r & bytes & _ & Hr & Hdue & _ & _ & Hdb & Hst & _ & Htok & _).
  unfold due in Hdue. bool_to_prop.
  assert (Job.ID job ∉ Job.ID <$> js) as Hnew.
  { intros (job' & Hid & Hin)%list_elem_of_fmap. destruct (Hrun job' Hin) as (r' & Hr' & Hst' & _).
    rewrite <- Hid in Hr'. simplify_eq. state_eq. }
  split; [done|]. rewrite fmap_app. split.
  - apply NoDup_app. split_and!; [done| |by apply NoDup_singleton].
    intros id Hid Hid'. simpl in Hid'. apply list_elem_of_singleton in Hid' as ->. done.
  - intros job' [Hin|Hin]%elem_of_app.
    + destruct (Hrun job' Hin) as (r' & Hr' & Hst' & Ht'). exists r'. rewrite Hdb, lookup_insert_ne; [done|].
      intros Heq. apply Hnew. rewrite Heq. by apply list_elem_of_fmap_2.
    + apply list_elem_of_singleton in Hin as ->. eexists. rewrite Hdb, lookup_insert_eq. split; [reflexivity|].
      split; [done|]. by rewrite Htok.
Qed.

(** A program that leaves these rows alone. *)
Lemma handed_out_frame js w w1 :
  wf_table (w_db w1) -> (forall id r, id ∈ Job.ID <$> js -> w_db w !! id = Some r -> r_state r = JobStateRunning -> w_db w1 !! id = Some r) ->
  handed_out js w -> handed_out js w1.
Proof.
  intros Hwf1 Hkeep (Hwf & Hnd & Hrun). split_and!; [done|done|]. intros job Hin.
  destruct (Hrun job Hin) as (r & Hr & Hst & Ht). exists r. split; [|done].
  apply Hkeep; [by apply list_elem_of_fmap_2|done|done].
Qed.

Lemma exec_wf {A} (p : prog Ev A) w : wf_env env -> wf_table (w_db w) -> wf_table (w_db (exec p w).2).
Proof. intros Henv. apply (run_invariant handle (fun w => wf_table (w_db w))). by apply handle_wf_table. Qed.

(** Running rows are not claimed, whatever becomes of the answer. *)
Lemma claim_keeps_running lease w id r :
  wf_env env -> wf_table (w_db w) -> w_db w !! id = Some r -> r_state r = JobStateRunning ->
  w_db (exec (ClaimNextJob lease) w).2 !! id = Some r.
Proof.
  intros Henv Hwf Hr Hst. unfold ClaimNextJob, newLeaseToken. rewrite exec_vis. cbn [handle fst snd prog_bind].
  rewrite exec_vis. cbn [handle fst snd]. destruct (env_rand _ 16) as [bytes|]; [|done]. cbn [option_map prog_bind].
  match goal with |- context [exec (Vis (ESql ?s) ?k) ?w1] =>
    destruct (exec_sql s k w1) as (x & w2 & -> & _ & [H|H]) end; change (exec (Ret ?a) ?b) with (a, b); cbn [snd]; rewrite H; [done|].
  cbn [exec_stmt tick w_db]. destruct (select_claim _ (w_db w)) as [r0|] eqn:Hsel; [|done].
  apply select_claim_spec in Hsel as (Hin & Hdue & _); [|apply Henv]. apply elem_of_rows_wf in Hin; [|done].
  case_match; [|done]. simpl. rewrite lookup_insert_ne; [done|]. intros <-. simplify_eq.
  unfold due in Hdue. bool_to_prop. state_eq.
Qed.

Lemma release_keeps_other job reason w id r :
  id <> Job.ID job -> w_db w !! id = Some r -> w_db (exec (ReleaseClaim job reason) w).2 !! id = Some r.
Proof.
  intros Hne Hr. unfold ReleaseClaim.
  match goal with |- context [exec (Vis (ESql ?s) ?k) ?w1] =>
    destruct (exec_sql s k w1) as (x & w2 & -> & _ & [H|H]) end; change (exec (Ret ?a) ?b) with (a, b); cbn [snd]; rewrite H; [done|].
  cbn [exec_stmt]. unfold update_where. destruct (w_db w !! Job.ID job); [|done]. destruct (holds_lease _ _); simpl; [|done].
  by rewrite lookup_insert_ne.
Qed.

Lemma submitted_quiet {A} (p : prog Ev A) w : all_effects quiet p -> w_submitted (exec p w).2 = w_submitted w.
Proof. intros Hq. pose proof (exec_quiet p w Hq) as Hb. unfold bookkeeping in Hb. by injection Hb. Qed.

Lemma claim_loop_hands_out n claimed hw js0 w :
  wf_env env -> handed_out js0 w ->
  exists js, w_submitted (exec (claim_loop n claimed hw) w).2 = w_submitted w ++ js /\ (length js <= n)%nat /\
    handed_out (js0 ++ js) (exec (claim_loop n claimed hw) w).2.
Proof.
  intros Henv. revert claimed js0 w. induction n as [|n IH]; intros claimed js0 w Hout.
  { exists []. rewrite !app_nil_r. simpl. auto. }
  cbn [claim_loop]. rewrite exec_vis. cbn [handle fst snd].
  destruct (env_ctx (w_tick w)) as [e|]; [exists []; rewrite !app_nil_r; simpl; split_and!; [done|lia|exact Hout]|].
  rewrite exec_bind. set (w1 := tick w). assert (handed_out js0 w1) as Hout1 by exact Hout.
  pose proof (submitted_quiet _ w1 (ClaimNextJob_quiet (RunningLease cfg))) as Hsub.
  pose proof (exec_wf (ClaimNextJob (RunningLease cfg)) w1 Henv (proj1 Hout1)) as Hwf2.
  assert (handed_out js0 (exec (ClaimNextJob (RunningLease cfg)) w1).2) as Hout2.
  { apply (handed_out_frame js0 w1); [done| |done]. intros id r _ Hr Hst. apply claim_keeps_running; try done. apply Hout1. }
  destruct (exec (ClaimNextJob (RunningLease cfg)) w1) as [[job|e] w2] eqn:Hc; cbn [fst snd] in Hsub, Hout2, Hwf2.
  2:{ exists []. rewrite !app_nil_r. destruct (errors_Is e msg_not_found); simpl; (split_and!; [done|lia|done]). }
  rewrite exec_vis. cbn [handle fst snd]. destruct (env_submit (w_tick w2) job); cbn [negb].
  - destruct (IH (claimed + 1) (js0 ++ [job]) (add_submitted job (tick w2))) as (js & Hs & Hl & Ho);
      [exact (claim_submits_fresh js0 w1 job w2 _ Henv Hout1 Hc)|].
    exists (job :: js). rewrite Hs. cbn [add_submitted w_submitted tick]. rewrite Hsub, <- app_assoc.
    rewrite <- app_assoc in Ho. split_and!; [done|simpl; lia|done].
  - exists []. rewrite !app_nil_r, exec_bind.
    destruct (claim_submits_fresh js0 w1 job w2 _ Henv Hout1 Hc) as (_ & Hnd & _). rewrite fmap_app in Hnd.
    apply NoDup_app in Hnd as (_ & Hdis & _).
    pose proof (submitted_quiet _ (tick w2) (ReleaseClaim_quiet job "worker pool rejected claimed job")) as Hsub3.
    assert (handed_out js0 (exec (ReleaseClaim job "worker pool rejected claimed job") (tick w2)).2) as Hout3.
    { apply (handed_out_frame js0 w2); [by apply exec_wf| |done]. intros id r Hid Hr _. apply release_keeps_other; [|done].
      intros ->. apply (Hdis _ Hid). left. }
    destruct (exec (ReleaseClaim _ _) (tick w2)) as [e w3]. cbn [fst snd] in *. change (exec (Ret ?a) ?b) with (a, b). cbn [snd].
    split_and!; [by rewrite Hsub3|simpl; lia|done].
Qed.


(** ** Jobs no pass ever picks up *)

Definition recovery_effect (X : Type) (e : Ev X) : Prop :=
  match e with ESql s => label_of s = LOther | _ => True end.

Lemma reconcile_effects : all_effects recovery_effect reconcile.
Proof.
  assert (forall n claimed hw, all_effects recovery_effect (claim_loop n claimed hw)) as Hloop.
  { induction n as [|n IH]; intros claimed hw; [done|]. cbn [claim_loop]. split; [done|]. intros [e|]; [done|].
    apply all_effects_bind; [unfold ClaimNextJob, newLeaseToken; split; [done|]; intros t; split; [done|]; intros [b|]; simpl; by auto|].
    intros [job|e]; [|by destruct (errors_Is e msg_not_found)]. split; [done|]. intros [|]; [apply IH|]. by split. }
  unfold reconcile, RequeueExpiredRunning. apply all_effects_bind; [case_match; [done|by split]|]. intros r. apply Hloop.
Qed.

(** [k] passes, one after the other. *)
Fixpoint passes (k : nat) : prog Ev unit :=
  match k with O => Ret tt | S k' => let! _ := reconcile in passes k' end.

(** A FAILED job is stranded.  scheduleRetry writes FAILED and then PENDING in two
    statements; when the worker stops or loses its connection between them, the row stays
    FAILED, and no number of reconciler passes, in any environment, ever touches it: it is
    neither claimed nor recovered. *)
Theorem failed_job_stranded k w id r :
  wf_env env -> wf_table (w_db w) -> w_db w !! id = Some r -> r_state r = JobStateFailed ->
  w_db (exec (passes k) w).2 !! id = Some r.
Proof.
  intros Henv Hwf Hr Hst.
  assert (all_effects recovery_effect (passes k)) as Heff.
  { induction k as [|k IH]; [done|]. apply all_effects_bind; [apply reconcile_effects|done]. }
  refine (proj2 (run_effects_invariant handle (fun w1 => wf_table (w_db w1) /\ w_db w1 !! id = Some r)
    recovery_effect (passes k) w _ Heff (conj Hwf Hr))).
  clear w Hwf Hr. intros X e w1 He [Hwf1 Hr1]. split; [by apply handle_wf_table|].
  destruct e; try (by rewrite handle_no_sql).
  cbn [handle]. change (w_db (tick w1)) with (w_db w1).
  destruct (exec_stmt_row (env_view (w_tick w1)) (Henv _) s (w_db w1) id r Hwf1 Hr1) as (r' & Hr' & Hstep).
  destruct (exec_stmt _ s (w_db w1)) as [x t']. simpl in Hr', He. rewrite He in Hstep.
  assert (r' = r) as ->; [|by destruct (env_sql (w_tick w1))].
  inversion Hstep; subst; try done; unfold due, holds_lease, expired in *; bool_to_prop; state_eq.
Qed.
End Reconciler.

(** ** Witnesses *)

Definition main_config : Config := New (mkConfig (2 * Second) (10 * Second) 50 (5 * Minute)).


(** A worker that stops after the first of scheduleRetry's two updates. *)
Definition crashed : World :=
  (run_schedule (handle (env := calm)) [0; 0; 0; 0; 0]%nat
     [Worker.scheduleRetry (pgx := pgx_v5) main_worker (sample_job JobStateRunning 1 "tok-a") (Errorf "boom" [])]
     (one_row running_row)).2.

Lemma failed_job_stranded_witness :
  exists r, r_state r = JobStateFailed /\ w_db crashed !! "job-1" = Some r /\
    w_db (exec (env := calm) (passes (pgx := pgx_v5) main_config 3) crashed).2 !! "job-1" = Some r.
Proof.
  destruct (w_db crashed !! "job-1") as [r|] eqn:Hr; [|vm_compute in Hr; discriminate].
  exists r. assert (r_state r = JobStateFailed) as Hst by (vm_compute in Hr; injection Hr as <-; reflexivity).
  split; [exact Hst|]. split; [reflexivity|].
  apply (failed_job_stranded (env := calm) (pgx := pgx_v5) main_config 3 crashed "job-1" r).
  - apply calm_env_wf.
  - pose proof (csteps_durable (env := calm) _ _ (calm_env_wf (Finished None)) (run_schedule_csteps (handle (env := calm)) [0; 0; 0; 0; 0]%nat
      [Worker.scheduleRetry (pgx := pgx_v5) main_worker (sample_job JobStateRunning 1 "tok-a") (Errorf "boom" [])]
      (one_row running_row)) (one_row_wf running_row)) as [Hwf _]. exact Hwf.
  - exact Hr.
  - exact Hst.
Defined.
End Reconciler.
