(* ===== verification/Progress.v ===== *)
(** * The reconciler makes progress

    What one pass of the reconciler does when nothing disturbs it: no failing statement, no
    lock conflict, no cancellation, and a pool that accepts. *)

From S2P Require Import Prelude GoLib Models Sql Effects Store Concrete StoreSpec Reconciler.

Module Progress.
Import Reconciler.Reconciler.

Record undisturbed (env : Env) : Prop := {
  no_fault : forall n, env_sql n = NoFault;
  no_cancel : forall n, env_ctx n = None;
  random : forall n, exists bytes, env_rand n 16 = Some bytes;
  no_locks : forall n, pv_locked (env_view n) = ∅;
  clock : forall n m, (n <= m)%nat -> pv_now (env_view n) <= pv_now (env_view m);
  accepts : forall n job, env_submit n job = true;
}.

Section Progress.
Context {coll : Collation} {env : Env} {pgx : Pgx}.
Variable cfg : Config.

(** The driver reads the row, and its attempt can be counted once more. *)
Definition readable (r : Row) : Prop := int4 (r_attempt r + 1) = true /\ (r_key r <> None \/ scan_null <> None).

Lemma readable_text r : readable r -> exists key, scan_text (r_key r) = Some key.
Proof. intros [_ Hk]. unfold scan_text. destruct (r_key r), scan_null; naive_solver. Qed.

Definition claimable (t : Table) : Prop := forall id r, t !! id = Some r -> r_state r = JobStatePending -> readable r.

Lemma due_later now now' r : now <= now' -> due now r = true -> due now' r = true.
Proof. unfold due. rewrite !andb_true_iff. intros Hle [Hs Hd]. split; [done|]. destruct (r_scheduled_at r); bool_to_prop; [lia|done]. Qed.

Lemma select_claim_none v t r :
  wf_view v -> pv_locked v = ∅ -> select_claim v t = None -> r ∈ rows t -> due (pv_now v) r = false.
Proof.
  intros Hv Hl Hsel Hr. apply not_true_is_false. intros Hd. unfold select_claim in Hsel.
  assert (r ∈ visit v (due (pv_now v)) claim_le t) as Hin by (apply elem_of_visit; [done|]; rewrite Hl; set_solver).
  destruct (visit v (due (pv_now v)) claim_le t); [by apply elem_of_nil in Hin|done].
Qed.

Section Calm.
Hypothesis Hcalm : undisturbed env.
Hypothesis Henv : wf_env env.

(** The row a claim makes of [r]. *)
Definition claimed_from (lease : Z) (r r' : Row) : Prop :=
  exists now n bytes, env_rand n 16 = Some bytes /\ r' = claim_row now (now + lease) (HexEncode bytes) now r.

(** A claim takes the next due row, or finds that no row is due. *)
Lemma exec_claim lease w :
  wf_table (w_db w) -> claimable (w_db w) ->
  match select_claim (env_view (S (S (w_tick w)))) (w_db w) with
  | Some r => exists job r' w', exec (ClaimNextJob lease) w = (Ok job, w') /\ Job.ID job = r_id r /\
      r_state r' = JobStateRunning /\ claimed_from lease r r' /\ scan_row r' = Some job /\ w_db w' = <[r_id r := r']> (w_db w) /\ w_db w !! r_id r = Some r /\
      w_tick w' = (3 + w_tick w)%nat /\ w_submitted w' = w_submitted w
  | None => exists e w', exec (ClaimNextJob lease) w = (Err e, w') /\ errors_Is e msg_not_found = true /\
      w_db w' = w_db w /\ w_submitted w' = w_submitted w
  end.
Proof.
  intros Hwf Hcl. unfold ClaimNextJob, newLeaseToken. rewrite exec_vis. cbn [handle fst snd prog_bind].
  rewrite exec_vis. cbn [handle fst snd]. destruct (random env Hcalm (w_tick (tick w))) as [bytes Hbytes]. rewrite Hbytes. cbn [option_map prog_bind].
  rewrite exec_vis. cbn [handle]. rewrite (no_fault env Hcalm). cbn [tick w_tick w_db exec_stmt].
  destruct (select_claim _ (w_db w)) as [r|] eqn:Hsel.
  - apply select_claim_spec in Hsel as (Hin & Hdue & _); [|apply Henv]. apply elem_of_rows_wf in Hin; [|done].
    unfold due in Hdue. bool_to_prop. pose proof (Hcl _ r Hin ltac:(done)) as Hread. pose proof (readable_text r Hread) as [key Hk].
    destruct Hread as [Hint _]. rewrite Hint. cbn [with_fault fst snd].
    change (exec (Ret ?x) ?y) with (x, y). cbn [found scanJob]. unfold scan_row. cbn [claim_row r_key r_lease_token scan_text].
    rewrite Hk. cbn [mbind option_bind]. eexists _, (claim_row _ _ _ _ r), _.
    split_and!; try done; [by do 3 eexists|]. unfold scan_row. cbn [claim_row r_key]. by rewrite Hk.
  - change (exec (Ret ?x) ?y) with (x, y). do 2 eexists. by split_and!.
Qed.

(** The job was handed out for the row [r] of the table before. *)
Definition handed_for (t t' : Table) (job : Job) : Prop :=
  exists r r', t !! Job.ID job = Some r /\ t' !! Job.ID job = Some r' /\ claimed_from (RunningLease cfg) r r' /\ scan_row r' = Some job.

Definition keeps_running (t t' : Table) : Prop := forall id r, t !! id = Some r -> r_state r = JobStateRunning -> t' !! id = Some r.

(** What [n] turns of the loop achieve. *)
Definition loop_post (n : nat) (w w' : World) (js : list Job) : Prop :=
  w_submitted w' = w_submitted w ++ js /\ (length js <= n)%nat /\
  (length js = n \/ forall id r, w_db w !! id = Some r -> due (pv_now (env_view (w_tick w))) r = true -> id ∈ Job.ID <$> js) /\
  keeps_running (w_db w) (w_db w') /\ Forall (handed_for (w_db w) (w_db w')) js.

(** One more job in front. *)
Lemma loop_post_cons n w w1 w' job js r r' :
  w_db w !! r_id r = Some r -> r_state r = JobStatePending -> r_state r' = JobStateRunning -> Job.ID job = r_id r ->
  w_db w1 = <[r_id r := r']> (w_db w) -> claimed_from (RunningLease cfg) r r' -> scan_row r' = Some job ->
  w_submitted w1 = w_submitted w ++ [job] -> (w_tick w <= w_tick w1)%nat -> loop_post n w1 w' js -> loop_post (S n) w w' (job :: js).
Proof.
  intros Hr Hpend Hrun Hid Hdb Hcl Hscan Hsub Htick (Hs & Hlen & Hall & Hkeep & Hfor).
  assert (forall id r0, w_db w !! id = Some r0 -> id <> r_id r -> w_db w1 !! id = Some r0) as Hother by (intros id r0 H1 H2; by rewrite Hdb, lookup_insert_ne).
  split_and!.
  - by rewrite Hs, Hsub, <- app_assoc.
  - simpl. lia.
  - destruct Hall as [<-|Hall]; [by left|right]. intros id r0 Hr0 Hd. cbn [fmap list_fmap].
    destruct (decide (id = r_id r)) as [->|Hne]; [rewrite <- Hid; left|right]. apply (Hall id r0); [by apply Hother|].
    eapply due_later; [|exact Hd]. by apply (clock env Hcalm).
  - intros id r0 Hr0 Hst0. apply Hkeep; [|done]. apply Hother; [done|]. intros ->. rewrite Hr in Hr0. simplify_eq. state_eq.
  - constructor.
    + exists r, r'. rewrite Hid. split_and!; try done. apply Hkeep; [|done]. by rewrite Hdb, lookup_insert_eq.
    + eapply Forall_impl; [exact Hfor|]. intros job' (r1 & r1' & H1 & H2 & H3 & H4). exists r1, r1'. split_and!; try done.
      rewrite Hdb in H1. apply lookup_insert_Some in H1 as [[Hj <-]|[_ H1]]; [|done].
      (* a RUNNING row is not claimed again *)
      exfalso. rewrite <- Hj, (Hkeep (r_id r) r') in H2; [|by rewrite Hdb, lookup_insert_eq|done]. injection H2 as ->.
      destruct H3 as (now & k & bytes & _ & Heq). apply (f_equal r_attempt) in Heq. simpl in Heq. lia.
Qed.

Lemma claim_loop_progress n claimed hw w :
  wf_table (w_db w) -> claimable (w_db w) -> 0 <= claimed ->
  exists js, loop_post n w (exec (claim_loop cfg n claimed hw) w).2 js /\
    (exec (claim_loop cfg n claimed hw) w).1 = (0 <? claimed + Z.of_nat (length js)) || hw.
Proof.
  revert claimed w. induction n as [|n IH]; intros claimed w Hwf Hcl Hc.
  { exists []. cbn [claim_loop]. change (exec (Ret ?x) ?y) with (x, y). cbn [fst snd length]. rewrite Z.add_0_r.
    split; [|by destruct (0 <? claimed)]. unfold loop_post. rewrite app_nil_r. split_and!; [done|done|by left|by intros id r|constructor]. }
  cbn [claim_loop]. rewrite exec_vis. cbn [handle fst snd]. rewrite (no_cancel env Hcalm). rewrite exec_bind.
  pose proof (exec_claim (RunningLease cfg) (tick w) Hwf Hcl) as Hclaim.
  destruct (select_claim _ _) as [r|] eqn:Hsel.
  - destruct Hclaim as (job & r' & w1 & Hexec & Hid & Hst & Hfrom & Hscan & Hdb & Hr & Htick & Hsub).
    pose proof (exec_wf (ClaimNextJob (RunningLease cfg)) (tick w) Henv Hwf) as Hwf1. rewrite Hexec in Hwf1 |- *. rewrite exec_vis. cbn [handle fst snd].
    rewrite (accepts env Hcalm). cbn [negb]. apply select_claim_spec in Hsel as (_ & Hdue & _); [|apply Henv].
    destruct (IH (claimed + 1) (add_submitted job (tick w1))) as (js & Hpost & Hres).
    + exact Hwf1.
    + intros id r0. change (w_db w1 !! id = Some r0 -> r_state r0 = JobStatePending -> readable r0). rewrite Hdb. intros [[<- <-]|[Hne Hr0]]%lookup_insert_Some Hp; [state_eq|by eapply Hcl].
    + lia.
    + exists (job :: js). rewrite Hres. split; [|f_equal; f_equal; simpl; lia].
      apply (loop_post_cons n w (add_submitted job (tick w1)) _ job js r r'); try done.
      * unfold due in Hdue. by bool_to_prop.
      * cbn [add_submitted tick w_submitted] in *. by rewrite Hsub.
      * cbn [add_submitted tick w_tick] in *. lia.
  - destruct Hclaim as (e & w1 & -> & -> & Hdb & Hsub). exists []. change (exec (Ret ?x) ?y) with (x, y). cbn [fst snd length]. rewrite Z.add_0_r.
    split; [|by destruct (0 <? claimed)]. unfold loop_post. rewrite app_nil_r. cbn [tick w_db] in Hdb.
    split_and!; [exact Hsub|simpl; lia|right|intros id r Hr _; by rewrite Hdb|constructor]. intros id r Hr Hd. exfalso.
    assert (due (pv_now (env_view (S (S (w_tick (tick w)))))) r = true) as Hd'
      by (eapply due_later; [|exact Hd]; apply (clock env Hcalm); cbn; lia).
    rewrite (select_claim_none _ (w_db w) r) in Hd'; [done|apply Henv|apply (no_locks env Hcalm)|exact Hsel|]. apply elem_of_rows. by exists id.
Qed.

(** Rows whose lease had run out. *)
Definition stale (v : PgView) (t : Table) : list Row := List.filter (expired (pv_now v)) (rows t).

Lemma select_expired_all v limit t r :
  wf_view v -> pv_locked v = ∅ -> Z.of_nat (length (stale v t)) <= limit -> r ∈ rows t -> expired (pv_now v) r = true ->
  r ∈ select_expired v limit t.
Proof.
  intros Hv Hl Hlen Hr He. unfold select_expired. rewrite take_ge; [apply elem_of_visit; [done|]; rewrite Hl; set_solver|].
  unfold visit, stale in *. etrans; [apply List.filter_length_le|]. rewrite merge_sort_Permutation, (Hv t). lia.
Qed.

Lemma select_expired_nil v limit t :
  wf_view v -> pv_locked v = ∅ -> 0 < limit -> select_expired v limit t <> [] <-> stale v t <> [].
Proof.
  intros Hv Hl Hlim. split; intros Hne Hnil; apply Hne.
  - destruct (select_expired v limit t) as [|r l] eqn:Hs; [done|].
    destruct (elem_of_select_expired v limit t r) as (Hr & He & _); [done|rewrite Hs; left|].
    assert (r ∈ stale v t) as Hin by (by apply elem_of_bfilter). rewrite Hnil in Hin. by apply elem_of_nil in Hin.
  - destruct (stale v t) as [|r l] eqn:Hs; [done|]. assert (r ∈ stale v t) as [Hr He]%elem_of_bfilter by (rewrite Hs; left).
    assert (r ∈ visit v (expired (pv_now v)) lease_le t) as Hin by (apply elem_of_visit; [done|]; rewrite Hl; set_solver).
    unfold select_expired in Hnil. destruct (visit v (expired (pv_now v)) lease_le t); [by apply elem_of_nil in Hin|].
    destruct (Z.to_nat limit) eqn:Hz; [lia|done].
Qed.

Lemma requeued_due now now' r : now <= now' -> exhausted r = false -> due now' (requeue_row now r) = true.
Proof.
  intros Hle Hex. unfold due, requeue_row. cbn [r_state r_scheduled_at]. rewrite Hex. apply andb_true_iff. split; [by apply bool_decide_eq_true|].
  by apply Z.leb_le.
Qed.

Lemma exec_requeue limit w :
  0 < limit ->
  let v := env_view (w_tick w) in
  exists w', exec (RequeueExpiredRunning limit) w = (Ok (Z.of_nat (length (select_expired v limit (w_db w)))), w') /\
    w_db w' = requeue_all (pv_now v) (select_expired v limit (w_db w)) (w_db w) /\ w_tick w' = S (w_tick w) /\ w_submitted w' = w_submitted w.
Proof.
  intros Hlim v. unfold RequeueExpiredRunning. rewrite (proj2 (Z.leb_gt _ _)) by done. unfold trigger. rewrite exec_vis. cbn [handle].
  rewrite (no_fault env Hcalm). cbn [exec_stmt with_fault fst snd]. change (exec (Ret ?x) ?y) with (x, y). eexists. by split_and!.
Qed.

(** The row [r] of the table before is the row a job was claimed from, once recovered. *)
Definition recovered (t : Table) (id : string) (r : Row) : Prop :=
  exists r0, t !! id = Some r0 /\ (r = r0 \/ exists now, expired now r0 = true /\ r = requeue_row now r0).

(** What a pass achieves. *)
Definition pass_post (w w' : World) (js : list Job) : Prop :=
  let v := env_view (w_tick w) in
  w_submitted w' = w_submitted w ++ js /\ Z.of_nat (length js) <= BatchSize cfg /\
  (Z.of_nat (length js) = BatchSize cfg \/
   forall id r, w_db w !! id = Some r ->
     due (pv_now v) r = true \/
     (expired (pv_now v) r = true /\ exhausted r = false /\ Z.of_nat (length (stale v (w_db w))) <= BatchSize cfg) ->
     id ∈ Job.ID <$> js) /\
  Forall (fun job => exists r r', recovered (w_db w) (Job.ID job) r /\ w_db w' !! Job.ID job = Some r' /\
            claimed_from (RunningLease cfg) r r' /\ scan_row r' = Some job) js.

Lemma pass_progress w :
  wf_table (w_db w) -> 0 < BatchSize cfg ->
  (forall id r, w_db w !! id = Some r -> r_state r = JobStatePending \/ r_state r = JobStateRunning -> readable r) ->
  exists js, pass_post w (exec (reconcile cfg) w).2 js /\
    ((exec (reconcile cfg) w).1 = true <-> js <> [] \/ stale (env_view (w_tick w)) (w_db w) <> []).
Proof.
  intros Hwf Hbatch Hread. set (v := env_view (w_tick w)). unfold reconcile. rewrite exec_bind. pose proof (Henv (w_tick w)) as Hv.
  pose proof (exec_wf (RequeueExpiredRunning (BatchSize cfg)) w Henv Hwf) as Hwf1.
  destruct (exec_requeue (BatchSize cfg) w Hbatch) as (w1 & Hexec & Hdb & Htick & Hsub). rewrite Hexec in Hwf1 |- *. cbn [snd] in Hwf1. cbv beta iota zeta.
  fold v in Hdb, Hv |- *. set (rs := select_expired v (BatchSize cfg) (w_db w)) in *.
  assert (forall id r, w_db w !! id = Some r -> w_db w1 !! id = Some (if decide (r ∈ rs) then requeue_row (pv_now v) r else r)) as Hrow.
  { intros id r Hr. rewrite Hdb. by apply requeue_all_lookup. }
  assert (forall id r1, w_db w1 !! id = Some r1 -> exists r, w_db w !! id = Some r /\ r1 = if decide (r ∈ rs) then requeue_row (pv_now v) r else r) as Hback.
  { intros id r1 Hr1. destruct (w_db w !! id) as [r|] eqn:Hr; [rewrite (Hrow id r Hr) in Hr1; injection Hr1 as <-; by exists r|].
    rewrite Hdb, requeue_all_other in Hr1; [congruence|]. intros (r & -> & Hin)%list_elem_of_fmap.
    apply elem_of_select_expired in Hin as [Hin _]; [|done]. apply elem_of_rows_wf in Hin; [congruence|done]. }
  assert (claimable (w_db w1)) as Hcl.
  { intros id r1 (r & Hr & ->)%Hback Hp. specialize (Hread id r Hr). destruct (decide (r ∈ rs)) as [Hin|]; [|auto].
    apply elem_of_select_expired in Hin as (_ & [Hst _]%expired_spec & _); [|done]. by destruct Hread as [? ?]; [right|]. }
  destruct (claim_loop_progress (Z.to_nat (BatchSize cfg)) 0 (0 <? Z.of_nat (length rs)) w1) as (js & (Hs & Hlen & Hall & _ & Hfor) & Hres); [done..|].
  exists js. rewrite Hres. split; [unfold pass_post; fold v; rewrite Hs, Hsub; split_and!; [done|lia|..]|].
  - destruct Hall as [Hall|Hall]; [left; lia|right]. intros id r Hr Hdue. eapply Hall; [by apply Hrow|].
    assert (pv_now v <= pv_now (env_view (w_tick w1))) as Hlater by (apply (clock env Hcalm); lia).
    destruct Hdue as [Hdue|(Hexp & Hex & Hfew)].
    + rewrite decide_False; [by eapply due_later|]. intros [_ [He _]]%elem_of_select_expired; [|done].
      unfold due, expired in *. bool_to_prop. state_eq.
    + rewrite decide_True; [by apply requeued_due|]. apply select_expired_all; try done; [apply (no_locks env Hcalm)|]. apply elem_of_rows. by exists id.
  - eapply Forall_impl; [exact Hfor|]. intros job (r1 & r' & (r & Hr & ->)%Hback & H). eexists _, r'. split; [|exact H]. exists r. split; [done|].
    destruct (decide (r ∈ rs)) as [Hin|]; [right|by left]. apply elem_of_select_expired in Hin as (_ & He & _); [eauto|done].
  - rewrite <- (select_expired_nil v (BatchSize cfg) (w_db w) Hv (no_locks env Hcalm _) Hbatch). fold rs. rewrite orb_true_iff, !Z.ltb_lt.
    destruct js, rs; cbn [length]; split; try lia; naive_solver lia.
Qed.

Lemma stale_some v t : stale v t <> [] <-> exists id r, t !! id = Some r /\ expired (pv_now v) r = true.
Proof.
  unfold stale. split.
  - destruct (List.filter _ _) as [|r l] eqn:Hs; [done|]. intros _.
    assert (r ∈ List.filter (expired (pv_now v)) (rows t)) as [(id & Hr)%elem_of_rows He]%elem_of_bfilter by (rewrite Hs; left). eauto.
  - intros (id & r & Hr & He) Hnil. assert (r ∈ List.filter (expired (pv_now v)) (rows t)) as Hin.
    { apply elem_of_bfilter. split; [|done]. apply elem_of_rows. eauto. }
    rewrite Hnil in Hin. by apply elem_of_nil in Hin.
Qed.

Lemma stale_length v t (ids : list string) :
  wf_table t -> (forall id r, t !! id = Some r -> expired (pv_now v) r = true -> id ∈ ids) ->
  (length (stale v t) <= length ids)%nat.
Proof.
  intros Hwf Hids. rewrite <- (length_fmap r_id). apply submseteq_length, NoDup_submseteq.
  - unfold stale. by apply bfilter_NoDup_fmap, rows_NoDup.
  - intros id (r & -> & [Hr He]%elem_of_bfilter)%list_elem_of_fmap. apply elem_of_rows_wf in Hr; [|done]. by eapply Hids.
Qed.

(** C19: a pass that nothing disturbs is work-conserving, on a table whose PENDING and RUNNING
    rows the driver can read (they have a key, or it accepts NULL) and can count another
    attempt for.  It hands BatchSize jobs to the pool, or else every job that was due when it
    began and, if at most BatchSize leases had run out, every job with attempts left whose
    lease had: recovered and handed out in the same pass.  It reports work exactly when it
    handed out a job or some lease had run out. *)
Theorem reconcile_progress w :
  wf_table (w_db w) -> 0 < BatchSize cfg ->
  (forall id r, w_db w !! id = Some r -> r_state r = JobStatePending \/ r_state r = JobStateRunning ->
     int4 (r_attempt r + 1) = true /\ (r_key r <> None \/ scan_null <> None)) ->
  let now := pv_now (env_view (w_tick w)) in
  let waiting r := r_state r = JobStatePending /\ forall t, r_scheduled_at r = Some t -> t <= now in
  let lost r := r_state r = JobStateRunning /\ exists t, r_lease_expires_at r = Some t /\ t <= now in
  let used_up r := 0 < Task.MaxRetries (r_task r) /\ Task.MaxRetries (r_task r) <= r_attempt r in
  exists js, w_submitted (exec (reconcile cfg) w).2 = w_submitted w ++ js /\ Z.of_nat (length js) <= BatchSize cfg /\
    ((exec (reconcile cfg) w).1 = true <-> js <> [] \/ exists id r, w_db w !! id = Some r /\ lost r) /\
    (Z.of_nat (length js) = BatchSize cfg \/
     (forall id r, w_db w !! id = Some r -> waiting r -> id ∈ Job.ID <$> js) /\
     forall ids, Z.of_nat (length ids) <= BatchSize cfg -> (forall id r, w_db w !! id = Some r -> lost r -> id ∈ ids) ->
       forall id r, w_db w !! id = Some r -> lost r -> ~ used_up r -> id ∈ Job.ID <$> js).
Proof.
  intros Hwf Hbatch Hread now waiting lost used_up.
  destruct (pass_progress w Hwf Hbatch Hread) as (js & (Hs & Hlen & Hall & _) & Hres).
  assert (forall r, expired now r = true <-> lost r) as Hlost by (intros r; apply expired_spec).
  exists js. split_and!; [exact Hs|exact Hlen| |].
  - rewrite Hres, stale_some. split; (intros [?|(id & r & Hr & He)]; [by left|right; exists id, r; split; [done|by apply Hlost]]).
  - destruct Hall as [Hall|Hall]; [by left|right]. split.
    + intros id r Hr Hw. apply (Hall id r Hr). left. by apply due_spec.
    + intros ids Hids Hsub id r Hr Hl Hu. apply (Hall id r Hr). right. split_and!; [by apply Hlost| |].
      * apply not_true_iff_false. by rewrite exhausted_spec.
      * assert (length (stale (env_view (w_tick w)) (w_db w)) <= length ids)%nat; [|lia].
        apply stale_length; [done|]. intros id' r' Hr' He. by eapply Hsub, Hlost.
Qed.
End Calm.
End Progress.

(** ** On a concrete table *)

Lemma calm_undisturbed : undisturbed calm.
Proof.
  split; try done.
  - intros n. by eexists.
  - intros n m Hle. change (t0 + Z.of_nat n * Millisecond <= t0 + Z.of_nat m * Millisecond). unfold Millisecond. lia.
Qed.

(** A due job and one whose lease has run out. *)
Definition lost_row : Row :=
  mkRow "job-2" (Some "key-2") webhook_task JobStateRunning 1 "" (Some t0) None (Some t0) (Some "tok-a") None t0 t0 ∅.

Definition waiting_and_lost : World := world 3 (<["job-2" := lost_row]> {["job-1" := pending_row]}).

Lemma waiting_rows id r :
  w_db waiting_and_lost !! id = Some r -> (id = "job-2" /\ r = lost_row) \/ (id = "job-1" /\ r = pending_row).
Proof. change ((<["job-2" := lost_row]> {["job-1" := pending_row]} : Table) !! id = Some r -> (id = "job-2" /\ r = lost_row) \/ (id = "job-1" /\ r = pending_row)). intros [[<- <-]|[_ [<- <-]%lookup_singleton_Some]]%lookup_insert_Some; auto. Qed.

Lemma reconcile_progress_witness :
  exists js, w_submitted (exec (env := calm) (reconcile (pgx := pgx_v5) main_config) waiting_and_lost).2 = js /\
    (Z.of_nat (length js) = BatchSize main_config \/ ("job-1" ∈ Job.ID <$> js /\ "job-2" ∈ Job.ID <$> js)).
Proof.
  destruct (reconcile_progress (env := calm) (pgx := pgx_v5) main_config calm_undisturbed (calm_env_wf _) waiting_and_lost)
    as (js & Hs & _ & _ & Hall).
  - split.
    + intros id r [[-> ->]|[-> ->]]%waiting_rows; done.
    + intros id1 id2 r1 r2 k [[-> ->]|[-> ->]]%waiting_rows [[-> ->]|[-> ->]]%waiting_rows; simpl; congruence.
  - done.
  - intros id r [[-> ->]|[-> ->]]%waiting_rows _; (split; [reflexivity|left; discriminate]).
  - exists js. split; [exact Hs|]. destruct Hall as [Hfull|[Hdue Hlost]]; [left; exact Hfull|right]. split.
    + apply (Hdue "job-1" pending_row); [reflexivity|]. split; [reflexivity|]. intros t [= <-]. vm_compute. discriminate.
    + apply (Hlost ["job-2"]) with (r := lost_row).
      * vm_compute. discriminate.
      * intros id r [[-> ->]|[-> ->]]%waiting_rows [Hst _]; [apply list_elem_of_here|discriminate Hst].
      * reflexivity.
      * split; [reflexivity|]. exists t0. split; [reflexivity|vm_compute; discriminate].
      * vm_compute. intros [_ H]. by apply H.
Defined.

(** Both are handed out, in the order of their due times. *)
Example both_handed_out :
  Job.ID <$> w_submitted (exec (env := calm) (reconcile (pgx := pgx_v5) main_config) waiting_and_lost).2 = ["job-1"; "job-2"].
Proof. vm_compute. reflexivity. Qed.
End Progress.
