(* ===== verification/ReconcilerLoop.v ===== *)
(** * internal/reconciler: Start and Stop

    The callers of Start and Stop and the loop goroutines as a transition system.  One action
    is what happens under one hold of the mutex, one operation on the WaitGroup, one choice
    of the loop's select, or one effect of a pass: a loop in a pass holds what is left of the
    program [reconcile], and the passes of different loops interleave on one shared world.  A
    pass asks its own context whether it is done. *)

From S2P Require Import Prelude GoLib Models Sql Effects Store Concrete StoreSpec Reconciler.

Module ReconcilerLoop.
Import Reconciler.Reconciler.

Inductive Phase :=
| Passing (p : prog Ev bool)
| Sleeping (interval : Z).

Record Loop := mkLoop { l_ctx : nat; l_phase : Phase }.

(** [cancel] holds the number of the context it cancels.  [starting]: callers of Start that
    released the mutex and have not yet started the loop; [stopping]: callers of Stop in
    their wait; [handed]: what the pool accepted, with the context of the loop it came from. *)
Record System := mkSystem {
  cancel : option nat;
  wg : Z;
  contexts : nat;
  cancelled : gset nat;
  starting : list nat;
  loops : list Loop;
  stopping : nat;
  handed : list (nat * Job);
  world : World;
}.

Definition NewSystem (w : World) : System := mkSystem None 0 0 ∅ [] [] 0 [] w.

(** Start up to the release of the mutex; [ASpawn] is the rest of it. *)
Definition Start (p : System) : System :=
  match cancel p with
  | Some _ => p
  | None => mkSystem (Some (contexts p)) (wg p) (S (contexts p)) (cancelled p) (starting p ++ [contexts p]) (loops p) (stopping p) (handed p) (world p)
  end.

(** Stop up to its wait. *)
Definition Stop (p : System) : System :=
  mkSystem None (wg p) (contexts p) (match cancel p with Some c => {[c]} ∪ cancelled p | None => cancelled p end)
    (starting p) (loops p) (S (stopping p)) (handed p) (world p).

Definition Canceled : error := Prelude.New "context canceled".

Section System.
Context {coll : Collation} {env : Env} {pgx : Pgx}.
Variable cfg : Config.

(** One effect of a pass whose context is done or not. *)
Definition perform_in (finished : bool) {X} (e : Ev X) (w : World) : X * World :=
  match e in Ev X return X * World with
  | ECtxErr => (if finished then Some Canceled else None, tick w)
  | e => handle _ e w
  end.

Definition accepted {X} (e : Ev X) : X -> option Job :=
  match e in Ev X return X -> option Job with
  | ESubmit job => fun ok => if ok : bool then Some job else None
  | _ => fun _ => None
  end.

Inductive Action :=
| AStart
| ASpawn (k : nat)
| APass (i : nat)
| ATimer (i : nat)
| AExit (i : nat)
| ACancel (c : nat)
| AStop
| AStopped.

(** The loop [i] at its next phase, with the world and the jobs the pool accepted. *)
Definition move (i : nat) (l : Loop) (new : list (nat * Job)) (w : World) (p : System) : System :=
  mkSystem (cancel p) (wg p) (contexts p) (cancelled p) (starting p) (<[i := l]> (loops p)) (stopping p) (handed p ++ new) w.

(** A select with the timer and the context both ready takes either. *)
Definition act (a : Action) (p : System) : option System :=
  match a with
  | AStart => Some (Start p)
  | ASpawn k =>
      c ← starting p !! k;
      Some (mkSystem (cancel p) (wg p + 1) (contexts p) (cancelled p) (delete k (starting p))
              (loops p ++ [mkLoop c (Passing (reconcile cfg))]) (stopping p) (handed p) (world p))
  | APass i =>
      match loops p !! i with
      | Some (mkLoop c (Passing (Ret hadWork))) => Some (move i (mkLoop c (Sleeping (nextInterval cfg hadWork))) [] (world p) p)
      | Some (mkLoop c (Passing (Vis e k))) =>
          let '(x, w) := perform_in (bool_decide (c ∈ cancelled p)) e (world p) in
          Some (move i (mkLoop c (Passing (k x))) (pair c <$> option_list (accepted e x)) w p)
      | _ => None
      end
  | ATimer i =>
      match loops p !! i with
      | Some (mkLoop c (Sleeping _)) => Some (move i (mkLoop c (Passing (reconcile cfg))) [] (world p) p)
      | _ => None
      end
  | AExit i =>
      match loops p !! i with
      | Some (mkLoop c (Sleeping _)) =>
          if decide (c ∈ cancelled p)
          then Some (mkSystem (cancel p) (wg p - 1) (contexts p) (cancelled p) (starting p) (delete i (loops p)) (stopping p) (handed p) (world p))
          else None
      | _ => None
      end
  | ACancel c =>
      Some (mkSystem (cancel p) (wg p) (contexts p) ({[c]} ∪ cancelled p) (starting p) (loops p) (stopping p) (handed p) (world p))
  | AStop => Some (Stop p)
  | AStopped =>
      match stopping p with
      | S n => if wg p =? 0
               then Some (mkSystem (cancel p) (wg p) (contexts p) (cancelled p) (starting p) (loops p) n (handed p) (world p))
               else None
      | O => None
      end
  end.

Definition step (p p' : System) : Prop := exists a, act a p = Some p'.
Definition reachable (p : System) : Prop := exists w, rtc step (NewSystem w) p.

(** ** The loops *)

Definition ctxs (p : System) : list nat := starting p ++ (l_ctx <$> loops p).

Record inv (p : System) : Prop := {
  inv_wg : wg p = Z.of_nat (length (loops p));
  inv_fresh : forall c, c ∈ ctxs p -> (c < contexts p)%nat;
  inv_nodup : NoDup (ctxs p);
  inv_live : forall c, c ∈ ctxs p -> c ∉ cancelled p -> cancel p = Some c;
}.

(** A step that starts no loop keeps the invariant when it keeps the count. *)
Lemma loop_inv_fewer p p' :
  inv p -> ctxs p' ⊆+ ctxs p -> contexts p' = contexts p -> cancelled p ⊆ cancelled p' -> cancel p' = cancel p ->
  wg p' - Z.of_nat (length (loops p')) = wg p - Z.of_nat (length (loops p)) -> inv p'.
Proof.
  intros [H1 H3 H4 H5] Hs Hn Hc Hcan Hw. assert (forall c, c ∈ ctxs p' -> c ∈ ctxs p) as Hin by (intros c Hx; by eapply elem_of_submseteq).
  split; rewrite ?Hcan, ?Hn; auto; [lia|]. apply submseteq_Permutation in Hs as [k Hk]. rewrite Hk in H4. by apply NoDup_app in H4 as [? _].
Qed.

Lemma loop_inv_move p i c ph ph' new w : inv p -> loops p !! i = Some (mkLoop c ph) -> inv (move i (mkLoop c ph') new w p).
Proof.
  intros Hinv Hi. apply (loop_inv_fewer p); try done; [|simpl; by rewrite length_insert].
  unfold ctxs. simpl. rewrite list_fmap_insert. simpl. by rewrite list_insert_id by (by rewrite list_lookup_fmap, Hi).
Qed.

Lemma loop_inv_Start p : inv p -> inv (Start p).
Proof.
  intros [H1 H3 H4 H5]. unfold Start. destruct (cancel p) eqn:Hr; [by split; rewrite ?Hr|].
  assert (forall c, c ∈ (starting p ++ [contexts p]) ++ (l_ctx <$> loops p) <-> c = contexts p \/ c ∈ ctxs p) as Hin.
  { intros c. unfold ctxs. rewrite !elem_of_app, list_elem_of_singleton. tauto. }
  split; unfold ctxs; simpl; [done| | |].
  - intros c [->|Hc%H3]%Hin; lia.
  - eapply NoDup_Permutation_proper with (contexts p :: ctxs p); [unfold ctxs; solve_Permutation|]. constructor; [|done].
    intros Hc%H3. lia.
  - intros c [->|Hc]%Hin Hn; [done|]. by specialize (H5 c Hc Hn).
Qed.

Lemma loop_inv_Stop p : inv p -> inv (Stop p).
Proof.
  intros [H1 H3 H4 H5]. split; simpl; try done.
  intros c Hc Hn. assert (c ∉ cancelled p) as Hn' by (destruct (cancel p); set_solver).
  rewrite (H5 c Hc Hn') in Hn. set_solver.
Qed.

Lemma loop_act_inv a p p' : inv p -> act a p = Some p' -> inv p'.
Proof.
  intros Hinv Ha. destruct a; cbn [act] in Ha.
  - injection Ha as <-. by apply loop_inv_Start.
  - destruct (starting p !! k) as [c|] eqn:Hk; [|done]. injection Ha as <-. apply (loop_inv_fewer p); simpl; try done.
    + unfold ctxs. simpl. rewrite fmap_app. rewrite (delete_Permutation (starting p) k c Hk) at 2. apply Permutation_submseteq. simpl. solve_Permutation.
    + rewrite length_app. simpl. lia.
  - destruct (loops p !! i) as [[c [[hw|X e k]|]]|] eqn:Hi; try done.
    + injection Ha as <-. by eapply loop_inv_move.
    + destruct (perform_in _ e (world p)) as [x w]. injection Ha as <-. by eapply loop_inv_move.
  - destruct (loops p !! i) as [[c []]|] eqn:Hi; try done. injection Ha as <-. by eapply loop_inv_move.
  - destruct (loops p !! i) as [[c []]|] eqn:Hi; try done. destruct (decide _); [|done]. injection Ha as <-. apply (loop_inv_fewer p); try done.
    + unfold ctxs. simpl. apply submseteq_skips_l. rewrite (delete_Permutation (loops p) i _ Hi) at 2. apply submseteq_cons. done.
    + simpl. rewrite length_delete by eauto. apply lookup_lt_Some in Hi. lia.
  - injection Ha as <-. apply (loop_inv_fewer p); try done. simpl. set_solver.
  - injection Ha as <-. by apply loop_inv_Stop.
  - destruct (stopping p); [done|]. destruct (_ =? _); [|done]. injection Ha as <-. by apply (loop_inv_fewer p).
Qed.

Lemma steps_inv p p' : rtc step p p' -> inv p -> inv p'.
Proof. induction 1 as [|p1 p2 p3 [a Ha] _ IH]; [done|]. intros Hp. apply IH. by eapply loop_act_inv. Qed.

Lemma loop_reachable_inv p : reachable p -> inv p.
Proof.
  intros (w & Hsteps). apply (steps_inv _ _ Hsteps). split; unfold ctxs; simpl; try done; [set_solver|constructor|set_solver].
Qed.

(** ** What a cancelled loop still hands out *)

Definition is_submit {X} (e : Ev X) : bool := match e with ESubmit _ => true | _ => false end.

(** The answers a context that is done can give. *)
Definition answers_done {X} (e : Ev X) : X -> Prop :=
  match e in Ev X return X -> Prop with ECtxErr => fun x => x <> None | _ => fun _ => True end.

(** At most [n] jobs are handed out while the context is done. *)
Fixpoint submits {A} (n : nat) (p : prog Ev A) : Prop :=
  match p with
  | Ret _ => True
  | Vis e k => if is_submit e then match n with O => False | S m => forall x, submits m (k x) end
               else forall x, answers_done e x -> submits n (k x)
  end.

(** So it is from every point of the program. *)
Fixpoint submits_always {A} (n : nat) (p : prog Ev A) : Prop :=
  submits n p /\ match p with Ret _ => True | Vis _ k => forall x, submits_always n (k x) end.

Lemma submits_le {A} n m (p : prog Ev A) : (n <= m)%nat -> submits n p -> submits m p.
Proof.
  revert n m. induction p as [a|X e k IH]; intros n m Hle; [done|]. cbn [submits]. destruct (is_submit e).
  - destruct n, m; try done; [lia|]. intros H x. eapply IH; [|apply H]. lia.
  - intros H x Hx. eapply IH; [exact Hle|by apply H].
Qed.

Lemma submits_bind {A B} n (p : prog Ev A) (f : A -> prog Ev B) :
  all_effects (fun X e => is_submit e = false) p -> (forall a, submits n (f a)) -> submits n (prog_bind f p).
Proof.
  intros Hp Hf. induction p as [a|X e k IH]; [apply Hf|]. cbn [prog_bind submits all_effects] in *. destruct Hp as [-> Hp]. intros x _. by apply IH.
Qed.

Lemma submits_always_bind {A B} n (p : prog Ev A) (f : A -> prog Ev B) :
  all_effects (fun X e => is_submit e = false) p -> (forall a, submits_always n (f a)) -> submits_always n (prog_bind f p).
Proof.
  assert (forall (q : prog Ev B), submits_always n q -> submits n q) as Hs by (intros [] [? _]; done).
  intros Hp Hf. induction p as [a|X e k IH]; [apply Hf|]. split.
  - apply (submits_bind n (Vis e k) f); auto.
  - cbn [prog_bind all_effects] in *. intros x. by apply IH, Hp.
Qed.

Lemma claim_no_submit lease : all_effects (fun X (e : Ev X) => is_submit e = false) (ClaimNextJob lease).
Proof. unfold ClaimNextJob, newLeaseToken. split; [done|]. intros t. split; [done|]. intros [b|]; simpl; auto. Qed.

Lemma release_no_submit job reason : all_effects (fun X (e : Ev X) => is_submit e = false) (ReleaseClaim job reason).
Proof. by split. Qed.

Lemma requeue_no_submit limit : all_effects (fun X (e : Ev X) => is_submit e = false) (RequeueExpiredRunning limit).
Proof. unfold RequeueExpiredRunning. destruct (_ <=? _); [done|]. by split. Qed.

(** The check before each claim stops a pass whose context is done. *)
Lemma claim_loop_submits n claimed hw : submits 0 (claim_loop cfg n claimed hw).
Proof. destruct n; [done|]. cbn. intros [e|] H; [done|by destruct H]. Qed.

Lemma claim_loop_always n claimed hw : submits_always 1 (claim_loop cfg n claimed hw).
Proof.
  revert claimed. induction n as [|n IH]; intros claimed; [done|].
  assert (forall r : res Job error, submits_always 1
    match r with
    | Ok job => Vis (ESubmit job) (fun ok => if negb ok then prog_bind (fun _ => Ret true) (ReleaseClaim job "worker pool rejected claimed job")
                                             else claim_loop cfg n (claimed + 1) hw)
    | Err e => if errors_Is e msg_not_found then Ret (if 0 <? claimed then true else hw) else Ret true
    end) as Hbody.
  { intros [job|e]; [|by destruct (errors_Is e msg_not_found)]. split.
    - intros [|]; [apply claim_loop_submits|]. by apply submits_bind.
    - intros [|]; [apply IH|]. by apply submits_always_bind. }
  split; [eapply submits_le; [|apply (claim_loop_submits (S n))]; lia|].
  intros [e|]; [done|]. apply submits_always_bind; [apply claim_no_submit|exact Hbody].
Qed.

Lemma reconcile_submits : submits 0 (reconcile cfg).
Proof. apply submits_bind; [apply requeue_no_submit|]. intros r. apply claim_loop_submits. Qed.

Lemma reconcile_always : submits_always 1 (reconcile cfg).
Proof. apply submits_always_bind; [apply requeue_no_submit|]. intros r. apply claim_loop_always. Qed.

(** Every pass under way is within its bound. *)
Definition within (n : nat) (l : Loop) : Prop := match l_phase l with Passing q => submits n q | Sleeping _ => True end.
Definition always_within (l : Loop) : Prop := match l_phase l with Passing q => submits_always 1 q | Sleeping _ => True end.

Lemma Forall_insert_loop (P : Loop -> Prop) ls i l : Forall P ls -> P l -> Forall P (<[i := l]> ls).
Proof. intros. by apply Forall_insert. Qed.

Lemma act_always a p p' : Forall always_within (loops p) -> act a p = Some p' -> Forall always_within (loops p').
Proof.
  intros Hall Ha. destruct a; cbn [act] in Ha.
  - injection Ha as <-. unfold Start. by destruct (cancel p).
  - destruct (starting p !! k) as [c|]; [|done]. injection Ha as <-. apply Forall_app. split; [done|]. constructor; [apply reconcile_always|constructor].
  - destruct (loops p !! i) as [[c [[hw|X e k]|]]|] eqn:Hi; try done.
    + injection Ha as <-. by apply Forall_insert_loop.
    + pose proof (Forall_lookup_1 _ _ _ _ Hall Hi) as [_ Hk]. destruct (perform_in _ e (world p)) as [x w]. injection Ha as <-.
      apply Forall_insert_loop; [done|apply Hk].
  - destruct (loops p !! i) as [[c []]|] eqn:Hi; try done. injection Ha as <-. apply Forall_insert_loop; [done|apply reconcile_always].
  - destruct (loops p !! i) as [[c []]|] eqn:Hi; try done. destruct (decide _); [|done]. injection Ha as <-. by apply Forall_delete.
  - by injection Ha as <-.
  - by injection Ha as <-.
  - destruct (stopping p); [done|]. destruct (_ =? _); [|done]. by injection Ha as <-.
Qed.

Lemma reachable_always p : reachable p -> Forall always_within (loops p).
Proof.
  intros (w & Hsteps). assert (Forall always_within (loops (NewSystem w))) as H0 by constructor. revert H0.
  induction Hsteps as [|p1 p2 p3 [a Ha] _ IH]; [done|]. intros H1. apply IH. by eapply act_always.
Qed.

(** The jobs of the loop with context [c]. *)
Definition handed_by (c : nat) (p : System) : nat := length (filter (fun x => x.1 = c) (handed p)).

(** The loop with context [c], cancelled, has at most [n] more jobs to hand out. *)
Definition budget (c n : nat) (p : System) : Prop :=
  c ∈ cancelled p /\ forall l, l ∈ loops p -> l_ctx l = c -> within n l.

Lemma handed_by_move c i l new w p : handed_by c (move i l new w p) = (handed_by c p + length (filter (fun x => x.1 = c) new))%nat.
Proof. unfold handed_by. simpl. by rewrite filter_app, length_app. Qed.

Lemma budget_move c n n' p i c' ph ph' (new : list Job) w :
  inv p -> budget c n p -> loops p !! i = Some (mkLoop c' ph) ->
  (c' = c -> within n' (mkLoop c' ph') /\ (length new + n' <= n)%nat) ->
  exists m, budget c m (move i (mkLoop c' ph') (pair c' <$> new) w p) /\
    (handed_by c (move i (mkLoop c' ph') (pair c' <$> new) w p) + m <= handed_by c p + n)%nat.
Proof.
  intros Hinv [Hc Hb] Hi Hnew. rewrite handed_by_move. destruct (decide (c' = c)) as [->|Hne].
  - destruct (Hnew eq_refl) as [Hw Hle]. exists n'. split.
    + split; [done|]. intros l (j & Hj)%list_elem_of_lookup Hl. simpl in Hj. destruct (decide (i = j)) as [<-|Hij].
      * rewrite list_lookup_insert_eq in Hj by (by eapply lookup_lt_Some). by injection Hj as <-.
      * rewrite list_lookup_insert_ne in Hj by done. exfalso. apply Hij. destruct Hinv as [_ _ Hnd _]. unfold ctxs in Hnd.
        apply NoDup_app in Hnd as (_ & _ & Hnd). eapply (NoDup_lookup _ i j c Hnd); rewrite list_lookup_fmap; [by rewrite Hi|by rewrite Hj; simpl; f_equal].
    + pose proof (length_filter (fun x : nat * Job => x.1 = c) (pair c <$> new)) as Hlen. rewrite length_fmap in Hlen. lia.
  - exists n. split.
    + split; [done|]. intros l (j & Hj)%list_elem_of_lookup Hl. simpl in Hj. destruct (decide (i = j)) as [<-|Hij].
      * rewrite list_lookup_insert_eq in Hj by (by eapply lookup_lt_Some). by injection Hj as <-.
      * rewrite list_lookup_insert_ne in Hj by done. apply Hb; [|done]. by eapply list_elem_of_lookup_2.
    + assert (filter (fun x : nat * Job => x.1 = c) (pair c' <$> new) = []) as ->; [|simpl; lia].
      clear -Hne. induction new as [|j new IH]; [done|]. simpl. rewrite filter_cons_False; done.
Qed.

(** Other steps leave the loops as they are, or fewer, or start one. *)
Lemma budget_keep c n p p' :
  budget c n p -> cancelled p ⊆ cancelled p' -> handed p' = handed p -> (forall l, l ∈ loops p' -> l ∈ loops p \/ l_phase l = Passing (reconcile cfg)) ->
  exists m, budget c m p' /\ (handed_by c p' + m <= handed_by c p + n)%nat.
Proof.
  intros [Hc Hb] Hsub Hh Hl. exists n. unfold handed_by. rewrite Hh. split; [|lia]. split; [set_solver|].
  intros l [Hin|Hp]%Hl Hlc; [by apply Hb|]. unfold within. rewrite Hp. eapply submits_le; [|apply reconcile_submits]. lia.
Qed.

(** An effect of a pass, when its context is done. *)
Lemma submits_step {X} n (e : Ev X) (k : X -> prog Ev bool) w :
  submits n (Vis e k) -> let x := (perform_in true e w).1 in
  exists m, submits m (k x) /\ (length (option_list (accepted e x)) + m <= n)%nat.
Proof.
  intros Hs x. cbn [submits] in Hs. destruct (is_submit e) eqn:He.
  - destruct n as [|m]; [done|]. exists m. split; [apply Hs|]. destruct e; try done. cbn [accepted]. destruct x; simpl; lia.
  - exists n. split; [apply Hs; subst x; by destruct e|]. by destruct e.
Qed.

Lemma budget_step c n a p p' :
  inv p -> budget c n p -> act a p = Some p' -> exists m, budget c m p' /\ (handed_by c p' + m <= handed_by c p + n)%nat.
Proof.
  intros Hinv Hb Ha. pose proof Hb as [Hc Hw]. destruct a; cbn [act] in Ha.
  - injection Ha as <-. unfold Start. destruct (cancel p); [by exists n|]. apply (budget_keep c n p); simpl; auto.
  - destruct (starting p !! k) as [d|]; [|done]. injection Ha as <-. apply (budget_keep c n p); simpl; try done.
    intros l [Hl|Hl]%elem_of_app; [by left|]. apply list_elem_of_singleton in Hl as ->. by right.
  - destruct (loops p !! i) as [[d [[hw|X e k]|]]|] eqn:Hi; try done.
    + injection Ha as <-. apply (budget_move c n n p i d (Passing (Ret hw)) (Sleeping (nextInterval cfg hw)) []); [done..|]. intros _. simpl. split; [done|lia].
    + destruct (perform_in _ e (world p)) as [x w] eqn:Hx. injection Ha as <-.
      destruct (decide (d = c)) as [->|Hne]; [|by apply (budget_move c n n p i d (Passing (Vis e k)) _ _ w)].
      rewrite bool_decide_true in Hx by done. destruct (submits_step n e k (world p)) as (m & Hm & Hle).
      { apply (Hw (mkLoop c (Passing (Vis e k)))); [by eapply list_elem_of_lookup_2|done]. }
      rewrite Hx in Hm, Hle. by apply (budget_move c n m p i c (Passing (Vis e k)) _ _ w).
  - destruct (loops p !! i) as [[d [|interval]]|] eqn:Hi; try done. injection Ha as <-.
    apply (budget_move c n n p i d (Sleeping interval) (Passing (reconcile cfg)) []); [done..|].
    intros _. split; [|simpl; lia]. eapply submits_le; [|apply reconcile_submits]. lia.
  - destruct (loops p !! i) as [[d []]|] eqn:Hi; try done. destruct (decide _); [|done]. injection Ha as <-. apply (budget_keep c n p); simpl; try done.
    intros l Hl. left. rewrite (delete_Permutation (loops p) i _ Hi). by right.
  - injection Ha as <-. apply (budget_keep c n p); simpl; try done; [set_solver|auto].
  - injection Ha as <-. apply (budget_keep c n p); simpl; try done; [destruct (cancel p); set_solver|auto].
  - destruct (stopping p); [done|]. destruct (_ =? _); [|done]. injection Ha as <-. apply (budget_keep c n p); simpl; auto.
Qed.

Lemma budget_steps c n p p' : rtc step p p' -> inv p -> budget c n p -> (handed_by c p' <= handed_by c p + n)%nat.
Proof.
  intros Hsteps. revert n. induction Hsteps as [p|p1 p2 p3 [a Ha] _ IH]; intros n Hinv Hb; [lia|].
  destruct (budget_step c n a p1 p2 Hinv Hb Ha) as (m & Hm & Hle). specialize (IH m (loop_act_inv a p1 p2 Hinv Ha) Hm). lia.
Qed.

(** ** Draining *)

(** The steps of the loops other than a further firing of the timer. *)
Definition own_step (p p' : System) : Prop := exists i, act (APass i) p = Some p' \/ act (AExit i) p = Some p'.

(** A pass runs to its end, and the loop then sees its context. *)
Lemma pass_ends q : forall p c ls,
  loops p = mkLoop c (Passing q) :: ls ->
  exists p' interval, rtc own_step p p' /\ loops p' = mkLoop c (Sleeping interval) :: ls /\ cancelled p' = cancelled p.
Proof.
  induction q as [hw|X e k IH]; intros p c ls Hl.
  - eexists _, (nextInterval cfg hw). split; [|split].
    + eapply rtc_once. exists O. left. cbn [act]. rewrite Hl. reflexivity.
    + simpl. by rewrite Hl.
    + done.
  - destruct (perform_in (bool_decide (c ∈ cancelled p)) e (world p)) as [x w] eqn:Hx.
    destruct (IH x (move 0 (mkLoop c (Passing (k x))) (pair c <$> option_list (accepted e x)) w p) c ls) as (p' & iv & Hs & Hp & Hc); [simpl; by rewrite Hl|].
    exists p', iv. split; [|done]. eapply rtc_l; [|exact Hs]. exists O. left. cbn [act]. rewrite Hl. cbn. by rewrite Hx.
Qed.

Lemma loops_drain ls : forall p,
  loops p = ls -> (forall l, l ∈ ls -> l_ctx l ∈ cancelled p) -> exists p', rtc own_step p p' /\ loops p' = [].
Proof.
  induction ls as [|[c ph] ls IH]; intros p Hl Hc; [by exists p|].
  assert (c ∈ cancelled p) as Hcc by (apply (Hc (mkLoop c ph)); left).
  assert (exists p1 interval, rtc own_step p p1 /\ loops p1 = mkLoop c (Sleeping interval) :: ls /\ cancelled p1 = cancelled p)
    as (p1 & iv & Hs & Hl1 & Hc1).
  { destruct ph as [q|iv]; [by eapply pass_ends|]. by exists p, iv. }
  set (p2 := mkSystem (cancel p1) (wg p1 - 1) (contexts p1) (cancelled p1) (starting p1) ls (stopping p1) (handed p1) (world p1)).
  destruct (IH p2) as (p' & Hs' & Hp'); [done|simpl; rewrite Hc1; intros l Hin; apply Hc; by right|].
  exists p'. split; [|done]. etrans; [exact Hs|]. eapply rtc_l; [|exact Hs']. exists O. right. cbn [act]. rewrite Hl1. cbn.
  rewrite decide_True by (by rewrite Hc1). reflexivity.
Qed.

(** C20: Start and Stop.  In every state an interleaving of Start, Stop, timers, cancellations
    and the effects of the passes leads to, the WaitGroup counts the loops, at most one of
    them has a context that is not cancelled, and a Stop returns only when no loop is left.
    After Stop every loop is cancelled, and their own steps can always run to where none is
    left, so that the Stop returns.  A cancelled loop hands at most one more job to the pool,
    the one whose claim was under way; one that had not begun hands out none. *)
Theorem reconciler_stop_waits p :
  reachable p ->
  wg p = Z.of_nat (length (loops p)) /\
  (forall l l', l ∈ loops p -> l' ∈ loops p -> l_ctx l ∉ cancelled p -> l_ctx l' ∉ cancelled p -> l = l') /\
  (forall p', act AStopped p = Some p' -> loops p = []) /\
  (cancel p = None -> exists p', rtc own_step p p' /\ loops p' = [] /\ wg p' = 0) /\
  (forall c p', c ∈ cancelled p -> rtc step p p' ->
     (handed_by c p' <= handed_by c p + (if decide (c ∈ l_ctx <$> loops p) then 1 else 0))%nat).
Proof.
  intros Hr. pose proof (loop_reachable_inv p Hr) as Hinv. pose proof Hinv as [H1 H3 H4 H5].
  assert (forall l, l ∈ loops p -> l_ctx l ∈ ctxs p) as Hin by (intros l Hl; apply elem_of_app; right; by apply list_elem_of_fmap_2).
  split_and!; [done| | | |].
  - intros l l' Hl Hl' Hc Hc'. pose proof (H5 _ (Hin l Hl) Hc) as E1. pose proof (H5 _ (Hin l' Hl') Hc') as E2.
    apply NoDup_app in H4 as (_ & _ & H4). apply list_elem_of_lookup in Hl as [i Hi]. apply list_elem_of_lookup in Hl' as [j Hj].
    assert (i = j) as ->; [|congruence]. apply (NoDup_lookup _ i j (l_ctx l) H4); rewrite list_lookup_fmap; [by rewrite Hi|].
    rewrite Hj. simpl. congruence.
  - intros p'. cbn [act]. destruct (stopping p); [done|]. destruct (Z.eqb_spec (wg p) 0) as [Hz|]; [|done]. intros _. destruct (loops p); [done|simpl in H1; lia].
  - intros Hc. destruct (loops_drain (loops p) p) as (p' & Hs & Hp'); [done| |].
    { intros l Hl. destruct (decide (l_ctx l ∈ cancelled p)); [done|]. by rewrite (H5 _ (Hin l Hl)) in Hc. }
    exists p'. split_and!; [done|done|]. assert (rtc step p p') as Hs'.
    { eapply rtc_subrel; [|exact Hs]. intros q q' (i & [Hi|Hi]); by eexists. }
    pose proof (steps_inv p p' Hs' Hinv) as [Hwg _ _ _]. by rewrite Hwg, Hp'.
  - intros c p' Hc Hs. apply (budget_steps c _ p p' Hs Hinv). split; [done|]. intros l Hl Hlc.
    rewrite decide_True by (rewrite <- Hlc; by apply list_elem_of_fmap_2).
    assert (Forall always_within (loops p)) as Hall by (by apply reachable_always).
    rewrite Forall_forall in Hall. specialize (Hall l Hl). unfold always_within, within in *. destruct (l_phase l); [|done]. by destruct p0 as [|? ? ?], Hall.
Qed.

(** A list of actions. *)
Fixpoint acts (l : list Action) (p : System) : option System :=
  match l with [] => Some p | a :: l' => p' ← act a p; acts l' p' end.

Lemma acts_steps l p p' : acts l p = Some p' -> rtc step p p'.
Proof.
  revert p. induction l as [|a l IH]; intros p; cbn [acts]; [intros [= ->]; constructor|].
  destruct (act a p) as [p1|] eqn:Ha; [|done]. intros H. eapply rtc_l; [by exists a|by apply IH].
Qed.

End System.

(** ** On concrete runs *)

(** A Stop that comes while a claimed job is about to be handed out. *)
Definition midway_acts : list Action := [AStart; ASpawn 0; APass 0; APass 0; APass 0; APass 0; APass 0; AStop].

Definition midway : System :=
  default (NewSystem (one_row pending_row)) (acts (env := calm) (pgx := pgx_v5) main_config midway_acts (NewSystem (one_row pending_row))).

Lemma midway_reachable : reachable (env := calm) (pgx := pgx_v5) main_config midway.
Proof.
  exists (one_row pending_row). unfold midway.
  destruct (acts main_config midway_acts (NewSystem (one_row pending_row))) as [p|] eqn:Hp; [|constructor]. by apply acts_steps in Hp.
Qed.

Lemma reconciler_stop_waits_witness :
  let p := midway in
  wg p = Z.of_nat (length (loops p)) /\
  (forall l l', l ∈ loops p -> l' ∈ loops p -> l_ctx l ∉ cancelled p -> l_ctx l' ∉ cancelled p -> l = l') /\
  (forall p', act (env := calm) (pgx := pgx_v5) main_config AStopped p = Some p' -> loops p = []) /\
  (cancel p = None -> exists p', rtc (own_step (env := calm) (pgx := pgx_v5) main_config) p p' /\ loops p' = [] /\ wg p' = 0) /\
  (forall c p', c ∈ cancelled p -> rtc (step (env := calm) (pgx := pgx_v5) main_config) p p' ->
     (handed_by c p' <= handed_by c p + (if decide (c ∈ l_ctx <$> loops p) then 1 else 0))%nat).
Proof.
  intros p. exact (reconciler_stop_waits (env := calm) (pgx := pgx_v5) main_config p midway_reachable).
Defined.

(** The job whose claim was under way is handed out, then the loop ends and Stop returns. *)
Example handed_after_stop :
  (fun p => (length (loops p), stopping p, Job.ID ∘ snd <$> handed p)) <$>
    acts (env := calm) (pgx := pgx_v5) main_config [APass 0; APass 0; APass 0; AExit 0; AStopped] midway = Some (O, O, ["job-1"]).
Proof. vm_compute. reflexivity. Qed.

(** A Stop between the two halves of Start returns before the loop has begun. *)
Example loop_after_stop :
  (fun p => (length (loops p), stopping p, wg p)) <$>
    acts (env := calm) (pgx := pgx_v5) main_config [AStart; AStop; AStopped; ASpawn 0] (NewSystem (one_row pending_row)) = Some (1%nat, O, 1).
Proof. vm_compute. reflexivity. Qed.
End ReconcilerLoop.
