(* ===== verification/Lifecycle.v ===== *)
(** * The life of a job

    The parts put together: what Run makes of a job the reconciler handed out, on every way
    through it, and what becomes of a job from its enqueueing to its end. *)

From S2P Require Import Prelude GoLib Float64 Retry Models Breaker Sql Effects Rely Store Concrete StoreSpec Service Redlock Worker Dispatch Reconciler Progress.

Module Lifecycle.
Import Worker.Worker Reconciler.Reconciler Progress.Progress.

Section Run.
Context {coll : Collation} {env : Env} {pgx : Pgx}.
Variable jw : jobWorker.

(** ** Effects beside the job *)

(** Effects that leave the table, the breaker and the record of handler calls alone. *)
Definition aside (X : Type) (e : Ev X) : Prop :=
  match e with ESql _ | EAllow | ESuccess | EFailure | EHandler _ => False | _ => True end.

Definition same_job (w w' : World) : Prop :=
  w_db w' = w_db w /\ w_breaker w' = w_breaker w /\ w_handled w' = w_handled w.

Lemma same_job_trans w1 w2 w3 : same_job w1 w2 -> same_job w2 w3 -> same_job w1 w3.
Proof. unfold same_job. intros (-> & -> & ->). done. Qed.

Lemma handle_aside X (e : Ev X) w : aside X e -> same_job w (handle X e w).2.
Proof.
  intros He. split; [apply handle_no_sql; by destruct e|]. destruct e; simpl in *; try done.
  - destruct (env_redis (w_tick w)); simpl; unfold on_node; simpl; repeat case_match; done.
  - destruct (env_redis (w_tick w)); simpl; unfold on_node; simpl; repeat case_match; done.
  - by destruct (env_submit _ _).
Qed.

Lemma exec_aside {A} (p : prog Ev A) w : all_effects aside p -> same_job w (exec p w).2.
Proof.
  revert w. induction p as [a|X e k IH]; intros w; [done|]. intros [He Hk]. rewrite exec_vis.
  eapply same_job_trans; [by apply handle_aside|]. by apply IH.
Qed.

Lemma Acquire_aside m resource : all_effects aside (Redlock.Acquire m resource).
Proof. by apply Redlock.Acquire_effects. Qed.

Lemma Release_aside m lock : all_effects aside (Redlock.Release m lock).
Proof. by apply Redlock.Release_effects. Qed.

(** ** Run, on a job that was claimed *)

Lemma attempt_handled job w : w_handled (exec (attempt_job jw job) w).2 = w_handled (exec (execute jw job) w).2.
Proof.
  unfold attempt_job. rewrite exec_bind. destruct (exec (execute jw job) w) as [[[err|]|] w1]; cbn [fst snd]; [| |done].
  - rewrite !exec_vis. cbn [handle fst snd]. set (w2 := set_metrics _ _).
    pose proof (exec_quiet_frame _ w2 (scheduleRetry_quiet jw job err)) as [_ Hs]. pose proof (exec_quiet_frame _ w2 (deadLetter_quiet job err)) as [_ Hd].
    destruct (shouldRetry jw job err); [by rewrite Hs|by rewrite Hd].
  - rewrite !exec_vis, exec_bind. cbn [handle fst snd]. set (w2 := tick (set_metrics _ _)). set (job' := completed_job job _).
    pose proof (exec_quiet_frame _ w2 (UpdateJob_quiet job')) as [_ Hq]. destruct (exec (UpdateJob job') w2) as [e w3]. cbn [snd] in Hq.
    change (exec (Ret ?a) ?b) with (a, b). cbn [snd]. by rewrite Hq.
Qed.

Lemma attempt_panics job w : (exec (attempt_job jw job) w).1 = Panics <-> (exec (execute jw job) w).1 = Panicked.
Proof.
  unfold attempt_job. rewrite exec_bind. destruct (exec (execute jw job) w) as [[[err|]|] w1]; cbn [fst snd]; [| |done].
  - rewrite !exec_vis. cbn [handle fst snd]. set (w2 := set_metrics _ _). destruct (failure_returns jw job err w2) as [Hs Hd].
    destruct (shouldRetry jw job err); rewrite ?Hs, ?Hd; done.
  - rewrite !exec_vis, exec_bind. cbn [handle fst snd]. by destruct (exec (UpdateJob _) _).
Qed.

(** Run returned before it asked the breaker: the job's time is more than a minute away, or
    the wait for it was cancelled. *)
Definition early (job : Job) (w w' : World) (res : RunResult) : Prop :=
  same_job w w' /\ exists at_time, Job.ScheduledAt job = Some at_time /\ env_now (w_tick w) < at_time /\
    ((maxInWorkerSleep < at_time - env_now (w_tick w) /\ res = Returned None) \/
     exists e, env_ctx (S (w_tick w)) = Some e /\ res = Returned (Some e)).

(** The claim was given up: the breaker is open, or the execution lock is not to be had. *)
Definition given_back (job : Job) (r : Row) (w w' : World) (res : RunResult) : Prop :=
  res = Returned None /\ w_handled w' = w_handled w /\
  exists t reason now, w_breaker w' = (Breaker.Allow t (w_breaker w)).2 /\ w_db w' = <[Job.ID job := release_row reason now r]> (w_db w) /\
    reason = if (Breaker.Allow t (w_breaker w)).1 then "could not acquire execution lock" else "circuit open".

(** The job was executed, from a world [w1] in which nothing of it had changed: the row is
    settled by the handler's outcome. *)
Definition executed (job : Job) (r : Row) (w w' : World) (res : RunResult) : Prop :=
  exists t w1 w2 r', (Breaker.Allow t (w_breaker w)).1 = true /\ w_breaker w1 = (Breaker.Allow t (w_breaker w)).2 /\ w_db w1 = w_db w /\
    settled jw job (exec (execute jw job) w1).1 r r' w1 w2 /\
    w_db w' = <[Job.ID job := r']> (w_db w) /\ w_breaker w' = w_breaker w2 /\
    w_handled w' = w_handled w ++ (if bool_decide (Task.Name (Job.Task job) ∈ handlers jw) then [job] else []) /\
    (res = Panics <-> (exec (execute jw job) w1).1 = Panicked).

Definition run_post (job : Job) (r : Row) (w w' : World) (res : RunResult) : Prop :=
  early job w w' res \/ given_back job r w w' res \/ executed job r w w' res.

Lemma exec_await job w :
  same_job w (exec (await_schedule job) w).2 /\
  forall res, (exec (await_schedule job) w).1 = Some res -> early job w (exec (await_schedule job) w).2 res.
Proof.
  assert (same_job w (exec (await_schedule job) w).2) as Hsame.
  { apply exec_aside. unfold await_schedule. case_match; [|done]. split; [done|]. intros now. repeat case_match; done. }
  split; [exact Hsame|]. intros res Hres. split; [exact Hsame|]. clear Hsame.
  unfold await_schedule in Hres. destruct (Job.ScheduledAt job) as [at_time|]; [|done]. rewrite exec_vis in Hres. cbn [handle fst snd] in Hres. cbv zeta in Hres.
  exists at_time. split; [done|]. destruct (Z.ltb_spec 0 (at_time - env_now (w_tick w))) as [Hpos|]; [|done]. split; [lia|].
  destruct (Z.ltb_spec maxInWorkerSleep (at_time - env_now (w_tick w))).
  - left. split; [done|]. by injection Hres.
  - right. rewrite exec_vis in Hres. cbn [handle fst snd] in Hres. destruct (env_ctx (w_tick (tick w))) as [e|] eqn:He; [|done].
    exists e. split; [done|]. by injection Hres.
Qed.

Section Calm.
Hypothesis no_fault : forall n, env_sql n = NoFault.

Lemma exec_releaseClaim job reason w r :
  Job.State job = JobStateRunning -> claimed_in (w_db w) job r ->
  exists w', exec (releaseClaim job reason) w = (tt, w') /\ w_handled w' = w_handled w /\ w_breaker w' = w_breaker w /\
    w_db w' = <[Job.ID job := release_row reason (pv_now (env_view (w_tick w))) r]> (w_db w).
Proof.
  intros Hst (Hr & Hrun & Htok & Hne & _). unfold releaseClaim, holds_claim. rewrite Hst. rewrite bool_decide_true, bool_decide_false by done. cbn [negb orb].
  rewrite exec_bind. unfold ReleaseClaim. rewrite exec_vis. cbn [handle]. rewrite no_fault. cbn [exec_stmt]. unfold update_where.
  change (w_db (tick w)) with (w_db w). rewrite Hr. unfold holds_lease. rewrite Hrun, Htok, !bool_decide_true by done. cbn [andb with_fault fst snd].
  change (exec (Ret ?x) ?y) with (x, y). cbv beta iota. change (exec (Ret ?x) ?y) with (x, y). by eexists.
Qed.

Lemma tracked_settles job w r :
  claimed_in (w_db w) job r ->
  exists w1 w2 r', same_job w w1 /\ settled jw job (exec (execute jw job) w1).1 r r' w1 w2 /\
    w_db (exec (tracked jw job) w).2 = <[Job.ID job := r']> (w_db w) /\ w_breaker (exec (tracked jw job) w).2 = w_breaker w2 /\
    w_handled (exec (tracked jw job) w).2 = w_handled (exec (execute jw job) w1).2 /\
    ((exec (tracked jw job) w).1 = Panics <-> (exec (execute jw job) w1).1 = Panicked).
Proof.
  intros Hcl. unfold tracked. rewrite !exec_vis. cbn [handle fst snd]. set (w0 := set_metrics (metric IncStarted _) _).
  assert (same_job w w0) as H0 by done. clearbody w0.
  assert (forall j w, same_job w (exec (startLeaseRenewal jw j) w).2) as Hstart by (intros j v; apply exec_aside; unfold startLeaseRenewal; case_match; done).
  assert (forall j w, same_job w (exec (stopRenewLease j) w).2) as Hstop by (intros j v; apply exec_aside; unfold stopRenewLease; case_match; done).
  rewrite exec_bind. specialize (Hstart job w0). destruct (exec (startLeaseRenewal jw job) w0) as [u w1]. cbn [snd] in Hstart.
  pose proof (same_job_trans w w0 w1 H0 Hstart) as H1. rewrite exec_bind. pose proof (proj1 H1) as Hdb1. rewrite <- Hdb1 in Hcl.
  destruct (attempt_settles jw job w1 r no_fault Hcl) as (r' & Hdb & Hset).
  pose proof (attempt_handled job w1) as Hh. pose proof (attempt_panics job w1) as Hp.
  destruct (exec (attempt_job jw job) w1) as [res w2]. cbn [fst snd] in *. rewrite exec_bind.
  specialize (Hstop job w2). destruct (exec (stopRenewLease job) w2) as [u' w3]. cbn [snd] in Hstop. rewrite !exec_vis. cbn [handle fst snd].
  destruct Hstop as (Hdb3 & Hb3 & Hh3). exists w1, w2, r'. split_and!; try done; change (exec (Ret ?x) ?y) with (x, y); cbn [fst snd set_metrics tick w_db w_breaker w_handled].
  - by rewrite Hdb3, Hdb, Hdb1.
  - by rewrite Hh3.
Qed.

Lemma exec_execute_handled job w :
  w_handled (exec (execute jw job) w).2 = w_handled w ++ (if bool_decide (Task.Name (Job.Task job) ∈ handlers jw) then [job] else []).
Proof. unfold execute. destruct (bool_decide _); cbn [negb]; [done|]. by rewrite app_nil_r. Qed.

Lemma exec_Run job w r :
  Job.State job = JobStateRunning -> claimed_in (w_db w) job r ->
  run_post job r w (exec (Run jw job) w).2 (exec (Run jw job) w).1.
Proof.
  intros Hst Hcl. unfold Run. rewrite exec_bind. destruct (exec_await job w) as [Hsame Hearly].
  destruct (exec (await_schedule job) w) as [[res|] w1]; cbn [fst snd] in *; [left; by apply Hearly|right]. clear Hearly.
  rewrite exec_vis. cbn [handle]. set (t := env_now (w_tick w1)). destruct Hsame as (Hdb1 & Hb1 & Hh1). change (w_breaker (tick w1)) with (w_breaker w1).
  rewrite Hb1. destruct (Breaker.Allow t (w_breaker w)) as [ok b] eqn:Hallow. cbn [fst snd].
  set (w2 := set_breaker b (tick w1)). assert (w_db w2 = w_db w /\ w_handled w2 = w_handled w /\ w_breaker w2 = b) as (Hdb2 & Hh2 & Hb2) by done. clearbody w2.
  destruct ok; cbn [negb].
  - rewrite exec_bind. pose proof (exec_aside _ w2 (Acquire_aside (lockMgr jw) ("job:exec:" +:+ Job.ID job))) as (Hdb3 & Hb3 & Hh3).
    destruct (exec (Redlock.Acquire _ _) w2) as [[lck|e] w3]; cbn [snd] in *.
    + right. rewrite exec_bind. unfold locked. rewrite exec_bind. unfold claim_job. rewrite Hst, bool_decide_true by done.
      change (exec (Ret ?x) ?y) with (x, y). cbv beta iota.
      assert (claimed_in (w_db w3) job r) as Hcl3 by (by rewrite Hdb3, Hdb2).
      destruct (tracked_settles job w3 r Hcl3) as (w4 & w5 & r' & (Hdb4 & Hb4 & Hh4) & Hset & Hdb5 & Hb5 & Hh5 & Hp).
      rewrite exec_execute_handled in Hh5. destruct (exec (tracked jw job) w3) as [res w6]. cbn [fst snd] in *. rewrite exec_bind.
      pose proof (exec_aside _ w6 (Release_aside (lockMgr jw) lck)) as (Hdb7 & Hb7 & Hh7). destruct (exec (Redlock.Release _ _) w6) as [e w7]. cbn [snd] in *.
      change (exec (Ret ?x) ?y) with (x, y). cbn [fst snd]. exists t, w4, w5, r'. rewrite Hallow. cbn [fst snd]. split_and!; try done; congruence.
    + left. rewrite exec_bind. destruct (exec_releaseClaim job "could not acquire execution lock" w3 r) as (w4 & -> & Hh4 & Hb4 & Hdb4); [done|by rewrite Hdb3, Hdb2|].
      change (exec (Ret ?x) ?y) with (x, y). split; [done|]. cbn [snd]. split; [congruence|]. do 3 eexists. split_and!; [|by rewrite Hdb4, Hdb3, Hdb2|by rewrite Hallow].
      rewrite Hallow. cbn. congruence.
  - left. rewrite exec_bind. destruct (exec_releaseClaim job "circuit open" w2 r) as (w4 & -> & Hh4 & Hb4 & Hdb4); [done|by rewrite Hdb2|].
    change (exec (Ret ?x) ?y) with (x, y). split; [done|]. cbn [snd]. split; [congruence|]. do 3 eexists. split_and!; [|by rewrite Hdb4, Hdb2|by rewrite Hallow].
    rewrite Hallow. cbn. congruence.
Qed.


End Calm.

(** ** From the request to the end *)

(** A request as the API makes it, with a key if the driver cannot read NULL. *)
Record fresh_request (job : Job) : Prop := {
  no_state : Job.State job = "";
  no_attempt : Job.Attempt job = 0;
  fits_retries : int4 (Task.RetryCount (Job.Task job)) = true;
  readable_key : Job.IdempotencyKey job <> "" \/ scan_null <> None;
}.

(** The clocks of the server and of Postgres agree. *)
Definition in_step : Prop := forall n m, (n <= m)%nat -> pg_ts (env_now n) <= pv_now (env_view m).

Section Enqueued.
Hypothesis Hcalm : undisturbed env.
Hypothesis Henv : wf_env env.
Hypothesis Hrand : rand_bytes_ok env.

Lemma fresh_row job id n :
  fresh_request job ->
  let r := job_row (stamped (env_now (S n)) (filled id (env_now n) job)) in
  r_id r = id /\ r_state r = JobStatePending /\ readable r /\ r_task r = Job.Task job /\ r_attempt r = 0 /\
  r_scheduled_at r = Some (pg_ts (default (env_now n) (Job.ScheduledAt job))).
Proof.
  intros [Hs Ha Hi Hk] r.
  assert (r_id r = id /\ r_state r = JobStatePending /\ r_task r = Job.Task job /\ r_attempt r = Job.Attempt job /\
    r_key r = nullableString (Job.IdempotencyKey job) /\ r_scheduled_at r = Some (pg_ts (default (env_now n) (Job.ScheduledAt job))))
    as (H1 & H2 & H3 & H4 & H5 & H6).
  { subst r. unfold filled, stamped. change (Job.State (Job.set_ID id job)) with (Job.State job). rewrite Hs, bool_decide_true by done.
    change (Job.ScheduledAt (Job.set_State JobStatePending (Job.set_ID id job))) with (Job.ScheduledAt job).
    destruct (Job.ScheduledAt job) as [t|] eqn:Ht; destruct (IsZero _); cbn [default]; split_and!; try done; cbn; by rewrite Ht. }
  split_and!; try done; [|by rewrite H4]. split; [by rewrite H4, Ha|]. rewrite H5. unfold nullableString.
  destruct Hk as [Hk|Hk]; [left; by rewrite bool_decide_false|by right].
Qed.

Lemma claimed_row_job lease r r' job :
  claimed_from lease r r' -> scan_row r' = Some job -> readable r -> int4 (Task.RetryCount (r_task r)) = true ->
  forall t, t !! Job.ID job = Some r' ->
  Job.State job = JobStateRunning /\ Job.Task job = r_task r /\ Job.Attempt job = r_attempt r + 1 /\ claimed_in t job r'.
Proof.
  intros (now & n & bytes & Hb & ->) Hscan Hread Hrc t Ht. destruct (readable_text r Hread) as [key Hk]. destruct Hread as [Hint _].
  unfold scan_row in Hscan. cbn [claim_row r_key r_lease_token scan_text] in Hscan. rewrite Hk in Hscan. cbn [mbind option_bind] in Hscan. injection Hscan as <-.
  split_and!; try done. split_and!; try done.
  - cbn [Job.LeaseToken]. destruct (Hrand n 16%nat bytes Hb) as [Hlen _]. by destruct bytes as [|b bytes]; [simpl in Hlen; lia|].
  - cbn [Job.Attempt Job.Task claim_row r_attempt r_task]. by rewrite Hint, Hrc.
Qed.


End Enqueued.
End Run.

(** ** On concrete jobs *)

Lemma calm_rand : rand_bytes_ok calm.
Proof.
  intros n k l [= <-]. split; [apply length_replicate|]. apply Forall_replicate. unfold is_byte. pose proof (Z.mod_pos_bound (Z.of_nat n) 256). lia.
Qed.

Lemma calm_in_step : in_step (env := calm).
Proof.
  intros n m Hle. change (pg_ts (t0 + Z.of_nat n * Millisecond) <= t0 + Z.of_nat m * Millisecond).
  transitivity (t0 + Z.of_nat n * Millisecond); [unfold pg_ts; pose proof (Z.mul_div_le (t0 + Z.of_nat n * Millisecond) 1000); lia|].
  unfold Millisecond. lia.
Qed.


Definition enqueued_job : res string error * World := exec (env := calm) (Enqueue (pgx := pgx_v5) "conduit.jobs" (request "k")) (world 3 ∅).
Definition enqueued_id : string := match enqueued_job.1 with Ok id => id | Err _ => "" end.


(** From the request to COMPLETED: the handler is called once, for the first attempt. *)
Example enqueued_job_completes :
  let w2 := (exec (env := calm) (reconcile (pgx := pgx_v5) main_config) enqueued_job.2).2 in
  let w3 := foldl (fun w j => (exec (env := calm) (Run (pgx := pgx_v5) main_worker j) w).2) w2 (w_submitted w2) in
  (r_state <$> w_db w3 !! enqueued_id, Job.ID <$> w_handled w3) = (Some JobStateCompleted, [enqueued_id]).
Proof. vm_compute. reflexivity. Qed.
End Lifecycle.
