(* ===== verification/Pool.v ===== *)
(** * internal/worker: Pool

    The pool's goroutines as a transition system: the dispatcher that takes jobs from the
    queue and starts a goroutine for each once the semaphore has room, the job goroutines,
    the callers of Submit and SubmitBlocking, the cancellation of the context and Stop.
    One action is one channel operation; [select] with several ready cases takes any of
    them. *)

From S2P Require Import Prelude Models.

Module Pool.

Record Config := mkConfig {
  Concurrency : Z;
  QueueSize : Z;
  ShutdownTimeout : Z;
}.

(** The dispatcher goroutine: in its select, or with a received job waiting for the
    semaphore, or gone. *)
Inductive Dispatcher := NotStarted | Waiting | Holding (job : Job) | Exited.

(** [accepted] and [started] are the jobs the queue took and the jobs a goroutine was
    started for, in order; [crashed] is a panic nobody recovers. *)
Record Pool := mkPool {
  cfg : Config;
  jobs : list Job;
  closed : bool;
  cancelled : bool;
  dispatcher : Dispatcher;
  running : list Job;
  finished : list Job;
  accepted : list Job;
  started : list Job;
  crashed : bool;
}.

(** [make(chan T, n)] panics when [n] is negative. *)
Definition NewPool (c : Config) : option Pool :=
  if (QueueSize c <? 0) || (Concurrency c <? 0) then None
  else Some (mkPool c [] false false NotStarted [] [] [] [] false).

Definition Start (p : Pool) : Pool :=
  mkPool (cfg p) (jobs p) (closed p) (cancelled p) Waiting (running p) (finished p) (accepted p) (started p) (crashed p).

(** ** Sending to the queue *)

(** The send case of the select is ready: there is room, the dispatcher receives right now
    (unbuffered queue), or the channel is closed. *)
Definition can_send (p : Pool) : bool :=
  (Z.of_nat (length (jobs p)) <? QueueSize (cfg p))
  || ((QueueSize (cfg p) =? 0) && match dispatcher p with Waiting => true | _ => false end).

Definition send_ready (p : Pool) : bool := closed p || can_send p.

(** A send that is chosen: on a closed channel it panics. *)
Definition send (job : Job) (p : Pool) : Pool :=
  if closed p then
    mkPool (cfg p) (jobs p) (closed p) (cancelled p) (dispatcher p) (running p) (finished p) (accepted p) (started p) true
  else if QueueSize (cfg p) =? 0 then
    mkPool (cfg p) (jobs p) (closed p) (cancelled p) (Holding job) (running p) (finished p) (accepted p ++ [job]) (started p) (crashed p)
  else
    mkPool (cfg p) (jobs p ++ [job]) (closed p) (cancelled p) (dispatcher p) (running p) (finished p) (accepted p ++ [job])
      (started p) (crashed p).

(** What the caller's context answers when it is asked first and in the select, and which
    of two ready cases the select takes. *)
Record Caller := mkCaller { err_first : bool; done_later : bool; picks_send : bool }.

(** Submit: the answer and the pool after it. *)
Definition Submit (c : Caller) (job : Job) (p : Pool) : bool * Pool :=
  if err_first c then (false, p)
  else if send_ready p && done_later c then
    if picks_send c then (true, send job p) else (false, p)
  else if send_ready p then (true, send job p)
  else (false, p).

(** SubmitBlocking: [None] while it blocks. *)
Definition SubmitBlocking (c : Caller) (job : Job) (p : Pool) : option (bool * Pool) :=
  if err_first c then Some (false, p)
  else if send_ready p && done_later c then
    if picks_send c then Some (true, send job p) else Some (false, p)
  else if send_ready p then Some (true, send job p)
  else if done_later c then Some (false, p)
  else None.

(** ** The goroutines *)

Inductive Action :=
| ASubmit (c : Caller) (job : Job)
| ASubmitBlocking (c : Caller) (job : Job)
| AReceive
| AStartJob
| AFinish (i : nat)
| AExitClosed
| AExitCancelled
| ACancel
| AClose.

Definition set_dispatcher (d : Dispatcher) (p : Pool) : Pool :=
  mkPool (cfg p) (jobs p) (closed p) (cancelled p) d (running p) (finished p) (accepted p) (started p) (crashed p).

(** A panic in the job's goroutine is recovered there: the job finishes either way, and the
    deferred calls give the semaphore back. *)
Definition act (a : Action) (p : Pool) : option Pool :=
  if crashed p then None
  else match a with
  | ASubmit c job => Some (Submit c job p).2
  | ASubmitBlocking c job => option_map snd (SubmitBlocking c job p)
  | AReceive =>
      match dispatcher p, jobs p with
      | Waiting, job :: q =>
          Some (mkPool (cfg p) q (closed p) (cancelled p) (Holding job) (running p) (finished p) (accepted p) (started p) (crashed p))
      | _, _ => None
      end
  | AStartJob =>
      match dispatcher p with
      | Holding job =>
          if Z.of_nat (length (running p)) <? Concurrency (cfg p)
          then Some (mkPool (cfg p) (jobs p) (closed p) (cancelled p) Waiting (running p ++ [job]) (finished p) (accepted p)
                       (started p ++ [job]) (crashed p))
          else None
      | _ => None
      end
  | AFinish i =>
      match running p !! i with
      | Some job =>
          Some (mkPool (cfg p) (jobs p) (closed p) (cancelled p) (dispatcher p) (delete i (running p)) (finished p ++ [job])
                  (accepted p) (started p) (crashed p))
      | None => None
      end
  | AExitClosed =>
      match dispatcher p, jobs p with
      | Waiting, [] => if closed p then Some (set_dispatcher Exited p) else None
      | _, _ => None
      end
  | AExitCancelled =>
      match dispatcher p with
      | Waiting => if cancelled p then Some (set_dispatcher Exited p) else None
      | _ => None
      end
  | ACancel =>
      Some (mkPool (cfg p) (jobs p) (closed p) true (dispatcher p) (running p) (finished p) (accepted p) (started p) (crashed p))
  | AClose =>
      Some (mkPool (cfg p) (jobs p) true (cancelled p) (dispatcher p) (running p) (finished p) (accepted p) (started p)
              (closed p || crashed p))
  end.

Definition step (p p' : Pool) : Prop := exists a, act a p = Some p'.

Definition reachable (c : Config) (p : Pool) : Prop := exists p0, NewPool c = Some p0 /\ rtc step (Start p0) p.

(** Stop has closed the queue and its wait for the WaitGroup is over. *)
Definition stopped (p : Pool) : Prop := closed p = true /\ dispatcher p = Exited /\ running p = [].

(** ** The invariant *)

Definition held (d : Dispatcher) : list Job := match d with Holding job => [job] | _ => [] end.

Record inv (c : Config) (p : Pool) : Prop := {
  inv_cfg : cfg p = c;
  inv_queue : Z.of_nat (length (jobs p)) <= QueueSize c;
  inv_running : Z.of_nat (length (running p)) <= Concurrency c;
  inv_order : started p ++ held (dispatcher p) ++ jobs p = accepted p;
  inv_once : running p ++ finished p ≡ₚ started p;
  inv_started : dispatcher p <> NotStarted;
  inv_exit : dispatcher p = Exited -> cancelled p = true \/ (closed p = true /\ jobs p = []);
}.

Lemma send_inv c job p : inv c p -> send_ready p = true -> inv c (send job p).
Proof.
  intros [Hc Hq Hr Ho Hp Hn He] Hs. unfold send. destruct (closed p) eqn:Hcl; [by split|].
  unfold send_ready, can_send in Hs. rewrite Hcl in Hs. simpl in Hs. rewrite Hc in *.
  destruct (QueueSize c =? 0) eqn:H0; bool_to_prop.
  - rewrite H0 in Hs. destruct (Z.of_nat (length (jobs p)) <? 0) eqn:Hlt; bool_to_prop; [lia|]. simpl in Hs.
    assert (jobs p = []) as Hj by (apply nil_length_inv; lia). destruct (dispatcher p); try done.
    split; simpl; try done. rewrite <- Ho, Hj. simpl. by rewrite !app_nil_r.
  - simpl in Hs. rewrite orb_false_r in Hs. bool_to_prop.
    split; simpl; try done.
    + rewrite length_app. simpl. lia.
    + by rewrite <- Ho, !app_assoc.
    + intros Hx. destruct (He Hx) as [?|[? _]]; [by left|congruence].
Qed.

Lemma act_inv c a p p' : inv c p -> act a p = Some p' -> inv c p'.
Proof.
  intros Hinv Ha. pose proof Hinv as [Hc Hq Hr Ho Hp Hn He]. unfold act in Ha. destruct (crashed p) eqn:Hcr; [done|].
  destruct a as [cl job|cl job| | |i| | | |].
  - injection Ha as <-. unfold Submit. repeat case_match; bool_to_prop; simpl; try done; by apply send_inv.
  - unfold SubmitBlocking in Ha. repeat case_match; bool_to_prop; simplify_eq/=; try done; by apply send_inv.
  - destruct (dispatcher p) eqn:Hd; try done. destruct (jobs p) as [|job q] eqn:Hj; [done|]. injection Ha as <-.
    split; simpl in *; try done. lia.
  - destruct (dispatcher p) as [| |job|] eqn:Hd; try done. destruct (_ <? _) eqn:Hlt; [|done]. bool_to_prop. injection Ha as <-.
    rewrite Hc in Hlt. split; simpl in *; try done.
    + rewrite length_app. simpl. lia.
    + by rewrite <- app_assoc.
    + rewrite <- Hp. solve_Permutation.
  - destruct (running p !! i) as [job|] eqn:Hi; [|done]. injection Ha as <-. split; simpl; try done.
    + rewrite length_delete by eauto. lia.
    + rewrite <- Hp. rewrite (delete_Permutation (running p) i job Hi) at 2. solve_Permutation.
  - destruct (dispatcher p) eqn:Hd; try done. destruct (jobs p) eqn:Hj; [|done]. destruct (closed p) eqn:Hcl; [|done].
    injection Ha as <-. split; simpl; try rewrite Hj; auto; by rewrite Hj in *.
  - destruct (dispatcher p) eqn:Hd; try done. destruct (cancelled p) eqn:Hx; [|done]. injection Ha as <-. by split; simpl; auto.
  - injection Ha as <-. split; simpl; auto.
  - injection Ha as <-. split; simpl; auto. intros Hx. destruct (He Hx) as [?|[_ ?]]; auto.
Qed.

Lemma reachable_inv c p : reachable c p -> inv c p.
Proof.
  intros (p0 & Hnew & Hsteps). unfold NewPool in Hnew. destruct (_ || _) eqn:Hneg; [done|]. bool_to_prop. injection Hnew as <-.
  assert (inv c (Start (mkPool c [] false false NotStarted [] [] [] [] false))) as Hinit by (split; simpl; done || lia).
  revert Hinit. induction Hsteps as [p|p1 p2 p3 [a Ha] _ IH]; [done|]. intros H1. apply IH. by eapply act_inv.
Qed.

(** In every state any interleaving of callers, jobs, cancellation and Stop leads to, at
    most Concurrency jobs run, at most QueueSize wait, jobs are started in the order they
    were accepted, and every accepted job is in exactly one place: queued, held by the
    dispatcher, running, or finished (a panicking job included). *)
Theorem pool_bounded_fifo c p :
  reachable c p ->
  Z.of_nat (length (running p)) <= Concurrency c /\ Z.of_nat (length (jobs p)) <= QueueSize c /\
  started p ++ held (dispatcher p) ++ jobs p = accepted p /\
  jobs p ++ held (dispatcher p) ++ running p ++ finished p ≡ₚ accepted p.
Proof.
  intros [_ Hq Hr Ho Hp _ _]%reachable_inv. split_and!; [done..|]. rewrite <- Ho, Hp. solve_Permutation.
Qed.

(** ** Stopping *)

(** The pool's own steps: everything but new callers, cancellation and Stop. *)
Definition internal (a : Action) : bool :=
  match a with AReceive | AStartJob | AFinish _ | AExitClosed | AExitCancelled => true | _ => false end.

(** The work left: what the pool's own steps count down. *)
Definition work (p : Pool) : nat :=
  3 * length (jobs p) + length (running p) +
  match dispatcher p with Waiting => 1 | Holding _ => 3 | _ => 0 end.

Lemma internal_decreases a p p' : internal a = true -> act a p = Some p' -> (work p' < work p)%nat.
Proof.
  intros Hi Ha. unfold act in Ha. destruct (crashed p); [done|]. unfold work. destruct a; try done.
  - destruct (dispatcher p) eqn:Hd; try done. destruct (jobs p) eqn:Hj; [done|]. injection Ha as <-. simpl. lia.
  - destruct (dispatcher p) eqn:Hd; try done. destruct (_ <? _); [|done]. injection Ha as <-. simpl. rewrite length_app. simpl. lia.
  - destruct (running p !! i) as [job|] eqn:Hr; [|done]. injection Ha as <-. simpl. rewrite length_delete by eauto.
    apply lookup_lt_Some in Hr. lia.
  - destruct (dispatcher p) eqn:Hd; try done. destruct (jobs p) eqn:Hj; [|done]. destruct (closed p); [|done]. injection Ha as <-.
    simpl. rewrite Hj. simpl. lia.
  - destruct (dispatcher p) eqn:Hd; try done. destruct (cancelled p); [|done]. injection Ha as <-. simpl. lia.
Qed.

(** C24: Stop terminates.  Once the queue is closed, as long as the pool has not stopped, one
    of its own steps is possible (with a positive Concurrency), and each of them uses up
    work: whatever order they run in, after at most [work p] of them the wait of Stop is
    over.  When the context was not cancelled, every accepted job has then finished and
    nothing is left in the queue. *)
Theorem pool_stop_drains c p :
  reachable c p -> 0 < Concurrency c -> closed p = true -> crashed p = false ->
  (stopped p \/ exists a p', internal a = true /\ act a p = Some p') /\
  (forall a p', internal a = true -> act a p = Some p' -> (work p' < work p)%nat) /\
  (stopped p -> cancelled p = false -> jobs p = [] /\ finished p ≡ₚ accepted p).
Proof.
  intros [Hc Hq Hr Ho Hp Hn He]%reachable_inv Hcon Hcl Hcr. split; [|split].
  - destruct (running p) as [|job l] eqn:Hrun.
    2:{ right. exists (AFinish 0). eexists. split; [done|]. unfold act. rewrite Hcr, Hrun. reflexivity. }
    destruct (dispatcher p) as [| |job|] eqn:Hd; [done|..].
    + right. destruct (jobs p) as [|job q] eqn:Hj; [exists AExitClosed|exists AReceive]; eexists; (split; [done|]);
        unfold act; by rewrite Hcr, Hd, Hj, ?Hcl.
    + right. exists AStartJob. eexists. split; [done|]. unfold act. rewrite Hcr, Hd, Hrun, Hc. simpl.
      rewrite (proj2 (Z.ltb_lt _ _)) by done. reflexivity.
    + left. done.
  - intros a p'. apply internal_decreases.
  - intros (_ & Hd & Hrun) Hx. destruct (He Hd) as [?|[_ Hj]]; [congruence|]. split; [done|].
    rewrite <- Ho, Hd, Hj, app_nil_r, <- Hp, Hrun. done.
Qed.

(** ** Witnesses *)

Definition small_config : Config := mkConfig 1 2 (30 * Second).
Definition eager : Caller := mkCaller false false true.
Definition job_named (id : string) : Job := Job.set_ID id zero_job.

(** Run the actions from a fresh pool. *)
Fixpoint acts (l : list Action) (p : Pool) : option Pool :=
  match l with [] => Some p | a :: l' => p' ← act a p; acts l' p' end.

Definition run_pool (c : Config) (l : list Action) : option Pool := p0 ← NewPool c; acts l (Start p0).

Lemma run_pool_reachable c l p : run_pool c l = Some p -> reachable c p.
Proof.
  unfold run_pool, reachable. destruct (NewPool c) as [p0|] eqn:Hn; [|done]. simpl. intros Ha. exists p0. split; [done|].
  revert Ha. generalize (Start p0). induction l as [|a l IH]; intros q; simpl; [by intros [= <-]|].
  destruct (act a q) as [q'|] eqn:Hq; [|done]. simpl. intros Ha. eapply rtc_l; [by exists a|]. by apply IH.
Qed.

(** Three jobs on one worker; the second finishes, the queue is closed. *)
Definition busy : list Action :=
  [ASubmit eager (job_named "a"); AReceive; AStartJob; ASubmit eager (job_named "b"); ASubmitBlocking eager (job_named "c");
   AFinish 0; AReceive; AStartJob; AClose].

Definition busy_pool : Pool := default (mkPool small_config [] false false NotStarted [] [] [] [] false) (run_pool small_config busy).

Lemma busy_reachable : reachable small_config busy_pool.
Proof. apply (run_pool_reachable small_config busy). vm_compute. reflexivity. Qed.

Lemma pool_bounded_fifo_witness :
  Z.of_nat (length (running busy_pool)) <= 1 /\ Z.of_nat (length (jobs busy_pool)) <= 2 /\
  started busy_pool ++ held (dispatcher busy_pool) ++ jobs busy_pool = accepted busy_pool /\
  jobs busy_pool ++ held (dispatcher busy_pool) ++ running busy_pool ++ finished busy_pool ≡ₚ accepted busy_pool.
Proof. apply (pool_bounded_fifo small_config busy_pool). apply busy_reachable. Defined.

Lemma pool_stop_drains_witness :
  (stopped busy_pool \/ exists a p', internal a = true /\ act a busy_pool = Some p') /\
  (forall a p', internal a = true -> act a busy_pool = Some p' -> (work p' < work busy_pool)%nat) /\
  (stopped busy_pool -> cancelled busy_pool = false -> jobs busy_pool = [] /\ finished busy_pool ≡ₚ accepted busy_pool).
Proof.
  apply (pool_stop_drains small_config busy_pool).
  - apply busy_reachable.
  - reflexivity.
  - vm_compute. reflexivity.
  - vm_compute. reflexivity.
Defined.

(** A shutdown by cancellation drops accepted jobs.  The server cancels the context the
    pool was started with before it calls Stop; the dispatcher may then leave with jobs in
    the queue.  Stop returns without an error although jobs that Submit accepted were never
    started. *)
Theorem pool_cancel_drops_jobs :
  exists p, reachable small_config p /\ stopped p /\ crashed p = false /\
    exists job, job ∈ accepted p /\ job ∉ started p.
Proof.
  set (l := [ASubmit eager (job_named "a"); ACancel; AExitCancelled; AClose]).
  destruct (run_pool small_config l) as [p|] eqn:Hp; [|vm_compute in Hp; discriminate].
  exists p. split; [by apply (run_pool_reachable _ l)|]. vm_compute in Hp. injection Hp as <-.
  split; [done|]. split; [done|]. exists (job_named "a"). split; [left|]. intros H%elem_of_nil. done.
Qed.
End Pool.
