(* ===== verification/PoolSpec.v ===== *)
(** * internal/worker: what the pool promises

    The pool as its callers see it: a bounded first-in first-out queue in front of at most
    Concurrency workers.  The dispatcher, the channels and the closing of the queue are
    hidden; a forward simulation shows that every run of the pool of [Pool] is a run of
    this queue. *)

From S2P Require Import Prelude Models Pool.

Module PoolSpec.
Import Pool.Pool.

(** ** The abstract queue *)

Record Queue := mkQueue { waiting : list Job; active : list Job; completed : list Job }.

Inductive Event := Accept (job : Job) | Begin (job : Job) | Complete (job : Job).

(** The buffer holds QueueSize jobs, and one more is on its way to a worker. *)
Inductive queue_step (c : Config) : Event -> Queue -> Queue -> Prop :=
| QAccept job q a d :
    Z.of_nat (length q) <= QueueSize c -> queue_step c (Accept job) (mkQueue q a d) (mkQueue (q ++ [job]) a d)
| QBegin job q a d :
    Z.of_nat (length a) < Concurrency c -> queue_step c (Begin job) (mkQueue (job :: q) a d) (mkQueue q (a ++ [job]) d)
| QComplete job q a1 a2 d :
    queue_step c (Complete job) (mkQueue q (a1 ++ job :: a2) d) (mkQueue q (a1 ++ a2) (d ++ [job])).

Inductive queue_run (c : Config) : list Event -> Queue -> Queue -> Prop :=
| QNil q : queue_run c [] q q
| QCons e q q' es q'' : queue_step c e q q' -> queue_run c es q' q'' -> queue_run c (e :: es) q q''.

Definition empty : Queue := mkQueue [] [] [].

(** ** The abstraction *)

Definition abs (p : Pool) : Queue := mkQueue (held (dispatcher p) ++ jobs p) (running p) (finished p).

(** What an action of the pool is to a caller: a submission counts when it was answered
    [true]; one on a closed queue panics instead. *)
Definition event (a : Action) (p : Pool) : option Event :=
  match a with
  | ASubmit c job => if (Submit c job p).1 && negb (closed p) then Some (Accept job) else None
  | ASubmitBlocking c job =>
      match SubmitBlocking c job p with
      | Some (true, _) => if closed p then None else Some (Accept job)
      | _ => None
      end
  | AStartJob => match dispatcher p with Holding job => Some (Begin job) | _ => None end
  | AFinish i => Complete <$> (running p !! i)
  | AReceive | AExitClosed | AExitCancelled | ACancel | AClose => None
  end.

Fixpoint events (l : list Action) (p : Pool) : list Event :=
  match l with
  | [] => []
  | a :: l' =>
      option_list (event a p) ++ match act a p with Some p' => events l' p' | None => [] end
  end.

(** ** The simulation *)

Definition simulated (c : Config) (e : option Event) (p p' : Pool) : Prop :=
  match e with Some e => queue_step c e (abs p) (abs p') | None => abs p' = abs p end.

Lemma send_simulated c job p :
  inv c p -> send_ready p = true -> simulated c (if closed p then None else Some (Accept job)) p (send job p).
Proof.
  intros [Hc Hq _ _ _ _ _] Hs. unfold send. destruct (closed p) eqn:Hcl; [done|]. unfold send_ready, can_send in Hs.
  rewrite Hcl, Hc in Hs. rewrite Hc. cbn [orb] in Hs. destruct (QueueSize c =? 0) eqn:H0; bool_to_prop.
  - destruct (Z.of_nat (length (jobs p)) <? QueueSize c) eqn:Hlt; bool_to_prop; [lia|]. cbn [orb andb] in Hs.
    assert (jobs p = []) as Hj by (apply nil_length_inv; lia). destruct (dispatcher p) eqn:Hd; try done.
    unfold simulated, abs. cbn [dispatcher jobs running finished held]. rewrite Hd, Hj. apply (QAccept c job []). simpl. lia.
  - rewrite orb_false_r in Hs. bool_to_prop. unfold simulated, abs. cbn [dispatcher jobs running finished]. rewrite app_assoc.
    apply QAccept. rewrite length_app. destruct (dispatcher p); simpl; lia.
Qed.

Lemma act_simulated c a p p' : inv c p -> act a p = Some p' -> simulated c (event a p) p p'.
Proof.
  intros Hinv Ha. unfold act in Ha. destruct (crashed p); [done|]. destruct a as [cl job|cl job| | |i| | | |]; cbn [event].
  - injection Ha as <-. pose proof (send_simulated c job p Hinv) as Hs. unfold Submit.
    destruct (err_first cl); [done|]. destruct (send_ready p); [|done]. specialize (Hs eq_refl).
    destruct (done_later cl); [destruct (picks_send cl); [|done]|]; cbn [andb fst snd]; by destruct (closed p).
  - pose proof (send_simulated c job p Hinv) as Hs. unfold SubmitBlocking in *. destruct (err_first cl); [by simplify_eq/=|].
    destruct (send_ready p); [specialize (Hs eq_refl)|]; destruct (done_later cl); try destruct (picks_send cl); simplify_eq/=; done.
  - destruct (dispatcher p) eqn:Hd; try done. destruct (jobs p) eqn:Hj; [done|]. injection Ha as <-. unfold simulated, abs. simpl. by rewrite Hd, Hj.
  - destruct (dispatcher p) as [| |job|] eqn:Hd; try done. destruct (_ <? _) eqn:Hlt; [|done]. bool_to_prop. injection Ha as <-.
    unfold simulated, abs. simpl. rewrite Hd. rewrite (inv_cfg c p Hinv) in Hlt. by apply QBegin.
  - destruct (running p !! i) as [job|] eqn:Hi; [|done]. injection Ha as <-. unfold simulated, abs. cbn [fmap option_fmap option_map dispatcher jobs running finished].
    rewrite delete_take_drop. rewrite <- (take_drop_middle (running p) i job Hi) at 1. by apply QComplete.
  - destruct (dispatcher p) eqn:Hd; try done. destruct (jobs p) eqn:Hj; [|done]. destruct (closed p); [|done]. injection Ha as <-.
    unfold simulated, abs. simpl. by rewrite Hd.
  - destruct (dispatcher p) eqn:Hd; try done. destruct (cancelled p); [|done]. injection Ha as <-. unfold simulated, abs. simpl. by rewrite Hd.
  - by injection Ha as <-.
  - by injection Ha as <-.
Qed.

Lemma acts_simulated c l p p' : inv c p -> acts l p = Some p' -> queue_run c (events l p) (abs p) (abs p').
Proof.
  revert p. induction l as [|a l IH]; intros p Hinv; cbn [acts events]; [intros [= <-]; constructor|].
  destruct (act a p) as [p1|] eqn:Ha; [|done]. cbn [mbind option_bind]. intros Hl.
  pose proof (act_simulated c a p p1 Hinv Ha) as Hs. pose proof (IH p1 (act_inv c a p p1 Hinv Ha) Hl) as Hrun.
  destruct (event a p) as [e|]; cbn [option_list app simulated] in *; [by econstructor|]. by rewrite <- Hs.
Qed.

Lemma start_inv c p0 : NewPool c = Some p0 -> inv c (Start p0) /\ abs (Start p0) = empty.
Proof.
  intros Hn. split; [apply reachable_inv; exists p0; split; [done|constructor]|].
  unfold NewPool in Hn. destruct (_ || _); [done|]. by injection Hn as <-.
Qed.

(** C23: the pool refines a bounded queue.  Whatever callers, cancellation, Stop and the
    goroutines do and in whatever order, what a caller can see of it (submissions answered
    [true], jobs that begin, jobs that complete) is a run of the abstract queue: jobs are
    accepted only while at most QueueSize others wait, begin in the order they were
    accepted, only while fewer than Concurrency are active, and complete once. *)
Theorem pool_refines_queue c l p :
  run_pool c l = Some p ->
  exists p0, NewPool c = Some p0 /\ queue_run c (events l (Start p0)) empty (abs p).
Proof.
  unfold run_pool. destruct (NewPool c) as [p0|] eqn:Hn; [|done]. cbn [mbind option_bind]. intros Hl. exists p0. split; [done|].
  destruct (start_inv c p0 Hn) as [Hinv <-]. by apply acts_simulated.
Qed.

Lemma pool_refines_queue_witness :
  exists p0, NewPool small_config = Some p0 /\ queue_run small_config (events busy (Start p0)) empty (abs busy_pool).
Proof. apply (pool_refines_queue small_config busy busy_pool). vm_compute. reflexivity. Defined.

(** Three jobs are accepted; the first completes and the second begins. *)
Example busy_events :
  match NewPool small_config with
  | Some p0 => events busy (Start p0)
  | None => []
  end = [Accept (job_named "a"); Begin (job_named "a"); Accept (job_named "b"); Accept (job_named "c");
         Complete (job_named "a"); Begin (job_named "b")].
Proof. vm_compute. reflexivity. Qed.

End PoolSpec.
