(* ===== verification/Calendar.v ===== *)
(** * The calendar of package time, in UTC

    Year, month, day, weekday, hour and minute of an instant (nanoseconds since the Unix
    epoch), [time.Date] with its normalisation, and the facts about them that skipping to
    the next month, day or hour relies on.  The calendar is the proleptic Gregorian one,
    counted in days since January 1 of year 1, a Monday. *)

From S2P Require Import Prelude.

Definition Day : Z := 24 * Hour.

Definition is_leap (y : Z) : bool :=
  (y mod 4 =? 0) && (negb (y mod 100 =? 0) || (y mod 400 =? 0)).

(** Days from January 1 of year 1 to January 1 of year [y]. *)
Definition days_before_year (y : Z) : Z :=
  let n := y - 1 in 365 * n + n / 4 - n / 100 + n / 400.

(** The year of a day: an estimate from the mean year, corrected by one. *)
Definition year_of (d : Z) : Z :=
  let y := 400 * d / 146097 + 1 in
  if d <? days_before_year y then y - 1
  else if days_before_year (y + 1) <=? d then y + 1 else y.

(** Days of the year before the first of month [m]; [m = 13] is the end of the year. *)
Definition days_before_month (leap : bool) (m : Z) : Z :=
  let l := if leap then 1 else 0 in
  match m with
  | 1 => 0 | 2 => 31 | 3 => 59 + l | 4 => 90 + l | 5 => 120 + l | 6 => 151 + l | 7 => 181 + l
  | 8 => 212 + l | 9 => 243 + l | 10 => 273 + l | 11 => 304 + l | 12 => 334 + l | _ => 365 + l
  end.

(** The month of day [yday] (from 0) of a year. *)
Definition month_of (leap : bool) (yday : Z) : Z :=
  let before m := yday <? days_before_month leap m in
  if before 2 then 1 else if before 3 then 2 else if before 4 then 3 else if before 5 then 4
  else if before 6 then 5 else if before 7 then 6 else if before 8 then 7 else if before 9 then 8
  else if before 10 then 9 else if before 11 then 10 else if before 12 then 11 else 12.

(** ** The fields of an instant *)

Definition days (t : Z) : Z := (t - zero_time) / Day.
Definition Year (t : Z) : Z := year_of (days t).
Definition yday (t : Z) : Z := days t - days_before_year (Year t).
Definition Month (t : Z) : Z := month_of (is_leap (Year t)) (yday t).
Definition DayOfMonth (t : Z) : Z := yday t - days_before_month (is_leap (Year t)) (Month t) + 1.
Definition Weekday (t : Z) : Z := (days t + 1) mod 7.
Definition HourOf (t : Z) : Z := (t - zero_time) / Hour mod 24.
Definition MinuteOf (t : Z) : Z := (t - zero_time) / Minute mod 60.

(** [time.Date(year, month, day, hour, 0, 0, 0, UTC)]: a month, day or hour outside its
    range carries over. *)
Definition Date (year month day hour : Z) : Z :=
  let y := year + (month - 1) / 12 in
  let m := (month - 1) mod 12 + 1 in
  zero_time + (days_before_year y + days_before_month (is_leap y) m + (day - 1)) * Day + hour * Hour.

(** [t.Truncate(time.Minute)]. *)
Definition truncate_minute (t : Z) : Z := zero_time + (t - zero_time) / Minute * Minute.

(** ** Years *)

Lemma days_before_year_next y : days_before_year (y + 1) = days_before_year y + 365 + (if is_leap y then 1 else 0).
Proof.
  unfold days_before_year, is_leap. replace (y + 1 - 1) with y by lia.
  destruct (y mod 4 =? 0) eqn:H4, (y mod 100 =? 0) eqn:H100, (y mod 400 =? 0) eqn:H400; simpl;
    rewrite ?Z.eqb_eq, ?Z.eqb_neq in *; Z.to_euclidean_division_equations; lia.
Qed.

Lemma year_of_spec d : days_before_year (year_of d) <= d < days_before_year (year_of d + 1).
Proof.
  unfold year_of. set (y := 400 * d / 146097 + 1).
  assert (days_before_year (y - 1) <= d < days_before_year (y + 2)).
  { unfold days_before_year, y. Z.to_euclidean_division_equations. lia. }
  destruct (d <? days_before_year y) eqn:H1; bool_to_prop; [replace (y - 1 + 1) with y by lia; lia|].
  destruct (days_before_year (y + 1) <=? d) eqn:H2; bool_to_prop; [|lia].
  replace (y + 1 + 1) with (y + 2) by lia. lia.
Qed.

Lemma days_before_year_mono y1 y2 : y1 <= y2 -> days_before_year y1 <= days_before_year y2.
Proof. intros H. unfold days_before_year. Z.to_euclidean_division_equations. lia. Qed.

Lemma year_of_unique d y : days_before_year y <= d < days_before_year (y + 1) -> year_of d = y.
Proof.
  intros Hd. pose proof (year_of_spec d) as Hs.
  destruct (Z.lt_trichotomy (year_of d) y) as [H|[H|H]]; [|done|].
  - pose proof (days_before_year_mono (year_of d + 1) y ltac:(lia)). lia.
  - pose proof (days_before_year_mono (y + 1) (year_of d) ltac:(lia)). lia.
Qed.

(** ** Months *)

Definition year_length (leap : bool) : Z := 365 + (if leap then 1 else 0).

Lemma month_of_spec leap d :
  0 <= d < year_length leap ->
  let m := month_of leap d in
  1 <= m <= 12 /\ days_before_month leap m <= d < days_before_month leap (m + 1).
Proof.
  intros Hd m. subst m. unfold year_length in Hd. unfold month_of. cbv zeta. destruct leap;
    repeat match goal with |- context [if ?b then _ else _] => destruct b eqn:? end; bool_to_prop; simpl in *; lia.
Qed.

Lemma month_of_unique leap d m :
  1 <= m <= 12 -> days_before_month leap m <= d < days_before_month leap (m + 1) -> month_of leap d = m.
Proof.
  intros Hm Hd. assert (m ∈ seqZ 1 12) as Hin by (apply elem_of_seqZ; lia).
  repeat (apply elem_of_cons in Hin as [->|Hin]); [..|by apply elem_of_nil in Hin];
    unfold month_of; destruct leap; simpl in *;
    repeat match goal with |- context [if ?b then _ else _] => destruct b eqn:? end; bool_to_prop; lia.
Qed.

Lemma yday_range t : 0 <= yday t < year_length (is_leap (Year t)).
Proof.
  unfold yday, Year, year_length. pose proof (year_of_spec (days t)) as H. rewrite days_before_year_next in H.
  destruct (is_leap _); lia.
Qed.

Lemma Month_range t : 1 <= Month t <= 12.
Proof. apply (month_of_spec (is_leap (Year t)) (yday t)), yday_range. Qed.

(** Instants of one month. *)
Lemma Month_same t y m :
  1 <= m <= 12 ->
  days_before_year y + days_before_month (is_leap y) m <= days t < days_before_year y + days_before_month (is_leap y) (m + 1) ->
  Year t = y /\ Month t = m.
Proof.
  intros Hm Hd. assert (Year t = y) as Hy.
  { apply year_of_unique. rewrite days_before_year_next.
    assert (0 <= days_before_month (is_leap y) m /\ days_before_month (is_leap y) (m + 1) <= year_length (is_leap y)) as [H1 H2].
    { clear Hd. assert (m ∈ seqZ 1 12) as Hin by (apply elem_of_seqZ; lia).
      repeat (apply elem_of_cons in Hin as [->|Hin]); [..|by apply elem_of_nil in Hin];
        unfold year_length; destruct (is_leap y); simpl; lia. }
    unfold year_length in H2. destruct (is_leap y); lia. }
  split; [done|]. unfold Month. apply month_of_unique; [done|]. unfold yday. rewrite Hy. lia.
Qed.

Lemma Date_month y m day hour :
  1 <= m <= 12 -> Date y m day hour = zero_time + (days_before_year y + days_before_month (is_leap y) m + (day - 1)) * Day + hour * Hour.
Proof.
  intros Hm. unfold Date. rewrite Z.div_small, Z.mod_small by lia. replace (m - 1 + 1) with m by lia.
  by rewrite Z.add_0_r.
Qed.

Lemma Date_next_month y m :
  1 <= m <= 12 -> Date y (m + 1) 1 0 = zero_time + (days_before_year y + days_before_month (is_leap y) (m + 1)) * Day.
Proof.
  intros Hm. destruct (Z.eq_dec m 12) as [->|Hne].
  - unfold Date. change ((12 + 1 - 1) / 12) with 1. change ((12 + 1 - 1) mod 12 + 1) with 1.
    rewrite days_before_year_next. simpl days_before_month. destruct (is_leap y); lia.
  - rewrite Date_month by lia. lia.
Qed.

(** ** Skipping ahead *)

Lemma Day_pos : 0 < Day.
Proof. reflexivity. Qed.

Lemma days_spec t : zero_time + days t * Day <= t < zero_time + (days t + 1) * Day.
Proof. unfold days. pose proof (Z.div_mod (t - zero_time) Day ltac:(done)). pose proof (Z.mod_pos_bound (t - zero_time) Day Day_pos). lia. Qed.

Lemma days_lt t d : t < zero_time + d * Day -> days t < d.
Proof. intros H. unfold days. apply Z.div_lt_upper_bound; [apply Day_pos|]. lia. Qed.

Lemma days_mono t u : t <= u -> days t <= days u.
Proof. intros H. unfold days. apply Z.div_le_mono; [apply Day_pos|lia]. Qed.

Definition next_month (t : Z) : Z := Date (Year t) (Month t + 1) 1 0.
Definition next_day (t : Z) : Z := Date (Year t) (Month t) (DayOfMonth t + 1) 0.
Definition next_hour (t : Z) : Z := Date (Year t) (Month t) (DayOfMonth t) (HourOf t + 1).

Lemma month_days t :
  days_before_year (Year t) + days_before_month (is_leap (Year t)) (Month t) <= days t
    < days_before_year (Year t) + days_before_month (is_leap (Year t)) (Month t + 1).
Proof. pose proof (month_of_spec (is_leap (Year t)) (yday t) (yday_range t)) as [_ H]. fold (Month t) in H. unfold yday in H. lia. Qed.

Lemma next_month_spec t : t < next_month t /\ forall u, t <= u < next_month t -> Month u = Month t.
Proof.
  unfold next_month. pose proof (Month_range t) as Hm. pose proof (month_days t) as Hd. pose proof (days_spec t) as Ht.
  rewrite Date_next_month by done. pose proof Day_pos. split; [nia|].
  intros u [H1 H2]. apply days_lt in H2. apply days_mono in H1. apply (Month_same u (Year t) (Month t)); [done|lia].
Qed.

Lemma next_day_eq t : next_day t = zero_time + (days t + 1) * Day.
Proof.
  unfold next_day. rewrite Date_month by apply Month_range. unfold DayOfMonth, yday. lia.
Qed.

(** Instants of one day agree on every date field. *)
Lemma next_day_spec t :
  t < next_day t /\
  forall u, t <= u < next_day t -> Month u = Month t /\ DayOfMonth u = DayOfMonth t /\ Weekday u = Weekday t.
Proof.
  rewrite next_day_eq. pose proof (days_spec t) as Ht. split; [lia|]. intros u [H1 H2].
  apply days_lt in H2. apply days_mono in H1. assert (days u = days t) as Heq by lia.
  unfold DayOfMonth, Weekday, Month, yday, Year. by rewrite Heq.
Qed.

Lemma hours_of t : (t - zero_time) / Hour = 24 * days t + HourOf t.
Proof.
  unfold days, HourOf, Day. rewrite (Z.mul_comm 24 Hour), <- Z.div_div by done.
  pose proof (Z.div_mod ((t - zero_time) / Hour) 24). lia.
Qed.

Lemma next_hour_eq t : next_hour t = zero_time + ((t - zero_time) / Hour + 1) * Hour.
Proof.
  unfold next_hour. rewrite Date_month by apply Month_range. rewrite hours_of. unfold DayOfMonth, yday, Day. lia.
Qed.

Lemma next_hour_spec t : t < next_hour t /\ forall u, t <= u < next_hour t -> HourOf u = HourOf t.
Proof.
  rewrite next_hour_eq. assert (0 < Hour) as HH by done. pose proof (Z.div_mod (t - zero_time) Hour ltac:(done)).
  pose proof (Z.mod_pos_bound (t - zero_time) Hour HH). split; [lia|]. intros u [H1 H2].
  unfold HourOf. f_equal. assert ((t - zero_time) / Hour <= (u - zero_time) / Hour) by (apply Z.div_le_mono; lia).
  assert ((u - zero_time) / Hour < (t - zero_time) / Hour + 1) by (apply Z.div_lt_upper_bound; lia). lia.
Qed.

(** ** Whole minutes *)

Definition on_minute (t : Z) : Prop := (t - zero_time) mod Minute = 0.

Lemma on_minute_mult k : on_minute (zero_time + k * Minute).
Proof. unfold on_minute. replace (zero_time + k * Minute - zero_time) with (k * Minute) by lia. apply Z.mod_mul. done. Qed.

Lemma next_on_minute t : on_minute (next_month t) /\ on_minute (next_day t) /\ on_minute (next_hour t).
Proof.
  unfold next_month. rewrite Date_next_month, next_day_eq, next_hour_eq by apply Month_range.
  split_and!; [set (k := days_before_year _ + _)|set (k := days t + 1)|set (k := _ / Hour + 1)].
  - replace (k * Day) with (k * 1440 * Minute) by (unfold Day, Hour; ring). apply on_minute_mult.
  - replace (k * Day) with (k * 1440 * Minute) by (unfold Day, Hour; ring). apply on_minute_mult.
  - replace (k * Hour) with (k * 60 * Minute) by (unfold Hour; ring). apply on_minute_mult.
Qed.

(** The first whole minute after an instant. *)
Lemma first_minute_spec t :
  let s := truncate_minute (t + Minute) in
  on_minute s /\ t < s <= t + Minute /\ forall u, on_minute u -> t < u -> s <= u.
Proof.
  unfold truncate_minute. assert (0 < Minute) as HM by done. set (k := (t + Minute - zero_time) / Minute).
  pose proof (Z.div_mod (t + Minute - zero_time) Minute ltac:(done)) as Hdm. fold k in Hdm.
  pose proof (Z.mod_pos_bound (t + Minute - zero_time) Minute HM). split_and!; [apply on_minute_mult|lia|lia|].
  intros u Hu Htu. unfold on_minute in Hu. pose proof (Z.div_mod (u - zero_time) Minute ltac:(done)) as Hu'. rewrite Hu in Hu'.
  assert (k - 1 < (u - zero_time) / Minute) as Hlt; [|nia]. apply (Z.mul_lt_mono_pos_l Minute); [done|]. lia.
Qed.

Lemma next_minute_spec t u : on_minute t -> on_minute u -> t < u -> t + Minute <= u.
Proof.
  unfold on_minute. intros Ht Hu Hlt. assert (0 < Minute) as HM by done.
  pose proof (Z.div_mod (t - zero_time) Minute ltac:(done)). pose proof (Z.div_mod (u - zero_time) Minute ltac:(done)).
  rewrite Ht in *. rewrite Hu in *. assert ((t - zero_time) / Minute < (u - zero_time) / Minute); nia.
Qed.
