(* ===== verification/Cron.v ===== *)
(** * internal/scheduler: cron expressions

    parseCron and parseField with the arrays they build, and Next.  An array write out of
    range would panic: it is [None] here, and no input reaches it.  Instants are in UTC. *)

From S2P Require Import Prelude GoLib Calendar.

(** ** parseField *)

Definition star : string := "*".
Definition star_slash : string := "*/".

(** [result[i] = true]. *)
Definition set_bit (i : Z) (bits : list bool) : option (list bool) :=
  if (0 <=? i) && (i <? Z.of_nat (length bits)) then Some (<[Z.to_nat i := true]> bits) else None.

(** [for i := from; i <= last; i += step]; [fuel] bounds the iterations. *)
Fixpoint set_from (fuel : nat) (i step last : Z) (bits : list bool) : option (list bool) :=
  match fuel with
  | O => Some bits
  | S fuel' =>
      if i <=? last then bits' ← set_bit i bits; set_from fuel' (i + step) step last bits'
      else Some bits
  end.

Definition set_range (i step last : Z) (bits : list bool) : option (list bool) :=
  set_from (S (Z.to_nat (last - i + 1))) i step last bits.

Definition invalid (what part : string) : error := Errorf (what +:+ Quote part) [].

Definition invalid_value (part : string) (min max : Z) : error :=
  Errorf ("invalid value " +:+ Quote part +:+ " (allowed " +:+ Itoa min +:+ "–" +:+ Itoa max +:+ ")") [].

(** One comma-separated part, already trimmed. *)
Definition parsePart (part : string) (min max : Z) (bits : list bool) : option (res (list bool) error) :=
  if String.eqb part star then Some (Ok (replicate (length bits) true))
  else if String.prefix star_slash part then
    match Atoi (String.substring 2 (String.length part - 2) part) with
    | Some n =>
        if n <=? 0 then Some (Err (invalid "invalid step " part))
        else bits' ← set_range 0 n (max - min) bits; Some (Ok bits')
    | None => Some (Err (invalid "invalid step " part))
    end
  else match SplitN2 "-"%char part with
  | (a, Some b) =>
      match Atoi a, Atoi b with
      | Some lo, Some hi =>
          if (lo <? min) || (max <? hi) || (hi <? lo) then Some (Err (invalid "invalid range " part))
          else bits' ← set_range (lo - min) 1 (hi - min) bits; Some (Ok bits')
      | _, _ => Some (Err (invalid "invalid range " part))
      end
  | (_, None) =>
      match Atoi part with
      | Some n =>
          if (n <? min) || (max <? n) then Some (Err (invalid_value part min max))
          else bits' ← set_bit (n - min) bits; Some (Ok bits')
      | None => Some (Err (invalid_value part min max))
      end
  end.

Fixpoint parseParts (parts : list string) (min max : Z) (bits : list bool) : option (res (list bool) error) :=
  match parts with
  | [] => Some (Ok bits)
  | part :: parts' =>
      r ← parsePart (TrimSpace part) min max bits;
      match r with
      | Err e => Some (Err e)
      | Ok bits' => parseParts parts' min max bits'
      end
  end.

Definition parseField (expr : string) (min max : Z) : option (res (list bool) error) :=
  parseParts (Split ","%char expr) min max (replicate (Z.to_nat (max - min + 1)) false).

(** ** parseCron *)

Record cronSchedule := mkCron {
  minutes : list bool;
  hours : list bool;
  doms : list bool;
  months : list bool;
  dows : list bool;
}.

Definition field (name : string) (expr : string) (min max : Z) (k : list bool -> option (res cronSchedule error)) :
    option (res cronSchedule error) :=
  r ← parseField expr min max;
  match r with
  | Err e => Some (Err (wrapf name e))
  | Ok bits => k bits
  end.

Definition parseCron (expr : string) : option (res cronSchedule error) :=
  match Fields expr with
  | [f0; f1; f2; f3; f4] =>
      field "minute: " f0 0 59 (fun mi =>
      field "hour: " f1 0 23 (fun ho =>
      field "day-of-month: " f2 1 31 (fun dm =>
      field "month: " f3 1 12 (fun mo =>
      field "day-of-week: " f4 0 6 (fun dw =>
      Some (Ok (mkCron mi ho dm mo dw)))))))
  | fs => Some (Err (Errorf ("expected 5 fields, got " +:+ Itoa (Z.of_nat (length fs))) []))
  end.

(** ** What the bits mean *)

(** The trimmed part selects the value [v]. *)
Inductive selects (min max : Z) (v : Z) : string -> Prop :=
| SelAll : selects min max v star
| SelStep part n :
    part <> star -> String.prefix star_slash part = true ->
    Atoi (String.substring 2 (String.length part - 2) part) = Some n -> 0 < n -> (v - min) mod n = 0 ->
    selects min max v part
| SelRange part a b lo hi :
    part <> star -> String.prefix star_slash part = false ->
    SplitN2 "-"%char part = (a, Some b) -> Atoi a = Some lo -> Atoi b = Some hi ->
    min <= lo -> hi <= max -> lo <= v <= hi -> selects min max v part
| SelValue part a :
    part <> star -> String.prefix star_slash part = false ->
    SplitN2 "-"%char part = (a, None) -> Atoi part = Some v -> selects min max v part.

Definition bit (bits : list bool) (i : Z) : Prop := bits !! Z.to_nat i = Some true.

Lemma set_bit_spec i bits :
  0 <= i < Z.of_nat (length bits) ->
  exists bits', set_bit i bits = Some bits' /\ length bits' = length bits /\
    forall j, 0 <= j -> (bit bits' j <-> bit bits j \/ j = i).
Proof.
  intros Hi. unfold set_bit. rewrite (proj2 (Z.leb_le _ _)), (proj2 (Z.ltb_lt _ _)) by lia. simpl.
  eexists. split; [done|]. split; [apply length_insert|]. intros j Hj. unfold bit.
  destruct (decide (i = j)) as [->|Hne].
  - rewrite list_lookup_insert_eq by lia. naive_solver.
  - rewrite list_lookup_insert_ne by lia. naive_solver.
Qed.

Lemma set_range_spec i step last bits :
  0 <= i -> 0 < step -> last < Z.of_nat (length bits) ->
  exists bits', set_range i step last bits = Some bits' /\ length bits' = length bits /\
    forall j, 0 <= j -> (bit bits' j <-> bit bits j \/ (i <= j <= last /\ (j - i) mod step = 0)).
Proof.
  intros Hi Hs Hl. unfold set_range.
  assert (forall fuel i bits, 0 <= i -> last < Z.of_nat (length bits) -> last - i + 1 < Z.of_nat fuel ->
    exists bits', set_from fuel i step last bits = Some bits' /\ length bits' = length bits /\
    forall j, 0 <= j -> (bit bits' j <-> bit bits j \/ (i <= j <= last /\ (j - i) mod step = 0))) as H; [|apply H; lia].
  clear i bits Hi Hl. induction fuel as [|fuel IH]; intros i bits Hi Hl Hf; cbn [set_from].
  { exists bits. split_and!; [done..|]. intros j _. split; [by left|]. intros [?|[? _]]; [done|lia]. }
  destruct (i <=? last) eqn:Hc; bool_to_prop.
  2:{ exists bits. split_and!; [done..|]. intros j _. split; [by left|]. intros [?|[? _]]; [done|lia]. }
  destruct (set_bit_spec i bits) as (b1 & -> & Hlen1 & Hb1); [lia|]. simpl.
  destruct (IH (i + step) b1) as (b2 & -> & Hlen2 & Hb2); [lia|lia|lia|]. exists b2. split; [done|]. split; [lia|].
  intros j Hj. rewrite Hb2, Hb1 by done. replace (j - i) with (j - (i + step) + 1 * step) by lia.
  rewrite Z.mod_add by lia. split.
  - intros [[?| ->]|[? Hm]]; [by left| |right; split; [lia|done]].
    right. split; [lia|]. replace (i - (i + step)) with ((-1) * step) by lia. apply Z.mod_mul. lia.
  - intros [?|[Hr Hm]]; [by left; left|]. destruct (Z.eq_dec j i) as [->|Hne]; [by left; right|]. right. split; [|done].
    apply Z.mod_divide in Hm as [q Hq]; [|lia].
    assert (0 < (q + 1) * step) by lia. assert (0 < q + 1) by nia. nia.
Qed.

Lemma parsePart_spec part min max bits :
  min <= max -> Z.of_nat (length bits) = max - min + 1 ->
  (exists e, parsePart part min max bits = Some (Err e)) \/
  (exists bits', parsePart part min max bits = Some (Ok bits') /\ length bits' = length bits /\
     (exists v, min <= v <= max /\ selects min max v part) /\
     forall v, min <= v <= max -> (bit bits' (v - min) <-> bit bits (v - min) \/ selects min max v part)).
Proof.
  intros Hmm Hlen. unfold parsePart. destruct (String.eqb part star) eqn:Hs; bool_to_prop.
  { subst. right. eexists. split; [done|]. split; [apply length_replicate|]. split; [exists min; split; [lia|constructor]|].
    intros v Hv. split; [right; constructor|]. intros _. unfold bit. apply lookup_replicate. split; [done|lia]. }
  destruct (String.prefix star_slash part) eqn:Hp.
  { destruct (Atoi _) as [n|] eqn:Hn; [|left; eauto]. destruct (n <=? 0) eqn:Hn0; bool_to_prop; [left; eauto|].
    destruct (set_range_spec 0 n (max - min) bits) as (b & -> & Hl & Hb); [lia|lia|lia|]. right. exists b.
    split_and!; [done|done|exists min; split; [lia|]; apply (SelStep _ _ _ _ n); auto; by rewrite Z.sub_diag|].
    intros v Hv. rewrite Hb by lia. rewrite Z.sub_0_r. split.
    - intros [?|[_ ?]]; [by left|right]. by apply (SelStep _ _ _ _ n).
    - intros [?|Hsel]; [by left|]. right. split; [lia|]. inversion Hsel; simplify_eq; try congruence; done. }
  destruct (SplitN2 "-"%char part) as [a [b|]] eqn:Hsp.
  - destruct (Atoi a) as [lo|] eqn:Ha; [|left; eauto]. destruct (Atoi b) as [hi|] eqn:Hb; [|left; eauto].
    destruct ((lo <? min) || (max <? hi) || (hi <? lo)) eqn:Hc; bool_to_prop; [left; eauto|].
    destruct (set_range_spec (lo - min) 1 (hi - min) bits) as (b' & -> & Hl & Hbit); [lia|lia|lia|]. right. exists b'.
    split_and!; [done|done|exists lo; split; [lia|]; apply (SelRange _ _ _ _ a b lo hi); auto; lia|].
    intros v Hv. rewrite Hbit by lia. split.
    + intros [?|[? _]]; [by left|right]. apply (SelRange _ _ _ _ a b lo hi); auto; lia.
    + intros [?|Hsel]; [by left|]. right.
      inversion Hsel as [Heq|? n|? x y lo' hi' ? ? Hsp' Ha' Hb' ? ? ?|? x ? ? Hsp']; subst; try congruence.
      rewrite Hsp in Hsp'. injection Hsp' as <- <-. rewrite Ha in Ha'. rewrite Hb in Hb'. simplify_eq.
      split; [lia|apply Z.mod_1_r].
  - destruct (Atoi part) as [n|] eqn:Hn; [|left; eauto]. destruct ((n <? min) || (max <? n)) eqn:Hc; bool_to_prop; [left; eauto|].
    destruct (set_bit_spec (n - min) bits) as (b' & -> & Hl & Hbit); [lia|]. right. exists b'.
    split_and!; [done|done|exists n; split; [lia|]; by apply (SelValue _ _ _ _ a)|].
    intros v Hv. rewrite Hbit by lia. split.
    + intros [?|?]; [by left|right]. replace v with n by lia. by apply (SelValue _ _ _ _ a).
    + intros [?|Hsel]; [by left|]. right. inversion Hsel; simplify_eq; try congruence; lia.
Qed.

Lemma parseParts_spec parts min max bits :
  min <= max -> Z.of_nat (length bits) = max - min + 1 ->
  (exists e, parseParts parts min max bits = Some (Err e)) \/
  (exists bits', parseParts parts min max bits = Some (Ok bits') /\ length bits' = length bits /\
     (parts <> [] -> exists v, min <= v <= max /\ bit bits' (v - min)) /\
     forall v, min <= v <= max ->
       (bit bits' (v - min) <-> bit bits (v - min) \/ exists part, part ∈ parts /\ selects min max v (TrimSpace part))).
Proof.
  intros Hmm. revert bits. induction parts as [|part parts IH]; intros bits Hlen; cbn [parseParts].
  - right. exists bits. split_and!; [done|done|done|]. intros v Hv. split; [by left|].
    intros [?|(part & Hin%elem_of_nil & _)]; done.
  - destruct (parsePart_spec (TrimSpace part) min max bits Hmm Hlen) as [[e ->]|(b & -> & Hl & (v0 & Hv0 & Hsel0) & Hb)]; simpl; [left; eauto|].
    destruct (IH b) as [[e ->]|(b' & -> & Hl' & _ & Hb')]; [congruence|left; eauto|]. right. exists b'.
    split_and!; [done|congruence| |].
    + intros _. exists v0. split; [done|]. apply Hb'; [done|]. left. apply Hb; auto.
    + intros v Hv. rewrite Hb', Hb by done. setoid_rewrite elem_of_cons. naive_solver.
Qed.

(** C30: parseField never writes outside its array, and when it accepts an expression, the bit
    of a value is set exactly when one of the comma-separated parts selects it: a star
    selects every value, a step every n-th from the minimum, a range its bounds and what
    lies between, a number itself.  At least one value is selected. *)
Theorem parseField_meaning expr min max :
  min <= max ->
  (exists e, parseField expr min max = Some (Err e)) \/
  (exists bits, parseField expr min max = Some (Ok bits) /\ Z.of_nat (length bits) = max - min + 1 /\
     (exists v, min <= v <= max /\ bit bits (v - min)) /\
     forall v, min <= v <= max ->
       (bit bits (v - min) <-> exists part, part ∈ Split ","%char expr /\ selects min max v (TrimSpace part))).
Proof.
  intros Hmm. unfold parseField. pose proof (Split_nonempty ","%char expr) as Hne.
  destruct (parseParts_spec (Split ","%char expr) min max (replicate (Z.to_nat (max - min + 1)) false) Hmm) as [?|(bits & Hr & Hl & Hsome & Hb)].
  { rewrite length_replicate. lia. }
  { by left. }
  right. exists bits. split_and!; [done|rewrite Hl, length_replicate; lia|auto|].
  intros v Hv. rewrite Hb by done. split; [|by right]. intros [Hbit|?]; [|done].
  unfold bit in Hbit. by apply lookup_replicate in Hbit as [? _].
Qed.

Lemma parseField_meaning_witness :
  let expr := "5,*/20,30-32" in
  (exists e, parseField expr 0 59 = Some (Err e)) \/
  (exists bits, parseField expr 0 59 = Some (Ok bits) /\ Z.of_nat (length bits) = 59 - 0 + 1 /\
     (exists v, 0 <= v <= 59 /\ bit bits (v - 0)) /\
     forall v, 0 <= v <= 59 ->
       (bit bits (v - 0) <-> exists part, part ∈ Split ","%char expr /\ selects 0 59 v (TrimSpace part))).
Proof. intros expr. apply (parseField_meaning expr 0 59). lia. Defined.

(** An accepted schedule has arrays of the declared sizes. *)
Definition sized (c : cronSchedule) : Prop :=
  length (minutes c) = 60%nat /\ length (hours c) = 24%nat /\ length (doms c) = 31%nat /\ length (months c) = 12%nat /\ length (dows c) = 7%nat.

Lemma parseField_total expr min max :
  min <= max ->
  (exists e, parseField expr min max = Some (Err e)) \/
  (exists bits, parseField expr min max = Some (Ok bits) /\ length bits = Z.to_nat (max - min + 1)).
Proof.
  intros Hmm. unfold parseField.
  destruct (parseParts_spec (Split ","%char expr) min max (replicate (Z.to_nat (max - min + 1)) false) Hmm) as [?|(bits & Hr & Hl & _)].
  - rewrite length_replicate. lia.
  - by left.
  - right. exists bits. by rewrite length_replicate in Hl.
Qed.

Lemma parseCron_total expr :
  (exists e, parseCron expr = Some (Err e)) \/ (exists c, parseCron expr = Some (Ok c) /\ sized c).
Proof.
  unfold parseCron. destruct (Fields expr) as [|f0 [|f1 [|f2 [|f3 [|f4 [|f5 fs]]]]]]; try by left; eexists.
  unfold field. do 5 (match goal with |- context [parseField ?f ?a ?b] =>
    destruct (parseField_total f a b ltac:(lia)) as [[? ->]|(? & -> & ?)]; cbn -[wrapf]; [by left; eexists|] end).
  right. eexists. split; [done|]. split_and!; done.
Qed.

(** ** Next *)

(** [bits[i]] for an index in range. *)
Definition read (bits : list bool) (i : Z) : bool := default false (bits !! Z.to_nat i).

(** One iteration of the loop: the next [t], or the result. *)
Definition next_step (c : cronSchedule) (limit t : Z) : Z + option Z :=
  if negb (t <? limit) then inr None
  else if negb (read (months c) (Month t - 1)) then inl (next_month t)
  else if (31 <? DayOfMonth t) || negb (read (doms c) (DayOfMonth t - 1)) || negb (read (dows c) (Weekday t))
  then inl (next_day t)
  else if negb (read (hours c) (HourOf t)) then inl (next_hour t)
  else if negb (read (minutes c) (MinuteOf t)) then inl (t + Minute)
  else inr (Some t).

Definition four_years : Z := 4 * 365 * 24 * Hour.

(** There are 2102400 minutes in four years. *)
Definition Next (c : cronSchedule) (from : Z) : Z :=
  match until (next_step c (from + four_years)) 2102401 (truncate_minute (from + Minute)) with
  | inr (Some t) => t
  | _ => zero_time
  end.

(** The schedule is due at [t]. *)
Definition fires (c : cronSchedule) (t : Z) : Prop :=
  on_minute t /\ read (months c) (Month t - 1) = true /\ DayOfMonth t <= 31 /\
  read (doms c) (DayOfMonth t - 1) = true /\ read (dows c) (Weekday t) = true /\
  read (hours c) (HourOf t) = true /\ read (minutes c) (MinuteOf t) = true.

(** Every iteration that continues moves to a later whole minute and skips none that is
    due. *)
Lemma next_step_skips c limit t :
  on_minute t ->
  match next_step c limit t with
  | inl t' => t < limit /\ on_minute t' /\ t + Minute <= t' /\ forall u, t <= u < t' -> ~ fires c u
  | inr (Some t') => t' = t /\ t < limit /\ fires c t
  | inr None => limit <= t
  end.
Proof.
  intros Ht. unfold next_step.
  destruct (next_on_minute t) as (Hm & Hd & Hh).
  destruct (t <? limit) eqn:Hlim; bool_to_prop; cbn [negb]; [|done].
  destruct (read (months c) (Month t - 1)) eqn:Hmon; cbn [negb].
  2:{ destruct (next_month_spec t) as [Hlt Hsame]. split_and!; [done|done|by apply next_minute_spec|].
      intros u Hu (_ & Hu' & _). rewrite (Hsame u Hu) in Hu'. congruence. }
  destruct ((31 <? DayOfMonth t) || negb (read (doms c) (DayOfMonth t - 1)) || negb (read (dows c) (Weekday t))) eqn:Hday.
  { destruct (next_day_spec t) as [Hlt Hsame]. split_and!; [done|done|by apply next_minute_spec|].
    intros u Hu (_ & _ & H31 & Hdom & Hdow & _). destruct (Hsame u Hu) as (_ & Hdm & Hwd). rewrite Hdm in *. rewrite Hwd in *.
    rewrite Hdom, Hdow, !orb_false_r in Hday. bool_to_prop. lia. }
  bool_to_prop. destruct (read (hours c) (HourOf t)) eqn:Hhour; cbn [negb].
  2:{ destruct (next_hour_spec t) as [Hlt Hsame]. split_and!; [done|done|by apply next_minute_spec|].
      intros u Hu (_ & _ & _ & _ & _ & Hu' & _). rewrite (Hsame u Hu) in Hu'. congruence. }
  destruct (read (minutes c) (MinuteOf t)) eqn:Hmin; cbn [negb].
  - split_and!; [done|done|]. unfold fires. split_and!; done.
  - assert (on_minute (t + Minute)) as Hnext.
    { unfold on_minute in *. replace (t + Minute - zero_time) with (t - zero_time + 1 * Minute) by lia. by rewrite Z.mod_add. }
    split_and!; [done|done|lia|]. intros u Hu Hf. destruct (Z.eq_dec u t) as [->|Hne].
    + destruct Hf as (_ & _ & _ & _ & _ & _ & Hf). congruence.
    + destruct Hf as [Hu' _]. pose proof (next_minute_spec t u Ht Hu' ltac:(lia)). lia.
Qed.

(** What the search finds: the first due minute strictly after [from], within four years. *)
Definition earliest (c : cronSchedule) (from : Z) (r : option Z) : Prop :=
  match r with
  | Some t => from < t < from + four_years /\ fires c t /\ forall u, from < u < t -> ~ fires c u
  | None => forall u, from < u < from + four_years -> ~ fires c u
  end.

Lemma search_earliest c from :
  exists r, until (next_step c (from + four_years)) 2102401 (truncate_minute (from + Minute)) = inr r /\ earliest c from r.
Proof.
  set (limit := from + four_years). destruct (first_minute_spec from) as (Hs & [Hs1 Hs2] & Hs3).
  set (s := truncate_minute (from + Minute)) in *. assert (0 < Minute) as HM by done.
  set (mu := fun t => (limit - t + Minute - 1) / Minute).
  apply (until_result (next_step c limit) (fun t => on_minute t /\ from < t /\ forall u, from < u < t -> ~ fires c u) (earliest c from) mu).
  - intros t (Ht & Hft & Hno). pose proof (next_step_skips c limit t Ht) as Hstep.
    destruct (next_step c limit t) as [t'|[t'|]]; cbn [earliest].
    + destruct Hstep as (Hlim & Ht' & Hle & Hskip). split_and!; [done|lia| | |].
      * intros u Hu. destruct (Z.lt_ge_cases u t) as [Hlt|Hge]; [apply Hno; lia|apply Hskip; lia].
      * unfold mu. pose proof (Z.div_le_mono (limit - t' + Minute - 1) (limit - t + Minute - 1 + (-1) * Minute) Minute HM ltac:(lia)) as Hdiv.
        rewrite Z.div_add in Hdiv by done. lia.
      * unfold mu. apply Z.div_str_pos. lia.
    + destruct Hstep as (-> & Hlim & Hf). fold limit. split_and!; [lia|lia|done|done].
    + fold limit. intros u Hu. apply Hno. lia.
  - split_and!; [done|done|]. intros u Hu [Hum _]. specialize (Hs3 u Hum ltac:(lia)). lia.
  - unfold mu, limit. apply Z.div_lt_upper_bound; [done|]. unfold four_years, Hour. lia.
Qed.

(** C29: Next finds the earliest due minute.  For every schedule and every instant it ends, with
    the first whole minute strictly after [from] whose month, day of month, weekday, hour
    and minute are all selected, when there is one within four years, and with the zero
    time when there is none. *)
Theorem cron_next_earliest c from :
  (exists t, Next c from = t /\ from < t < from + four_years /\ fires c t /\ forall u, from < u < t -> ~ fires c u) \/
  (Next c from = zero_time /\ forall u, from < u < from + four_years -> ~ fires c u).
Proof. unfold Next. destruct (search_earliest c from) as ([t|] & -> & H); [left; by exists t|by right]. Qed.

(** For an instant of our era: whether Next is set and not after [now]. *)
Lemma Next_due c from now :
  zero_time <= from ->
  (Next c from <> zero_time /\ Next c from <= now <-> exists t, from < t <= now /\ t < from + four_years /\ fires c t).
Proof.
  intros Hz. unfold Next. destruct (search_earliest c from) as ([t|] & -> & H); cbn [earliest] in H.
  - destruct H as (Ht & Hf & Hno). split; [intros [_ Hn]; exists t; split_and!; done || lia|].
    intros (u & Hu & Hlim & Hfu). split; [lia|]. destruct (Z.lt_ge_cases u t); [|lia]. exfalso. apply (Hno u); [lia|done].
  - split; [intros [? _]; done|]. intros (u & Hu & Hlim & Hfu). exfalso. apply (H u); [lia|done].
Qed.

Lemma Next_after c from : zero_time <= from -> Next c from <> zero_time -> from < Next c from /\ fires c (Next c from).
Proof.
  intros Hz. unfold Next. destruct (search_earliest c from) as ([t|] & -> & H); [|done]. cbn [earliest] in H. intros _.
  split; [lia|apply H].
Qed.

(** Midnight on the first of March. *)
Definition march_first : cronSchedule :=
  match parseCron "0 0 1 3 *" with Some (Ok c) => c | _ => mkCron [] [] [] [] [] end.

(** From 14 November 2023, 22:13:20, the next one is 1 March 2024. *)
Example march_first_next : Next march_first (1700000000 * Second) = 1709251200 * Second.
Proof. vm_compute. reflexivity. Qed.
