(* ===== verification/Scheduler.v ===== *)
(** * internal/scheduler: Scheduler

    New, Register, Start, Stop, the tick loop and dispatch.  First dispatch on its own, then
    everything at once as a transition system: the callers of Register, Start and Stop, the
    loop goroutines and the goroutines of the fired entries.  One action is what happens
    under one hold of the mutex, or one operation on the WaitGroup or a channel.  A handler
    is the caller's code: here what it answers for a job. *)

From S2P Require Import Prelude GoLib Models Calendar Cron.

Module Scheduler.

Definition JobFunc : Type := Job -> option error.

Record Entry := mkEntry {
  Name : string;
  CronExpr : string;
  EntryJob : Job;
  Handler : option JobFunc;
  Enabled : bool;
}.

(** [cancel] holds the number of the context it cancels. *)
Record Scheduler := mkScheduler {
  entries : gmap string Entry;
  schedules : gmap string cronSchedule;
  lastRun : gmap string Z;
  tickInterval : Z;
  running : bool;
  cancel : option nat;
  wg : Z;
}.

Definition New (tick : Z) : Scheduler :=
  mkScheduler ∅ ∅ ∅ (if tick <=? 0 then Minute else tick) false None 0.

(** Register: the error it returns, if any, and the scheduler after it. *)
Definition Register (entry : Entry) (s : Scheduler) : option (option error * Scheduler) :=
  if String.eqb (Name entry) "" then Some (Some (Errorf "scheduler: entry name is required" []), s)
  else
    r ← parseCron (CronExpr entry);
    match r with
    | Err e => Some (Some (wrapf ("scheduler: invalid cron " +:+ Quote (CronExpr entry) +:+ ": ") e), s)
    | Ok sched =>
        Some (None, mkScheduler (<[Name entry := entry]> (entries s)) (<[Name entry := sched]> (schedules s)) (lastRun s)
                      (tickInterval s) (running s) (cancel s) (wg s))
    end.

(** ** dispatch *)

Record candidate := mkCandidate {
  c_entry : Entry;
  c_sched : option cronSchedule;
  c_lastRun : Z;
}.

(** A missing key of a map reads as the zero value. *)
Definition last (s : Scheduler) (name : string) : Z := default zero_time (lastRun s !! name).

Definition candidate_of (s : Scheduler) (kv : string * Entry) : candidate :=
  mkCandidate kv.2 (schedules s !! kv.1) (last s kv.1).

(** The tests of the loop over the candidates. *)
Definition is_due (now : Z) (c : candidate) : bool :=
  match c_sched c with
  | Some sched =>
      Enabled (c_entry c)
      && negb (Next sched (c_lastRun c) =? zero_time) && negb (now <? Next sched (c_lastRun c))
  | None => false
  end.

Definition set_lastRun (name : string) (now : Z) (s : Scheduler) : Scheduler :=
  mkScheduler (entries s) (schedules s) (<[name := now]> (lastRun s)) (tickInterval s) (running s) (cancel s) (wg s).

Definition add_wg (n : Z) (s : Scheduler) : Scheduler :=
  mkScheduler (entries s) (schedules s) (lastRun s) (tickInterval s) (running s) (cancel s) (wg s + n).

(** The loop over the candidates: the scheduler and the entries goroutines were started for. *)
Fixpoint fire_all (now : Z) (cs : list candidate) (s : Scheduler) : Scheduler * list Entry :=
  match cs with
  | [] => (s, [])
  | c :: cs' =>
      if negb (is_due now c) then fire_all now cs' s
      else
        let '(s', started) := fire_all now cs' (add_wg 1 (set_lastRun (Name (c_entry c)) now s)) in
        (s', c_entry c :: started)
  end.

(** The snapshot of the entries; [order] is the order in which the map is ranged over. *)
Definition snapshot (order : list string) (s : Scheduler) : list candidate :=
  omap (fun k => e ← entries s !! k; Some (candidate_of s (k, e))) order.

Definition is_order (order : list string) (s : Scheduler) : bool :=
  bool_decide (order ≡ₚ (map_to_list (entries s)).*1).

(** dispatch at [now], undisturbed. *)
Definition dispatch (now : Z) (order : list string) (s : Scheduler) : Scheduler * list Entry :=
  fire_all now (snapshot order s) s.

(** ** What Register keeps *)

Record wf (s : Scheduler) : Prop := {
  wf_name : forall k e, entries s !! k = Some e -> Name e = k;
  wf_sched : forall k e, entries s !! k = Some e ->
    exists c, schedules s !! k = Some c /\ parseCron (CronExpr e) = Some (Ok c);
  wf_last : forall k t, lastRun s !! k = Some t -> zero_time <= t;
}.

Lemma sched_wf_New tick : wf (New tick).
Proof. split; simpl; intros k ?; rewrite lookup_empty; done. Qed.

Lemma Register_spec entry s :
  (exists e, Register entry s = Some (Some e, s) /\ (Name entry = "" \/ exists e', parseCron (CronExpr entry) = Some (Err e'))) \/
  (exists c, Name entry <> "" /\ parseCron (CronExpr entry) = Some (Ok c) /\
     Register entry s = Some (None, mkScheduler (<[Name entry := entry]> (entries s)) (<[Name entry := c]> (schedules s))
       (lastRun s) (tickInterval s) (running s) (cancel s) (wg s))).
Proof.
  unfold Register. destruct (String.eqb_spec (Name entry) "") as [Hn|Hn]; [left; eauto|].
  destruct (parseCron_total (CronExpr entry)) as [[e ->]|(c & -> & _)]; simpl.
  - left. eexists. split; [done|]. right. eauto.
  - right. eauto.
Qed.

Lemma Register_wf entry s e s' : wf s -> Register entry s = Some (e, s') -> wf s'.
Proof.
  intros Hwf Hr. destruct (Register_spec entry s) as [(e' & Hr' & _)|(c & _ & Hc & Hr')]; rewrite Hr' in Hr; injection Hr as <- <-; [done|].
  destruct Hwf as [H1 H2 H3]. split; simpl; [| |done].
  - intros k e' Hk. destruct (decide (Name entry = k)) as [<-|Hne]; simplify_map_eq; eauto.
  - intros k e' Hk. destruct (decide (Name entry = k)) as [<-|Hne]; simplify_map_eq; eauto.
Qed.

Lemma wf_last_ge s name : wf s -> zero_time <= last s name.
Proof. intros Hwf. unfold last. destruct (lastRun s !! name) eqn:Hl; simpl; [by eapply wf_last|done]. Qed.

(** ** What dispatch does *)

(** A due minute lies after the last run and not after [now]. *)
Definition owes_run (s : Scheduler) (now : Z) (e : Entry) : Prop :=
  entries s !! Name e = Some e /\ Enabled e = true /\
  exists sched t, schedules s !! Name e = Some sched /\ last s (Name e) < t <= now /\
    t < last s (Name e) + four_years /\ fires sched t.

Lemma is_due_owes s now e :
  wf s -> entries s !! Name e = Some e -> is_due now (candidate_of s (Name e, e)) = true <-> owes_run s now e.
Proof.
  intros Hwf He. unfold owes_run, is_due, candidate_of. simpl. destruct (schedules s !! Name e) as [c|]; [|naive_solver].
  pose proof (Next_due c (last s (Name e)) now (wf_last_ge s (Name e) Hwf)) as Hn.
  rewrite !andb_true_iff, !negb_true_iff, Z.eqb_neq, Z.ltb_ge. split.
  - intros [[Hen H1] H2]. destruct (proj1 Hn (conj H1 H2)) as (t & ?). split_and!; [done|done|]. by exists c, t.
  - intros (_ & Hen & c' & t & [= ->] & Ht). destruct (proj2 Hn); [by exists t|]. auto.
Qed.

Lemma fire_all_spec now cs s :
  (fire_all now cs s).2 = c_entry <$> filter (fun c => is_due now c = true) cs /\
  (fire_all now cs s).1 =
    mkScheduler (entries s) (schedules s)
      (foldl (fun m e => <[Name e := now]> m) (lastRun s) (fire_all now cs s).2) (tickInterval s) (running s) (cancel s)
      (wg s + Z.of_nat (length (fire_all now cs s).2)).
Proof.
  revert s. induction cs as [|c cs IH]; intros s; cbn [fire_all].
  { split; [done|]. simpl. rewrite Z.add_0_r. by destruct s. }
  rewrite filter_cons. destruct (is_due now c) eqn:Hd; simpl.
  - specialize (IH (add_wg 1 (set_lastRun (Name (c_entry c)) now s))). destruct (fire_all now cs _) as [s' l]. simpl in *.
    destruct IH as [-> ->]. split; [done|]. f_equal. lia.
  - apply IH.
Qed.

Lemma lookup_fired (l : list Entry) now (m : gmap string Z) k :
  foldl (fun m e => <[Name e := now]> m) m l !! k = if decide (k ∈ Name <$> l) then Some now else m !! k.
Proof.
  revert m. induction l as [|e l IH]; intros m; [done|]. cbn [foldl]. rewrite fmap_cons.
  rewrite IH. destruct (decide (k ∈ Name <$> l)); [by rewrite decide_True by (apply elem_of_cons; auto)|].
  destruct (decide (Name e = k)) as [<-|Hne].
  - rewrite decide_True by (apply elem_of_cons; auto). by rewrite lookup_insert_eq.
  - rewrite decide_False by (rewrite elem_of_cons; naive_solver). by rewrite lookup_insert_ne.
Qed.

(** The snapshot lists every entry once, under its name. *)
Lemma snapshot_spec s order :
  wf s -> is_order order s = true ->
  NoDup (Name ∘ c_entry <$> snapshot order s) /\
  forall c, c ∈ snapshot order s <->
    entries s !! Name (c_entry c) = Some (c_entry c) /\ c = candidate_of s (Name (c_entry c), c_entry c).
Proof.
  intros Hwf Hord%bool_decide_eq_true. split.
  - apply (sublist_NoDup _ order); [rewrite Hord; apply NoDup_fst_map_to_list|]. clear Hord.
    unfold snapshot. induction order as [|k order IH]; [done|]. cbn [omap list_omap]. destruct (entries s !! k) as [e|] eqn:He; simpl.
    + rewrite (wf_name s Hwf k e He). by apply sublist_skip.
    + by apply sublist_cons.
  - intros c. unfold snapshot. rewrite list_elem_of_omap. split.
    + intros (k & Hk & Hc). destruct (entries s !! k) as [e|] eqn:He; [|done]. simpl in Hc. injection Hc as <-. simpl.
      by rewrite (wf_name s Hwf k e He).
    + intros [He Hc]. exists (Name (c_entry c)). rewrite He, Hord. simpl. split; [|by rewrite <- Hc].
      apply list_elem_of_fmap. exists (Name (c_entry c), c_entry c). split; [done|]. by apply elem_of_map_to_list.
Qed.

Lemma started_entries s now order :
  wf s -> is_order order s = true ->
  NoDup (Name <$> (dispatch now order s).2) /\ forall e, e ∈ (dispatch now order s).2 <-> owes_run s now e.
Proof.
  intros Hwf Hord. destruct (snapshot_spec s order Hwf Hord) as [Hnd Hin].
  unfold dispatch. destruct (fire_all_spec now (snapshot order s) s) as [-> _]. split.
  - rewrite <- list_fmap_compose. eapply sublist_NoDup; [exact Hnd|]. apply fmap_sublist, sublist_filter.
  - intros e. rewrite list_elem_of_fmap. split.
    + intros (c & -> & [Hd [He Hc]%Hin]%list_elem_of_filter). apply is_due_owes; [done|done|]. by rewrite <- Hc.
    + intros Ho. pose proof Ho as [He _]. exists (candidate_of s (Name e, e)). split; [done|]. apply list_elem_of_filter.
      split; [by apply is_due_owes|]. by apply Hin.
Qed.

(** C26: dispatch starts exactly what is due.  With the entries in any order, it starts one
    goroutine for each enabled entry that has a due minute after its last run, not after
    now, and within four years of the last run, and none for any other; it counts the
    goroutines in the WaitGroup, sets the last run of exactly these entries to now, and
    changes nothing else. *)
Theorem dispatch_exact s now order :
  wf s -> is_order order s = true ->
  let '(s', started) := dispatch now order s in
  NoDup (Name <$> started) /\ (forall e, e ∈ started <-> owes_run s now e) /\
  (forall e, owes_run s now e -> last s' (Name e) = now) /\
  (forall name, name ∉ (Name <$> started) -> lastRun s' !! name = lastRun s !! name) /\
  entries s' = entries s /\ schedules s' = schedules s /\ running s' = running s /\ cancel s' = cancel s /\
  wg s' = wg s + Z.of_nat (length started).
Proof.
  intros Hwf Hord. pose proof (started_entries s now order Hwf Hord) as [Hnd Hin].
  pose proof (proj2 (fire_all_spec now (snapshot order s) s)) as Hs. fold (dispatch now order s) in Hs.
  destruct (dispatch now order s) as [s' started]. simpl in Hnd, Hin, Hs. subst s'. unfold last. simpl. split_and!; try done.
  - intros e Ho%Hin. rewrite lookup_fired, decide_True; [done|]. by apply list_elem_of_fmap_2.
  - intros name Hn. by rewrite lookup_fired, decide_False.
Qed.

(** ** The goroutines *)

(** The loop goroutine of one Start, with its context: in its select; in dispatch with the
    clock read; going through the candidates; past the write of lastRun, before the
    goroutine of the entry is started. *)
Inductive Phase :=
| Selecting
| Dispatching (now : Z)
| Ranging (now : Z) (cs : list candidate)
| Firing (now : Z) (e : Entry) (cs : list candidate).

Record Loop := mkLoop { l_ctx : nat; l_phase : Phase }.

(** One run: the entry, the schedule and the due minute it was started for, and the clock. *)
Record Run := mkRun { r_entry : Entry; r_sched : cronSchedule; r_due : Z; r_now : Z }.

(** [starting]: callers of Start that released the mutex and have not yet started the loop;
    [stopping]: callers of Stop in their wait; [fired]: every run so far, oldest first. *)
Record System := mkSystem {
  sched : Scheduler;
  contexts : nat;
  cancelled : gset nat;
  starting : list nat;
  loops : list Loop;
  handlers : list Entry;
  stopping : nat;
  fired : list Run;
  logged : list (string * error);
}.

Definition NewSystem (tick : Z) : System := mkSystem (New tick) 0 ∅ [] [] [] 0 [] [].

Definition set_sched (s : Scheduler) (p : System) : System :=
  mkSystem s (contexts p) (cancelled p) (starting p) (loops p) (handlers p) (stopping p) (fired p) (logged p).

Definition set_loop (i : nat) (l : Loop) (p : System) : System :=
  mkSystem (sched p) (contexts p) (cancelled p) (starting p) (<[i := l]> (loops p)) (handlers p) (stopping p) (fired p) (logged p).

Definition add_run (r : Run) (p : System) : System :=
  mkSystem (sched p) (contexts p) (cancelled p) (starting p) (loops p) (handlers p) (stopping p) (fired p ++ [r]) (logged p).

(** Start up to the release of the mutex; [ASpawn] is the rest of it. *)
Definition Start (p : System) : System :=
  let s := sched p in
  if running s then p
  else
    mkSystem (mkScheduler (entries s) (schedules s) (lastRun s) (tickInterval s) true (Some (contexts p)) (wg s))
      (S (contexts p)) (cancelled p) (starting p ++ [contexts p]) (loops p) (handlers p) (stopping p) (fired p) (logged p).

(** Stop up to its wait. *)
Definition Stop (p : System) : System :=
  let s := sched p in
  mkSystem (mkScheduler (entries s) (schedules s) (lastRun s) (tickInterval s) false None (wg s)) (contexts p)
    (match cancel s with Some c => {[c]} ∪ cancelled p | None => cancelled p end)
    (starting p) (loops p) (handlers p) (S (stopping p)) (fired p) (logged p).

(** What the goroutine of a fired entry logs. *)
Definition outcome (e : Entry) : list (string * error) :=
  match Handler e with
  | None => []
  | Some f => match f (EntryJob e) with Some err => [(Name e, err)] | None => [] end
  end.

Inductive Action :=
| ARegister (e : Entry)
| AStart
| ASpawn (k : nat)
| ATick (i : nat) (now : Z)
| ASnapshot (i : nat) (order : list string)
| ANext (i : nat)
| AGo (i : nat)
| AReturn (j : nat)
| AExit (i : nat)
| ACancel (c : nat)
| AStop
| AStopped.

(** The next candidate of a loop: [continue], or the write of lastRun. *)
Definition next_candidate (i c : nat) (now : Z) (cand : candidate) (cs : list candidate) (p : System) : System :=
  match c_sched cand with
  | Some sch =>
      if is_due now cand then
        add_run (mkRun (c_entry cand) sch (Next sch (c_lastRun cand)) now)
          (set_loop i (mkLoop c (Firing now (c_entry cand) cs))
             (set_sched (set_lastRun (Name (c_entry cand)) now (sched p)) p))
      else set_loop i (mkLoop c (Ranging now cs)) p
  | None => set_loop i (mkLoop c (Ranging now cs)) p
  end.

(** The clock does not read before the zero time. *)
Definition act (a : Action) (p : System) : option System :=
  match a with
  | ARegister e => '(_, s) ← Register e (sched p); Some (set_sched s p)
  | AStart => Some (Start p)
  | ASpawn k =>
      c ← starting p !! k;
      Some (mkSystem (add_wg 1 (sched p)) (contexts p) (cancelled p) (delete k (starting p)) (loops p ++ [mkLoop c Selecting])
              (handlers p) (stopping p) (fired p) (logged p))
  | ATick i now =>
      match loops p !! i with
      | Some (mkLoop c Selecting) => if zero_time <=? now then Some (set_loop i (mkLoop c (Dispatching now)) p) else None
      | _ => None
      end
  | ASnapshot i order =>
      match loops p !! i with
      | Some (mkLoop c (Dispatching now)) =>
          if is_order order (sched p) then Some (set_loop i (mkLoop c (Ranging now (snapshot order (sched p)))) p) else None
      | _ => None
      end
  | ANext i =>
      match loops p !! i with
      | Some (mkLoop c (Ranging now [])) => Some (set_loop i (mkLoop c Selecting) p)
      | Some (mkLoop c (Ranging now (cand :: cs))) => Some (next_candidate i c now cand cs p)
      | _ => None
      end
  | AGo i =>
      match loops p !! i with
      | Some (mkLoop c (Firing now e cs)) =>
          Some (mkSystem (add_wg 1 (sched p)) (contexts p) (cancelled p) (starting p) (<[i := mkLoop c (Ranging now cs)]> (loops p))
                  (handlers p ++ [e]) (stopping p) (fired p) (logged p))
      | _ => None
      end
  | AReturn j =>
      e ← handlers p !! j;
      Some (mkSystem (add_wg (-1) (sched p)) (contexts p) (cancelled p) (starting p) (loops p) (delete j (handlers p))
              (stopping p) (fired p) (logged p ++ outcome e))
  | AExit i =>
      match loops p !! i with
      | Some (mkLoop c Selecting) =>
          if decide (c ∈ cancelled p)
          then Some (mkSystem (add_wg (-1) (sched p)) (contexts p) (cancelled p) (starting p) (delete i (loops p)) (handlers p)
                       (stopping p) (fired p) (logged p))
          else None
      | _ => None
      end
  | ACancel c =>
      Some (mkSystem (sched p) (contexts p) ({[c]} ∪ cancelled p) (starting p) (loops p) (handlers p) (stopping p) (fired p) (logged p))
  | AStop => Some (Stop p)
  | AStopped =>
      match stopping p with
      | S n => if wg (sched p) =? 0
               then Some (mkSystem (sched p) (contexts p) (cancelled p) (starting p) (loops p) (handlers p) n (fired p) (logged p))
               else None
      | O => None
      end
  end.

Definition step (p p' : System) : Prop := exists a, act a p = Some p'.

Definition reachable (p : System) : Prop := exists tick, rtc step (NewSystem tick) p.

(** ** Start and Stop *)

(** The contexts of the loops that run or are about to. *)
Definition ctxs (p : System) : list nat := starting p ++ (l_ctx <$> loops p).

Record inv (p : System) : Prop := {
  inv_wg : wg (sched p) = Z.of_nat (length (loops p)) + Z.of_nat (length (handlers p));
  inv_running : running (sched p) = bool_decide (is_Some (cancel (sched p)));
  inv_fresh : forall c, c ∈ ctxs p -> (c < contexts p)%nat;
  inv_nodup : NoDup (ctxs p);
  inv_live : forall c, c ∈ ctxs p -> c ∉ cancelled p -> cancel (sched p) = Some c;
}.

(** A step that starts no loop keeps the invariant when it keeps the count. *)
Lemma inv_fewer p p' :
  inv p -> ctxs p' ⊆+ ctxs p -> contexts p' = contexts p -> cancelled p ⊆ cancelled p' ->
  cancel (sched p') = cancel (sched p) -> running (sched p') = running (sched p) ->
  wg (sched p') - Z.of_nat (length (loops p')) - Z.of_nat (length (handlers p'))
    = wg (sched p) - Z.of_nat (length (loops p)) - Z.of_nat (length (handlers p)) ->
  inv p'.
Proof.
  intros [H1 H2 H3 H4 H5] Hs Hn Hc Hcan Hr Hw. assert (forall c, c ∈ ctxs p' -> c ∈ ctxs p) as Hin by (intros c Hx; by eapply elem_of_submseteq).
  split; rewrite ?Hcan, ?Hr, ?Hn; auto; [lia|]. apply submseteq_Permutation in Hs as [k Hk]. rewrite Hk in H4. by apply NoDup_app in H4 as [? _].
Qed.

Lemma ctxs_set_loop p i c ph ph' : loops p !! i = Some (mkLoop c ph) -> ctxs (set_loop i (mkLoop c ph') p) = ctxs p.
Proof.
  intros Hi. unfold ctxs. simpl. f_equal. rewrite list_fmap_insert. simpl. apply list_insert_id. by rewrite list_lookup_fmap, Hi.
Qed.

Lemma inv_set_loop p i c ph ph' : inv p -> loops p !! i = Some (mkLoop c ph) -> inv (set_loop i (mkLoop c ph') p).
Proof.
  intros Hinv Hi. apply (inv_fewer p); try done; [by erewrite ctxs_set_loop|]. simpl. by rewrite length_insert.
Qed.

Lemma inv_Start p : inv p -> inv (Start p).
Proof.
  intros [H1 H2 H3 H4 H5]. unfold Start. destruct (running (sched p)) eqn:Hr; [by split; rewrite ?Hr|].
  assert (forall c, c ∈ ctxs p -> c ∈ cancelled p) as Hall.
  { intros c Hc. destruct (decide (c ∈ cancelled p)); [done|]. rewrite (H5 c) in H2 by done. done. }
  assert (forall c, c ∈ (starting p ++ [contexts p]) ++ (l_ctx <$> loops p) <-> c = contexts p \/ c ∈ ctxs p) as Hin.
  { intros c. unfold ctxs. rewrite !elem_of_app, list_elem_of_singleton. tauto. }
  split; unfold ctxs; simpl; [done|done| | |].
  - intros c [->|Hc%H3]%Hin; lia.
  - eapply NoDup_Permutation_proper with (contexts p :: ctxs p); [unfold ctxs; solve_Permutation|]. constructor; [|done].
    intros Hc%H3. lia.
  - intros c [->|Hc]%Hin Hn; [done|]. by apply Hall in Hc.
Qed.

Lemma inv_Stop p : inv p -> inv (Stop p).
Proof.
  intros [H1 H2 H3 H4 H5]. split; simpl; try done.
  intros c Hc Hn. assert (c ∉ cancelled p) as Hn' by (destruct (cancel (sched p)); set_solver).
  rewrite (H5 c Hc Hn') in Hn. set_solver.
Qed.

Lemma sched_act_inv a p p' : inv p -> act a p = Some p' -> inv p'.
Proof.
  intros Hinv Ha. destruct a; cbn [act] in Ha.
  - destruct (Register e (sched p)) as [[o s]|] eqn:Hr; [|done]. injection Ha as <-.
    destruct (Register_spec e (sched p)) as [(? & Hr' & _)|(? & _ & _ & Hr')]; rewrite Hr' in Hr; injection Hr as <- <-; by apply (inv_fewer p).
  - injection Ha as <-. by apply inv_Start.
  - destruct (starting p !! k) as [c|] eqn:Hk; [|done]. injection Ha as <-. apply (inv_fewer p); simpl; try done.
    + unfold ctxs. simpl. rewrite fmap_app. rewrite (delete_Permutation (starting p) k c Hk) at 2. apply Permutation_submseteq. simpl. solve_Permutation.
    + rewrite length_app. simpl. lia.
  - destruct (loops p !! i) as [[c []]|] eqn:Hi; try done. destruct (_ <=? _); [|done]. injection Ha as <-. by eapply inv_set_loop.
  - destruct (loops p !! i) as [[c []]|] eqn:Hi; try done. destruct (is_order _ _); [|done]. injection Ha as <-. by eapply inv_set_loop.
  - destruct (loops p !! i) as [[c [| |now [|cand cs]|]]|] eqn:Hi; try done; injection Ha as <-; [by eapply inv_set_loop|].
    unfold next_candidate. destruct (c_sched cand); [destruct (is_due now cand)|]; try by eapply inv_set_loop.
    apply (inv_fewer (set_loop i (mkLoop c (Firing now (c_entry cand) cs)) p)); try done. by eapply inv_set_loop.
  - destruct (loops p !! i) as [[c [| | |now e cs]]|] eqn:Hi; try done. injection Ha as <-.
    apply (inv_fewer (set_loop i (mkLoop c (Ranging now cs)) p)); try done; [by eapply inv_set_loop|]. simpl. rewrite length_app. simpl. lia.
  - destruct (handlers p !! j) as [e|] eqn:Hj; [|done]. injection Ha as <-. apply (inv_fewer p); try done. simpl.
    rewrite length_delete by eauto. apply lookup_lt_Some in Hj. lia.
  - destruct (loops p !! i) as [[c []]|] eqn:Hi; try done. destruct (decide _); [|done]. injection Ha as <-. apply (inv_fewer p); try done.
    + unfold ctxs. simpl. apply submseteq_skips_l. rewrite (delete_Permutation (loops p) i _ Hi) at 2. apply submseteq_cons. done.
    + simpl. rewrite length_delete by eauto. apply lookup_lt_Some in Hi. lia.
  - injection Ha as <-. apply (inv_fewer p); try done. simpl. set_solver.
  - injection Ha as <-. by apply inv_Stop.
  - destruct (stopping p); [done|]. destruct (_ =? _); [|done]. injection Ha as <-. by apply (inv_fewer p).
Qed.

Lemma sched_reachable_inv p : reachable p -> inv p.
Proof.
  intros (tick & Hsteps). assert (inv (NewSystem tick)) as Hinit by (split; unfold ctxs; simpl; try done; [set_solver|constructor|set_solver]).
  revert Hinit. generalize (NewSystem tick) Hsteps. clear. intros q Hq.
  induction Hq as [|q1 q2 q3 [a Ha] _ IH]; [done|]. intros H1. apply IH. by eapply sched_act_inv.
Qed.

(** ** Draining *)

(** The steps of the loops and handlers that a Stop waits for, other than a further tick. *)
Definition own (a : Action) : bool :=
  match a with ASnapshot _ _ | ANext _ | AGo _ | AReturn _ | AExit _ => true | _ => false end.

(** How many of them are left. *)
Definition phase_work (s : Scheduler) (l : Loop) : nat :=
  match l_phase l with
  | Selecting => 1
  | Dispatching _ => 3 + 3 * size (entries s)
  | Ranging _ cs => 2 + 3 * length cs
  | Firing _ _ cs => 4 + 3 * length cs
  end.

Definition work (p : System) : nat := length (handlers p) + sum_list_with (phase_work (sched p)) (loops p).

Lemma sum_insert {A} (f : A -> nat) (l : list A) i x y :
  l !! i = Some x -> (sum_list_with f (<[i := y]> l) + f x = sum_list_with f l + f y)%nat.
Proof.
  revert i. induction l as [|z l IH]; intros [|i] Hi; simplify_eq/=; [lia|]. specialize (IH i Hi). lia.
Qed.

Lemma sum_delete {A} (f : A -> nat) (l : list A) i x :
  l !! i = Some x -> (sum_list_with f (delete i l) + f x = sum_list_with f l)%nat.
Proof.
  revert i. induction l as [|z l IH]; intros [|i] Hi; simplify_eq/=; [lia|]. specialize (IH i Hi). lia.
Qed.

Lemma snapshot_length order s : is_order order s = true -> (length (snapshot order s) <= size (entries s))%nat.
Proof.
  intros Hord%bool_decide_eq_true. transitivity (length order).
  - clear Hord. unfold snapshot. induction order as [|k order IH]; [done|]. cbn [omap list_omap]. destruct (entries s !! k); [apply le_n_S, IH|apply le_S, IH].
  - rewrite Hord, length_fmap, length_map_to_list. lia.
Qed.

Lemma own_decreases a p p' : own a = true -> act a p = Some p' -> (work p' < work p)%nat.
Proof.
  intros Ho Ha. unfold work. destruct a; try done; cbn [act] in Ha.
  - destruct (loops p !! i) as [[c [|now| |]]|] eqn:Hi; try done. destruct (is_order order (sched p)) eqn:Hord; [|done]. injection Ha as <-. simpl.
    pose proof (sum_insert (phase_work (sched p)) (loops p) i _ (mkLoop c (Ranging now (snapshot order (sched p)))) Hi) as Hs.
    pose proof (snapshot_length order (sched p) Hord). unfold phase_work in *. simpl in *. lia.
  - destruct (loops p !! i) as [[c [| |now [|cand cs]|]]|] eqn:Hi; try done; injection Ha as <-.
    + simpl. pose proof (sum_insert (phase_work (sched p)) (loops p) i _ (mkLoop c Selecting) Hi) as Hs.
      unfold phase_work in *. simpl in *. lia.
    + pose proof (sum_insert (phase_work (sched p)) (loops p) i _ (mkLoop c (Ranging now cs)) Hi) as Hs1.
      pose proof (sum_insert (phase_work (sched p)) (loops p) i _ (mkLoop c (Firing now (c_entry cand) cs)) Hi) as Hs2.
      unfold next_candidate, phase_work in *. destruct (c_sched cand); [destruct (is_due now cand)|]; simpl in *; lia.
  - destruct (loops p !! i) as [[c [| | |now e cs]]|] eqn:Hi; try done. injection Ha as <-. simpl. rewrite length_app. simpl.
    pose proof (sum_insert (phase_work (sched p)) (loops p) i _ (mkLoop c (Ranging now cs)) Hi) as Hs.
    unfold phase_work in *. simpl in *. lia.
  - destruct (handlers p !! j) as [e|] eqn:Hj; [|done]. injection Ha as <-. simpl. rewrite length_delete by eauto.
    apply lookup_lt_Some in Hj. unfold phase_work. simpl. lia.
  - destruct (loops p !! i) as [[c []]|] eqn:Hi; try done. destruct (decide _); [|done]. injection Ha as <-. simpl.
    pose proof (sum_delete (phase_work (sched p)) (loops p) i _ Hi) as Hs. unfold phase_work in *. simpl in *. lia.
Qed.

Lemma own_possible p :
  (forall l, l ∈ loops p -> l_ctx l ∈ cancelled p) ->
  (loops p = [] /\ handlers p = []) \/ exists a p', own a = true /\ act a p = Some p'.
Proof.
  intros Hc. destruct (handlers p) as [|e hs] eqn:Hh.
  2:{ right. exists (AReturn 0). eexists. split; [done|]. simpl. by rewrite Hh. }
  destruct (loops p) as [|[c ph] ls] eqn:Hl; [by left|]. right.
  destruct ph as [|now|now [|cand cs]|now e cs];
    [exists (AExit 0)|exists (ASnapshot 0 (map_to_list (entries (sched p))).*1)|exists (ANext 0)|exists (ANext 0)|exists (AGo 0)];
    eexists; (split; [done|]); cbn [act]; rewrite Hl; try reflexivity.
  - cbn. rewrite decide_True; [reflexivity|]. apply (Hc (mkLoop c Selecting)). left.
  - cbn. unfold is_order. rewrite bool_decide_true by done. reflexivity.
Qed.

(** C28: Stop waits for everything that was started.  In every state any interleaving of
    Register, Start, Stop, ticks and handlers leads to, the WaitGroup counts the loops and
    the handlers that run (so it never becomes negative), at most one loop has a context
    that is not cancelled, and a Stop returns only when no loop and no handler runs.  After
    Stop every loop is cancelled: as long as one or a handler runs, one of their own steps
    is possible, and each uses up work. *)
Theorem scheduler_stop_waits p :
  reachable p ->
  wg (sched p) = Z.of_nat (length (loops p)) + Z.of_nat (length (handlers p)) /\
  (forall l l', l ∈ loops p -> l' ∈ loops p -> l_ctx l ∉ cancelled p -> l_ctx l' ∉ cancelled p -> l = l') /\
  (forall p', act AStopped p = Some p' -> loops p = [] /\ handlers p = []) /\
  (running (sched p) = false ->
    ((loops p = [] /\ handlers p = []) \/ exists a p', own a = true /\ act a p = Some p') /\
    forall a p', own a = true -> act a p = Some p' -> (work p' < work p)%nat).
Proof.
  intros [H1 H2 H3 H4 H5]%sched_reachable_inv.
  assert (forall l, l ∈ loops p -> l_ctx l ∈ ctxs p) as Hin by (intros l Hl; apply elem_of_app; right; by apply list_elem_of_fmap_2).
  split_and!; [done| | |].
  - intros l l' Hl Hl' Hc Hc'. pose proof (H5 _ (Hin l Hl) Hc) as E1. pose proof (H5 _ (Hin l' Hl') Hc') as E2.
    apply NoDup_app in H4 as (_ & _ & Hnd). apply list_elem_of_lookup_1 in Hl as [i Hi]. apply list_elem_of_lookup_1 in Hl' as [j Hj].
    assert (i = j) as ->; [|congruence].
    eapply (NoDup_lookup (l_ctx <$> loops p)); [done|by rewrite list_lookup_fmap, Hi|]. rewrite list_lookup_fmap, Hj. simpl. congruence.
  - cbn [act]. intros p' Ha. destruct (stopping p); [done|]. destruct (_ =? _) eqn:Hw; [|done]. bool_to_prop.
    split; apply nil_length_inv; lia.
  - intros Hr. split; [|intros a p'; apply own_decreases]. apply own_possible. intros l Hl.
    destruct (decide (l_ctx l ∈ cancelled p)) as [?|Hn]; [done|]. rewrite (H5 _ (Hin l Hl) Hn), Hr in H2. done.
Qed.

(** ** One run per due minute *)

(** The states reached while at most one loop runs at a time (one Start, or Starts that
    follow a Stop that returned). *)
Definition step1 (p p' : System) : Prop := step p p' /\ (length (loops p') <= 1)%nat.

Definition reachable1 (p : System) : Prop := exists tick, rtc step1 (NewSystem tick) p.

(** A candidate of the snapshot is up to date until the loop reaches it. *)
Definition current (s : Scheduler) (c : candidate) : Prop :=
  c_lastRun c = last s (Name (c_entry c)) /\
  forall sch, c_sched c = Some sch -> parseCron (CronExpr (c_entry c)) = Some (Ok sch).

Definition phase_ok (s : Scheduler) (ph : Phase) : Prop :=
  match ph with
  | Selecting => True
  | Dispatching now => zero_time <= now
  | Ranging now cs | Firing now _ cs =>
      zero_time <= now /\ NoDup (Name ∘ c_entry <$> cs) /\ Forall (current s) cs
  end.

Definition run_ok (s : Scheduler) (r : Run) : Prop :=
  Enabled (r_entry r) = true /\ parseCron (CronExpr (r_entry r)) = Some (Ok (r_sched r)) /\
  fires (r_sched r) (r_due r) /\ r_due r <= r_now r <= last s (Name (r_entry r)).

Record inv1 (p : System) : Prop := {
  inv1_wf : wf (sched p);
  inv1_one : (length (loops p) <= 1)%nat;
  inv1_phase : Forall (fun l => phase_ok (sched p) (l_phase l)) (loops p);
  inv1_run : Forall (run_ok (sched p)) (fired p);
  inv1_apart : forall i j r r', (i < j)%nat -> fired p !! i = Some r -> fired p !! j = Some r' ->
    Name (r_entry r) = Name (r_entry r') -> r_now r < r_due r';
}.

(** Only the last runs matter. *)
Lemma phase_ok_ext s s' ph : (forall n, last s' n = last s n) -> phase_ok s ph -> phase_ok s' ph.
Proof.
  intros Hl. destruct ph; simpl; try done; intros (? & ? & Hc); (split_and!; [done|done|]);
    (eapply Forall_impl; [exact Hc|]); intros c [H1 H2]; split; rewrite ?Hl; done.
Qed.

Lemma inv1_keep p p' :
  inv1 p -> wf (sched p') -> (forall n, last (sched p') n = last (sched p) n) -> fired p' = fired p ->
  (length (loops p') <= 1)%nat -> (forall l, l ∈ loops p' -> l ∈ loops p \/ phase_ok (sched p') (l_phase l)) -> inv1 p'.
Proof.
  intros [H1 H2 H3 H4 H5] Hwf Hlast Hf Hlen Hl. split; rewrite ?Hf; try done.
  - apply Forall_forall. intros l Hin. destruct (Hl l Hin) as [Ho|Ho]; [|done]. rewrite Forall_forall in H3.
    eapply phase_ok_ext; [exact Hlast|by apply H3].
  - eapply Forall_impl; [exact H4|]. intros r (? & ? & ? & ?). split_and!; rewrite ?Hlast; naive_solver.
Qed.

Lemma single_loop p i l : (length (loops p) <= 1)%nat -> loops p !! i = Some l -> i = 0%nat /\ loops p = [l].
Proof.
  intros Hlen Hi. destruct (loops p) as [|l0 [|l1 ls]]; [done| |simpl in Hlen; lia].
  destruct i; [|done]. by injection Hi as ->.
Qed.

Lemma last_set_lastRun s name now n : last (set_lastRun name now s) n = if decide (name = n) then now else last s n.
Proof. unfold last. simpl. destruct (decide (name = n)) as [->|Hne]; by simplify_map_eq. Qed.

Lemma inv1_loop p i c ph ph' :
  inv1 p -> loops p !! i = Some (mkLoop c ph) -> phase_ok (sched p) ph' -> inv1 (set_loop i (mkLoop c ph') p).
Proof.
  intros Hinv Hi Hph. destruct (single_loop p i _ (inv1_one p Hinv) Hi) as [-> Hl].
  apply (inv1_keep p); try done; simpl; rewrite ?Hl; simpl; [by apply inv1_wf|lia|].
  intros l ->%list_elem_of_singleton. by right.
Qed.

Lemma inv1_fire p c now cand cs sch :
  inv1 p -> loops p = [mkLoop c (Ranging now (cand :: cs))] -> c_sched cand = Some sch -> is_due now cand = true ->
  inv1 (add_run (mkRun (c_entry cand) sch (Next sch (c_lastRun cand)) now)
          (set_loop 0 (mkLoop c (Firing now (c_entry cand) cs)) (set_sched (set_lastRun (Name (c_entry cand)) now (sched p)) p))).
Proof.
  intros [H1 H2 H3 H4 H5] Hl Hs Hdue. rewrite Hl in H3. apply Forall_singleton in H3 as (Hnow & Hnd & Hcur). simpl in Hnd.
  apply NoDup_cons in Hnd as [Hni Hnd]. apply Forall_cons in Hcur as [[Hlast Hp] Hcur].
  unfold is_due in Hdue. rewrite Hs in Hdue. rewrite !andb_true_iff, !negb_true_iff, Z.eqb_neq, Z.ltb_ge in Hdue.
  destruct Hdue as [[Hen Hnz] Hle]. pose proof (wf_last_ge (sched p) (Name (c_entry cand)) H1) as Hge. rewrite <- Hlast in Hge.
  destruct (Next_after sch (c_lastRun cand) Hge Hnz) as [Hafter Hfires].
  split; simpl; rewrite ?Hl; simpl; [|lia| | |].
  - destruct H1 as [W1 W2 W3]. split; simpl; [done|done|]. intros k t. rewrite lookup_insert_Some. intros [[_ <-]|[_ ?]]; eauto.
  - apply Forall_singleton. simpl. split_and!; [done|done|]. rewrite Forall_forall in Hcur |- *. intros c' Hc'.
    destruct (Hcur c' Hc') as [Hc1 Hc2]. split; [|done]. rewrite last_set_lastRun, decide_False; [done|].
    intros Heq. apply Hni. rewrite Heq. by apply (list_elem_of_fmap_2 (Name ∘ c_entry)).
  - apply Forall_app. split; [|apply Forall_singleton; split_and!; simpl; [done|by apply Hp|done|done|]].
    + eapply Forall_impl; [exact H4|]. intros r (? & ? & ? & ?). split_and!; [done..|lia|].
      rewrite last_set_lastRun. destruct (decide _) as [Heq|_]; [|lia]. rewrite <- Heq, <- Hlast in *. lia.
    + rewrite last_set_lastRun, decide_True by done. lia.
  - intros i j r r' Hij Hi Hj Hn. apply lookup_snoc_Some in Hj as [[Hj Hj']|[-> <-]].
    + rewrite lookup_app_l in Hi by lia. by apply (H5 i j r r').
    + rewrite lookup_app_l in Hi by done. apply list_elem_of_lookup_2 in Hi. rewrite Forall_forall in H4.
      destruct (H4 r Hi) as (_ & _ & _ & Hr). simpl in *. rewrite Hn, <- Hlast in Hr. lia.
Qed.

Lemma act_inv1 a p p' : inv1 p -> act a p = Some p' -> (length (loops p') <= 1)%nat -> inv1 p'.
Proof.
  intros Hinv Ha Hlen. pose proof (inv1_wf p Hinv) as Hwf. destruct a; cbn [act] in Ha.
  - destruct (Register e (sched p)) as [[o s]|] eqn:Hr; [|done]. injection Ha as <-.
    apply (inv1_keep p); simpl; try done; [by eapply Register_wf| |by left].
    intros n. destruct (Register_spec e (sched p)) as [(? & Hr' & _)|(? & _ & _ & Hr')]; rewrite Hr' in Hr; injection Hr as <- <-; done.
  - injection Ha as <-. unfold Start in *. destruct (running (sched p)); [done|]. apply (inv1_keep p); simpl; try done; [|by left].
    by destruct Hwf.
  - destruct (starting p !! k) as [c|] eqn:Hk; [|done]. injection Ha as <-. apply (inv1_keep p); simpl; try done; [by destruct Hwf|].
    intros l [?| ->%list_elem_of_singleton]%elem_of_app; [by left|by right].
  - destruct (loops p !! i) as [[c []]|] eqn:Hi; try done. destruct (_ <=? _) eqn:Hn; [|done]. bool_to_prop. injection Ha as <-. by eapply inv1_loop.
  - destruct (loops p !! i) as [[c [|now| |]]|] eqn:Hi; try done. destruct (is_order _ _) eqn:Hord; [|done]. injection Ha as <-. eapply inv1_loop; [done..|].
    destruct (snapshot_spec (sched p) order Hwf Hord) as [Hnd Hin]. pose proof (inv1_phase p Hinv) as Hph.
    rewrite Forall_forall in Hph. apply list_elem_of_lookup_2 in Hi. split_and!; [exact (Hph _ Hi)|done|].
    apply Forall_forall. intros cd [He Hcd]%Hin. rewrite Hcd. split; [done|]. simpl. intros sch Hs.
    destruct (wf_sched _ Hwf _ _ He) as (c' & Hc' & Hp). simpl in *. congruence.
  - destruct (loops p !! i) as [[c [| |now [|cand cs]|]]|] eqn:Hi; try done; injection Ha as <-; [by eapply inv1_loop|].
    destruct (single_loop p i _ (inv1_one p Hinv) Hi) as [-> Hl]. unfold next_candidate in *.
    assert (phase_ok (sched p) (Ranging now cs)) as Hph.
    { pose proof (inv1_phase p Hinv) as Hph. rewrite Hl in Hph. apply Forall_singleton in Hph as (? & Hnd & Hcur). simpl in Hnd.
      apply NoDup_cons in Hnd. apply Forall_cons in Hcur. naive_solver. }
    destruct (c_sched cand) eqn:Hs; [destruct (is_due now cand) eqn:Hd|]; [by apply inv1_fire|by eapply inv1_loop..].
  - destruct (loops p !! i) as [[c [| | |now e cs]]|] eqn:Hi; try done. injection Ha as <-.
    apply (inv1_keep (set_loop i (mkLoop c (Ranging now cs)) p)); try done; [|by destruct Hwf|by left].
    eapply inv1_loop; [done..|]. pose proof (inv1_phase p Hinv) as Hph. rewrite Forall_forall in Hph. apply list_elem_of_lookup_2 in Hi.
    exact (Hph _ Hi).
  - destruct (handlers p !! j) as [e|] eqn:Hj; [|done]. injection Ha as <-. apply (inv1_keep p); simpl; try done; [by destruct Hwf|by left].
  - destruct (loops p !! i) as [[c []]|] eqn:Hi; try done. destruct (decide _); [|done]. injection Ha as <-.
    apply (inv1_keep p); simpl; try done; [by destruct Hwf|]. intros l Hl. left. rewrite (delete_Permutation (loops p) i _ Hi). by right.
  - injection Ha as <-. apply (inv1_keep p); simpl; try done. by left.
  - injection Ha as <-. apply (inv1_keep p); simpl; try done; [by destruct Hwf|by left].
  - destruct (stopping p); [done|]. destruct (_ =? _); [|done]. injection Ha as <-. apply (inv1_keep p); simpl; try done. by left.
Qed.

Lemma reachable1_inv p : reachable1 p -> inv1 p.
Proof.
  intros (tick & Hsteps). assert (inv1 (NewSystem tick)) as Hinit.
  { split; simpl; [apply sched_wf_New|lia|constructor|constructor|]. intros i j r r' _ Hi. done. }
  revert Hinit. generalize (NewSystem tick) Hsteps. clear. intros q Hq.
  induction Hq as [|q1 q2 q3 [[a Ha] Hlen] _ IH]; [done|]. intros H1. apply IH. by eapply act_inv1.
Qed.

(** C27: no due minute makes an entry run twice.  With one loop at a time, whatever the ticks,
    the clock readings and the interleaving with Register, Stop and the handlers, each run is
    of an enabled entry for a due minute of its cron expression that is not after the
    clock, and that minute comes after every earlier run of an entry of that name: minutes
    missed between two ticks are made up by one run. *)
Theorem scheduler_once_per_minute p :
  reachable1 p ->
  Forall (fun r => Enabled (r_entry r) = true /\ parseCron (CronExpr (r_entry r)) = Some (Ok (r_sched r)) /\
            fires (r_sched r) (r_due r) /\ r_due r <= r_now r) (fired p) /\
  forall i j r r', (i < j)%nat -> fired p !! i = Some r -> fired p !! j = Some r' ->
    Name (r_entry r) = Name (r_entry r') -> r_now r < r_due r'.
Proof.
  intros [_ _ _ Hrun Hapart]%reachable1_inv. split; [|done].
  eapply Forall_impl; [exact Hrun|]. intros r (? & ? & ? & ?). naive_solver.
Qed.

(** ** The first tick of a new entry *)

(** An entry that has not run yet starts at the first tick, whatever the time.  Its last run
    reads as the zero time, so what decides is whether its schedule has a due minute in the
    first four years of the calendar: if it has one, the entry is started by the first
    dispatch at any time since then; if it has none, it is not started by any. *)
Theorem fresh_entry_first_tick s s' entry c now order :
  wf s -> Enabled entry = true -> lastRun s !! Name entry = None -> parseCron (CronExpr entry) = Some (Ok c) ->
  Register entry s = Some (None, s') -> zero_time + four_years <= now -> is_order order s' = true ->
  (entry ∈ (dispatch now order s').2 <-> exists t, zero_time < t < zero_time + four_years /\ fires c t).
Proof.
  intros Hwf Hen Hnew Hc Hr Hnow Hord. rewrite (proj2 (started_entries s' now order (Register_wf _ _ _ _ Hwf Hr) Hord)).
  destruct (Register_spec entry s) as [(e & Hr' & _)|(c' & _ & Hc' & Hr')]; rewrite Hr' in Hr; [done|]. injection Hr as <-.
  rewrite Hc in Hc'. injection Hc' as <-. unfold owes_run, last. simpl. rewrite Hnew, !lookup_insert_eq. simpl. split.
  - intros (_ & _ & sch & t & [= <-] & ? & ? & ?). exists t. split; [lia|done].
  - intros (t & Ht & Hf). split_and!; [done|done|]. exists c, t. split_and!; [done|lia|lia|lia|done].
Qed.

(** ** Witnesses *)

Definition entry_of (name cron : string) : Entry := mkEntry name cron zero_job (Some (fun _ => None)) true.

Definition yearly : Entry := entry_of "yearly" "0 0 1 3 *".
Definition hourly : Entry := entry_of "hourly" "0 * * * *".

(** 14 November 2023, 22:13:20. *)
Definition november : Z := 1700000000 * Second.

Definition registered (es : list Entry) : Scheduler :=
  foldl (fun s e => match Register e s with Some (_, s') => s' | None => s end) (New Minute) es.

Lemma registered_wf es : wf (registered es).
Proof.
  unfold registered. generalize (sched_wf_New Minute). generalize (New Minute). induction es as [|e es IH]; intros s Hs; [done|].
  apply IH. destruct (Register e s) as [[o s']|] eqn:Hr; [by eapply Register_wf|done].
Qed.

(** Both have a due minute between year 1 and November 2023. *)
Lemma dispatch_exact_witness :
  let '(s', started) := dispatch november ["hourly"; "yearly"] (registered [yearly; hourly]) in
  NoDup (Name <$> started) /\ (forall e, e ∈ started <-> owes_run (registered [yearly; hourly]) november e) /\
  (forall e, owes_run (registered [yearly; hourly]) november e -> last s' (Name e) = november) /\
  (forall name, name ∉ (Name <$> started) -> lastRun s' !! name = lastRun (registered [yearly; hourly]) !! name) /\
  entries s' = entries (registered [yearly; hourly]) /\ schedules s' = schedules (registered [yearly; hourly]) /\
  running s' = running (registered [yearly; hourly]) /\ cancel s' = cancel (registered [yearly; hourly]) /\
  wg s' = wg (registered [yearly; hourly]) + Z.of_nat (length started).
Proof.
  exact (dispatch_exact (registered [yearly; hourly]) november ["hourly"; "yearly"] (registered_wf _) ltac:(vm_compute; reflexivity)).
Defined.

(** The yearly entry runs in November: its due minute is 1 March of year 1. *)
Lemma fresh_entry_witness :
  yearly ∈ (dispatch november ["yearly"] (registered [yearly])).2 <->
  exists t, zero_time < t < zero_time + four_years /\ fires march_first t.
Proof.
  apply (fresh_entry_first_tick (New Minute) (registered [yearly]) yearly march_first november ["yearly"]).
  - apply sched_wf_New.
  - reflexivity.
  - reflexivity.
  - vm_compute. reflexivity.
  - vm_compute. reflexivity.
  - vm_compute. discriminate.
  - vm_compute. reflexivity.
Defined.

(** Start, a tick that fires both entries, their handlers, a second tick an hour later that
    fires the hourly entry again, and Stop. *)
Definition session : list Action :=
  [ARegister yearly; ARegister hourly; AStart; ASpawn 0; ATick 0 november; ASnapshot 0 ["hourly"; "yearly"]; ANext 0; AGo 0;
   ANext 0; AGo 0; ANext 0; AReturn 0; ATick 0 (november + Hour); ASnapshot 0 ["yearly"; "hourly"]; AStop; ANext 0; ANext 0; AGo 0].

Fixpoint acts (l : list Action) (p : System) : option System :=
  match l with
  | [] => Some p
  | a :: l' =>
      p' ← act a p;
      if (length (loops p') <=? 1)%nat then acts l' p' else None
  end.

Lemma acts_reachable1 l p : acts l (NewSystem Minute) = Some p -> reachable1 p.
Proof.
  intros Ha. exists Minute. revert Ha. generalize (NewSystem Minute). induction l as [|a l IH]; intros q; simpl; [by intros [= <-]|].
  destruct (act a q) as [q'|] eqn:Hq; [|done]. simpl. destruct (length (loops q') <=? 1)%nat eqn:Hlen; [|done].
  intros Ha. apply Nat.leb_le in Hlen. eapply rtc_l; [|by apply IH]. split; [by exists a|done].
Qed.

Lemma reachable1_reachable p : reachable1 p -> reachable p.
Proof.
  intros [tick Hs]. exists tick. induction Hs as [|q1 q2 q3 [Hq _] _ IH]; [done|]. by eapply rtc_l.
Qed.

Definition end_of (l : list Action) : System := default (NewSystem Minute) (acts l (NewSystem Minute)).

Lemma end_of_reachable1 l : reachable1 (end_of l).
Proof.
  unfold end_of. destruct (acts l (NewSystem Minute)) as [p|] eqn:Ha; simpl; [by apply (acts_reachable1 l)|].
  by exists Minute.
Qed.

Definition session_end : System := end_of session.

Lemma scheduler_stop_waits_witness :
  wg (sched session_end) = Z.of_nat (length (loops session_end)) + Z.of_nat (length (handlers session_end)) /\
  (forall l l', l ∈ loops session_end -> l' ∈ loops session_end ->
     l_ctx l ∉ cancelled session_end -> l_ctx l' ∉ cancelled session_end -> l = l') /\
  (forall p', act AStopped session_end = Some p' -> loops session_end = [] /\ handlers session_end = []) /\
  (running (sched session_end) = false ->
    ((loops session_end = [] /\ handlers session_end = []) \/ exists a p', own a = true /\ act a session_end = Some p') /\
    forall a p', own a = true -> act a session_end = Some p' -> (work p' < work session_end)%nat).
Proof. exact (scheduler_stop_waits session_end (reachable1_reachable _ (end_of_reachable1 session))). Defined.

Lemma scheduler_once_witness :
  length (fired session_end) = 3%nat /\
  (Forall (fun r => Enabled (r_entry r) = true /\ parseCron (CronExpr (r_entry r)) = Some (Ok (r_sched r)) /\
            fires (r_sched r) (r_due r) /\ r_due r <= r_now r) (fired session_end) /\
  forall i j r r', (i < j)%nat -> fired session_end !! i = Some r -> fired session_end !! j = Some r' ->
    Name (r_entry r) = Name (r_entry r') -> r_now r < r_due r').
Proof.
  split; [vm_compute; reflexivity|]. exact (scheduler_once_per_minute session_end (end_of_reachable1 session)).
Defined.

(** 29 February, on a Monday only. *)
Definition leap_monday : cronSchedule :=
  match parseCron "0 0 29 2 1" with Some (Ok c) => c | _ => mkCron [] [] [] [] [] end.

Example leap_monday_never : Next leap_monday zero_time = zero_time.
Proof. vm_compute. reflexivity. Qed.

End Scheduler.
