(* ===== verification/Duration.v ===== *)
(** * time.Duration as text

    [time.ParseDuration] and [Duration.String]. *)

From S2P Require Import Prelude GoLib Float64.

(** ** ParseDuration *)

Definition two63 : Z := 2 ^ 63.

Definition is_digit (c : ascii) : bool := match digit_value c with Some _ => true | None => false end.

(** The leading digits as a number, unless it exceeds 2^63, and the rest. *)
Fixpoint leadingInt (x : Z) (s : string) : option (Z * string) :=
  match s with
  | String c s' =>
      match digit_value c with
      | Some d =>
          if two63 / 10 <? x then None
          else if two63 <? x * 10 + d then None
          else leadingInt (x * 10 + d) s'
      | None => Some (x, s)
      end
  | "" => Some (x, "")
  end.

(** The leading digits as a fraction [f / scale]: digits past the precision are skipped. *)
Fixpoint leadingFraction (f scale : Z) (overflow : bool) (s : string) : Z * Z * string :=
  match s with
  | String c s' =>
      match digit_value c with
      | Some d =>
          if overflow then leadingFraction f scale true s'
          else if (two63 - 1) / 10 <? f then leadingFraction f scale true s'
          else if two63 <? f * 10 + d then leadingFraction f scale true s'
          else leadingFraction (f * 10 + d) (scale * 10) false s'
      | None => (f, scale, s)
      end
  | "" => (f, scale, "")
  end.

Definition micro_sign : string := string_of_bytes [194; 181].
Definition greek_mu : string := string_of_bytes [206; 188].

Definition unitMap (u : string) : option Z :=
  if String.eqb u "ns" then Some 1
  else if String.eqb u "us" || String.eqb u (micro_sign +:+ "s") || String.eqb u (greek_mu +:+ "s") then Some 1000
  else if String.eqb u "ms" then Some 1000000
  else if String.eqb u "s" then Some 1000000000
  else if String.eqb u "m" then Some 60000000000
  else if String.eqb u "h" then Some 3600000000000
  else None.

(** The unit runs up to the next digit or period. *)
Fixpoint take_unit (s : string) : string * string :=
  match s with
  | String c s' =>
      if Ascii.eqb c "."%char || is_digit c then ("", s)
      else let '(u, rest) := take_unit s' in (String c u, rest)
  | "" => ("", "")
  end.

(** One number with its unit, in nanoseconds, and the rest. *)
Definition parse_term (s : string) : option (Z * string) :=
  match s with
  | "" => None
  | String c0 _ =>
      if negb (Ascii.eqb c0 "."%char || is_digit c0) then None
      else
        '(v, s1) ← leadingInt 0 s;
        let pre := negb (String.length s1 =? String.length s)%nat in
        let '(f, scale, s2, post) :=
          match s1 with
          | String "."%char s' =>
              let '(f, scale, s2) := leadingFraction 0 1 false s' in (f, scale, s2, negb (String.length s2 =? String.length s')%nat)
          | _ => (0, 1, s1, false)
          end in
        if negb pre && negb post then None
        else
          let '(u, s3) := take_unit s2 in
          if String.eqb u "" then None
          else
            unit ← unitMap u;
            if two63 / unit <? v then None
            else
              let v1 := v * unit in
              let v2 := if 0 <? f then v1 + int64_of (fmul (of_int f) (fdiv (of_int unit) (of_int scale))) else v1 in
              if (0 <? f) && (two63 <? v2) then None else Some (v2, s3)
  end.

(** The sum of the terms; each takes at least two bytes. *)
Fixpoint parse_terms (fuel : nat) (d : Z) (s : string) : option Z :=
  match s, fuel with
  | "", _ => Some d
  | _, O => None
  | _, S fuel' =>
      '(v, rest) ← parse_term s;
      if two63 <? d + v then None else parse_terms fuel' (d + v) rest
  end.

Definition ParseDuration (s0 : string) : option Z :=
  let '(neg, s) :=
    match s0 with
    | String "-"%char s' => (true, s')
    | String "+"%char s' => (false, s')
    | _ => (false, s0)
    end in
  if String.eqb s "0" then Some 0
  else if String.eqb s "" then None
  else
    d ← parse_terms (String.length s) 0 s;
    if neg then Some (- d) else if two63 - 1 <? d then None else Some d.

(** ** String *)

(** The decimal places of [v], [prec] of them, without trailing zeros, before [acc]. *)
Fixpoint fmtFrac (prec : nat) (print : bool) (v : Z) (acc : string) : string * Z :=
  match prec with
  | O => (if print then String "."%char acc else acc, v)
  | S prec' =>
      let digit := v mod 10 in
      let print' := print || negb (digit =? 0) in
      fmtFrac prec' print' (v / 10) (if print' then String (digit_char digit) acc else acc)
  end.

Definition DurationString (d : Z) : string :=
  let u := Z.abs d in
  let sign := if d <? 0 then "-" else "" in
  if u =? 0 then "0s"
  else if u <? Second then
    let '(prec, unit) :=
      if u <? 1000 then (0%nat, "ns") else if u <? 1000000 then (3%nat, micro_sign +:+ "s") else (6%nat, "ms") in
    let '(frac, v) := fmtFrac prec false u unit in sign +:+ Itoa v +:+ frac
  else
    let '(frac, secs) := fmtFrac 9 false u "s" in
    let ss := Itoa (secs mod 60) +:+ frac in
    let mins := secs / 60 in
    if mins =? 0 then sign +:+ ss
    else if mins / 60 =? 0 then sign +:+ Itoa (mins mod 60) +:+ "m" +:+ ss
    else sign +:+ Itoa (mins / 60) +:+ "h" +:+ Itoa (mins mod 60) +:+ "m" +:+ ss.

Example parse_compound : ParseDuration "-1h15m30.918s" = Some (- 4530918000000).
Proof. vm_compute. reflexivity. Qed.

Example parse_print : ParseDuration (DurationString 4530918000000) = Some 4530918000000.
Proof. vm_compute. reflexivity. Qed.
