(* ===== verification/Unicode.v ===== *)
(** * unicode and the case conversions of strings

    The category and case tables of package unicode are a class: what it says of ASCII and
    Latin-1 is given, the rest is left open.  Case conversion of a string maps its runes; an
    invalid byte becomes U+FFFD. *)

From S2P Require Import Prelude GoLib.

(** The letters of Latin-1. *)
Definition latin1_letter (r : Z) : bool :=
  ((65 <=? r) && (r <=? 90)) || ((97 <=? r) && (r <=? 122)) || (r =? 170) || (r =? 181) || (r =? 186)
  || ((192 <=? r) && (r <=? 255) && negb (r =? 215) && negb (r =? 247)).

Definition ascii_digit (r : Z) : bool := (48 <=? r) && (r <=? 57).
Definition ascii_lower (r : Z) : Z := if (65 <=? r) && (r <=? 90) then r + 32 else r.
Definition ascii_upper (r : Z) : Z := if (97 <=? r) && (r <=? 122) then r - 32 else r.

Class Unicode := {
  IsLetter : Z -> bool;
  IsDigit : Z -> bool;
  RuneToLower : Z -> Z;
  RuneToUpper : Z -> Z;
  IsLetter_latin1 : forall r, 0 <= r < 256 -> IsLetter r = latin1_letter r;
  IsDigit_latin1 : forall r, 0 <= r < 256 -> IsDigit r = ascii_digit r;
  RuneToLower_ascii : forall r, 0 <= r < 128 -> RuneToLower r = ascii_lower r;
  RuneToUpper_ascii : forall r, 0 <= r < 128 -> RuneToUpper r = ascii_upper r;
  RuneError_category : IsLetter RuneError = false /\ IsDigit RuneError = false;
}.

(** [utf8.EncodeRune]: surrogates and values out of range are written as U+FFFD. *)
Definition EncodeRune (r : Z) : list Z :=
  if (r <? 0) || ((55296 <=? r) && (r <=? 57343)) || (1114111 <? r) then [239; 191; 189]
  else if r <? 128 then [r]
  else if r <? 2048 then [192 + r / 64; 128 + r mod 64]
  else if r <? 65536 then [224 + r / 4096; 128 + (r / 64) mod 64; 128 + r mod 64]
  else [240 + r / 262144; 128 + (r / 4096) mod 64; 128 + (r / 64) mod 64; 128 + r mod 64].

Section Case.
Context `{Unicode}.

(** [strings.ToLower], [strings.ToUpper]. *)
Definition ToLower (s : string) : string := string_of_bytes ((runes s).*1 ≫= EncodeRune ∘ RuneToLower).
Definition ToUpper (s : string) : string := string_of_bytes ((runes s).*1 ≫= EncodeRune ∘ RuneToUpper).

(** A string of ASCII bytes is its own sequence of runes. *)
Lemma runes_ascii s : Forall (fun b => b < 128) (bytes_of_string s) -> (runes s).*1 = bytes_of_string s.
Proof.
  unfold runes. generalize (bytes_of_string s). intros l. assert (length l <= length l)%nat as Hf by done. revert Hf.
  generalize (length l) at 2 3. intros fuel. revert l.
  induction fuel as [|fuel IH]; intros [|b l] Hf Ha; simpl in *; try done; [lia|].
  apply Forall_cons in Ha as [Hb Ha]. unfold DecodeRune. rewrite (proj2 (Z.ltb_lt b 128) Hb). simpl. rewrite drop_0. f_equal.
  apply IH; [lia|done].
Qed.

(** On ASCII the conversion is the bytewise one. *)
Lemma ToLower_ascii s :
  Forall (fun b => b < 128) (bytes_of_string s) -> ToLower s = string_of_bytes (ascii_lower <$> bytes_of_string s).
Proof.
  intros Ha. unfold ToLower. rewrite runes_ascii by done. f_equal. pose proof (bytes_range s) as Hr.
  induction (bytes_of_string s) as [|b l IH]; [done|]. apply Forall_cons in Ha as [Hb Ha]. apply Forall_cons in Hr as [Hb' Hr].
  rewrite bind_cons, fmap_cons, (IH Ha Hr). unfold is_byte in Hb'. unfold compose. rewrite RuneToLower_ascii by lia. unfold EncodeRune, ascii_lower.
  destruct ((65 <=? b) && (b <=? 90)) eqn:Hc; bool_to_prop.
  - rewrite (proj2 (Z.ltb_ge (b + 32) 0)), (proj2 (Z.leb_gt 55296 (b + 32))), (proj2 (Z.ltb_ge 1114111 (b + 32))), (proj2 (Z.ltb_lt (b + 32) 128)) by lia. done.
  - rewrite (proj2 (Z.ltb_ge b 0)), (proj2 (Z.leb_gt 55296 b)), (proj2 (Z.ltb_ge 1114111 b)), (proj2 (Z.ltb_lt b 128)) by lia. done.
Qed.
End Case.

(** The runes that [strings.EqualFold] identifies with an ASCII letter: its other case, the
    long s and the Kelvin sign. *)
Definition fold_ascii (r : Z) : Z := if r =? 383 then 115 else if r =? 8490 then 107 else ascii_lower r.

(** [strings.EqualFold(s, t)] for a lower-case ASCII [t]. *)
Definition EqualFold (s t : string) : bool := bool_decide (fold_ascii <$> (runes s).*1 = bytes_of_string t).

(** A table that knows Latin-1 only. *)
Definition latin1_unicode : Unicode.
Proof.
  refine {| IsLetter := latin1_letter; IsDigit := ascii_digit; RuneToLower := ascii_lower; RuneToUpper := ascii_upper |}; done.
Defined.
