(* ===== verification/Etl.v ===== *)
(** * internal/etl

    The pipeline specification, its checks and the statement that is built from it.
    json.Unmarshal, pgx's Identifier.Sanitize and Pool.Exec are parameters; what Sanitize
    does to a name without quotes and NUL bytes is what its documentation says. *)

From S2P Require Import Prelude GoLib Unicode Models Retry.

Module Etl.

Record PipelineSpec := mkSpec {
  ExtractSQL : string;
  TargetTable : string;
  TargetColumns : list string;
  WriteMode : string;
  ConflictColumns : list string;
  UpdateColumns : list string;
}.

Definition dquote : ascii := ascii_of 34.
Definition squote : ascii := "'"%char.
Definition newline : ascii := ascii_of 10.

(** The name between double quotes. *)
Definition quoted (name : string) : string := String dquote (name +:+ String dquote "").

(** A name that needs no escaping. *)
Definition plain_name (name : string) : bool :=
  negb (contains_char dquote name) && negb (contains_char (ascii_of 0) name).

Class PgxIdentifier := {
  Sanitize : list string -> string;
  Sanitize_plain : forall parts, forallb plain_name parts = true -> Sanitize parts = Join "." (quoted <$> parts);
}.

Section Etl.
Context `{U : Unicode} `{PI : PgxIdentifier}.

(** ** Identifiers *)

(** The test of the rune loop; [first] is [i == 0]. *)
Definition ident_rune (first : bool) (r : Z) : bool :=
  (r =? 95) || IsLetter r || (negb first && IsDigit r).

Definition validIdentifierPart (value : string) : bool :=
  match (runes value).*1 with
  | [] => false
  | r :: rs => ident_rune true r && forallb (ident_rune false) rs
  end.

Definition parseIdentifier (value : string) : res (list string) error :=
  let parts := Split "."%char value in
  if (length parts =? 0)%nat || (3 <? length parts)%nat then Err (Errorf "must have one to three parts" [])
  else if forallb validIdentifierPart parts then Ok parts
  else Err (Errorf "invalid identifier" []).

Fixpoint sanitizeUnqualifiedIdentifiers (columns : list string) : res (list string) error :=
  match columns with
  | [] => Ok []
  | column :: columns' =>
      match parseIdentifier column with
      | Err e => Err (wrapf (Quote column +:+ ": ") e)
      | Ok identifier =>
          if negb (length identifier =? 1)%nat then Err (Errorf (Quote column +:+ ": column must be unqualified") [])
          else match sanitizeUnqualifiedIdentifiers columns' with
               | Err e => Err e
               | Ok rest => Ok (Sanitize identifier :: rest)
               end
      end
  end.

Definition nonConflictColumns (targetColumns conflictColumns : list string) : list string :=
  filter (fun column => column ∉ conflictColumns) targetColumns.

(** ** The tokens of a query *)

(** At most one of the four flags of the loop is set. *)
Inductive Mode := Normal | InLineComment | InBlockComment | InSingleQuote | InDoubleQuote.

Definition flush (b : string) : list string := match b with "" => [] | _ => [ToLower b] end.

Definition word_byte (ch : ascii) : bool :=
  IsLetter (byte_of ch) || IsDigit (byte_of ch) || Ascii.eqb ch "_"%char.

Definition emit (ts : list string) (r : list string * (Mode * string)) : list string * (Mode * string) := (ts ++ r.1, r.2).

(** The loop over the bytes: the tokens it appends, the flags and the builder at its end.
    [next] is the zero byte at the end of the string. *)
Fixpoint scan (m : Mode) (b : string) (sql : string) : list string * (Mode * string) :=
  match sql with
  | "" => ([], (m, b))
  | String ch rest =>
      let next := match rest with String c _ => c | "" => ascii_of 0 end in
      let skip (m' : Mode) (b' : string) :=
        match rest with String _ rest' => scan m' b' rest' | "" => ([], (m', b')) end in
      match m with
      | InLineComment => if Ascii.eqb ch newline then scan Normal b rest else scan InLineComment b rest
      | InBlockComment =>
          if Ascii.eqb ch "*"%char && Ascii.eqb next "/"%char then skip Normal b else scan InBlockComment b rest
      | InSingleQuote =>
          if Ascii.eqb ch squote then
            if Ascii.eqb next squote then skip InSingleQuote b else scan Normal b rest
          else scan InSingleQuote b rest
      | InDoubleQuote =>
          if Ascii.eqb ch dquote then
            if Ascii.eqb next dquote then skip InDoubleQuote b else scan Normal b rest
          else scan InDoubleQuote b rest
      | Normal =>
          if Ascii.eqb ch "-"%char && Ascii.eqb next "-"%char then emit (flush b) (skip InLineComment "")
          else if Ascii.eqb ch "/"%char && Ascii.eqb next "*"%char then emit (flush b) (skip InBlockComment "")
          else if Ascii.eqb ch squote then emit (flush b) (scan InSingleQuote "" rest)
          else if Ascii.eqb ch dquote then emit (flush b) (scan InDoubleQuote "" rest)
          else if word_byte ch then scan Normal (b +:+ String ch "") rest
          else emit (flush b) (scan Normal "" rest)
      end
  end.

Definition sqlTokens (sql : string) : list string :=
  let '(tokens, (_, b)) := scan Normal "" sql in tokens ++ flush b.

Definition forbidden : list string :=
  ["insert"; "update"; "delete"; "merge"; "create"; "alter"; "drop"; "truncate"; "copy"; "grant"; "revoke"; "call"; "do";
   "vacuum"; "analyze"].

Definition forbiddenSQLToken (token : string) : bool := bool_decide (token ∈ forbidden).

(** [strings.TrimSuffix(sql, ";")]. *)
Fixpoint TrimSemicolon (sql : string) : string :=
  match sql with
  | "" => ""
  | String c "" => if Ascii.eqb c ";"%char then "" else sql
  | String c rest => String c (TrimSemicolon rest)
  end.

Definition must_start : error := Errorf "must start with SELECT or WITH" [].

Definition normalizeExtractSQL (sql0 : string) : res string error :=
  let sql := TrimSpace (TrimSemicolon (TrimSpace sql0)) in
  let lowerSQL := ToLower sql in
  if negb (String.prefix "select " lowerSQL) && negb (String.prefix "with " lowerSQL) then Err must_start
  else
    let tokens := sqlTokens sql in
    match tokens with
    | [] => Err (Errorf "empty SQL" [])
    | t0 :: _ =>
        if negb (String.eqb t0 "select") && negb (String.eqb t0 "with") then Err must_start
        else match List.find forbiddenSQLToken tokens with
             | Some token => Err (Errorf ("forbidden token " +:+ Quote token) [])
             | None => Ok sql
             end
    end.

(** ** The statement *)

Fixpoint sanitizeTargetColumns (columns : list string) : res (list string) error :=
  match columns with
  | [] => Ok []
  | column :: columns' =>
      match parseIdentifier column with
      | Err e => Err (wrapf ("target_columns: " +:+ Quote column +:+ ": ") e)
      | Ok identifier =>
          if negb (length identifier =? 1)%nat then Err (Errorf "target column must be unqualified" [])
          else match sanitizeTargetColumns columns' with
               | Err e => Err e
               | Ok rest => Ok (Sanitize identifier :: rest)
               end
      end
  end.

Definition nl : string := String newline "".

Definition assignment (column : string) : string := column +:+ " = EXCLUDED." +:+ column.

Definition BuildInsertSQL (spec : PipelineSpec) : res string error :=
  let mode0 := TrimSpace (ToLower (WriteMode spec)) in
  let writeMode := if String.eqb mode0 "" then "append" else mode0 in
  let upsert := String.eqb writeMode "upsert" in
  if negb (String.eqb writeMode "append") && negb upsert then Err (Errorf "write_mode must be append or upsert" [])
  else if upsert && (length (ConflictColumns spec) =? 0)%nat then Err (Errorf "conflict_columns is required for upsert" [])
  else match parseIdentifier (TargetTable spec) with
  | Err e => Err (wrapf "target_table: " e)
  | Ok targetTable =>
  match sanitizeTargetColumns (TargetColumns spec) with
  | Err e => Err e
  | Ok targetColumns =>
  match sanitizeUnqualifiedIdentifiers (ConflictColumns spec) with
  | Err e => Err (wrapf "conflict_columns: " e)
  | Ok conflictColumns =>
  let updateColumns :=
    if upsert && (length (UpdateColumns spec) =? 0)%nat then nonConflictColumns (TargetColumns spec) (ConflictColumns spec)
    else UpdateColumns spec in
  match sanitizeUnqualifiedIdentifiers updateColumns with
  | Err e => Err (wrapf "update_columns: " e)
  | Ok sanitizedUpdateColumns =>
  if upsert && (length sanitizedUpdateColumns =? 0)%nat then Err (Errorf "upsert requires at least one update column" [])
  else match normalizeExtractSQL (ExtractSQL spec) with
  | Err e => Err (wrapf "extract_sql: " e)
  | Ok extractSQL =>
  let statement := "INSERT INTO " +:+ Sanitize targetTable +:+ " (" +:+ Join ", " targetColumns +:+ ")" +:+ nl +:+ extractSQL in
  if upsert then
    Ok (statement +:+ nl +:+ "ON CONFLICT (" +:+ Join ", " conflictColumns +:+ ") DO UPDATE SET "
          +:+ Join ", " (assignment <$> sanitizedUpdateColumns))
  else Ok statement
  end end end end end.

(** ** Lexical structure *)

(** A query as a sequence of words, other characters, string literals, quoted identifiers
    and comments. *)
Inductive Piece :=
| Word (w : string)
| Other (c : ascii)
| Literal (body : string)
| Name (body : string)
| LineComment (body : string)
| BlockComment (body : string).

(** A quote inside quotes is written twice. *)
Fixpoint doubled (q : ascii) (body : string) : string :=
  match body with
  | "" => ""
  | String c body' => if Ascii.eqb c q then String c (String c (doubled q body')) else String c (doubled q body')
  end.

Definition render (p : Piece) : string :=
  match p with
  | Word w => w
  | Other c => String c ""
  | Literal body => String squote (doubled squote body +:+ String squote "")
  | Name body => String dquote (doubled dquote body +:+ String dquote "")
  | LineComment body => "--" +:+ body +:+ nl
  | BlockComment body => "/*" +:+ body +:+ "*/"
  end.

Fixpoint render_all (ps : list Piece) : string :=
  match ps with [] => "" | p :: ps' => render p +:+ render_all ps' end.

Definition starts (f : ascii -> bool) (s : string) : bool := match s with String c _ => f c | "" => false end.

Fixpoint all_chars (f : ascii -> bool) (s : string) : bool :=
  match s with "" => true | String c s' => f c && all_chars f s' end.

(** The first end of a comment in [body ++ "*/"] is the one after [body]. *)
Fixpoint ends_comment (body : string) : bool :=
  match body with
  | "" => false
  | String c body' =>
      (Ascii.eqb c "*"%char && starts (fun d => Ascii.eqb d "/"%char) body') || ends_comment body'
  end.

(** The piece ends where it says it does when [after] follows. *)
Definition piece_ok (p : Piece) (after : string) : bool :=
  match p with
  | Word w => negb (String.eqb w "") && all_chars word_byte w && negb (starts word_byte after)
  | Other c =>
      negb (word_byte c) && negb (Ascii.eqb c squote) && negb (Ascii.eqb c dquote)
      && negb (Ascii.eqb c "-"%char && starts (fun d => Ascii.eqb d "-"%char) after)
      && negb (Ascii.eqb c "/"%char && starts (fun d => Ascii.eqb d "*"%char) after)
  | Literal _ => negb (starts (fun d => Ascii.eqb d squote) after)
  | Name _ => negb (starts (fun d => Ascii.eqb d dquote) after)
  | LineComment body => negb (contains_char newline body)
  | BlockComment body => negb (ends_comment (body +:+ "*"))
  end.

Fixpoint pieces_ok (ps : list Piece) (after : string) : bool :=
  match ps with
  | [] => true
  | p :: ps' => piece_ok p (render_all ps' +:+ after) && pieces_ok ps' after
  end.

Definition words (ps : list Piece) : list string :=
  omap (fun p => match p with Word w => Some (ToLower w) | _ => None end) ps.

(** *** The scanner, piece by piece *)

(** The tokens of a scan with its last flush. *)
Definition toks (m : Mode) (b : string) (sql : string) : list string :=
  let '(tokens, (_, b')) := scan m b sql in tokens ++ flush b'.

Lemma toks_emit ts r : (let '(tokens, (_, b')) := emit ts r in tokens ++ flush b') = ts ++ (let '(tokens, (_, b')) := r in tokens ++ flush b').
Proof. destruct r as [ts' [m b]]. unfold emit. simpl. by rewrite app_assoc. Qed.

Lemma word_byte_latin1 c : word_byte c = latin1_letter (byte_of c) || ascii_digit (byte_of c) || Ascii.eqb c "_"%char.
Proof. unfold word_byte. pose proof (byte_of_range c) as Hr. unfold is_byte in Hr. by rewrite IsLetter_latin1, IsDigit_latin1. Qed.

(** The characters with a meaning of their own are not part of words. *)
Lemma word_byte_plain c :
  word_byte c = true ->
  Ascii.eqb c "-"%char = false /\ Ascii.eqb c "/"%char = false /\ Ascii.eqb c squote = false /\ Ascii.eqb c dquote = false.
Proof.
  rewrite word_byte_latin1. intros Hw. split_and!; apply Ascii.eqb_neq; intros ->; vm_compute in Hw; discriminate.
Qed.

Lemma scan_word_byte b c s : word_byte c = true -> scan Normal b (String c s) = scan Normal (b +:+ String c "") s.
Proof. intros Hw. cbn [scan]. destruct (word_byte_plain c Hw) as (-> & -> & -> & ->). simpl. by rewrite Hw. Qed.

Lemma scan_word b w s : all_chars word_byte w = true -> scan Normal b (w +:+ s) = scan Normal (b +:+ w) s.
Proof.
  revert b. induction w as [|c w IH]; intros b Hw; [by rewrite str_app_nil_r|]. simpl in Hw. apply andb_true_iff in Hw as [Hc Hw].
  rewrite str_app_cons, scan_word_byte, IH by done. f_equal. by rewrite str_app_assoc.
Qed.

Lemma scan_other b c s :
  piece_ok (Other c) s = true -> scan Normal b (String c s) = emit (flush b) (scan Normal "" s).
Proof.
  simpl. rewrite !andb_true_iff, !negb_true_iff. intros ((((Hw & Hs) & Hd) & Hdash) & Hslash). cbn [scan].
  rewrite Hw, Hs, Hd. destruct s as [|c' s]; simpl in *.
  - by destruct (Ascii.eqb c "-"%char), (Ascii.eqb c "/"%char).
  - rewrite Hdash, Hslash. done.
Qed.

(** A quoted piece is skipped up to the quote that closes it. *)
Lemma scan_literal b body s :
  starts (fun d => Ascii.eqb d squote) s = false ->
  scan InSingleQuote b (doubled squote body +:+ String squote s) = scan Normal b s.
Proof.
  intros Hs. induction body as [|c body IH]; cbn [doubled].
  - destruct s as [|c s]; [done|]. simpl in Hs. rewrite str_app_nil_l. cbn [scan]. by rewrite Ascii.eqb_refl, Hs.
  - destruct (Ascii.eqb c squote) eqn:Hc; rewrite !str_app_cons; cbn [scan]; rewrite Hc; exact IH.
Qed.

Lemma scan_name b body s :
  starts (fun d => Ascii.eqb d dquote) s = false ->
  scan InDoubleQuote b (doubled dquote body +:+ String dquote s) = scan Normal b s.
Proof.
  intros Hs. induction body as [|c body IH]; cbn [doubled].
  - destruct s as [|c s]; [done|]. simpl in Hs. rewrite str_app_nil_l. cbn [scan]. by rewrite Ascii.eqb_refl, Hs.
  - destruct (Ascii.eqb c dquote) eqn:Hc; rewrite !str_app_cons; cbn [scan]; rewrite Hc; exact IH.
Qed.

Lemma scan_line b body s :
  contains_char newline body = false -> scan InLineComment b (body +:+ String newline s) = scan Normal b s.
Proof.
  induction body as [|c body IH]; [done|]. rewrite str_app_cons. cbn [contains_char scan]. intros [Hc Hb]%orb_false_iff.
  rewrite Ascii.eqb_sym in Hc. destruct (Ascii.eqb c newline) eqn:Hc'; [|auto]. rewrite Ascii.eqb_sym in Hc'. congruence.
Qed.

Lemma scan_block b body s :
  ends_comment (body +:+ "*") = false -> scan InBlockComment b (body +:+ "*/" +:+ s) = scan Normal b s.
Proof.
  induction body as [|c body IH]; [done|]. rewrite !str_app_cons. cbn [ends_comment scan]. intros [Hc Hb]%orb_false_iff.
  destruct body as [|d body]; [by rewrite str_app_nil_l, andb_false_r; apply IH|]. rewrite str_app_cons in Hc |- *. cbn [starts] in Hc. rewrite Hc. auto.
Qed.

(** Before anything but a word byte, the word in the builder is complete. *)
Lemma toks_flush b s : starts word_byte s = false -> toks Normal b s = flush b ++ toks Normal "" s.
Proof.
  intros Hs. unfold toks. destruct s as [|c s]; [symmetry; apply app_nil_r|]. simpl in Hs. cbn [scan]. rewrite Hs.
  destruct (_ && _); [by rewrite !toks_emit|]. destruct (_ && _); [by rewrite !toks_emit|].
  destruct (Ascii.eqb c squote); [by rewrite !toks_emit|]. destruct (Ascii.eqb c dquote); by rewrite !toks_emit.
Qed.

Lemma toks_piece p s : piece_ok p s = true -> toks Normal "" (render p +:+ s) = words [p] ++ toks Normal "" s.
Proof.
  destruct p as [w|c|body|body|body|body]; intros Hok; cbn [render].
  - simpl in Hok. apply andb_true_iff in Hok as [Hok Hs]. apply andb_true_iff in Hok as [Hne Hw]. apply negb_true_iff in Hs.
    unfold toks at 1. rewrite scan_word by done. fold (toks Normal ("" +:+ w) s). rewrite str_app_nil_l, toks_flush by done.
    by destruct w.
  - rewrite str_app_cons, str_app_nil_l. unfold toks at 1. by rewrite scan_other, toks_emit.
  - simpl in Hok. apply negb_true_iff in Hok. unfold toks. rewrite str_app_cons, str_app_assoc, str_app_cons, str_app_nil_l.
    change (scan Normal "" (String squote (doubled squote body +:+ String squote s)))
      with (emit (flush "") (scan InSingleQuote "" (doubled squote body +:+ String squote s))).
    by rewrite scan_literal, toks_emit.
  - simpl in Hok. apply negb_true_iff in Hok. unfold toks. rewrite str_app_cons, str_app_assoc, str_app_cons, str_app_nil_l.
    change (scan Normal "" (String dquote (doubled dquote body +:+ String dquote s)))
      with (emit (flush "") (scan InDoubleQuote "" (doubled dquote body +:+ String dquote s))).
    by rewrite scan_name, toks_emit.
  - simpl in Hok. apply negb_true_iff in Hok. unfold toks. rewrite !str_app_assoc. unfold nl. rewrite ?str_app_cons, ?str_app_nil_l.
    change (scan Normal "" (String "-" (String "-" (body +:+ String newline s)))) with (emit (flush "") (scan InLineComment "" (body +:+ String newline s))).
    by rewrite scan_line, toks_emit.
  - simpl in Hok. apply negb_true_iff in Hok. unfold toks. rewrite !str_app_assoc.
    change (scan Normal "" ("/*" +:+ (body +:+ ("*/" +:+ s)))) with (emit (flush "") (scan InBlockComment "" (body +:+ "*/" +:+ s))).
    by rewrite scan_block, toks_emit.
Qed.

Lemma toks_pieces ps s : pieces_ok ps s = true -> toks Normal "" (render_all ps +:+ s) = words ps ++ toks Normal "" s.
Proof.
  induction ps as [|p ps IH]; [done|]. cbn [pieces_ok render_all]. intros [Hp Hps]%andb_true_iff.
  rewrite str_app_assoc, toks_piece, IH by done. rewrite app_assoc. f_equal. unfold words. simpl. by destruct p.
Qed.

(** C31: sqlTokens reads a query as SQL does.  However words, other characters, string literals
    and quoted identifiers (with doubled quotes), line comments and block comments follow
    each other in a query, sqlTokens returns exactly its words, in order and in lower case:
    nothing inside quotes or comments, and no word is missed. *)
Theorem sqlTokens_words ps : pieces_ok ps "" = true -> sqlTokens (render_all ps) = words ps.
Proof.
  intros Hok. pose proof (toks_pieces ps "" Hok) as H1. rewrite str_app_nil_r in H1. unfold toks in H1. unfold sqlTokens.
  rewrite H1. apply app_nil_r.
Qed.

(** ** Identifiers contain nothing that has a meaning to the lexer *)

Definition tame (c : ascii) : bool :=
  negb (Ascii.eqb c "-"%char) && negb (Ascii.eqb c "/"%char) && negb (Ascii.eqb c "*"%char) && negb (Ascii.eqb c squote)
  && negb (Ascii.eqb c dquote) && negb (Ascii.eqb c newline) && negb (Ascii.eqb c (ascii_of 0)).

Definition tame_name (n : string) : bool := negb (String.eqb n "") && all_chars tame n.

Lemma all_chars_spec f s : all_chars f s = true <-> forall b, b ∈ bytes_of_string s -> f (ascii_of b) = true.
Proof.
  induction s as [|c s IH]; simpl; [split; [|done]; intros _ b Hb%elem_of_nil; done|].
  rewrite andb_true_iff, IH. change (bytes_of_string (String c s)) with (byte_of c :: bytes_of_string s).
  setoid_rewrite elem_of_cons. split.
  - intros [Hc Hs] b [->|Hb]; [by rewrite ascii_of_byte_of|auto].
  - intros Hall. split; [|auto]. rewrite <- (ascii_of_byte_of c). auto.
Qed.

Lemma valid_tame value : validIdentifierPart value = true -> tame_name value = true.
Proof.
  unfold validIdentifierPart, tame_name. intros Hv. apply andb_true_iff. split; [by destruct value|].
  apply all_chars_spec. intros b Hb. destruct (tame (ascii_of b)) eqn:Ht; [done|]. exfalso.
  assert (is_byte b) as Hr by (pose proof (bytes_range value) as HF; rewrite Forall_forall in HF; auto).
  assert (b ∈ [45; 47; 42; 39; 34; 10; 0]) as Hin.
  { unfold tame in Ht. repeat (rewrite andb_false_iff in Ht; destruct Ht as [Ht|Ht]); apply negb_false_iff, Ascii.eqb_eq in Ht;
      apply (f_equal byte_of) in Ht; rewrite byte_of_ascii_of in Ht by done; subst b; vm_compute; repeat constructor. }
  assert (b < 128 /\ IsLetter b = false /\ IsDigit b = false /\ b <> 95) as (Hlt & Hl & Hd & H95).
  { rewrite IsLetter_latin1, IsDigit_latin1 by done. clear -Hin.
    repeat (apply elem_of_cons in Hin as [->|Hin]; [done|]). by apply elem_of_nil in Hin. }
  assert (forall first, ident_rune first b = false) as Hno.
  { intros first. unfold ident_rune. rewrite Hl, Hd, andb_false_r, !orb_false_r. by apply Z.eqb_neq. }
  apply (runes_ascii_byte value b) in Hb; [|done]. destruct (runes value).*1 as [|r rs]; [done|].
  apply andb_true_iff in Hv as [Hr0 Hrs]. apply elem_of_cons in Hb as [->|Hb]; [by rewrite Hno in Hr0|].
  rewrite forallb_forall in Hrs. specialize (Hrs b). rewrite Hno in Hrs. apply list_elem_of_In in Hb. by specialize (Hrs Hb).
Qed.

(** ** The statement in pieces *)

(** [k] after the names, separated by dots, by commas, or as assignments. *)
Fixpoint dotted (names : list string) (k : list Piece) : list Piece :=
  match names with
  | [] => k
  | [n] => Name n :: k
  | n :: ns => Name n :: Other "."%char :: dotted ns k
  end.

Fixpoint listed (names : list string) (k : list Piece) : list Piece :=
  match names with
  | [] => k
  | [n] => Name n :: k
  | n :: ns => Name n :: Other ","%char :: Other " "%char :: listed ns k
  end.

Definition assigned1 (n : string) (k : list Piece) : list Piece :=
  Name n :: Other " "%char :: Other "="%char :: Other " "%char :: Word "EXCLUDED" :: Other "."%char :: Name n :: k.

Fixpoint assigned (names : list string) (k : list Piece) : list Piece :=
  match names with
  | [] => k
  | [n] => assigned1 n k
  | n :: ns => assigned1 n (Other ","%char :: Other " "%char :: assigned ns k)
  end.

Definition insert_pieces (table columns : list string) : list Piece :=
  Word "INSERT" :: Other " "%char :: Word "INTO" :: Other " "%char ::
  dotted table (Other " "%char :: Other "("%char :: listed columns [Other ")"%char]).

Definition conflict_pieces (conflict update : list string) : list Piece :=
  Word "ON" :: Other " "%char :: Word "CONFLICT" :: Other " "%char :: Other "("%char ::
  listed conflict (Other ")"%char :: Other " "%char :: Word "DO" :: Other " "%char :: Word "UPDATE" :: Other " "%char ::
    Word "SET" :: Other " "%char :: assigned update []).

(** Words and names are separated by a character that is neither part of a word nor starts
    a quote or a comment. *)
Definition separator (c : ascii) : bool := tame c && negb (word_byte c) || Ascii.eqb c newline.

Fixpoint calm (ps : list Piece) : bool :=
  match ps with
  | [] => true
  | Other c :: ps' => separator c && calm ps'
  | p :: ps' =>
      match p with
      | Word w => negb (String.eqb w "") && all_chars word_byte w && all_chars tame w
      | Name n => tame_name n
      | _ => false
      end
      && match ps' with Other _ :: _ | [] => true | _ => false end && calm ps'
  end.

Lemma separator_spec c : separator c = true ->
  word_byte c = false /\ Ascii.eqb c "-"%char = false /\ Ascii.eqb c "/"%char = false /\ Ascii.eqb c squote = false /\ Ascii.eqb c dquote = false.
Proof.
  unfold separator, tame. intros [Hs|Hn%Ascii.eqb_eq]%orb_true_iff.
  - rewrite !andb_true_iff, !negb_true_iff in Hs. tauto.
  - subst c. by rewrite word_byte_latin1.
Qed.

Lemma calm_ok ps after :
  calm ps = true -> starts (fun c => negb (separator c)) after = false -> pieces_ok ps after = true.
Proof.
  intros Hc Hafter. induction ps as [|p ps IH]; [done|]. cbn [pieces_ok].
  assert (calm ps = true) as Hps by (destruct p; cbn [calm] in Hc; rewrite ?andb_true_iff in Hc; tauto).
  rewrite (IH Hps), andb_true_r.
  assert (forall f, (forall c, separator c = true -> f c = false) ->
    match ps with Other _ :: _ | [] => true | _ => false end = true -> starts f (render_all ps +:+ after) = false) as Hstart.
  { intros f Hf Hshape. destruct ps as [|[| c| | | |] ps]; try done.
    - destruct after as [|c after]; [done|]. simpl in *. apply Hf. by apply negb_false_iff.
    - cbn [calm] in Hps. apply andb_true_iff in Hps as [Hsep _]. simpl. auto. }
  destruct p as [w|c|body|n|body|body]; cbn [calm] in Hc; rewrite ?andb_true_iff in Hc; try (destruct Hc as [[Hc _] _]; discriminate).
  - destruct Hc as [[[[Hne Hw] _] Hshape] _]. cbn [piece_ok]. rewrite Hne, Hw, (Hstart word_byte); [done| |done].
    intros c Hsep. by apply separator_spec in Hsep as (? & _).
  - destruct Hc as [Hsep _]. apply separator_spec in Hsep as (H1 & H2 & H3 & H4 & H5). cbn [piece_ok].
    by rewrite H1, H2, H3, H4, H5.
  - destruct Hc as [[_ Hshape] _]. cbn [piece_ok]. rewrite Hstart; [done| |done].
    intros c Hsep. by apply separator_spec in Hsep as (_ & _ & _ & _ & ?).
Qed.

(** What [dotted], [listed] and [assigned] write, and that they are calm. *)
Definition opens_other (k : list Piece) : bool := match k with Other _ :: _ | [] => true | _ => false end.

Lemma tame_doubled n : all_chars tame n = true -> doubled dquote n = n.
Proof.
  induction n as [|c n IH]; [done|]. simpl. intros [Hc Hn]%andb_true_iff. rewrite IH by done.
  unfold tame in Hc. rewrite !andb_true_iff, !negb_true_iff in Hc. destruct Hc as [[[_ ->] _] _]. done.
Qed.

Lemma render_name n : tame_name n = true -> render (Name n) = quoted n.
Proof. unfold tame_name. intros [_ Hn]%andb_true_iff. simpl. by rewrite tame_doubled. Qed.

Lemma Join_cons sep x y l : Join sep (x :: y :: l) = x +:+ sep +:+ Join sep (y :: l).
Proof. done. Qed.

Lemma render_dotted names k :
  forallb tame_name names = true -> render_all (dotted names k) = Join "." (quoted <$> names) +:+ render_all k.
Proof.
  induction names as [|n [|n' names] IH]; intros Hn; [done| |]; cbn [forallb] in Hn; apply andb_true_iff in Hn as [Hn Hns].
  - cbn [dotted render_all]. by rewrite render_name.
  - change (dotted (n :: n' :: names) k) with (Name n :: Other "."%char :: dotted (n' :: names) k). cbn [render_all].
    rewrite render_name, (IH Hns), !fmap_cons, Join_cons, !str_app_assoc by done. done.
Qed.

Lemma render_listed names k :
  forallb tame_name names = true -> render_all (listed names k) = Join ", " (quoted <$> names) +:+ render_all k.
Proof.
  induction names as [|n [|n' names] IH]; intros Hn; [done| |]; cbn [forallb] in Hn; apply andb_true_iff in Hn as [Hn Hns].
  - cbn [listed render_all]. by rewrite render_name.
  - change (listed (n :: n' :: names) k) with (Name n :: Other ","%char :: Other " "%char :: listed (n' :: names) k). cbn [render_all].
    rewrite render_name, (IH Hns), !fmap_cons, Join_cons, !str_app_assoc by done. done.
Qed.

Lemma render_assigned1 n k : tame_name n = true -> render_all (assigned1 n k) = assignment (quoted n) +:+ render_all k.
Proof.
  intros Hn. unfold assigned1, assignment. cbn [render_all]. rewrite render_name, !str_app_assoc by done. done.
Qed.

Lemma render_assigned names k :
  forallb tame_name names = true -> render_all (assigned names k) = Join ", " (assignment <$> (quoted <$> names)) +:+ render_all k.
Proof.
  induction names as [|n [|n' names] IH]; intros Hn; [done| |]; cbn [forallb] in Hn; apply andb_true_iff in Hn as [Hn Hns].
  - cbn [assigned]. by rewrite render_assigned1.
  - change (assigned (n :: n' :: names) k) with (assigned1 n (Other ","%char :: Other " "%char :: assigned (n' :: names) k)).
    rewrite render_assigned1 by done. cbn [render_all]. rewrite (IH Hns), !fmap_cons, Join_cons, !str_app_assoc by done. done.
Qed.

Lemma calm_dotted names k :
  forallb tame_name names = true -> calm k = true -> opens_other k = true -> calm (dotted names k) = true.
Proof.
  intros Hn Hk Ho. induction names as [|n [|n' names] IH]; [done| |]; cbn [forallb] in Hn; apply andb_true_iff in Hn as [Hn Hns].
  - cbn [dotted calm]. unfold opens_other in Ho. by rewrite Hn, Ho, Hk.
  - change (dotted (n :: n' :: names) k) with (Name n :: Other "."%char :: dotted (n' :: names) k). cbn [calm].
    rewrite Hn, (IH Hns). unfold separator. by rewrite word_byte_latin1.
Qed.

Lemma calm_listed names k :
  forallb tame_name names = true -> calm k = true -> opens_other k = true -> calm (listed names k) = true.
Proof.
  intros Hn Hk Ho. induction names as [|n [|n' names] IH]; [done| |]; cbn [forallb] in Hn; apply andb_true_iff in Hn as [Hn Hns].
  - cbn [listed calm]. unfold opens_other in Ho. by rewrite Hn, Ho, Hk.
  - change (listed (n :: n' :: names) k) with (Name n :: Other ","%char :: Other " "%char :: listed (n' :: names) k). cbn [calm].
    rewrite Hn, (IH Hns). unfold separator. by rewrite !word_byte_latin1.
Qed.

(** The fixed words and separators evaluate. *)
Ltac calm_fixed :=
  cbn [calm all_chars]; unfold separator; rewrite ?word_byte_latin1.

Lemma calm_assigned names k :
  forallb tame_name names = true -> calm k = true -> opens_other k = true -> calm (assigned names k) = true.
Proof.
  intros Hn Hk Ho. induction names as [|n [|n' names] IH]; [done| |]; cbn [forallb] in Hn; apply andb_true_iff in Hn as [Hn Hns].
  - cbn [assigned]. unfold assigned1. calm_fixed. unfold opens_other in Ho. by rewrite Hn, Ho, Hk.
  - change (assigned (n :: n' :: names) k) with (assigned1 n (Other ","%char :: Other " "%char :: assigned (n' :: names) k)).
    unfold assigned1. calm_fixed. by rewrite Hn, (IH Hns).
Qed.

Lemma insert_calm table columns :
  forallb tame_name table = true -> forallb tame_name columns = true -> calm (insert_pieces table columns) = true.
Proof.
  intros Ht Hc. unfold insert_pieces. calm_fixed. rewrite calm_dotted; [done|done| |done]. calm_fixed. rewrite calm_listed; [done|done| |done].
  calm_fixed. done.
Qed.

Lemma conflict_calm conflict update :
  forallb tame_name conflict = true -> forallb tame_name update = true -> calm (conflict_pieces conflict update) = true.
Proof.
  intros Hc Hu. unfold conflict_pieces. calm_fixed. rewrite calm_listed; [done|done| |done]. calm_fixed. rewrite calm_assigned; [done|done|done|done].
Qed.

(** ** A newline after the query *)

Lemma emit_emit ts ts' r : emit ts (emit ts' r) = emit (ts ++ ts') r.
Proof. unfold emit. simpl. by rewrite app_assoc. Qed.

Lemma emit_nil r : emit [] r = r.
Proof. by destruct r. Qed.

(** One iteration: tokens, flags, builder, and whether it takes [next] too. *)
Definition turn (m : Mode) (b : string) (ch next : ascii) : list string * (Mode * string) * bool :=
  match m with
  | InLineComment => ([], (if Ascii.eqb ch newline then Normal else InLineComment, b), false)
  | InBlockComment =>
      if Ascii.eqb ch "*"%char && Ascii.eqb next "/"%char then ([], (Normal, b), true) else ([], (InBlockComment, b), false)
  | InSingleQuote =>
      if Ascii.eqb ch squote then
        if Ascii.eqb next squote then ([], (InSingleQuote, b), true) else ([], (Normal, b), false)
      else ([], (InSingleQuote, b), false)
  | InDoubleQuote =>
      if Ascii.eqb ch dquote then
        if Ascii.eqb next dquote then ([], (InDoubleQuote, b), true) else ([], (Normal, b), false)
      else ([], (InDoubleQuote, b), false)
  | Normal =>
      if Ascii.eqb ch "-"%char && Ascii.eqb next "-"%char then (flush b, (InLineComment, ""), true)
      else if Ascii.eqb ch "/"%char && Ascii.eqb next "*"%char then (flush b, (InBlockComment, ""), true)
      else if Ascii.eqb ch squote then (flush b, (InSingleQuote, ""), false)
      else if Ascii.eqb ch dquote then (flush b, (InDoubleQuote, ""), false)
      else if word_byte ch then ([], (Normal, b +:+ String ch ""), false)
      else (flush b, (Normal, ""), false)
  end.

Definition first_char (s : string) : ascii := match s with String c _ => c | "" => ascii_of 0 end.
Definition tail (s : string) : string := match s with String _ s' => s' | "" => "" end.

Lemma scan_cons m b ch rest :
  scan m b (String ch rest) =
  let '(ts, (m', b'), skip) := turn m b ch (first_char rest) in emit ts (scan m' b' (if skip : bool then tail rest else rest)).
Proof.
  unfold turn, first_char, tail. cbn [scan].
  destruct m; repeat match goal with |- context [if ?x then _ else _] => destruct x end; rewrite ?emit_nil; by destruct rest.
Qed.

Lemma turn_newline m b ch : turn m b ch newline = turn m b ch (ascii_of 0).
Proof. unfold turn. by destruct m. Qed.

Lemma turn_skip m b ch : (turn m b ch (ascii_of 0)).2 = false.
Proof.
  unfold turn. destruct m; simpl; rewrite ?andb_false_r; repeat match goal with |- context [if ?x then _ else _] => destruct x end; done.
Qed.

(** Scanning goes on after a newline where it was before it. *)
Lemma scan_newline s1 m b s2 :
  scan m b (s1 +:+ String newline s2) = emit (scan m b s1).1 (scan (scan m b s1).2.1 (scan m b s1).2.2 (String newline s2)).
Proof.
  remember (String.length s1) as n eqn:Hlen. revert s1 Hlen m b. induction n as [n IHn] using lt_wf_ind. intros s1 -> m b.
  destruct s1 as [|c s1]; [by rewrite str_app_nil_l, emit_nil|]. rewrite str_app_cons, (scan_cons m b c (s1 +:+ _)), (scan_cons m b c s1). destruct s1 as [|d s1].
  - rewrite str_app_nil_l. cbn [first_char]. rewrite turn_newline. pose proof (turn_skip m b c) as Hskip.
    destruct (turn m b c (ascii_of 0)) as [[ts [m' b']] skip]. simpl in Hskip. subst skip. change (scan m' b' "") with (([], (m', b')) : list string * (Mode * string)).
    cbn [emit fst snd]. by rewrite app_nil_r.
  - rewrite str_app_cons. cbn [first_char tail]. destruct (turn m b c d) as [[ts [m' b']] skip].
    destruct skip; [rewrite (IHn (String.length s1) ltac:(simpl; lia) s1 eq_refl)|
      rewrite <- str_app_cons, (IHn (String.length (String d s1)) ltac:(simpl; lia) (String d s1) eq_refl)];
      rewrite emit_emit; done.
Qed.

(** Outside words the builder is empty. *)
Lemma scan_builder sql m b : m = Normal \/ b = "" -> (scan m b sql).2.1 = Normal \/ (scan m b sql).2.2 = "".
Proof.
  remember (String.length sql) as n eqn:Hlen. revert sql Hlen m b. induction n as [n IHn] using lt_wf_ind. intros sql -> m b Hb.
  destruct sql as [|c sql]; [done|]. rewrite scan_cons.
  assert ((turn m b c (first_char sql)).1.2.1 = Normal \/ (turn m b c (first_char sql)).1.2.2 = "") as Hturn.
  { unfold turn. destruct m, Hb; try done; subst; repeat match goal with |- context [if ?x then _ else _] => destruct x end; simpl; auto. }
  destruct (turn m b c (first_char sql)) as [[ts [m' b']] skip]. simpl in Hturn. cbn [emit snd].
  apply (IHn (String.length (if skip : bool then tail sql else sql))); [|done|done]. destruct skip; [destruct sql|]; simpl; lia.
Qed.

(** ** Modes at the end *)

(** The text ends inside quotes or a block comment. *)
Definition ends_open (sql : string) : bool :=
  match (scan Normal "" sql).2.1 with InBlockComment | InSingleQuote | InDoubleQuote => true | _ => false end.

Lemma newline_separator s : piece_ok (Other newline) s = true.
Proof. cbn [piece_ok]. by rewrite word_byte_latin1. Qed.

Lemma separator_ok c s : separator c = true -> piece_ok (Other c) s = true.
Proof. intros (H1 & H2 & H3 & H4 & H5)%separator_spec. cbn [piece_ok]. by rewrite H1, H2, H3, H4, H5. Qed.

Lemma calm_tail p ps : calm (p :: ps) = true -> calm ps = true.
Proof. destruct p; cbn [calm]; rewrite ?andb_true_iff; tauto. Qed.

Lemma calm_starts p ps :
  calm (p :: ps) = true -> match p with Other _ => False | _ => True end -> starts (fun d => Ascii.eqb d dquote) (render_all ps) = false.
Proof.
  intros Hc Hp. pose proof (calm_tail p ps Hc) as Hps. destruct ps as [|[| c| | | |] ps]; destruct p; cbn [calm] in Hc; try done;
    rewrite ?andb_true_iff in Hc; try (destruct Hc as [[_ Hc] _]; discriminate);
    cbn [calm] in Hps; apply andb_true_iff in Hps as [Hsep _]; simpl; by apply separator_spec in Hsep as (_ & _ & _ & _ & ?).
Qed.

Lemma scan_quoted b n s :
  tame_name n = true -> starts (fun d => Ascii.eqb d dquote) s = false ->
  scan Normal b (quoted n +:+ s) = emit (flush b) (scan Normal "" s).
Proof.
  intros Hn Hs. unfold quoted. rewrite str_app_cons, str_app_assoc, str_app_cons, str_app_nil_l.
  rewrite <- (scan_name "" n s Hs). apply andb_true_iff in Hn as [_ Hn]. rewrite tame_doubled by done. reflexivity.
Qed.

(** Inside double quotes, the name between two quotes is outside and what separates names
    is inside. *)
Lemma scan_tame b n s : all_chars tame n = true -> exists ts b', scan Normal b (n +:+ s) = emit ts (scan Normal b' s).
Proof.
  revert b. induction n as [|c n IH]; intros b Hn; [exists [], b; by rewrite emit_nil|].
  simpl in Hn. apply andb_true_iff in Hn as [Hc Hn]. rewrite str_app_cons, scan_cons.
  unfold tame in Hc. rewrite !andb_true_iff, !negb_true_iff in Hc. destruct Hc as [[[[[[H1 H2] _] H3] H4] _] _]. unfold turn. rewrite H1, H2, H3, H4. simpl.
  destruct (word_byte c); [destruct (IH (b +:+ String c "") Hn) as (ts & b' & ->)|destruct (IH "" Hn) as (ts & b' & ->)];
    rewrite emit_emit; eauto.
Qed.

Lemma scan_inside b w s :
  all_chars (fun c => negb (Ascii.eqb c dquote)) w = true -> scan InDoubleQuote b (w +:+ s) = scan InDoubleQuote b s.
Proof.
  induction w as [|c w IH]; [done|]. simpl. intros [Hc Hw]%andb_true_iff. apply negb_true_iff in Hc. rewrite Hc. auto.
Qed.

Lemma scan_flipped b n s :
  tame_name n = true -> exists ts, scan InDoubleQuote b (quoted n +:+ s) = emit ts (scan InDoubleQuote "" s).
Proof.
  intros [Hne Hn]%andb_true_iff. unfold quoted. rewrite str_app_cons, str_app_assoc, str_app_cons, str_app_nil_l, scan_cons.
  destruct n as [|c n]; [done|]. assert (Ascii.eqb c dquote = false) as Hc.
  { simpl in Hn. unfold tame in Hn. rewrite !andb_true_iff, !negb_true_iff in Hn. tauto. }
  rewrite str_app_cons. cbn [first_char]. unfold turn. rewrite Ascii.eqb_refl, Hc. rewrite <- str_app_cons.
  destruct (scan_tame b (String c n) (String dquote s) Hn) as (ts & b' & ->). rewrite emit_emit. simpl app.
  exists (ts ++ flush b'). rewrite <- emit_emit. reflexivity.
Qed.

(** Calm pieces leave the scanner where it was: in a quote or comment opened before them, or
    outside. *)
Lemma calm_normal ps b : calm ps = true -> (scan Normal b (render_all ps)).2.1 = Normal.
Proof.
  revert b. induction ps as [|p ps IH]; intros b Hcalm; [done|]. pose proof (calm_tail p ps Hcalm) as Hps. pose proof Hcalm as Hc. cbn [render_all].
  destruct p as [w|c|body|n|body|body]; cbn [calm] in Hc; rewrite ?andb_true_iff in Hc; try (destruct Hc as [[Hc _] _]; discriminate).
  - cbn [render]. rewrite scan_word by tauto. by apply IH.
  - cbn [render]. rewrite str_app_cons, str_app_nil_l, scan_other by (apply separator_ok; tauto). cbn [emit snd]. by apply IH.
  - rewrite render_name, scan_quoted; [by apply IH|tauto|by apply (calm_starts (Name n))|tauto].
Qed.

Lemma calm_double ps b : calm ps = true -> (scan InDoubleQuote b (render_all ps)).2.1 = InDoubleQuote.
Proof.
  assert (forall c, tame c = true -> negb (Ascii.eqb c dquote) = true) as Ht.
  { intros c. unfold tame. rewrite !andb_true_iff. tauto. }
  revert b. induction ps as [|p ps IH]; intros b Hcalm; [done|]. pose proof (calm_tail p ps Hcalm) as Hps. pose proof Hcalm as Hc. cbn [render_all].
  destruct p as [w|c|body|n|body|body]; cbn [calm] in Hc; rewrite ?andb_true_iff in Hc; try (destruct Hc as [[Hc _] _]; discriminate).
  - cbn [render]. rewrite scan_inside; [by apply IH|]. destruct Hc as [[[_ Hw] _] _]. rewrite all_chars_spec in Hw |- *. auto.
  - cbn [render]. rewrite scan_inside; [by apply IH|]. simpl. destruct Hc as [Hsep _]. apply separator_spec in Hsep as (_ & _ & _ & _ & ->). done.
  - rewrite render_name by tauto. destruct (scan_flipped b n (render_all ps)) as [ts ->]; [tauto|]. by apply IH.
Qed.

(** No piece contains a single quote or an asterisk. *)
Definition no_end (c : ascii) : bool := negb (Ascii.eqb c squote) && negb (Ascii.eqb c "*"%char).

Lemma all_chars_app f s1 s2 : all_chars f (s1 +:+ s2) = all_chars f s1 && all_chars f s2.
Proof. induction s1 as [|c s1 IH]; [done|]. simpl. by rewrite IH, andb_assoc. Qed.

Lemma calm_no_end ps : calm ps = true -> all_chars no_end (render_all ps) = true.
Proof.
  assert (forall c, tame c = true -> no_end c = true) as Ht.
  { intros c. unfold tame, no_end. rewrite !andb_true_iff. tauto. }
  induction ps as [|p ps IH]; intros Hcalm; [done|]. rewrite (calm_tail p ps Hcalm) in IH. cbn [render_all]. rewrite all_chars_app, IH, andb_true_r by done.
  destruct p as [w|c|body|n|body|body]; cbn [calm] in Hcalm; rewrite ?andb_true_iff in Hcalm; try (destruct Hcalm as [[Hc _] _]; discriminate).
  - destruct Hcalm as [[[_ Hw] _] _]. cbn [render]. rewrite all_chars_spec in Hw |- *. auto.
  - destruct Hcalm as [Hsep _]. cbn [render all_chars]. unfold separator in Hsep.
    apply orb_true_iff in Hsep as [[Hsep _]%andb_true_iff| ->%Ascii.eqb_eq]; [by rewrite Ht|done].
  - destruct Hcalm as [[Hn _] _]. rewrite render_name by done. unfold quoted. cbn [all_chars]. rewrite all_chars_app.
    apply andb_true_iff in Hn as [_ Hn]. replace (all_chars no_end n) with true; [done|]. symmetry. rewrite all_chars_spec in Hn |- *. auto.
Qed.

Lemma scan_stays m b s : m = InSingleQuote \/ m = InBlockComment -> all_chars no_end s = true -> (scan m b s).2.1 = m.
Proof.
  intros Hm. induction s as [|c s IH]; [done|]. simpl all_chars. intros [Hc Hs]%andb_true_iff.
  unfold no_end in Hc. apply andb_true_iff in Hc as [H1%negb_true_iff H2%negb_true_iff].
  rewrite scan_cons. unfold turn. destruct Hm as [-> | ->]; rewrite ?H1, ?H2; cbn [andb emit snd]; auto.
Qed.

(** ** The tokens of the statement *)

Lemma words_dotted names k : words (dotted names k) = words k.
Proof.
  induction names as [|n [|n' names] IH]; [done|done|].
  change (dotted (n :: n' :: names) k) with (Name n :: Other "."%char :: dotted (n' :: names) k). exact IH.
Qed.

Lemma words_listed names k : words (listed names k) = words k.
Proof.
  induction names as [|n [|n' names] IH]; [done|done|].
  change (listed (n :: n' :: names) k) with (Name n :: Other ","%char :: Other " "%char :: listed (n' :: names) k). exact IH.
Qed.

Ltac lower_fixed := rewrite !ToLower_ascii by repeat constructor.

Lemma words_assigned1 n k : words (assigned1 n k) = "excluded" :: words k.
Proof. unfold words, assigned1. simpl. lower_fixed. reflexivity. Qed.

Lemma words_assigned names : words (assigned names []) = replicate (length names) "excluded".
Proof.
  induction names as [|n [|n' names] IH]; [done|apply words_assigned1|].
  change (assigned (n :: n' :: names) []) with (assigned1 n (Other ","%char :: Other " "%char :: assigned (n' :: names) [])).
  rewrite words_assigned1. cbn [length replicate]. f_equal. exact IH.
Qed.

Lemma words_cons p ps : words (p :: ps) = match p with Word w => ToLower w :: words ps | _ => words ps end.
Proof. by destruct p. Qed.

Lemma words_insert table columns : words (insert_pieces table columns) = ["insert"; "into"].
Proof. unfold insert_pieces. rewrite !words_cons, words_dotted, !words_cons, words_listed, words_cons. lower_fixed. reflexivity. Qed.

Lemma words_conflict conflict update :
  words (conflict_pieces conflict update) = ["on"; "conflict"; "do"; "update"; "set"] ++ replicate (length update) "excluded".
Proof.
  unfold conflict_pieces. rewrite !words_cons, words_listed, !words_cons, words_assigned. lower_fixed. reflexivity.
Qed.

(** Pieces, a newline, and more text. *)
Lemma toks_after_newline ps s :
  calm ps = true -> toks Normal "" (render_all ps +:+ String newline s) = words ps ++ toks Normal "" s.
Proof.
  intros Hc. rewrite toks_pieces by (apply calm_ok; [done|]; done).
  f_equal. unfold toks at 1. by rewrite scan_other, toks_emit by apply newline_separator.
Qed.

Lemma mode_after_newline ps s :
  calm ps = true -> (scan Normal "" (render_all ps +:+ String newline s)).2.1 = (scan Normal "" s).2.1.
Proof.
  intros Hc. rewrite scan_newline. cbn [emit snd]. rewrite calm_normal, scan_other by (done || apply newline_separator). done.
Qed.

(** A query, a newline and calm pieces. *)
Lemma toks_query_then query ps :
  calm ps = true -> ends_open query = false ->
  toks Normal "" (query +:+ String newline (render_all ps)) = sqlTokens query ++ words ps.
Proof.
  intros Hc Ho. unfold ends_open in Ho. unfold toks, sqlTokens. rewrite scan_newline, toks_emit.
  pose proof (scan_builder query Normal "" (or_introl eq_refl)) as Hb. destruct (scan Normal "" query) as [ts [m b]]. cbn [fst snd] in *.
  rewrite <- app_assoc. f_equal. fold (toks m b (String newline (render_all ps))).
  assert (toks Normal "" (render_all ps) = words ps) as Hw.
  { rewrite <- (str_app_nil_r (render_all ps)), toks_pieces by (by apply calm_ok). apply app_nil_r. }
  destruct m; try done.
  - unfold toks. rewrite scan_other, toks_emit by apply newline_separator. f_equal. exact Hw.
  - destruct Hb as [?| ->]; [done|]. exact Hw.
Qed.

Lemma open_query_then query ps :
  calm ps = true -> ends_open query = true -> ends_open (query +:+ String newline (render_all ps)) = true.
Proof.
  intros Hc Ho. unfold ends_open in *. rewrite scan_newline. cbn [emit snd]. destruct (scan Normal "" query) as [ts [m b]]. cbn [fst snd] in *.
  rewrite scan_cons. replace (turn m b newline (first_char (render_all ps))) with (([], (m, b), false) : list string * (Mode * string) * bool) by (by destruct m).
  cbn [emit snd]. destruct m; try done.
  - rewrite (scan_stays InBlockComment); [done|by right|by apply calm_no_end].
  - rewrite (scan_stays InSingleQuote); [done|by left|by apply calm_no_end].
  - by rewrite calm_double.
Qed.

(** ** What BuildInsertSQL accepts and writes *)

Lemma tame_plain n : tame_name n = true -> plain_name n = true.
Proof.
  intros [_ Hn]%andb_true_iff. unfold plain_name. induction n as [|c n IH]; [done|].
  simpl in Hn. apply andb_true_iff in Hn as [Hc Hn]. specialize (IH Hn). unfold tame in Hc. rewrite !andb_true_iff, !negb_true_iff in Hc.
  destruct Hc as [[[_ H1] _] H2]. cbn [contains_char]. rewrite H1, H2. exact IH.
Qed.

Lemma parseIdentifier_ok value parts :
  parseIdentifier value = Ok parts ->
  forallb tame_name parts = true /\ Sanitize parts = Join "." (quoted <$> parts) /\ Join "." parts = value.
Proof.
  unfold parseIdentifier. destruct (_ || _); [done|]. destruct (forallb validIdentifierPart _) eqn:Hv; [|done]. intros [= <-].
  assert (forallb tame_name (Split "."%char value) = true) as Ht.
  { rewrite forallb_forall in Hv |- *. intros x Hx. by apply valid_tame, Hv. }
  split_and!; [done| |apply Join_Split]. apply Sanitize_plain. rewrite forallb_forall in Ht |- *. intros x Hx. by apply tame_plain, Ht.
Qed.

Lemma parseIdentifier_one value parts :
  parseIdentifier value = Ok parts -> length parts = 1%nat -> tame_name value = true /\ Sanitize parts = quoted value.
Proof.
  intros (Ht & Hs & Hj)%parseIdentifier_ok Hlen. destruct parts as [|p [|]]; try done. simpl in *. subst p.
  rewrite andb_true_r in Ht. done.
Qed.

Lemma sanitizeUnqualified_ok columns l :
  sanitizeUnqualifiedIdentifiers columns = Ok l -> forallb tame_name columns = true /\ l = quoted <$> columns.
Proof.
  revert l. induction columns as [|c columns IH]; intros l; cbn [sanitizeUnqualifiedIdentifiers]; [by intros [= <-]|].
  destruct (parseIdentifier c) as [parts|e] eqn:Hp; [|done]. destruct (Nat.eqb_spec (length parts) 1) as [Hlen|]; [|done]. simpl.
  destruct (sanitizeUnqualifiedIdentifiers columns) as [rest|e] eqn:Hr; [|done]. intros [= <-].
  destruct (parseIdentifier_one c parts Hp Hlen) as [-> ->]. destruct (IH rest eq_refl) as [-> ->]. done.
Qed.

Lemma sanitizeTarget_ok columns l :
  sanitizeTargetColumns columns = Ok l -> forallb tame_name columns = true /\ l = quoted <$> columns.
Proof.
  revert l. induction columns as [|c columns IH]; intros l; cbn [sanitizeTargetColumns]; [by intros [= <-]|].
  destruct (parseIdentifier c) as [parts|e] eqn:Hp; [|done]. destruct (Nat.eqb_spec (length parts) 1) as [Hlen|]; [|done]. simpl.
  destruct (sanitizeTargetColumns columns) as [rest|e] eqn:Hr; [|done]. intros [= <-].
  destruct (parseIdentifier_one c parts Hp Hlen) as [-> ->]. destruct (IH rest eq_refl) as [-> ->]. done.
Qed.

(** The query passed the checks. *)
Definition read_only (query : string) : Prop :=
  (exists t ts, sqlTokens query = t :: ts /\ (t = "select" \/ t = "with")) /\ forall t, t ∈ sqlTokens query -> t ∉ forbidden.

Lemma normalize_ok sql query : normalizeExtractSQL sql = Ok query -> read_only query.
Proof.
  unfold normalizeExtractSQL. set (q := TrimSpace _). destruct (_ && _); [done|].
  destruct (sqlTokens q) as [|t ts] eqn:Ht; [done|]. destruct (negb (String.eqb t "select") && negb (String.eqb t "with")) eqn:H0; [done|].
  destruct (List.find forbiddenSQLToken (t :: ts)) eqn:Hf; [done|]. intros [= <-]. unfold read_only. rewrite Ht. split.
  - exists t, ts. split; [done|]. apply andb_false_iff in H0 as [H0|H0]; apply negb_false_iff, String.eqb_eq in H0; auto.
  - intros t' Hin%list_elem_of_In. by apply (find_none _ _ Hf t'), bool_decide_eq_false in Hin.
Qed.

(** The columns an upsert writes: those given, or the target columns that are not in the
    conflict target. *)
Definition update_columns (spec : PipelineSpec) : list string :=
  match UpdateColumns spec with [] => nonConflictColumns (TargetColumns spec) (ConflictColumns spec) | l => l end.

Definition is_upsert (spec : PipelineSpec) : bool := String.eqb (TrimSpace (ToLower (WriteMode spec))) "upsert".

(** The words the statement adds after the query. *)
Definition write_words (spec : PipelineSpec) : list string :=
  if is_upsert spec then ["on"; "conflict"; "do"; "update"; "set"] ++ replicate (length (update_columns spec)) "excluded" else [].

(** The parts of an accepted statement. *)
Lemma BuildInsertSQL_ok spec statement :
  BuildInsertSQL spec = Ok statement ->
  exists table query, read_only query /\ normalizeExtractSQL (ExtractSQL spec) = Ok query /\
    forallb tame_name table = true /\ forallb tame_name (TargetColumns spec) = true /\
    let insert := render_all (insert_pieces table (TargetColumns spec)) +:+ String newline query in
    if is_upsert spec then
      ConflictColumns spec <> [] /\ update_columns spec <> [] /\
      forallb tame_name (ConflictColumns spec) = true /\ forallb tame_name (update_columns spec) = true /\
      statement = insert +:+ String newline (render_all (conflict_pieces (ConflictColumns spec) (update_columns spec)))
    else statement = insert.
Proof.
  unfold BuildInsertSQL. set (mode0 := TrimSpace (ToLower (WriteMode spec))).
  assert (String.eqb (if String.eqb mode0 "" then "append" else mode0) "upsert" = is_upsert spec) as Hup.
  { unfold is_upsert. fold mode0. destruct (String.eqb_spec mode0 "") as [->|]; done. }
  rewrite Hup. destruct (negb _ && _); [done|]. destruct (is_upsert spec && (length (ConflictColumns spec) =? 0)%nat) eqn:Hcc; [done|].
  destruct (parseIdentifier (TargetTable spec)) as [table|] eqn:Htab; [|done].
  destruct (sanitizeTargetColumns (TargetColumns spec)) as [cols|] eqn:Hcols; [|done].
  destruct (sanitizeUnqualifiedIdentifiers (ConflictColumns spec)) as [conf|] eqn:Hconf; [|done].
  set (uc := if is_upsert spec && (length (UpdateColumns spec) =? 0)%nat then nonConflictColumns (TargetColumns spec) (ConflictColumns spec)
             else UpdateColumns spec).
  destruct (sanitizeUnqualifiedIdentifiers uc) as [upd|] eqn:Hupd; [|done].
  destruct (is_upsert spec && (length upd =? 0)%nat) eqn:Hne; [done|].
  destruct (normalizeExtractSQL (ExtractSQL spec)) as [query|] eqn:Hq; [|done]. intros Hst. exists table, query.
  apply parseIdentifier_ok in Htab as (Htab & Hsan & _). apply sanitizeTarget_ok in Hcols as [Hcols ->].
  apply sanitizeUnqualified_ok in Hconf as [Hconf ->]. apply sanitizeUnqualified_ok in Hupd as [Hupd ->].
  split_and!; [by eapply normalize_ok|done|done|done|]. cbv zeta. unfold insert_pieces, conflict_pieces. cbn [render_all].
  rewrite render_dotted by done. cbn [render_all]. rewrite render_listed by done. cbn [render_all].
  destruct (is_upsert spec) eqn:Hu; [|injection Hst as <-; rewrite Hsan; by rewrite !str_app_assoc].
  assert (uc = update_columns spec) as Huc by (unfold uc, update_columns; by destruct (UpdateColumns spec)). rewrite Huc in *.
  injection Hst as <-. split_and!; [by destruct (ConflictColumns spec)|by destruct (update_columns spec)|done|done|].
  rewrite render_listed by done. cbn [render_all]. rewrite render_assigned, Hsan by done. cbn [render_all].
  rewrite !str_app_assoc, str_app_nil_r. reflexivity.
Qed.

(** C14: the identifiers of a pipeline cannot smuggle SQL into the statement.  When BuildInsertSQL
    accepts a specification, its query starts with SELECT or WITH and has no word of the
    forbidden list, and the words of the whole statement outside quotes and comments are
    exactly INSERT INTO, those of the query, and for an upsert ON CONFLICT DO UPDATE SET
    with one EXCLUDED per updated column.  A query that leaves a quote or comment open
    leaves it open to the end of the statement, which Postgres refuses. *)
Theorem etl_statement_words spec statement :
  BuildInsertSQL spec = Ok statement ->
  exists query, normalizeExtractSQL (ExtractSQL spec) = Ok query /\ read_only query /\
    (ends_open query = false -> sqlTokens statement = ["insert"; "into"] ++ sqlTokens query ++ write_words spec) /\
    (ends_open query = true -> ends_open statement = true).
Proof.
  intros (table & query & Hro & Hq & Ht & Hc & Hst)%BuildInsertSQL_ok. exists query. split_and!; [done|done|..].
  all: pose proof (insert_calm table (TargetColumns spec) Ht Hc) as Hcalm; cbv zeta in Hst; unfold write_words; intros Ho;
    destruct (is_upsert spec); [destruct Hst as (_ & _ & H1 & H2 & ->); rewrite str_app_assoc, str_app_cons|subst statement].
  - change (sqlTokens ?s) with (toks Normal "" s) at 1. rewrite toks_after_newline, words_insert by done.
    by rewrite toks_query_then, words_conflict by (done || by apply conflict_calm).
  - change (sqlTokens ?s) with (toks Normal "" s) at 1. rewrite toks_after_newline, words_insert by done. by rewrite app_nil_r.
  - unfold ends_open. rewrite mode_after_newline by done. apply open_query_then; [by apply conflict_calm|done].
  - unfold ends_open. rewrite mode_after_newline by done. exact Ho.
Qed.

(** ** The handler *)

Section Handler.

(** json.Unmarshal of the payload, with the error it returns. *)
Context (Unmarshal : string -> res PipelineSpec error).

Definition ParseSpec (payload : string) : res PipelineSpec error :=
  match payload with
  | "" => Err (Errorf "task.payload is required" [])
  | _ =>
      match Unmarshal payload with
      | Err e => Err e
      | Ok spec0 =>
          let spec := mkSpec (TrimSpace (ExtractSQL spec0)) (TrimSpace (TargetTable spec0)) (TrimSpace <$> TargetColumns spec0)
                        (TrimSpace (ToLower (WriteMode spec0))) (TrimSpace <$> ConflictColumns spec0)
                        (TrimSpace <$> UpdateColumns spec0) in
          if String.eqb (ExtractSQL spec) "" then Err (Errorf "extract_sql is required" [])
          else if String.eqb (TargetTable spec) "" then Err (Errorf "target_table is required" [])
          else if (length (TargetColumns spec) =? 0)%nat then Err (Errorf "target_columns is required" [])
          else
            let mode := if String.eqb (WriteMode spec) "" then "append" else WriteMode spec in
            if negb (String.eqb mode "append") && negb (String.eqb mode "upsert") then
              Err (Errorf "write_mode must be append or upsert" [])
            else if String.eqb mode "upsert" && (length (ConflictColumns spec) =? 0)%nat then
              Err (Errorf "conflict_columns is required for upsert" [])
            else Ok (mkSpec (ExtractSQL spec) (TargetTable spec) (TargetColumns spec) mode (ConflictColumns spec) (UpdateColumns spec))
      end
  end.

(** [fmt.Errorf("etl: invalid pipeline spec: %w: %w", err, retry.ErrNoRetry)]. *)
Definition invalid_spec (e : error) : error :=
  Errorf ("etl: invalid pipeline spec: " +:+ Error e +:+ ": " +:+ Error Retry.ErrNoRetry) [e; Retry.ErrNoRetry].

(** Handler: the statements it executes, in order, and the error it returns.  [pool] is the
    connection pool's Exec, absent when the pool is nil. *)
Definition Handler (pool : option (string -> option error)) (job : Job) : list string * option error :=
  match ParseSpec (Task.Payload (Job.Task job)) with
  | Err e => ([], Some (invalid_spec e))
  | Ok spec =>
      match BuildInsertSQL spec with
      | Err e => ([], Some (invalid_spec e))
      | Ok statement =>
          match pool with
          | None => ([], Some (Errorf "etl: postgres pool is required" []))
          | Some Exec =>
              ([statement], match Exec statement with Some e => Some (wrapf "etl: execute pipeline: " e) | None => None end)
          end
      end
  end.

(** An invalid pipeline executes nothing and is not retried; a valid one executes its
    statement once, and whether its failure is retried is up to the error Exec gives. *)
Theorem etl_handler_retry Exec job :
  match Handler (Some Exec) job with
  | ([], err) => exists e, err = Some e /\ errors_Is e Retry.msg_no_retry = true
  | (statements, err) =>
      exists spec statement, statements = [statement] /\ ParseSpec (Task.Payload (Job.Task job)) = Ok spec /\
        BuildInsertSQL spec = Ok statement /\ (err = None <-> Exec statement = None) /\
        forall e e', err = Some e -> Exec statement = Some e' -> errors_Is e Retry.msg_no_retry = errors_Is e' Retry.msg_no_retry
  end.
Proof.
  unfold Handler. destruct (ParseSpec _) as [spec|e] eqn:Hp.
  - destruct (BuildInsertSQL spec) as [statement|e] eqn:Hb.
    + exists spec, statement. split_and!; [done|done|done|by destruct (Exec statement)|].
      intros e e' He He'. rewrite He' in He. injection He as <-. apply wrapf_Is.
    + eexists. split; [done|]. cbn. by rewrite orb_true_r.
  - eexists. split; [done|]. cbn. by rewrite orb_true_r.
Qed.

End Handler.
End Etl.

(** ** Witnesses *)

(** Sanitize for names that need no escaping. *)
Definition plain_pgx : PgxIdentifier.
Proof. refine {| Sanitize := fun parts => Join "." (quoted <$> parts) |}. done. Defined.

#[local] Existing Instance latin1_unicode.
#[local] Existing Instance plain_pgx.

(** SELECT 'it''s; delete', "update" FROM orders -- drop *)
Definition quoted_query : list Piece :=
  [Word "SELECT"; Other " "%char; Literal "it's; delete"; Other ","%char; Other " "%char; Name "update"; Other " "%char;
   Word "FROM"; Other " "%char; Word "orders"; Other " "%char; LineComment " drop"].

Lemma sqlTokens_words_witness :
  sqlTokens (render_all quoted_query) = words quoted_query /\ words quoted_query = ["select"; "from"; "orders"].
Proof. split; [apply (sqlTokens_words quoted_query)|]; vm_compute; reflexivity. Defined.

Definition orders_spec : PipelineSpec :=
  mkSpec "SELECT id, total FROM orders -- all" "analytics.daily" ["id"; "total"] "upsert" ["id"] [].

Definition orders_statement : string := match BuildInsertSQL orders_spec with Ok st => st | Err _ => "" end.

Lemma etl_statement_words_witness :
  exists query, normalizeExtractSQL (ExtractSQL orders_spec) = Ok query /\ read_only query /\
    (ends_open query = false -> sqlTokens orders_statement = ["insert"; "into"] ++ sqlTokens query ++ write_words orders_spec) /\
    (ends_open query = true -> ends_open orders_statement = true).
Proof. apply (etl_statement_words orders_spec orders_statement). vm_compute. reflexivity. Defined.

(** A query whose first line is the word SELECT is refused. *)
Example select_newline_refused : normalizeExtractSQL ("SELECT" +:+ nl +:+ "id FROM orders") = Err must_start.
Proof. vm_compute. reflexivity. Qed.

(** Postgres reads a backslash in an escape string as quoting the next character, sqlTokens
    does not: the words after it are taken for the inside of a literal. *)
Definition escape_query : string := "select E'\' ', delete --'".

Example escape_string_hides_words : normalizeExtractSQL escape_query = Ok escape_query.
Proof. vm_compute. reflexivity. Qed.

End Etl.
