(* ===== verification/Webhook.v ===== *)
(** * internal/webhook

    The executor that delivers a job to an HTTP endpoint.  Addresses are netip.Addr with the
    predicates of net/netip (Go 1.23); the client is net/http's, with its redirect loop.
    What the network does is the class [Net]: DNS answers, which change with time, url and
    address parsing, responses.  A proxy is not configured. *)

From S2P Require Import Prelude GoLib Unicode Models Retry.

Module Webhook.

(** ** Addresses *)

(** An IPv4 address is a 32-bit number, an IPv6 address a 128-bit number with a zone. *)
Inductive Addr :=
| IPv4 (a : Z)
| IPv6 (a : Z) (zone : string).

Definition wf_addr (a : Addr) : Prop :=
  match a with IPv4 x => 0 <= x < 2 ^ 32 | IPv6 x _ => 0 <= x < 2 ^ 128 end.

(** ::ffff:a.b.c.d *)
Definition Is4In6 (a : Addr) : bool :=
  match a with IPv6 x _ => Z.shiftr x 32 =? 65535 | IPv4 _ => false end.

Definition Unmap (a : Addr) : Addr :=
  match a with IPv6 x _ => if Is4In6 a then IPv4 (Z.land x (2 ^ 32 - 1)) else a | IPv4 _ => a end.

(** Byte [i] of an IPv4 address, 16-bit group 0 of an IPv6 address. *)
Definition v4 (x : Z) (i : Z) : Z := Z.land (Z.shiftr x (8 * (3 - i))) 255.
Definition v6u16 (x : Z) : Z := Z.land (Z.shiftr x 112) 65535.

Definition IsLoopback (a : Addr) : bool :=
  match Unmap a with IPv4 x => v4 x 0 =? 127 | IPv6 x _ => x =? 1 end.

Definition IsPrivate (a : Addr) : bool :=
  match Unmap a with
  | IPv4 x => (v4 x 0 =? 10) || ((v4 x 0 =? 172) && (Z.land (v4 x 1) 240 =? 16)) || ((v4 x 0 =? 192) && (v4 x 1 =? 168))
  | IPv6 x _ => Z.land (Z.shiftr x 120) 254 =? 252
  end.

Definition IsLinkLocalUnicast (a : Addr) : bool :=
  match Unmap a with
  | IPv4 x => (v4 x 0 =? 169) && (v4 x 1 =? 254)
  | IPv6 x _ => Z.land (v6u16 x) 65472 =? 65152
  end.

Definition IsLinkLocalMulticast (a : Addr) : bool :=
  match Unmap a with
  | IPv4 x => (v4 x 0 =? 224) && (v4 x 1 =? 0) && (v4 x 2 =? 0)
  | IPv6 x _ => Z.land (v6u16 x) 65295 =? 65282
  end.

Definition IsMulticast (a : Addr) : bool :=
  match Unmap a with
  | IPv4 x => Z.land (v4 x 0) 240 =? 224
  | IPv6 x _ => Z.shiftr x 120 =? 255
  end.

(** Equality with 0.0.0.0 and with ::, without unmapping. *)
Definition IsUnspecified (a : Addr) : bool :=
  match a with IPv4 x => x =? 0 | IPv6 x z => (x =? 0) && String.eqb z "" end.

(** ** The executor *)

Record URL := mkURL {
  Scheme : string;
  HasUser : bool;
  Hostname : string;
  Rest : string;
}.

Record Request := mkRequest {
  Method : string;
  RequestURL : URL;
  JobIDHeader : string;
  AttemptHeader : string;
  Body : option string;
}.

Record Response := mkResponse {
  StatusCode : Z;
  Location : string;
  ResponseBody : string;
}.

Record requestBody := mkBody {
  JobID : string;
  TaskID : string;
  TaskName : string;
  Attempt : Z;
  Payload : string;
  BodyMetadata : gmap string string;
}.

(** [resolve n host]: what DNS answers to the [n]-th question; [connect]: which of the
    addresses the transport connects to, if any; [answer]: what the server at the address
    answers. *)
Class Net := {
  resolve : nat -> string -> res (list Addr) error;
  connect : nat -> list Addr -> option Addr;
  connect_one : forall n l a, connect n l = Some a -> a ∈ l;
  answer : nat -> Addr -> Request -> res Response error;
  ParseURL : string -> res URL error;
  ParseRef : URL -> string -> res URL error;
  ParseAddr : string -> option Addr;
  AddrString : Addr -> string;
  MarshalBody : requestBody -> res string error;
}.

(** [Client] is the caller's own client, by what its Do answers. *)
Record Config := mkConfig {
  Client : option (Request -> res Response error);
  Timeout : Z;
  MaxRedirects : Z;
  AllowPrivateNetworks : bool;
}.

Record Executor := mkExecutor {
  client : option (Request -> res Response error);
  timeout : Z;
  maxRedirects : Z;
  allowPrivateNetworks : bool;
}.

Definition NewExecutorWithConfig (cfg : Config) : Executor :=
  mkExecutor (Client cfg) (if Timeout cfg <=? 0 then 10 * Second else Timeout cfg) (MaxRedirects cfg) (AllowPrivateNetworks cfg).

Definition ErrUseLastResponse : error := New "net/http: use last response".
Definition plain (msg : string) : error := Errorf msg [].

(** [err == ErrUseLastResponse]. *)
Definition is_last (err : error) : bool :=
  match err with New m => String.eqb m "net/http: use last response" | _ => false end.

Section Webhook.
Context `{U : Unicode} `{N : Net} (e : Executor).

Definition validateAddr (addr : Addr) : option error :=
  if allowPrivateNetworks e then None
  else if IsLoopback addr || IsPrivate addr || IsLinkLocalUnicast addr || IsLinkLocalMulticast addr || IsMulticast addr
          || IsUnspecified addr
  then Some (plain ("address " +:+ AddrString addr +:+ " is not public"))
  else None.

Fixpoint validate_all (addrs : list Addr) : option error :=
  match addrs with
  | [] => None
  | a :: addrs' => match validateAddr a with Some err => Some err | None => validate_all addrs' end
  end.

(** [n] numbers the DNS questions and exchanges so far. *)
Definition validateURL (n : nat) (u : URL) : option error :=
  if negb (String.eqb (Scheme u) "http") && negb (String.eqb (Scheme u) "https") then
    Some (plain "url scheme must be http or https")
  else if HasUser u then Some (plain "url userinfo is not allowed")
  else if String.eqb (Hostname u) "" then Some (plain "url host is required")
  else if EqualFold (Hostname u) "localhost" then Some (plain "localhost is not allowed")
  else match ParseAddr (Hostname u) with
  | Some addr => validateAddr addr
  | None =>
      match resolve n (Hostname u) with
      | Err err => Some (wrapf ("resolve host " +:+ Quote (Hostname u) +:+ ": ") err)
      | Ok [] => Some (plain ("host " +:+ Quote (Hostname u) +:+ " resolved to no addresses"))
      | Ok addrs => validate_all addrs
      end
  end.

(** ** The client *)

(** One exchange: the transport looks the host up itself. *)
Record Sent := mkSent { s_request : Request; s_addr : option Addr; s_at : nat }.

Definition dial (n : nat) (host : string) : option Addr :=
  match ParseAddr host with
  | Some a => connect n [a]
  | None => match resolve n host with Ok l => connect n l | Err _ => None end
  end.

Definition round_trip (n : nat) (r : Request) : Sent * res Response error :=
  let a := dial n (Hostname (RequestURL r)) in
  (mkSent r a n, match a with Some addr => answer n addr r | None => Err (plain "connection failed") end).

Definition is_redirect (status : Z) : bool :=
  (status =? 301) || (status =? 302) || (status =? 303) || (status =? 307) || (status =? 308).

(** The request a redirect makes: 307 and 308 keep method and body, the others send a GET. *)
Definition redirect_request (r : Request) (status : Z) (u : URL) : Request :=
  if (status =? 307) || (status =? 308) then mkRequest (Method r) u (JobIDHeader r) (AttemptHeader r) (Body r)
  else mkRequest "GET" u (JobIDHeader r) (AttemptHeader r) None.

(** The CheckRedirect function of the executor's client; [via] is the number of requests
    made so far. *)
Definition CheckRedirect (n : nat) (via : Z) (u : URL) : option error :=
  if maxRedirects e <=? via then Some ErrUseLastResponse else validateURL n u.

(** [http.Client.Do] with that CheckRedirect: the exchanges it makes and its answer.  Each
    turn makes one request; [fuel] is the number of requests allowed. *)
Fixpoint Do (fuel : nat) (n : nat) (via : Z) (r : Request) : list Sent * res Response error :=
  let '(sent, result) := round_trip n r in
  match result with
  | Err err => ([sent], Err err)
  | Ok resp =>
      if is_redirect (StatusCode resp) && negb (String.eqb (Location resp) "") then
        match ParseRef (RequestURL r) (Location resp) with
        | Err err => ([sent], Err err)
        | Ok u =>
            match CheckRedirect (S n) (via + 1) u, fuel with
            | Some err, _ => if is_last err then ([sent], Ok resp) else ([sent], Err err)
            | None, O => ([sent], Err (plain "redirects exceed the bound of the model"))
            | None, S fuel' =>
                let '(more, answer') := Do fuel' (S (S n)) (via + 1) (redirect_request r (StatusCode resp) u) in
                (sent :: more, answer')
            end
        end
      else ([sent], Ok resp)
  end.

Definition send (r : Request) : list Sent * res Response error :=
  match client e with
  | Some own => ([], own r)
  | None => Do (Z.to_nat (maxRedirects e)) 1 0 r
  end.

(** ** The handler *)

Definition no_retry (msg : string) : error := Errorf (msg +:+ ": " +:+ Error Retry.ErrNoRetry) [Retry.ErrNoRetry].
Definition no_retry_with (prefix : string) (err : error) : error :=
  Errorf (prefix +:+ Error err +:+ ": " +:+ Error Retry.ErrNoRetry) [err; Retry.ErrNoRetry].

Definition maxErrorBodyBytes : nat := 4096.

Definition retryable_status (status : Z) : bool := (status =? 408) || (status =? 429) || (500 <=? status).

(** What the response makes of the attempt. *)
Definition outcome (resp : Response) : option error :=
  if (200 <=? StatusCode resp) && (StatusCode resp <? 300) then None
  else
    let message := "webhook: status " +:+ Itoa (StatusCode resp) +:+ ": "
      +:+ TrimSpace (String.substring 0 maxErrorBodyBytes (ResponseBody resp)) in
    if retryable_status (StatusCode resp) then Some (plain message) else Some (no_retry message).

Definition method_of (job : Job) : string :=
  let m := ToUpper (TrimSpace (default "" (Task.Metadata (Job.Task job) !! "method"))) in
  if String.eqb m "" then "POST" else m.

(** Handler: the requests it makes and the error it returns. *)
Definition Handler (job : Job) : list Sent * option error :=
  let targetURL := TrimSpace (default "" (Task.Metadata (Job.Task job) !! "url")) in
  if String.eqb targetURL "" then ([], Some (no_retry "webhook: task.metadata.url is required"))
  else match ParseURL targetURL with
  | Err err => ([], Some (no_retry_with "webhook: invalid url: " err))
  | Ok parsedURL =>
  match validateURL 0 parsedURL with
  | Some err => ([], Some (no_retry_with "webhook: unsafe url: " err))
  | None =>
  let method := method_of job in
  if negb (String.eqb method "POST") && negb (String.eqb method "PUT") && negb (String.eqb method "PATCH") then
    ([], Some (no_retry ("webhook: unsupported method " +:+ Quote method)))
  else
  match MarshalBody (mkBody (Job.ID job) (Task.ID (Job.Task job)) (Task.Name (Job.Task job)) (Job.Attempt job)
                       (Task.Payload (Job.Task job)) (Job.Metadata job)) with
  | Err err => ([], Some (wrapf "webhook: marshal request body: " err))
  | Ok body =>
  let '(sent, result) := send (mkRequest method parsedURL (Job.ID job) (Itoa (Job.Attempt job)) (Some body)) in
  match result with
  | Err err => (sent, Some (wrapf "webhook: request failed: " err))
  | Ok resp => (sent, outcome resp)
  end end end end.

(** ** The addresses validateAddr refuses *)

(** A CIDR block: its first address and the number of host bits. *)
Definition in_block (x : Z) (block : Z * Z) : bool := x / 2 ^ snd block =? fst block / 2 ^ snd block.

Definition quad (a b c d : Z) : Z := a * 2 ^ 24 + b * 2 ^ 16 + c * 2 ^ 8 + d.

(** 127.0.0.0/8, 10.0.0.0/8, 172.16.0.0/12, 192.168.0.0/16, 169.254.0.0/16, 224.0.0.0/4 *)
Definition refused4 : list (Z * Z) :=
  [(quad 127 0 0 0, 24); (quad 10 0 0 0, 24); (quad 172 16 0 0, 20); (quad 192 168 0 0, 16); (quad 169 254 0 0, 16);
   (quad 224 0 0 0, 28)].

(** ::1/128, fc00::/7, fe80::/10, ff00::/8 *)
Definition refused6 : list (Z * Z) :=
  [(1, 0); (64512 * 2 ^ 112, 121); (65152 * 2 ^ 112, 118); (65280 * 2 ^ 112, 120)].

Lemma land_mask y m k :
  0 <= m -> 0 <= k -> 0 <= y < 2 ^ (m + k) -> Z.land y (Z.shiftl (Z.ones m) k) = y / 2 ^ k * 2 ^ k.
Proof.
  intros Hm Hk Hy. apply Z.bits_inj'. intros i Hi. rewrite Z.land_spec, <- Z.shiftl_mul_pow2, <- Z.shiftr_div_pow2 by done.
  destruct (Z.lt_ge_cases i k) as [Hlt|Hge].
  - rewrite !Z.shiftl_spec_low by done. by rewrite andb_false_r.
  - rewrite !Z.shiftl_spec by lia. rewrite Z.shiftr_spec by lia. replace (i - k + k) with i by lia.
    destruct (Z.lt_ge_cases (i - k) m) as [Hin|Hout].
    + rewrite Z.ones_spec_low by lia. apply andb_true_r.
    + rewrite Z.ones_spec_high by lia. rewrite andb_false_r. symmetry. rewrite <- (Z.mod_small y (2 ^ (m + k))) by done.
      apply Z.mod_pow2_bits_high. lia.
Qed.

Lemma v4_eq x i : 0 <= i <= 3 -> v4 x i = x / 2 ^ (8 * (3 - i)) mod 256.
Proof.
  intros Hi. unfold v4. change 255 with (Z.ones 8). rewrite Z.land_ones by done. rewrite Z.shiftr_div_pow2 by lia. done.
Qed.

Definition blocked4 (x : Z) : bool :=
  (v4 x 0 =? 127) || ((v4 x 0 =? 10) || ((v4 x 0 =? 172) && (Z.land (v4 x 1) 240 =? 16)) || ((v4 x 0 =? 192) && (v4 x 1 =? 168)))
  || ((v4 x 0 =? 169) && (v4 x 1 =? 254)) || ((v4 x 0 =? 224) && (v4 x 1 =? 0) && (v4 x 2 =? 0)) || (Z.land (v4 x 0) 240 =? 224).

Lemma blocked4_spec x : 0 <= x < 2 ^ 32 -> blocked4 x = existsb (in_block x) refused4.
Proof.
  intros Hx. unfold blocked4.
  assert (forall y, 0 <= y < 256 -> Z.land y 240 = y / 16 * 16) as Hmask.
  { intros y Hy. change 240 with (Z.shiftl (Z.ones 4) 4). apply (land_mask y 4 4); [done|done|]. exact Hy. }
  rewrite !v4_eq by done. rewrite !Hmask by (apply Z.mod_pos_bound; done). unfold existsb, refused4, in_block, fst, snd.
  change (8 * (3 - 0)) with 24. change (8 * (3 - 1)) with 16. change (8 * (3 - 2)) with 8.
  change (quad 127 0 0 0 / 2 ^ 24) with 127. change (quad 10 0 0 0 / 2 ^ 24) with 10. change (quad 172 16 0 0 / 2 ^ 20) with 2753.
  change (quad 192 168 0 0 / 2 ^ 16) with 49320. change (quad 169 254 0 0 / 2 ^ 16) with 43518. change (quad 224 0 0 0 / 2 ^ 28) with 14.
  set (y := x / 2 ^ 16). assert (0 <= y < 65536) as Hy by (unfold y; split; [apply Z.div_pos; lia|apply Z.div_lt_upper_bound; lia]).
  assert (x / 2 ^ 24 = y / 256) as -> by (unfold y; rewrite Z.div_div by done; done).
  assert (x / 2 ^ 20 = y / 16) as -> by (unfold y; rewrite Z.div_div by done; done).
  assert (x / 2 ^ 28 = y / 256 / 16) as -> by (unfold y; rewrite !Z.div_div by done; done).
  generalize (x / 2 ^ 8 mod 256). intros b2. clearbody y. clear Hmask Hx.
  assert (y / 256 mod 256 = y / 256) as -> by (apply Z.mod_small; split; [apply Z.div_pos; lia|apply Z.div_lt_upper_bound; lia]).
  assert (y / 16 = 16 * (y / 256) + y mod 256 / 16) as -> by (Z.to_euclidean_division_equations; lia).
  assert (y = 256 * (y / 256) + y mod 256) as Hdec by (apply Z.div_mod; done). pose proof (Z.mod_pos_bound y 256 ltac:(done)) as Hb1.
  assert (forall k, (y =? k) = (256 * (y / 256) + y mod 256 =? k)) as Hy' by (intros k; by rewrite <- Hdec).
  rewrite !Hy'. clear Hy' Hdec Hy. revert Hb1. generalize (y / 256) (y mod 256). intros b0 b1 Hb1.
  apply eq_true_iff_eq. rewrite !orb_true_iff, !andb_true_iff, !Z.eqb_eq. Z.to_euclidean_division_equations. lia.
Qed.

Definition blocked6 (x : Z) : bool :=
  (x =? 1) || (Z.land (Z.shiftr x 120) 254 =? 252) || (Z.land (v6u16 x) 65472 =? 65152) || (Z.land (v6u16 x) 65295 =? 65282)
  || (Z.shiftr x 120 =? 255).

(** The link-local multicast test is part of the multicast one. *)
Lemma link_local_multicast y : 0 <= y < 65536 -> Z.land y 65295 = 65282 -> y / 256 = 255.
Proof.
  intros Hy Hl. assert (Z.land y 65280 = 65280) as Hm.
  { change 65280 with (Z.land 65295 65280) at 1. by rewrite Z.land_assoc, Hl. }
  change 65280 with (Z.shiftl (Z.ones 8) 8) in Hm at 1. rewrite (land_mask y 8 8) in Hm by (done || exact Hy). change (2 ^ 8) with 256 in Hm. lia.
Qed.

Lemma blocked6_spec x : 0 <= x < 2 ^ 128 -> blocked6 x = existsb (in_block x) refused6.
Proof.
  intros Hx. unfold blocked6, v6u16. change 65535 with (Z.ones 16). rewrite Z.land_ones, !Z.shiftr_div_pow2 by done.
  set (y := x / 2 ^ 112). assert (0 <= y < 65536) as Hy.
  { unfold y. split; [apply Z.div_pos; lia|]. apply Z.div_lt_upper_bound; [done|]. exact (proj2 Hx). }
  change (2 ^ 16) with 65536. rewrite (Z.mod_small y) by done.
  assert (x / 2 ^ 120 = y / 256) as -> by (unfold y; rewrite Z.div_div by done; done).
  assert (0 <= y / 256 < 256) as Hb by (Z.to_euclidean_division_equations; lia).
  change 254 with (Z.shiftl (Z.ones 7) 1). rewrite (land_mask (y / 256) 7 1) by (done || exact Hb).
  change 65472 with (Z.shiftl (Z.ones 10) 6). rewrite (land_mask y 10 6) by (done || exact Hy).
  unfold existsb, refused6, in_block, fst, snd.
  change (64512 * 2 ^ 112 / 2 ^ 121) with 126. change (65152 * 2 ^ 112 / 2 ^ 118) with 1018. change (65280 * 2 ^ 112 / 2 ^ 120) with 255.
  assert (x / 2 ^ 121 = y / 256 / 2) as -> by (unfold y; rewrite !Z.div_div by done; done).
  assert (x / 2 ^ 118 = y / 64) as -> by (unfold y; rewrite Z.div_div by done; done).
  assert (x / 2 ^ 120 = y / 256) as -> by (unfold y; rewrite Z.div_div by done; done).
  change (2 ^ 0) with 1. rewrite !Z.div_1_r. pose proof (link_local_multicast y Hy) as Hll. change (2 ^ 1) with 2. change (2 ^ 6) with 64.
  apply eq_true_iff_eq. rewrite !orb_true_iff, !Z.eqb_eq. clearbody y. generalize (y / 256 / 2) (y / 64). intros u v. lia.
Qed.


(** ** The redirect loop *)

Definition checked (s : Sent) : Prop := validateURL (pred (s_at s)) (RequestURL (s_request s)) = None.

Lemma validateURL_last n u err : validateURL n u = Some err -> is_last err = false.
Proof.
  assert (forall a err', validateAddr a = Some err' -> is_last err' = false) as Ha.
  { intros a err'. unfold validateAddr. destruct (allowPrivateNetworks e); [done|]. destruct (_ || _); [by intros [= <-]|done]. }
  assert (forall l err', validate_all l = Some err' -> is_last err' = false) as Hl.
  { induction l as [|a l IH]; simpl; [done|]. intros err'. destruct (validateAddr a) eqn:Hv; [|auto]. intros [= <-]. by eapply Ha. }
  unfold validateURL. destruct (_ && _); [by intros [= <-]|]. destruct (HasUser u); [by intros [= <-]|].
  destruct (String.eqb _ ""); [by intros [= <-]|]. destruct (EqualFold _ _); [by intros [= <-]|].
  destruct (ParseAddr _); [by apply Ha|]. destruct (resolve n _) as [[|a l]|err']; [by intros [= <-]|apply Hl|by intros [= <-]].
Qed.

(** The requests of [Do]: the first is the one given, the others were checked just before,
    and there are no more than the bound allows; more fuel changes nothing. *)
Lemma Do_spec fuel : forall n via r,
  0 <= via -> maxRedirects e - via <= Z.of_nat fuel ->
  (exists more, (Do fuel n via r).1 = (round_trip n r).1 :: more /\ Forall (fun s => checked s /\ (0 < s_at s)%nat) more) /\
  via + Z.of_nat (length (Do fuel n via r).1) <= Z.max (via + 1) (maxRedirects e) /\
  forall extra, Do (fuel + extra) n via r = Do fuel n via r.
Proof.
  induction fuel as [|fuel IH]; intros n via r Hvia Hfuel.
  - assert (forall extra, Do extra n via r = Do 0 n via r /\ (Do 0 n via r).1 = [(round_trip n r).1]) as Hone.
    { intros extra. destruct extra as [|extra]; cbn [Do]; (destruct (round_trip n r) as [sent [resp|err]]; [|done]); cbn [fst];
        (destruct (is_redirect _ && _); [|done]); (destruct (ParseRef _ _) as [u|err]; [|done]);
        unfold CheckRedirect; rewrite (proj2 (Z.leb_le _ _)) by lia; done. }
    destruct (Hone 0%nat) as [_ Hsent]. split_and!.
    + exists []. by rewrite Hsent.
    + rewrite Hsent. simpl. lia.
    + intros extra. apply Hone.
  - cbn [Do Nat.add]. destruct (round_trip n r) as [sent [resp|err]] eqn:Hrt; cbn [fst].
    2:{ split_and!; [by exists []|simpl; lia|done]. }
    destruct (is_redirect _ && _); [|split_and!; [by exists []|simpl; lia|done]].
    destruct (ParseRef _ _) as [u|err]; [|split_and!; [by exists []|simpl; lia|done]].
    unfold CheckRedirect. destruct (Z.leb_spec (maxRedirects e) (via + 1)) as [Hmax|Hmax]; [split_and!; [by exists []|simpl; lia|done]|].
    destruct (validateURL (S n) u) as [err|] eqn:Hv.
    { destruct (is_last err); (split_and!; [by exists []|simpl; lia|done]). }
    set (r' := redirect_request r (StatusCode resp) u). destruct (IH (S (S n)) (via + 1) r') as ((more & Hsent & Hmore) & Hlen & Hex); [lia|lia|].
    destruct (Do fuel (S (S n)) (via + 1) r') as [l result]. cbn [fst] in *. split_and!.
    + exists l. split; [done|]. rewrite Hsent. constructor; [|done].
      assert (RequestURL r' = u) as Hu by (unfold r', redirect_request; by destruct (_ || _)).
      unfold round_trip, checked. simpl. rewrite Hu. split; [done|lia].
    + simpl. lia.
    + intros extra. by rewrite Hex.
Qed.

(** A URL that may be fetched, by the [n]-th DNS answer: http or https, without user
    information, to a host that is not localhost and stands for addresses that validateAddr
    accepts. *)
Definition allowed (n : nat) (u : URL) : Prop :=
  (Scheme u = "http" \/ Scheme u = "https") /\ HasUser u = false /\ Hostname u <> "" /\
  EqualFold (Hostname u) "localhost" = false /\
  match ParseAddr (Hostname u) with
  | Some a => validateAddr a = None
  | None => exists addrs, resolve n (Hostname u) = Ok addrs /\ addrs <> [] /\ Forall (fun a => validateAddr a = None) addrs
  end.

Lemma validate_all_None l : validate_all l = None -> Forall (fun a => validateAddr a = None) l.
Proof. induction l as [|a l IH]; simpl; [constructor|]. destruct (validateAddr a) eqn:Ha; [done|]. constructor; auto. Qed.

Lemma validateURL_allowed n u : validateURL n u = None -> allowed n u.
Proof.
  unfold validateURL, allowed. destruct (negb _ && negb _) eqn:Hs; [done|]. destruct (HasUser u); [done|].
  destruct (String.eqb_spec (Hostname u) ""); [done|]. destruct (EqualFold _ _); [done|]. intros H.
  rewrite andb_false_iff, !negb_false_iff, !String.eqb_eq in Hs. split_and!; [done..|].
  destruct (ParseAddr _); [done|]. destruct (resolve n _) as [[|a l]|err]; [done| |done].
  exists (a :: l). split_and!; [done|done|by apply validate_all_None].
Qed.

(** C15: no request leaves unchecked.  With the executor's own client, whatever the network does,
    the handler makes at most max(1, MaxRedirects) requests, and each of them, the first and
    every redirect, goes to an http or https URL without user information whose host is not
    localhost and stands, by the DNS question asked just before, for addresses that
    validateAddr accepts.  The number of turns of the redirect loop is bounded accordingly. *)
Theorem webhook_requests_checked job :
  client e = None ->
  Forall (fun s => allowed (pred (s_at s)) (RequestURL (s_request s))) (Handler job).1 /\
  Z.of_nat (length (Handler job).1) <= Z.max 1 (maxRedirects e) /\
  forall r extra, Do (Z.to_nat (maxRedirects e) + extra) 1 0 r = send r.
Proof.
  intros Hclient. assert (forall r, (exists more, (send r).1 = (round_trip 1 r).1 :: more /\ Forall (fun s => checked s /\ (0 < s_at s)%nat) more) /\
    Z.of_nat (length (send r).1) <= Z.max 1 (maxRedirects e) /\ forall extra, Do (Z.to_nat (maxRedirects e) + extra) 1 0 r = send r) as Hsend.
  { intros r. unfold send. rewrite Hclient. destruct (Do_spec (Z.to_nat (maxRedirects e)) 1 0 r) as (H1 & H2 & H3); [lia|lia|].
    split_and!; [done|lia|done]. }
  assert (forall l : list Sent, l = [] -> Forall checked l /\ Z.of_nat (length l) <= Z.max 1 (maxRedirects e)) as Hnil by (intros l ->; split; [constructor|simpl; lia]).
  enough (Forall checked (Handler job).1 /\ Z.of_nat (length (Handler job).1) <= Z.max 1 (maxRedirects e)) as [Hall ?].
  { split_and!; [|done|intros r; apply Hsend]. eapply Forall_impl; [exact Hall|]. intros s. apply validateURL_allowed. }
  unfold Handler. destruct (String.eqb _ ""); [by apply Hnil|]. destruct (ParseURL _) as [u|]; [|by apply Hnil].
  destruct (validateURL 0 u) eqn:Hv; [by apply Hnil|]. destruct (_ && _ && _); [by apply Hnil|]. destruct (MarshalBody _) as [body|]; [|by apply Hnil].
  set (r := mkRequest _ u _ _ _). destruct (Hsend r) as ((more & Hs & Hmore) & Hlen & _). destruct (send r) as [sent result]. cbn [fst] in *.
  assert (Forall checked sent) as Hall.
  { rewrite Hs. constructor; [exact Hv|]. eapply Forall_impl; [exact Hmore|]. by intros s [? _]. }
  destruct result; done.
Qed.

(** ** Which failures are retried *)

Lemma method_of_default job :
  let m := ToUpper (TrimSpace (default "" (Task.Metadata (Job.Task job) !! "method"))) in
  method_of job = if decide (m = "") then "POST" else m.
Proof. unfold method_of. cbv zeta. case_decide as Hm; [by rewrite Hm|]. by rewrite (proj2 (String.eqb_neq _ _) Hm). Qed.

Lemma unsupported_method m :
  negb (String.eqb m "POST") && negb (String.eqb m "PUT") && negb (String.eqb m "PATCH") = true <-> m ∉ ["POST"; "PUT"; "PATCH"].
Proof.
  rewrite !andb_true_iff, !negb_true_iff, !String.eqb_neq, !not_elem_of_cons.
  pose proof (not_elem_of_nil (m : string)). tauto.
Qed.

(** The error of an attempt that was answered with this status. *)
Lemma outcome_status resp :
  (outcome resp = None <-> 200 <= StatusCode resp < 300) /\
  forall x, outcome resp = Some x ->
    (errors_Is x Retry.msg_no_retry = true <->
     ~ (StatusCode resp = 408 \/ StatusCode resp = 429 \/ 500 <= StatusCode resp)).
Proof.
  unfold outcome. destruct ((200 <=? StatusCode resp) && (StatusCode resp <? 300)) eqn:Hok.
  { rewrite andb_true_iff, Z.leb_le, Z.ltb_lt in Hok. split; [split; [lia|done]|done]. }
  assert (retryable_status (StatusCode resp) = true <->
    StatusCode resp = 408 \/ StatusCode resp = 429 \/ 500 <= StatusCode resp) as Hret.
  { unfold retryable_status. rewrite !orb_true_iff, !Z.eqb_eq, Z.leb_le. tauto. }
  rewrite andb_false_iff, Z.leb_gt, Z.ltb_ge in Hok.
  destruct (retryable_status _); (split; [split; [done|lia]|intros x [= <-]; rewrite <- Hret; simpl; intuition congruence]).
Qed.

Lemma send_sends r : client e = None -> (send r).1 <> [].
Proof.
  intros Hclient. unfold send. rewrite Hclient.
  destruct (Do_spec (Z.to_nat (maxRedirects e)) 1 0 r) as ((more & Hs & _) & _); [lia|lia|]. by rewrite Hs.
Qed.

(** C37: what an attempt is worth.  Without a url that parses and passes validateURL, or with a
    method other than POST, PUT and PATCH (POST when none is given), nothing is sent and the
    job is not retried; when the body cannot be built nothing is sent either, and that error
    is passed on.  Otherwise the job's body is sent to the url, and the attempt succeeds
    exactly for a status from 200 to 299; a failure is retried exactly for 408, 429 and 500
    and above; a failed exchange is retried unless its own error forbids it. *)
Theorem webhook_retry_decision job :
  let '(sent, err) := Handler job in
  let task := Job.Task job in
  let url := TrimSpace (default "" (Task.Metadata task !! "url")) in
  let m := ToUpper (TrimSpace (default "" (Task.Metadata task !! "method"))) in
  let method := if decide (m = "") then "POST" else m in
  let body := MarshalBody (mkBody (Job.ID job) (Task.ID task) (Task.Name task) (Job.Attempt job) (Task.Payload task)
                             (Job.Metadata job)) in
  let accepted u := url <> "" /\ ParseURL url = Ok u /\ validateURL 0 u = None /\ method ∈ ["POST"; "PUT"; "PATCH"] in
  ((forall u, ~ accepted u) /\ sent = [] /\ exists x, err = Some x /\ errors_Is x Retry.msg_no_retry = true) \/
  (exists u y, accepted u /\ body = Err y /\ sent = [] /\ err = Some (wrapf "webhook: marshal request body: " y)) \/
  (exists u b result, accepted u /\ body = Ok b /\
     send (mkRequest method u (Job.ID job) (Itoa (Job.Attempt job)) (Some b)) = (sent, result) /\
     (client e = None -> sent <> []) /\
     match result with
     | Ok resp =>
         (err = None <-> 200 <= StatusCode resp < 300) /\
         forall x, err = Some x ->
           (errors_Is x Retry.msg_no_retry = true <->
            ~ (StatusCode resp = 408 \/ StatusCode resp = 429 \/ 500 <= StatusCode resp))
     | Err y => exists x, err = Some x /\ errors_Is x Retry.msg_no_retry = errors_Is y Retry.msg_no_retry
     end).
Proof.
  unfold Handler. rewrite <- (method_of_default job). destruct (String.eqb_spec (TrimSpace (default "" (Task.Metadata (Job.Task job) !! "url"))) "") as [->|Hne].
  { left. split; [by intros u (? & _)|]. split; [done|]. by eexists. }
  destruct (ParseURL _) as [u|y] eqn:Hu.
  2:{ left. split; [by intros u (_ & ? & _)|]. split; [done|]. eexists. split; [done|]. cbn. by rewrite orb_true_r. }
  destruct (validateURL 0 u) as [y|] eqn:Hv.
  { left. split; [intros u' (_ & [= <-] & ? & _); congruence|]. split; [done|]. eexists. split; [done|]. cbn. by rewrite orb_true_r. }
  destruct (negb _ && negb _ && negb _) eqn:Hm.
  { apply unsupported_method in Hm. left. split; [by intros u' (_ & _ & _ & ?)|]. split; [done|]. by eexists. }
  assert (method_of job ∈ ["POST"; "PUT"; "PATCH"]) as Hmeth.
  { destruct (decide (method_of job ∈ ["POST"; "PUT"; "PATCH"])) as [|Hn]; [done|]. apply unsupported_method in Hn. congruence. }
  destruct (MarshalBody _) as [body|y] eqn:Hb; [|right; left; by exists u, y].
  destruct (send _) as [sent result] eqn:Hs. assert (client e = None -> sent <> []) as Hsent.
  { intros Hc Hnil. eapply (send_sends _ Hc). by rewrite Hs. }
  destruct result as [resp|y]; right; right; exists u, body; eexists; (split; [done|]); (split; [done|]); (split; [exact Hs|]); (split; [exact Hsent|]).
  - apply outcome_status.
  - eexists. split; [done|]. apply wrapf_Is.
Qed.

(** ** How many redirects are followed *)

Section Redirects.
Hypothesis redirects : forall n r, exists resp u,
  (round_trip n r).2 = Ok resp /\ is_redirect (StatusCode resp) = true /\ Location resp <> "" /\
  ParseRef (RequestURL r) (Location resp) = Ok u /\ validateURL (S n) u = None.

Lemma Do_redirects fuel n via r :
  0 <= via < maxRedirects e -> maxRedirects e - via <= Z.of_nat fuel ->
  Z.of_nat (length (Do fuel n via r).1) = maxRedirects e - via.
Proof.
  revert n via r. induction fuel as [|fuel IH]; intros n via r Hvia Hfuel; [lia|].
  destruct (redirects n r) as (resp & u & Hrt & Hst & Hloc & Href & Hval). cbn [Do].
  destruct (round_trip n r) as [sent result]. simpl in Hrt. subst result.
  rewrite Hst, (proj2 (String.eqb_neq _ _) Hloc), Href. cbn [negb andb]. unfold CheckRedirect.
  destruct (Z.leb_spec (maxRedirects e) (via + 1)) as [Hmax|Hmax]; [simpl; lia|]. rewrite Hval.
  specialize (IH (S (S n)) (via + 1) (redirect_request r (StatusCode resp) u)).
  destruct (Do fuel _ _ _) as [more result]. simpl in *. rewrite Nat2Z.inj_succ, IH by lia. lia.
Qed.

(** With MaxRedirects set to a positive number, a server that keeps redirecting gets that
    many requests: one redirect less than the setting says is followed, and none for 1. *)
Theorem webhook_redirects_one_less r :
  client e = None -> 0 < maxRedirects e -> Z.of_nat (length (send r).1) = maxRedirects e.
Proof. intros Hc Hm. unfold send. rewrite Hc, Do_redirects; lia. Qed.
End Redirects.

End Webhook.

(** ** Witnesses *)

(** A network given by its DNS and its servers; the transport takes the first address. *)
Definition test_net (dns : nat -> string -> res (list Addr) error) (server : nat -> Addr -> Request -> res Response error) : Net.
Proof.
  refine {| resolve := dns; connect := fun _ l => head l; answer := server;
            ParseURL := fun s => Ok (mkURL "https" false s "/"); ParseRef := fun _ s => Ok (mkURL "https" false s "/");
            ParseAddr := fun _ => None; AddrString := fun _ => "address"; MarshalBody := fun _ => Ok "{}" |}.
  intros _ l a Hl. destruct l; simplify_eq/=. left.
Defined.

Definition public_addr : Addr := IPv4 (quad 93 184 216 34).
Definition home : Addr := IPv4 (quad 127 0 0 1).

Definition server_default (redirects : Z) : Executor := NewExecutorWithConfig (mkConfig None 0 redirects false).

Definition hook_job : Job :=
  Job.mkJob "j1" "" (Task.mkTask "t1" "webhook" "x" 0 3 0 "" "" {["url" := "hooks.example"]}) JobStateRunning 1 None None None "" None "" ∅ 0 0.

#[local] Existing Instance latin1_unicode.

Definition steady : Net := test_net (fun _ _ => Ok [public_addr]) (fun _ _ _ => Ok (mkResponse 302 "hooks.example" "")).

Lemma webhook_requests_checked_witness :
  let N := steady in let e := server_default 3 in
  length (Handler e hook_job).1 = 3%nat /\
  Forall (fun s => allowed e (pred (s_at s)) (RequestURL (s_request s))) (Handler e hook_job).1 /\
  Z.of_nat (length (Handler e hook_job).1) <= Z.max 1 (maxRedirects e) /\
  forall r extra, Do e (Z.to_nat (maxRedirects e) + extra) 1 0 r = send e r.
Proof.
  intros N e. split; [vm_compute; reflexivity|]. apply (webhook_requests_checked e hook_job). reflexivity.
Defined.

(** 0.0.0.0 mapped into IPv6, which connects to the local host. *)
Definition mapped_zero : Addr := IPv6 (65535 * 2 ^ 32) "".


Example mapped_zero_accepted : @validateAddr steady (server_default 0) mapped_zero = None.
Proof. vm_compute. reflexivity. Qed.

Definition first_request : Request := mkRequest "POST" (mkURL "https" false "hooks.example" "/") "j1" "1" (Some "{}").

Lemma webhook_redirects_witness :
  let N := steady in Z.of_nat (length (send (server_default 3) first_request).1) = 3.
Proof.
  intros N. apply (webhook_redirects_one_less (server_default 3)).
  - intros n r'. exists (mkResponse 302 "hooks.example" ""), (mkURL "https" false "hooks.example" "/"). split_and!; done.
  - reflexivity.
  - reflexivity.
Defined.

(** The DNS answers differently to the check and to the transport. *)
Definition rebinding : Net :=
  test_net (fun n _ => if Nat.eqb n 0 then Ok [public_addr] else Ok [home]) (fun _ _ _ => Ok (mkResponse 200 "" "")).

(** The check does not bind the connection.  validateURL looks the host up, and the transport
    looks it up again: a DNS server that answers a public address first and a loopback
    address then makes the executor send the job to the local host, although private
    networks are not allowed. *)
Theorem webhook_dns_rebinding :
  exists (N : Net) e job s, client e = None /\ allowPrivateNetworks e = false /\ s ∈ (Handler e job).1 /\
    exists a, s_addr s = Some a /\ validateAddr e a <> None.
Proof.
  exists rebinding, (server_default 0), hook_job, (mkSent first_request (Some home) 1).
  split_and!; [done|done| |].
  - vm_compute. left.
  - exists home. split; [done|]. vm_compute. discriminate.
Qed.

End Webhook.
