(* ===== verification/Api.v ===== *)
(** * internal/api

    The HTTP handlers as programs over the job service and the store, the error envelope,
    and the middleware chain around them.  Routing and JSON are gin's: a request is the
    endpoint with its decoded parameters. *)

From S2P Require Import Prelude GoLib Models Sql Effects Rely Store Concrete StoreSpec Service.

Module Api.

(** ** Requests and responses *)

Record EnqueueRequest := mkEnqueueRequest {
  ReqIdempotencyKey : string;
  ReqTask : Task;
  ReqScheduledAt : option Z;
  ReqMetadata : gmap string string;
}.

(** What ShouldBindJSON, Param and Query give the handlers. *)
Inductive Request :=
| PostJobs (body : res EnqueueRequest error)
| GetJobs (state cursor limit : string)
| GetByKey (key : string)
| GetById (id : string)
| PostCancel (id : string).

Record ErrorBody := mkErrorBody {
  Code : string;
  Message : string;
  RequestID : string;
}.

Inductive Content :=
| CError (body : ErrorBody)
| CId (id : string)
| CJob (job : Job)
| CPage (jobs : list Job) (next_cursor : string)
| CStatus (status : string).

Record Response := mkResponse {
  Status : Z;
  Body : Content;
}.

Section Api.
Context {coll : Collation} {env : Env} {pgx : Pgx}.

(** The topic the service publishes to, and the request id of the gin context. *)
Context (topic : string) (rid : string).

Definition RespondError (status : Z) (code message : string) : Response :=
  mkResponse status (CError (mkErrorBody code message rid)).

Definition internal_error (message : string) : Response := RespondError 500 "internal_error" message.
Definition invalid_request (message : string) : Response := RespondError 400 "invalid_request" message.
Definition not_found : Response := RespondError 404 "not_found" "job not found".
Definition invalid_state : Response := RespondError 409 "invalid_state" "job cannot be cancelled in its current state".

(** The job a request asks for: every field it does not name is zero. *)
Definition requested_job (request : EnqueueRequest) : Job :=
  Job.mkJob "" (ReqIdempotencyKey request) (ReqTask request) "" 0 (ReqScheduledAt request) None None "" None ""
    (ReqMetadata request) zero_time zero_time.

(** ** The handlers *)

Definition EnqueueJob (body : res EnqueueRequest error) : prog Ev Response :=
  match body with
  | Err e => Ret (invalid_request (Error e))
  | Ok request =>
      if String.eqb (Task.Name (ReqTask request)) "" then Ret (invalid_request "task.name is required")
      else
        let! r := Enqueue topic (requested_job request) in
        match r with
        | Err _ => Ret (internal_error "failed to enqueue job")
        | Ok id =>
            perform _ := EMetric IncEnqueued in
            Ret (mkResponse 201 (CId id))
        end
  end.

Definition job_response (r : res Job error) : Response :=
  match r with
  | Ok job => mkResponse 200 (CJob job)
  | Err e => if errors_Is e msg_not_found then not_found else internal_error "failed to retrieve job"
  end.

Definition GetJobStatus (id : string) : prog Ev Response :=
  let! r := GetJob id in Ret (job_response r).

Definition GetJobByKey (key : string) : prog Ev Response :=
  if String.eqb key "" then Ret (invalid_request "idempotency key is required")
  else let! r := GetJobByIdempotencyKey key in Ret (job_response r).

Definition known_states : list JobState :=
  [""; JobStatePending; JobStateRunning; JobStateCompleted; JobStateFailed; JobStateDead].

(** The limit of the query: 0 when it is not given. *)
Definition parse_limit (v : string) : option Z :=
  if String.eqb v "" then Some 0
  else match Atoi v with Some n => if n <? 0 then None else Some n | None => None end.

Definition ListJobsHandler (state cursor limit : string) : prog Ev Response :=
  match parse_limit limit with
  | None => Ret (invalid_request "limit must be a non-negative integer")
  | Some n =>
      if bool_decide (state ∈ known_states) then
        let! r := ListJobs (mkListFilter state n cursor) in
        Ret match r with
            | Err _ => internal_error "failed to list jobs"
            | Ok (jobs, nextCursor) => mkResponse 200 (CPage jobs nextCursor)
            end
      else Ret (invalid_request "state must be one of PENDING, RUNNING, COMPLETED, FAILED, DEAD")
  end.

Definition CancelJobHandler (id : string) : prog Ev Response :=
  let! err := Cancel id in
  match err with
  | Some e =>
      Ret (if errors_Is e msg_not_found then not_found
           else if errors_Is e msg_invalid_transition then invalid_state
           else internal_error "failed to cancel job")
  | None =>
      perform _ := EMetric IncCancelled in
      Ret (mkResponse 200 (CStatus "cancelled"))
  end.

(** The routes. *)
Definition route (r : Request) : prog Ev Response :=
  match r with
  | PostJobs body => EnqueueJob body
  | GetJobs state cursor limit => ListJobsHandler state cursor limit
  | GetByKey key => GetJobByKey key
  | GetById id => GetJobStatus id
  | PostCancel id => CancelJobHandler id
  end.

End Api.

(** ** Middleware *)

(** [strconv.FormatInt(n, 36)]. *)
Fixpoint base36_digits (fuel : nat) (n : Z) (acc : string) : string :=
  match fuel with
  | O => acc
  | S fuel' =>
      let d := n mod 36 in
      let c := if d <? 10 then digit_char d else ascii_of (87 + d) in
      if n <? 36 then String c acc else base36_digits fuel' (n / 36) (String c acc)
  end.

Definition FormatInt36 (n : Z) : string :=
  if n <? 0 then String "-"%char (base36_digits (S (Z.to_nat (Z.log2 (- n)))) (- n) "")
  else base36_digits (S (Z.to_nat (Z.log2 n))) n "".

Definition newRequestID : prog Ev string :=
  perform b := ERand 8 in
  match b with
  | Some bytes => Ret (HexEncode bytes)
  | None => perform now := ENow in Ret ("req-" +:+ FormatInt36 now)
  end.

(** How a handler ends: with a response, or with a panic before or after it wrote one. *)
Inductive Ending :=
| Answered (r : Response)
| PanickedWith (value : string) (written : option Response).

Inductive Level := Info | Warn | ErrorLevel.

(** What the client and the server's records see of a request. *)
Record Served := mkServed {
  sent : Response;
  header : string;
  counted : list (string * string * Z);
  logged : Level;
}.

(** metricsMiddleware counts after c.Next; a panic passes it by. *)
Definition metricsMiddleware (method path : string) (e : Ending) : list (string * string * Z) :=
  match e with Answered r => [(method, path, Status r)] | PanickedWith _ _ => [] end.

Definition Recovery (rid : string) (e : Ending) : Response :=
  match e with
  | Answered r => r
  | PanickedWith _ (Some r) => r
  | PanickedWith value None => RespondError rid 500 "internal_error" ("panic: " +:+ value)
  end.

Definition RequestLogger (r : Response) : Level :=
  if 500 <=? Status r then ErrorLevel else if 400 <=? Status r then Warn else Info.

(** The chain RequestID, RequestLogger, Recovery, metrics around a handler, which gets the
    request id. *)
Definition serve (idHeader method path : string) (handler : string -> prog Ev Ending) : prog Ev Served :=
  let! rid := (if String.eqb idHeader "" then newRequestID else Ret idHeader) in
  let! e := handler rid in
  Ret (mkServed (Recovery rid e) rid (metricsMiddleware method path e) (RequestLogger (Recovery rid e))).

Definition answered {A} (f : string -> prog Ev A) (g : A -> Ending) : string -> prog Ev Ending :=
  fun rid => let! a := f rid in Ret (g a).

(** A request to the job API, from the first middleware to the response. *)
Definition handle_request (coll : Collation) (env : Env) (pgx : Pgx) (topic idHeader method path : string) (r : Request) : prog Ev Served :=
  serve idHeader method path (answered (fun rid => route topic rid r) Answered).

(** ** What the API promises *)

Section Spec.
Context {coll : Collation} {env : Env} {pgx : Pgx}.
Context (topic : string) (rid : string).

(** The requests the API answers 400, and why. *)
Definition malformed (r : Request) : option string :=
  match r with
  | PostJobs (Err e) => Some (Error e)
  | PostJobs (Ok request) => if bool_decide (Task.Name (ReqTask request) = "") then Some "task.name is required" else None
  | GetJobs state _ limit =>
      if negb (bool_decide (is_Some (parse_limit limit))) then Some "limit must be a non-negative integer"
      else if bool_decide (state ∈ known_states) then None
      else Some "state must be one of PENDING, RUNNING, COMPLETED, FAILED, DEAD"
  | GetByKey key => if bool_decide (key = "") then Some "idempotency key is required" else None
  | GetById _ | PostCancel _ => None
  end.

(** What can make a well-formed request fail with 500. *)
Inductive trouble (t : Table) : Request -> Prop :=
| TroubleSql r n : env_sql n <> NoFault -> trouble t r
| TroubleScan r id row : t !! id = Some row -> scan_row row = None -> trouble t r
| TroubleRand body n : env_rand n 16 = None -> trouble t (PostJobs body)
| TroubleId body n b : env_rand n 16 = Some b -> is_Some (t !! uuid_text (uuid_bytes b)) -> trouble t (PostJobs body)
| TroubleInt4 request :
    int4 (Task.RetryCount (ReqTask request)) && int4 (Task.MaxRetries (ReqTask request)) = false ->
    trouble t (PostJobs (Ok request))
| TroubleCursor state cursor limit e : cursor <> "" -> decodeCursor cursor = Err e -> trouble t (GetJobs state cursor limit).

(** The contract of a well-formed request on the table of jobs: the response and the table
    after it.  An internal error leaves open whether a write took effect. *)
Inductive served (t : Table) : Request -> Response -> Table -> Prop :=
| SpecInternal r message : trouble t r -> served t r (internal_error rid message) t
| SpecLostInsert request message job now :
    trouble t (PostJobs (Ok request)) ->
    t !! Job.ID job = None -> Job.IdempotencyKey job = ReqIdempotencyKey request -> Job.Task job = ReqTask request ->
    served t (PostJobs (Ok request)) (internal_error rid message) (<[Job.ID job := job_row (stamped now job)]> t)
| SpecLostCancel id message row now :
    trouble t (PostCancel id) ->
    t !! id = Some row -> served t (PostCancel id) (internal_error rid message) (<[id := set_row_state JobStateDead now row]> t)
| SpecCreated request id job now :
    t !! id = None -> Job.ID job = id -> Job.State job = JobStatePending ->
    Job.IdempotencyKey job = ReqIdempotencyKey request -> Job.Task job = ReqTask request ->
    served t (PostJobs (Ok request)) (mkResponse 201 (CId id)) (<[id := job_row (stamped now job)]> t)
| SpecRepeated request id row :
    ReqIdempotencyKey request <> "" -> t !! id = Some row -> r_key row = Some (ReqIdempotencyKey request) ->
    served t (PostJobs (Ok request)) (mkResponse 201 (CId id)) t
| SpecJob id row job :
    t !! id = Some row -> scan_row row = Some job -> served t (GetById id) (mkResponse 200 (CJob job)) t
| SpecNoJob id : t !! id = None -> served t (GetById id) (not_found rid) t
| SpecJobByKey key id row job :
    t !! id = Some row -> r_key row = Some key -> scan_row row = Some job ->
    served t (GetByKey key) (mkResponse 200 (CJob job)) t
| SpecNoKey key : (forall id row, t !! id = Some row -> r_key row <> Some key) -> served t (GetByKey key) (not_found rid) t
| SpecPage state cursor limit jobs next :
    (forall job, job ∈ jobs -> exists row, t !! Job.ID job = Some row /\ scan_row row = Some job) ->
    (state <> "" -> forall job, job ∈ jobs -> Job.State job = state) ->
    served t (GetJobs state cursor limit) (mkResponse 200 (CPage jobs next)) t
| SpecCancelled id row now :
    t !! id = Some row -> ~ terminal (r_state row) ->
    served t (PostCancel id) (mkResponse 200 (CStatus "cancelled")) (<[id := set_row_state JobStateDead now row]> t)
| SpecCancelMissing id : t !! id = None -> served t (PostCancel id) (not_found rid) t
| SpecCancelRefused id row :
    t !! id = Some row -> CanTransition (r_state row) JobStateDead = false -> served t (PostCancel id) (invalid_state rid) t.

Definition api_spec (t : Table) (r : Request) (resp : Response) (t' : Table) : Prop :=
  match malformed r with
  | Some message => resp = invalid_request rid message /\ t' = t
  | None => served t r resp t'
  end.

(** The errors of a failing connection are none of the store's and driver's sentinels. *)
Definition foreign (e : error) : Prop :=
  isIdempotencyUniqueViolation e = false /\ errors_Is e msg_duplicate_key = false /\ errors_Is e msg_no_rows = false /\
  errors_Is e msg_not_found = false /\ errors_Is e msg_invalid_transition = false.

Definition foreign_faults : Prop := forall n e, env_sql n = FailBefore e \/ env_sql n = FailAfter e -> foreign e.

(** A failing statement, or a row the driver cannot decode. *)
Definition disturbed (t : Table) : Prop :=
  (exists n, env_sql n <> NoFault) \/ exists id row, t !! id = Some row /\ scan_row row = None.

Lemma disturbed_trouble t r : disturbed t -> trouble t r.
Proof. intros [(n & H)|(id & row & H1 & H2)]; [by eapply TroubleSql|by eapply TroubleScan]. Qed.

(** *** Reads *)

(** What a lookup answers: the row, or an error that is "not found" exactly when there is
    no row. *)
Definition looked_up (t : Table) (row : option Row) (r : res Job error) : Prop :=
  match r with
  | Ok job => exists x, row = Some x /\ scan_row x = Some job
  | Err e => errors_Is e msg_invalid_transition = false /\
             if errors_Is e msg_not_found then row = None else disturbed t
  end.

Lemma found_scan_cases t n (row : option Row) (done skipped : World) :
  foreign_faults -> (forall x, row = Some x -> exists id, t !! id = Some x) ->
  looked_up t row (found (scanJob (with_fault (env_sql n) (Ok row, done) skipped).1)).
Proof.
  intros Hff Hrow. specialize (Hff n). destruct (env_sql n) as [|e|e] eqn:Hn; cbn [with_fault fst].
  2,3: destruct (Hff e) as (_ & _ & H1 & H2 & H3); [auto|]; unfold found, scanJob, looked_up; rewrite H1, H2;
    (split; [done|]); left; exists n; by rewrite Hn.
  destruct row as [x|]; [|done]. unfold found, scanJob. destruct (scan_row x) as [job|] eqn:Hs; [by exists x|].
  split; [done|]. destruct (Hrow x eq_refl) as (id & Hid). right. by exists id, x.
Qed.

Lemma exec_GetJob_cases id w :
  foreign_faults ->
  w_db (exec (GetJob id) w).2 = w_db w /\ looked_up (w_db w) (w_db w !! id) (exec (GetJob id) w).1.
Proof.
  intros Hff. split; [apply exec_GetJob_db|]. unfold GetJob. rewrite exec_vis. cbn [handle exec_stmt].
  change (exec (Ret ?x) ?y) with (x, y). cbn [fst]. change (w_db (tick w)) with (w_db w). apply found_scan_cases; eauto.
Qed.

Lemma exec_GetByKey_cases key w :
  wf_env env -> wf_table (w_db w) -> foreign_faults ->
  w_db (exec (GetJobByIdempotencyKey key) w).2 = w_db w /\
  exists row, looked_up (w_db w) row (exec (GetJobByIdempotencyKey key) w).1 /\
    match row with
    | Some x => exists id, w_db w !! id = Some x /\ r_key x = Some key
    | None => forall id x, w_db w !! id = Some x -> r_key x <> Some key
    end.
Proof.
  intros Henv Hwf Hff. split; [by apply exec_lookup_key|]. unfold GetJobByIdempotencyKey. rewrite exec_vis. cbn [handle exec_stmt].
  change (exec (Ret ?x) ?y) with (x, y). cbn [fst]. change (w_db (tick w)) with (w_db w).
  set (v := env_view (w_tick w)). assert (pv_scan v (w_db w) ≡ₚ rows (w_db w)) as Hscan by apply (Henv (w_tick w)).
  set (f := fun r => bool_decide _). exists (find f (pv_scan v (w_db w))).
  assert (match find f (pv_scan v (w_db w)) with
    | Some x => exists id, w_db w !! id = Some x /\ r_key x = Some key
    | None => forall id x, w_db w !! id = Some x -> r_key x <> Some key end) as Hfind.
  { destruct (find _ _) as [x|] eqn:Hf.
    - apply find_some in Hf as [Hin Hk]. unfold f in Hk. bool_to_prop. apply list_elem_of_In in Hin. rewrite Hscan in Hin.
      apply elem_of_rows_wf in Hin; eauto.
    - intros id x Hx Hk. assert (In x (pv_scan v (w_db w))) as Hin by (apply list_elem_of_In; rewrite Hscan; apply elem_of_rows; eauto).
      apply (find_none _ _ Hf x) in Hin. unfold f in Hin. by bool_to_prop. }
  split; [|done]. apply found_scan_cases; [done|]. intros x Hx. rewrite Hx in Hfind. destruct Hfind as (id & ? & _). eauto.
Qed.

(** *** Writes *)

Lemma exec_CreateJob_db job w :
  w_db (exec (CreateJob job) w).2 = w_db w \/
  (w_db w !! Job.ID job = None /\ w_db (exec (CreateJob job) w).2 = <[Job.ID job := job_row (stamped (env_now (w_tick w)) job)]> (w_db w)).
Proof.
  unfold CreateJob, exec. cbn [run handle]. fold (stamped (env_now (w_tick w)) job).
  set (job' := stamped _ job). assert (Job.ID job' = Job.ID job) as <- by (unfold job', stamped; by destruct (IsZero (Job.CreatedAt job))).
  clearbody job'. cbn [exec_stmt tick w_tick w_db]. destruct (insert_row (job_row job') (w_db w)) as [x t'] eqn:Hi.
  assert (t' = w_db w \/ (w_db w !! Job.ID job' = None /\ t' = <[Job.ID job' := job_row job']> (w_db w))) as Ht.
  { unfold insert_row in Hi. cbn [job_row r_id r_key] in Hi. repeat case_match; simplify_eq/=; auto. }
  destruct (env_sql (S (w_tick w))); cbn [with_fault run fst snd]; cbn [set_db tick w_db]; auto.
Qed.

Lemma exec_GetByKey_db key w : w_db (exec (GetJobByIdempotencyKey key) w).2 = w_db w.
Proof. unfold exec, GetJobByIdempotencyKey. simpl. by destruct (env_sql (w_tick w)). Qed.

(** Enqueue writes nothing, or the job it was given with an id. *)
Definition enqueued_row (job : Job) (t t' : Table) : Prop :=
  t' = t \/ exists job' now, t !! Job.ID job' = None /\ Job.IdempotencyKey job' = Job.IdempotencyKey job /\
    Job.Task job' = Job.Task job /\ t' = <[Job.ID job' := job_row (stamped now job')]> t.

Lemma exec_persist_db job w : enqueued_row job (w_db w) (w_db (exec (persist topic job) w).2).
Proof.
  unfold persist. rewrite exec_vis. cbn [handle fst snd].
  set (job1 := if bool_decide (Job.State job = "") then _ else _).
  set (job2 := match Job.ScheduledAt job1 with Some _ => job1 | None => _ end).
  assert (Job.IdempotencyKey job2 = Job.IdempotencyKey job /\ Job.Task job2 = Job.Task job) as [Hk Ht].
  { unfold job2, job1. repeat case_match; done. }
  rewrite exec_bind. pose proof (exec_CreateJob_db job2 (tick w)) as Hc. destruct (exec (CreateJob job2) (tick w)) as [err w1]. cbn [snd] in Hc.
  change (w_db (tick w)) with (w_db w) in Hc. clearbody job2.
  assert (enqueued_row job (w_db w) (w_db w1)) as Hw1.
  { destruct Hc as [->|[Hn ->]]; [by left|]. right. exists job2. eexists. split_and!; done. }
  destruct err as [e|].
  - destruct (_ && _); [|done]. rewrite exec_bind. pose proof (exec_GetByKey_db (Job.IdempotencyKey job2) w1) as Hdb.
    destruct (exec (GetJobByIdempotencyKey _) w1) as [[ex|e'] w2]; cbn [snd] in Hdb; unfold exec; cbn [run snd]; by rewrite Hdb.
  - destruct (shouldPublishImmediately _ _); [rewrite exec_vis|]; unfold exec; cbn [run handle fst snd]; done.
Qed.

Lemma exec_Enqueue_db job w : enqueued_row job (w_db w) (w_db (exec (Enqueue topic job) w).2).
Proof.
  assert (forall w0, w_db w0 = w_db w -> enqueued_row job (w_db w) (w_db (exec (with_id topic job) w0).2)) as Hid.
  { intros w0 <-. unfold with_id. case_bool_decide; [|apply exec_persist_db]. unfold newJobID. rewrite exec_bind, exec_vis. cbn [handle fst snd].
    change (exec (Ret ?x) ?y) with (x, y). cbv beta iota. destruct (env_rand (w_tick w0) 16) as [b|]; [|by left].
    exact (exec_persist_db (Job.set_ID (uuid_text (uuid_bytes b)) job) (tick w0)). }
  unfold Enqueue. case_bool_decide; cbn [negb]; [by apply Hid|]. rewrite exec_bind.
  pose proof (exec_GetByKey_db (Job.IdempotencyKey job) w) as Hdb. destruct (exec (GetJobByIdempotencyKey _) w) as [[ex|e] w1]; cbn [snd] in Hdb.
  - unfold exec. cbn [run snd]. rewrite Hdb. by left.
  - destruct (errors_Is e msg_not_found); cbn [negb]; [by apply Hid|]. unfold exec. cbn [run snd]. rewrite Hdb. by left.
Qed.

(** *** When Enqueue fails *)

Lemma exec_CreateJob_err job w :
  match exec (CreateJob job) w with
  | (None, _) => True
  | (Some e, w') =>
      (exists n, env_sql n <> NoFault) \/
      int4 (Job.Attempt job) && int4 (Task.RetryCount (Job.Task job)) && int4 (Task.MaxRetries (Job.Task job)) = false \/
      is_Some (w_db w !! Job.ID job) \/
      (errors_Is e msg_duplicate_key = true /\ w_db w' = w_db w /\ Job.IdempotencyKey job <> "" /\
       key_taken (Job.IdempotencyKey job) (w_db w) = true)
  end.
Proof.
  unfold CreateJob. rewrite !exec_vis. cbn [handle fst snd]. fold (stamped (env_now (w_tick w)) job).
  set (job' := stamped _ job).
  assert (Job.ID job' = Job.ID job /\ Job.IdempotencyKey job' = Job.IdempotencyKey job /\ Job.Task job' = Job.Task job /\
    Job.Attempt job' = Job.Attempt job) as (<- & <- & <- & <-) by (unfold job', stamped; by destruct (IsZero (Job.CreatedAt job))).
  clearbody job'. cbn [exec_stmt tick w_tick w_db]. destruct (insert_row (job_row job') (w_db w)) as [x t'] eqn:Hi.
  destruct (env_sql (S (w_tick w))) as [|e|e] eqn:Hn; cbn [with_fault fst snd]; change (exec (Ret ?x) ?y) with (x, y); cbv beta iota.
  2,3: destruct (isIdempotencyUniqueViolation e); left; exists (S (w_tick w)); by rewrite Hn.
  unfold insert_row in Hi. cbn [job_row r_id r_key r_attempt r_task] in Hi.
  destruct (_ && _) eqn:Hint in Hi; cbn [negb] in Hi; [|simplify_eq; simpl; auto]. destruct (w_db w !! Job.ID job') eqn:Hid; [simplify_eq; simpl; eauto|].
  unfold nullableString in Hi. case_bool_decide as Hk; [by simplify_eq|]. destruct (key_taken _ (w_db w)) eqn:Ht; simplify_eq; [|done].
  simpl. do 3 right. done.
Qed.

Lemma exec_persist_err job w :
  wf_env env -> wf_table (w_db w) -> foreign_faults ->
  match exec (persist topic job) w with
  | (Ok _, _) => True
  | (Err _, _) =>
      disturbed (w_db w) \/ is_Some (w_db w !! Job.ID job) \/
      int4 (Job.Attempt job) && int4 (Task.RetryCount (Job.Task job)) && int4 (Task.MaxRetries (Job.Task job)) = false
  end.
Proof.
  intros Henv Hwf Hff. unfold persist. rewrite exec_vis. cbn [handle fst snd].
  set (job1 := if bool_decide (Job.State job = "") then _ else _).
  set (job2 := match Job.ScheduledAt job1 with Some _ => job1 | None => _ end).
  assert (Job.ID job2 = Job.ID job /\ Job.IdempotencyKey job2 = Job.IdempotencyKey job /\ Job.Task job2 = Job.Task job /\ Job.Attempt job2 = Job.Attempt job)
    as (<- & _ & <- & <-) by (unfold job2, job1; repeat case_match; done).
  rewrite exec_bind. pose proof (exec_CreateJob_err job2 (tick w)) as Hc. clearbody job2. change (w_db (tick w)) with (w_db w) in Hc.
  destruct (exec (CreateJob job2) (tick w)) as [[e|] w1]; [|by destruct (shouldPublishImmediately _ _)].
  destruct Hc as [Hc|[Hc|[Hc|(H1 & Hdb & Hk & Ht)]]].
  1-3: destruct (exec _ w1) as [[?|?] ?]; [done|]; unfold disturbed; tauto.
  rewrite H1, bool_decide_false by done. cbn [andb negb]. rewrite exec_bind. rewrite <- Hdb in Hwf, Ht.
  pose proof (exec_GetByKey_cases (Job.IdempotencyKey job2) w1 Henv Hwf Hff) as (_ & row & Hl & Hrow).
  destruct (exec (GetJobByIdempotencyKey _) w1) as [[ex|e'] w2]; [done|]. change (exec (Ret ?x) ?y) with (x, y). cbv beta iota. cbn [fst looked_up] in Hl.
  destruct Hl as [_ Hl]. destruct (errors_Is e' msg_not_found); [subst row|rewrite <- Hdb; by left].
  apply key_taken_spec in Ht as (id & r & Hr & Hkr). by destruct (Hrow id r Hr).
Qed.

Lemma exec_Enqueue_trouble request w :
  wf_env env -> wf_table (w_db w) -> foreign_faults ->
  match exec (Enqueue topic (requested_job request)) w with
  | (Ok _, _) => True
  | (Err _, _) => trouble (w_db w) (PostJobs (Ok request))
  end.
Proof.
  intros Henv Hwf Hff. set (job := requested_job request).
  assert (forall w0, w_db w0 = w_db w -> match exec (with_id topic job) w0 with (Ok _, _) => True | (Err _, _) => trouble (w_db w) (PostJobs (Ok request)) end) as Hid.
  { intros w0 Hdb. unfold with_id. rewrite bool_decide_true by done. unfold newJobID. rewrite exec_bind, exec_vis. cbn [handle fst snd].
    change (exec (Ret ?x) ?y) with (x, y). cbv beta iota. destruct (env_rand (w_tick w0) 16) as [b|] eqn:Hb; [|by eapply TroubleRand].
    set (job' := Job.set_ID _ job). pose proof (exec_persist_err job' (tick w0) Henv) as Hp. change (w_db (tick w0)) with (w_db w0) in Hp.
    rewrite Hdb in Hp. specialize (Hp Hwf Hff). fold job'. destruct (exec (persist topic job') (tick w0)) as [[?|?] ?]; [done|].
    destruct Hp as [Hp|[Hp|Hp]]; [by apply disturbed_trouble|by eapply TroubleId|by apply TroubleInt4]. }
  unfold Enqueue. case_bool_decide as Hk; cbn [negb]; [by apply Hid|]. rewrite exec_bind.
  pose proof (exec_GetByKey_cases (Job.IdempotencyKey job) w Henv Hwf Hff) as (Hdb & row & Hl & _).
  destruct (exec (GetJobByIdempotencyKey _) w) as [[ex|e] w1]; [done|]. cbn [fst snd looked_up] in *.
  destruct Hl as [_ Hl]. destruct (errors_Is e msg_not_found); cbn [negb]; [by apply Hid|].
  change (exec (Ret ?x) ?y) with (x, y). cbv beta iota. by apply disturbed_trouble.
Qed.

(** What Cancel did, by what it answers. *)
Lemma exec_Cancel_cases id w :
  foreign_faults ->
  match exec (Cancel id) w with
  | (None, w') => exists row now, w_db w !! id = Some row /\ CanTransition (r_state row) JobStateDead = true /\
                    w_db w' = <[id := set_row_state JobStateDead now row]> (w_db w)
  | (Some e, w') =>
      if errors_Is e msg_not_found then w_db w !! id = None /\ w_db w' = w_db w
      else if errors_Is e msg_invalid_transition then
        (exists row, w_db w !! id = Some row /\ CanTransition (r_state row) JobStateDead = false) /\ w_db w' = w_db w
      else disturbed (w_db w) /\
        (w_db w' = w_db w \/ exists row now, w_db w !! id = Some row /\ w_db w' = <[id := set_row_state JobStateDead now row]> (w_db w))
  end.
Proof.
  intros Hff. unfold Cancel, CancelJob. rewrite exec_bind, exec_bind. pose proof (exec_GetJob_cases id w Hff) as [Hdb Hres].
  destruct (exec (GetJob id) w) as [[job|e] w1]; cbn [fst snd looked_up] in *.
  2:{ change (exec (Ret ?x) ?y) with (x, y). cbv beta iota. change (exec (Ret ?x) ?y) with (x, y). cbn [option_map]. rewrite !wrapf_Is.
      destruct Hres as [H1 H2]. rewrite H1. destruct (errors_Is e msg_not_found); auto. }
  destruct Hres as (row & Hrow & Hs). apply scan_row_state in Hs as [Hst _]. rewrite Hst.
  destruct (CanTransition (r_state row) JobStateDead) eqn:Hc; cbn [negb].
  2:{ change (exec (Ret ?x) ?y) with (x, y). cbv beta iota. change (exec (Ret ?x) ?y) with (x, y). cbn [option_map]. rewrite !wrapf_Is. simpl. eauto. }
  rewrite !exec_vis. cbn [handle exec_stmt fst snd]. change (w_tick (tick w1)) with (S (w_tick w1)). set (n := w_tick w1).
  change (w_db (tick (tick w1))) with (w_db w1). unfold update_where. rewrite Hdb, Hrow. cbv beta iota. specialize (Hff (S n)).
  destruct (env_sql (S n)) as [|e|e] eqn:Hn; cbn [with_fault fst snd]; change (exec (Ret ?x) ?y) with (x, y); cbv beta iota;
    change (exec (Ret ?x) ?y) with (x, y); cbn [option_map set_db tick w_db].
  { eauto. }
  all: destruct (Hff e) as (_ & _ & _ & H1 & H2); [auto|]; rewrite !wrapf_Is, H1, H2;
    (split; [left; exists (S n); by rewrite Hn|]); first [by left|right; eauto].
Qed.

(** A listing returns rows of the table, of the state asked for. *)
Lemma scan_rows_spec rs jobs :
  scan_rows rs = Ok jobs -> forall job, job ∈ jobs -> exists row, row ∈ rs /\ scan_row row = Some job.
Proof.
  revert jobs. induction rs as [|r rs IH]; intros jobs; cbn [scan_rows]; [intros [= <-] job Hj; by apply elem_of_nil in Hj|].
  destruct (scan_row r) as [j|] eqn:Hs; [|done]. destruct (scan_rows rs) as [js|]; [|done]. intros [= <-] job [->|Hj]%elem_of_cons.
  - exists r. split; [left|done].
  - destruct (IH js eq_refl job Hj) as (row & Hin & Hrow). exists row. split; [by right|done].
Qed.

Lemma scan_rows_err rs e : scan_rows rs = Err e -> exists row, row ∈ rs /\ scan_row row = None.
Proof.
  induction rs as [|r rs IH]; cbn [scan_rows]; [done|]. destruct (scan_row r) as [j|] eqn:Hs; [|intros _; exists r; split; [left|done]].
  destruct (scan_rows rs) as [js|e']; [done|]. intros [= <-]. destruct (IH eq_refl) as (row & Hin & Hrow). exists row. split; [by right|done].
Qed.

Lemma exec_ListJobs_cases st n cursor w :
  wf_env env -> wf_table (w_db w) ->
  w_db (exec (ListJobs (mkListFilter st n cursor)) w).2 = w_db w /\
  match (exec (ListJobs (mkListFilter st n cursor)) w).1 with
  | Ok (jobs, _) =>
      forall job, job ∈ jobs -> (exists row, w_db w !! Job.ID job = Some row /\ scan_row row = Some job) /\ (st <> "" -> Job.State job = st)
  | Err _ => disturbed (w_db w) \/ (cursor <> "" /\ exists e, decodeCursor cursor = Err e)
  end.
Proof.
  intros Henv Hwf. unfold ListJobs. cbn [lf_Cursor lf_Limit lf_State]. set (limit := clamp_limit n). set (state := if bool_decide (st = "") then None else _).
  destruct (if bool_decide (cursor = "") then _ else _) as [bound|e] eqn:Hcursor.
  2:{ split; [done|]. right. case_bool_decide; [done|]. split; [done|]. destruct (decodeCursor cursor) as [b|e'] eqn:Hd; [done|by exists e']. }
  clear Hcursor. rewrite exec_vis. cbn [handle exec_stmt]. change (exec (Ret ?x) ?y) with (x, y). cbn [fst snd]. change (w_db (tick w)) with (w_db w).
  set (rs := take _ _). assert (forall row, row ∈ rs -> w_db w !! r_id row = Some row /\ (st <> "" -> r_state row = st)) as Hrs.
  { intros row Hrow. assert (row ∈ select_list (env_view (w_tick w)) state bound (w_db w)) as Hin by (eapply elem_of_sublist; [exact Hrow|apply sublist_take]).
    unfold select_list in Hin. rewrite merge_sort_Permutation, elem_of_bfilter, (Henv (w_tick w) (w_db w)) in Hin. destruct Hin as [Hin Hkeep].
    apply elem_of_rows_wf in Hin; [|done]. split; [done|]. intros Hst. unfold list_keep, state in Hkeep. rewrite bool_decide_false in Hkeep by done.
    apply andb_true_iff in Hkeep as [Hkeep _]. by bool_to_prop. }
  clearbody rs. destruct (env_sql (w_tick w)) as [|e|e] eqn:Hn; cbn [with_fault fst snd]; (split; [done|]);
    [|left; left; exists (w_tick w); by rewrite Hn..].
  destruct (scan_rows rs) as [js|] eqn:Hscan.
  2:{ apply scan_rows_err in Hscan as (row & Hin & Hrow). left. right. exists (r_id row), row. split; [by apply Hrs|done]. }
  destruct (cut_page limit js) as [jobs next] eqn:Hcut. intros job Hj.
  assert (job ∈ js) as Hjs.
  { unfold cut_page in Hcut. destruct (_ <? _); [|by simplify_eq]. destruct (js !! _); simplify_eq; (eapply elem_of_sublist; [exact Hj|apply sublist_take]). }
  destruct (scan_rows_spec rs js Hscan job Hjs) as (row & Hin & Hrow). destruct (Hrs row Hin) as [H1 H2].
  apply scan_row_state in Hrow as Hid. destruct Hid as [Hst Hid]. split; [exists row; by rewrite Hid|]. rewrite Hst. done.
Qed.

(** *** Metrics *)

Definition no_metric (X : Type) (e : Ev X) : Prop := match e with EMetric _ => False | _ => True end.

Lemma exec_no_metric {A} (p : prog Ev A) w : all_effects no_metric p -> w_metrics (exec p w).2 = w_metrics w.
Proof.
  apply run_frame. clear. intros X e w He. destruct e; simpl in *; try done.
  - destruct (exec_stmt _ s _). by destruct (env_sql (w_tick w)).
  - destruct (env_redis (w_tick w)); simpl; unfold on_node; simpl; repeat case_match; done.
  - destruct (env_redis (w_tick w)); simpl; unfold on_node; simpl; repeat case_match; done.
  - by destruct (Breaker.Breaker.Allow _ _).
  - by destruct (env_submit _ _).
Qed.

Lemma Enqueue_no_metric job : all_effects no_metric (Enqueue topic job).
Proof. unfold Enqueue, with_id, persist, newJobID, CreateJob, GetJobByIdempotencyKey. effects. Qed.

Lemma Cancel_no_metric id : all_effects no_metric (Cancel id).
Proof. unfold Cancel, CancelJob, GetJob. effects. Qed.

(** What a response adds to the counters. *)
Definition counters (r : Request) (resp : Response) (m : Metrics) : Metrics :=
  match r with
  | PostJobs _ => if Status resp =? 201 then metric IncEnqueued m else m
  | PostCancel _ => if Status resp =? 200 then metric IncCancelled m else m
  | _ => m
  end.

(** *** Refinement *)

Lemma enqueue_refines request w :
  wf_env env -> wf_table (w_db w) -> foreign_faults ->
  let '(resp, w') := exec (EnqueueJob topic rid (Ok request)) w in
  api_spec (w_db w) (PostJobs (Ok request)) resp (w_db w') /\ w_metrics w' = counters (PostJobs (Ok request)) resp (w_metrics w).
Proof.
  intros Henv Hwf Hff. unfold EnqueueJob, api_spec. cbn [malformed].
  destruct (String.eqb_spec (Task.Name (ReqTask request)) "") as [Hn|Hn]; [rewrite bool_decide_true by done; done|].
  rewrite bool_decide_false by done. rewrite exec_bind. pose proof (exec_Enqueue_trouble request w Henv Hwf Hff) as Htr.
  set (job := requested_job request) in *. pose proof (exec_Enqueue_db job w) as Hdb.
  pose proof (exec_no_metric _ w (Enqueue_no_metric job)) as Hm.
  assert (honest_faults) as Hh by (intros n e He; by destruct (Hff n e He) as (? & ? & _)).
  destruct (exec (Enqueue topic job) w) as [[id|e] w1] eqn:He; cbn [snd] in *.
  - apply exec_Enqueue in He; [|done..]. rewrite exec_vis. cbn [handle fst snd]. change (exec (Ret ?x) ?y) with (x, y).
    cbn [set_metrics tick w_db w_metrics counters Status]. rewrite Hm. split; [|done]. destruct He as [(Hk & -> & _ & row & Hr & Hkey)|(n & _ & Hnone & _ & -> & _)].
    + by eapply SpecRepeated.
    + apply SpecCreated; [done|..]; unfold job, filled, requested_job; simpl; by destruct (ReqScheduledAt request).
  - change (exec (Ret ?x) ?y) with (x, y). split; [|done].
    destruct Hdb as [->|(job' & now & H1 & H2 & H3 & ->)]; [by constructor|by apply SpecLostInsert].
Qed.

Lemma cancel_refines id w :
  foreign_faults ->
  let '(resp, w') := exec (CancelJobHandler rid id) w in
  api_spec (w_db w) (PostCancel id) resp (w_db w') /\ w_metrics w' = counters (PostCancel id) resp (w_metrics w).
Proof.
  intros Hff. unfold CancelJobHandler, api_spec. cbn [malformed]. rewrite exec_bind. pose proof (exec_Cancel_cases id w Hff) as Hc.
  pose proof (exec_no_metric _ w (Cancel_no_metric id)) as Hm. destruct (exec (Cancel id) w) as [[e|] w1]; cbn [snd] in Hm.
  - change (exec (Ret ?x) ?y) with (x, y). destruct (errors_Is e msg_not_found); [destruct Hc as [H1 ->]; split; [by constructor|done]|].
    destruct (errors_Is e msg_invalid_transition); [destruct Hc as [(row & H1 & H2) ->]; split; [by eapply SpecCancelRefused|done]|].
    split; [|done]. destruct Hc as [Ht%(fun H => disturbed_trouble _ (PostCancel id) H) [->|(row & now & H1 & ->)]]; [by constructor|by apply SpecLostCancel].
  - destruct Hc as (row & now & H1 & H2 & H3). rewrite exec_vis. cbn [handle fst snd]. change (exec (Ret ?x) ?y) with (x, y).
    cbn [set_metrics tick w_db w_metrics counters Status]. rewrite Hm, H3. split; [|done]. apply SpecCancelled; [done|].
    intros Ht. by rewrite CanTransition_terminal in H2.
Qed.

(** GetById and GetByKey are one lookup with different rows. *)
Lemma lookup_refines w (r : Request) row (get : prog Ev (res Job error)) :
  malformed r = None -> (forall m, counters r m = id) ->
  all_effects no_metric get -> w_db (exec get w).2 = w_db w -> looked_up (w_db w) row (exec get w).1 ->
  (forall x job, row = Some x -> scan_row x = Some job -> served (w_db w) r (mkResponse 200 (CJob job)) (w_db w)) ->
  (row = None -> served (w_db w) r (not_found rid) (w_db w)) ->
  let '(resp, w') := exec (let! x := get in Ret (job_response rid x)) w in
  api_spec (w_db w) r resp (w_db w') /\ w_metrics w' = counters r resp (w_metrics w).
Proof.
  intros Hr Hc Hm Hdb Hl Hok Hnone. unfold api_spec. rewrite Hr, exec_bind. pose proof (exec_no_metric _ w Hm) as Hm'.
  destruct (exec get w) as [x w1]. cbn [fst snd] in *. change (exec (Ret ?x) ?y) with (x, y). cbv beta iota. rewrite Hdb, Hm', Hc. split; [|done].
  destruct x as [job|e]; cbn [job_response looked_up] in *; [destruct Hl as (x & -> & Hs); by eapply Hok|].
  destruct Hl as [_ Hl]. destruct (errors_Is e msg_not_found); [by apply Hnone|]. constructor. by apply disturbed_trouble.
Qed.

Lemma list_refines state cursor limit w :
  wf_env env -> wf_table (w_db w) ->
  let '(resp, w') := exec (ListJobsHandler rid state cursor limit) w in
  api_spec (w_db w) (GetJobs state cursor limit) resp (w_db w') /\ w_metrics w' = w_metrics w.
Proof.
  intros Henv Hwf. unfold ListJobsHandler, api_spec. cbn [malformed]. destruct (parse_limit limit) as [n|]; cbn; [|done].
  case_bool_decide as Hst; [|done]. rewrite exec_bind. destruct (exec_ListJobs_cases state n cursor w Henv Hwf) as [Hdb Hjobs].
  assert (all_effects no_metric (ListJobs (mkListFilter state n cursor))) as Hm by (unfold ListJobs; repeat case_match; effects).
  pose proof (exec_no_metric _ w Hm) as Hm'. destruct (exec (ListJobs _) w) as [[[jobs next]|e] w1]; cbn [fst snd] in *;
    change (exec (Ret ?x) ?y) with (x, y); cbv beta iota; rewrite Hdb, Hm'; (split; [|done]).
  - apply SpecPage; [intros job Hj; by apply (Hjobs job Hj)|intros ? job Hj; by apply (Hjobs job Hj)].
  - constructor. destruct Hjobs as [H|(H & e' & He)]; [by apply disturbed_trouble|by eapply TroubleCursor].
Qed.

Lemma route_refines r w :
  wf_env env -> wf_table (w_db w) -> foreign_faults ->
  let '(resp, w') := exec (route topic rid r) w in
  api_spec (w_db w) r resp (w_db w') /\ w_metrics w' = counters r resp (w_metrics w).
Proof.
  intros Henv Hwf Hff. destruct r as [[request|e]|state cursor limit|key|id|id]; cbn [route].
  - by apply enqueue_refines.
  - done.
  - by apply list_refines.
  - unfold GetJobByKey. destruct (String.eqb_spec key "") as [->|Hk]; [done|].
    destruct (exec_GetByKey_cases key w Henv Hwf Hff) as (Hdb & row & Hl & Hrow).
    apply (lookup_refines w _ row); [cbn; by rewrite bool_decide_false|done|unfold GetJobByIdempotencyKey; effects|done|done|..].
    + intros x job -> Hs. destruct Hrow as (id & H1 & H2). by eapply SpecJobByKey.
    + intros ->. by constructor.
  - destruct (exec_GetJob_cases id w Hff) as [Hdb Hl].
    apply (lookup_refines w _ (w_db w !! id)); [done|done|unfold GetJob; effects|done|done|intros x job H1 H2; by eapply SpecJob|by constructor].
  - by apply cancel_refines.
Qed.

(** Every error body is one RespondError wrote for the request. *)
Definition error_of (resp : Response) : Prop :=
  match Body resp with CError b => RequestID b = rid | _ => True end.

Lemma api_spec_error_of t r resp t' : api_spec t r resp t' -> error_of resp.
Proof. unfold api_spec. destruct (malformed r); [by intros [-> _]|]. by destruct 1. Qed.

End Spec.

(** ** The request id *)

Lemma base36_digits_nonempty fuel n acc : fuel <> O -> base36_digits fuel n acc <> "".
Proof.
  revert n acc. induction fuel as [|fuel IH]; [done|]. intros n acc _. cbn [base36_digits]. case_match; [done|].
  destruct fuel; [done|]. by apply IH.
Qed.

Section RequestId.
Context {coll : Collation} {env : Env} {pgx : Pgx}.

(** The id of a request is the caller's, or a new non-empty one; finding it touches
    neither the table nor the counters. *)
Lemma exec_request_id idHeader w :
  rand_bytes_ok env ->
  let '(rid, w') := exec (if String.eqb idHeader "" then newRequestID else Ret idHeader) w in
  rid <> "" /\ (idHeader <> "" -> rid = idHeader) /\ w_db w' = w_db w /\ w_metrics w' = w_metrics w.
Proof.
  intros Hr. destruct (String.eqb_spec idHeader "") as [->|Hne]; [|done]. unfold newRequestID. rewrite exec_vis. cbn [handle fst snd].
  destruct (env_rand (w_tick w) 8) as [b|] eqn:Hb.
  - change (exec (Ret ?x) ?y) with (x, y). destruct (Hr _ _ _ Hb) as [Hlen _]. split_and!; [|done..].
    intros H. pose proof (HexEncode_length b) as Hl. rewrite H, Hlen in Hl. done.
  - rewrite exec_vis. done.
Qed.

(** C6: the API implements its contract, from the first middleware to the response.  For
    every request, table, fault and driver, the response and the table after it are one of
    the outcomes [api_spec] allows: 400 exactly for the malformed requests; 201 with the id
    of the one row that was inserted as requested, or of the row that already had the key;
    200 with the job that is stored under the id or key, a page of stored jobs of the state
    asked for, or a cancellation of a job that was not finished; 404 only when the job is
    absent; 409 only when its state refuses; 500 only when a statement failed, a stored row
    does not decode, the random source failed or collided, a number does not fit its column
    or the cursor is not one.  The table changes only as those outcomes say; jobs enqueued
    and cancelled are counted exactly when the response says so; the request is counted
    once, under the status the client sees; and the response carries a non-empty request id,
    the caller's when there was one, which is also the id in the body of every error. *)
Theorem api_refines_contract topic idHeader method path r w :
  wf_env env -> rand_bytes_ok env -> wf_table (w_db w) -> foreign_faults ->
  let '(s, w') := exec (handle_request coll env pgx topic idHeader method path r) w in
  api_spec (header s) (w_db w) r (sent s) (w_db w') /\ w_metrics w' = counters r (sent s) (w_metrics w) /\
  header s <> "" /\ (idHeader <> "" -> header s = idHeader) /\ error_of (header s) (sent s) /\
  counted s = [(method, path, Status (sent s))] /\ logged s = RequestLogger (sent s).
Proof.
  intros Henv Hr Hwf Hff. unfold handle_request, serve. rewrite exec_bind. pose proof (exec_request_id idHeader w Hr) as Hid.
  destruct (exec _ w) as [rid w1]. destruct Hid as (Hne & Hcaller & Hdb & Hm). unfold answered. rewrite !exec_bind.
  pose proof (route_refines topic rid r w1 Henv) as Hroute. rewrite Hdb, Hm in Hroute. specialize (Hroute Hwf Hff).
  destruct (exec (route topic rid r) w1) as [resp w2]. change (exec (Ret ?x) ?y) with (x, y). cbv beta iota. change (exec (Ret ?x) ?y) with (x, y).
  destruct Hroute as [Hspec Hcount]. simpl. split_and!; [done..|by eapply api_spec_error_of|done|done].
Qed.

(** A handler that panics is answered 500 with the request id, but the request is not
    counted: the counter is inside the recovery. *)
Theorem panic_answered_uncounted idHeader method path handler value w w' rid w1 :
  exec (if String.eqb idHeader "" then newRequestID else Ret idHeader) w = (rid, w1) ->
  exec (handler rid) w1 = (PanickedWith value None, w') ->
  exec (serve idHeader method path handler) w =
    (mkServed (RespondError rid 500 "internal_error" ("panic: " +:+ value)) rid [] ErrorLevel, w').
Proof. intros H1 H2. unfold serve. by rewrite exec_bind, H1, exec_bind, H2. Qed.

End RequestId.

(** ** On concrete requests *)

Definition post (key : string) : Request := PostJobs (Ok (mkEnqueueRequest key webhook_task None ∅)).

Lemma api_contract_witness :
  let w := world 3 {["job-1" := sample_row JobStateRunning 1 (Some "tok-a") None]} in
  let '(s, w') := exec (env := calm) (handle_request _ calm pgx_v5 "conduit.jobs" "req-7" "POST" "/api/jobs/:id/cancel" (PostCancel "job-1")) w in
  api_spec (env := calm) (pgx := pgx_v5) (header s) (w_db w) (PostCancel "job-1") (sent s) (w_db w') /\
  w_metrics w' = counters (PostCancel "job-1") (sent s) (w_metrics w) /\
  header s <> "" /\ ("req-7" <> "" -> header s = "req-7") /\ error_of (header s) (sent s) /\
  counted s = [("POST", "/api/jobs/:id/cancel", Status (sent s))] /\ logged s = RequestLogger (sent s).
Proof.
  cbv zeta. apply (api_refines_contract (env := calm) (pgx := pgx_v5) "conduit.jobs" "req-7" "POST" "/api/jobs/:id/cancel" (PostCancel "job-1")).
  - apply calm_env_wf.
  - intros n k l. simpl. intros [= <-]. split; [apply length_replicate|].
    apply Forall_replicate. unfold is_byte. apply Z.mod_pos_bound. reflexivity.
  - apply (wf_table_singleton (sample_row JobStateRunning 1 (Some "tok-a") None)).
  - intros n e [H|H]; discriminate.
Defined.

(** The job is cancelled, and a second cancellation is refused. *)
Example cancel_answers :
  let w := world 3 {["job-1" := sample_row JobStateRunning 1 (Some "tok-a") None]} in
  let cancel := handle_request _ calm pgx_v5 "conduit.jobs" "req-7" "POST" "/api/jobs/:id/cancel" (PostCancel "job-1") in
  let '(s1, w1) := exec (env := calm) cancel w in
  let '(s2, _) := exec (env := calm) cancel w1 in
  (Status (sent s1), Status (sent s2)) = (200, 409).
Proof. vm_compute. reflexivity. Qed.

(** Enqueueing the same key twice stores one job and counts two. *)
Example duplicate_counted :
  let send := handle_request _ calm pgx_lenient "conduit.jobs" "" "POST" "/api/jobs" (post "key-1") in
  let '(s1, w1) := exec (env := calm) send (world 3 ∅) in
  let '(s2, w2) := exec (env := calm) send w1 in
  match Body (sent s1), Body (sent s2) with
  | CId id1, CId id2 => (String.eqb id1 id2, size (w_db w2), JobEnqueued (w_metrics w2)) = (true, 1%nat, 2)
  | _, _ => False
  end.
Proof. vm_compute. reflexivity. Qed.

End Api.
