(* ===== verification/Kafka.v ===== *)
(** * internal/queue and the Kafka consumer of cmd/server

    The Kafka client: its construction, publication, the consumer group's claim loop with
    the offsets it marks, and the handler that gives each message's job to the worker pool.
    Sarama and encoding/json are parameters. *)

From S2P Require Import Prelude GoLib Models Sql Effects Concrete.

Module Kafka.

(** ** The client *)

(** The fields of sarama.Config the code sets; the codec is an int8. *)
Record SaramaConfig := mkSaramaConfig {
  sc_ClientID : string;
  sc_ChannelBufferSize : Z;
  sc_RequiredAcks : Z;
  sc_ReturnSuccesses : bool;
  sc_Compression : Z;
  sc_FlushFrequency : Z;
  sc_FlushBytes : Z;
  sc_ReturnErrors : bool;
  sc_OffsetsInitial : Z;
}.

Definition OffsetNewest : Z := -1.

(** Conversion to a signed integer of the given width. *)
Definition wrap (bits n : Z) : Z := (n + 2 ^ (bits - 1)) mod 2 ^ bits - 2 ^ (bits - 1).

Definition sarama_config (cfg : KafkaConfig) : SaramaConfig :=
  mkSaramaConfig (kafka_ClientID cfg) (kafka_ChannelBufferSize cfg) (kafka_RequiredAcks cfg) true
    (wrap 8 (kafka_CompressionCodec cfg)) (wrap 64 (kafka_FlushFrequencyMs cfg * Millisecond)) (kafka_FlushBytes cfg) true
    OffsetNewest.

Inductive Conn := ProducerConn | GroupConn.

#[global] Instance Conn_eq_dec : EqDecision Conn.
Proof. solve_decision. Defined.

(** Connections opened and closed, in order. *)
Inductive ConnAct := Opened (c : Conn) | Closed (c : Conn).

Record KafkaClient := mkKafkaClient { client_Topic : string; client_ConsumerGroupID : string }.

Section Client.
(** sarama.NewSyncProducer, sarama.NewConsumerGroup and the Close methods. *)
Context (NewSyncProducer : list string -> SaramaConfig -> option error).
Context (NewConsumerGroup : list string -> string -> SaramaConfig -> option error).
Context (CloseConn : Conn -> option error).

Definition NewKafkaClient (cfg : KafkaConfig) : res KafkaClient error * list ConnAct :=
  let sc := sarama_config cfg in
  match NewSyncProducer (kafka_Brokers cfg) sc with
  | Some e => (Err (wrapf "queue: create producer: " e), [])
  | None =>
      match NewConsumerGroup (kafka_Brokers cfg) (kafka_ConsumerGroup cfg) sc with
      | Some e => (Err (wrapf "queue: create consumer group: " e), [Opened ProducerConn; Closed ProducerConn])
      | None => (Ok (mkKafkaClient (kafka_Topic cfg) (kafka_ConsumerGroup cfg)), [Opened ProducerConn; Opened GroupConn])
      end
  end.

(** errors.Join of what closing the two connections gave. *)
Definition Close : list error * list ConnAct :=
  (omap CloseConn [ProducerConn; GroupConn], [Closed ProducerConn; Closed GroupConn]).

(** What is open after a list of acts. *)
Definition still_open (acts : list ConnAct) : list Conn :=
  foldl (fun open a => match a with Opened c => c :: open | Closed c => filter (fun d => d <> c) open end) [] acts.

(** A client that could not be built leaves no connection open, and Close leaves none of
    the client's, whatever the closing calls answer. *)
Theorem kafka_connections_closed cfg :
  match NewKafkaClient cfg with
  | (Err _, acts) => still_open acts = []
  | (Ok _, acts) => still_open (acts ++ Close.2) = []
  end.
Proof. unfold NewKafkaClient. by repeat case_match; simplify_eq/=. Qed.

(** ** Publication *)

Record ProducerMessage := mkProducerMessage {
  pm_Topic : string;
  pm_Key : string;
  pm_Value : string;
  pm_Headers : list (string * string);
}.

Context (Marshal : Job -> res string error) (SendMessage : ProducerMessage -> option error).

Definition Publish (topic : string) (job : Job) : option error :=
  match Marshal job with
  | Err e => Some (wrapf "queue: marshal job: " e)
  | Ok payload =>
      SendMessage (mkProducerMessage topic (Job.ID job) payload
        [("job_id", Job.ID job); ("job_name", Task.Name (Job.Task job))])
  end.

End Client.

(** ** Consumption *)

Record ConsumerMessage := mkConsumerMessage { Value : string; Offset : Z }.

(** The session of a claimed partition: [next] is the offset it would commit, where the
    partition is resumed. *)
Class Session := {
  session : Type;
  next : session -> Z;
  MarkMessage : ConsumerMessage -> session -> session;
}.

(** Sarama marks forward only: the offset after the message, unless a later one is marked. *)
Definition marks_forward (S : Session) : Prop :=
  forall m s, next (MarkMessage m s) = Z.max (next s) (Offset m + 1).

(** What the claim loop receives: messages, the end of the channel, the end of the session. *)
Inductive Event := Message (m : ConsumerMessage) | ChannelClosed | SessionDone.

Section Consume.
Context {coll : Collation} {env : Env} {S : Session}.
Context (Unmarshal : string -> res Job error).

(** kafkaJobHandler.Handle *)
Definition Handle (msg : ConsumerMessage) : prog Ev (option error) :=
  match Unmarshal (Value msg) with
  | Err _ => Ret None
  | Ok job =>
      perform ok := ESubmit job in
      Ret (if ok : bool then None else Some (New "worker pool full"))
  end.

(** The session after the events received so far. *)
Fixpoint ConsumeClaim (handler : ConsumerMessage -> prog Ev (option error)) (events : list Event) (s : session) : prog Ev session :=
  match events with
  | Message msg :: events' =>
      let! err := handler msg in
      ConsumeClaim handler events' (match err with None => MarkMessage msg s | Some _ => s end)
  | [] | ChannelClosed :: _ | SessionDone :: _ => Ret s
  end.

(** The rounds of the consumer group: what its Consume and then the context answered.
    [None] while every round so far asks for another. *)
Fixpoint Consume (rounds : list (option error * option error)) : option error :=
  match rounds with
  | [] => None
  | (Some e, _) :: _ => Some e
  | (None, Some e) :: _ => Some e
  | (None, None) :: rounds' => Consume rounds'
  end.

(** *** What is marked and what is submitted *)

Fixpoint received (events : list Event) : list ConsumerMessage :=
  match events with
  | Message m :: events' => m :: received events'
  | _ => []
  end.

Definition job_of (m : ConsumerMessage) : option Job :=
  match Unmarshal (Value m) with Ok job => Some job | Err _ => None end.

Definition delivered (ms : list (ConsumerMessage * bool)) : list Job :=
  omap (fun x : ConsumerMessage * bool => if x.2 then job_of x.1 else None) ms.

Definition marked (o : Z) (ms : list (ConsumerMessage * bool)) : Z :=
  foldl (fun o (x : ConsumerMessage * bool) => if x.2 then Z.max o (Offset x.1 + 1) else o) o ms.

Lemma marked_le ms o x :
  marked o ms <= x <-> o <= x /\ forall i m, ms !! i = Some (m, true) -> Offset m + 1 <= x.
Proof.
  revert o. induction ms as [|[m b] ms IH]; intros o; cbn [marked foldl fst snd].
  - split; [intros H; split; [done|intros i m H1; by rewrite lookup_nil in H1]|by intros [? _]].
  - fold (marked (if b then Z.max o (Offset m + 1) else o) ms). rewrite IH. split.
    + intros [H1 H2]. split; [destruct b; lia|]. intros [|i] m' Hm; [|by eapply H2]. simplify_eq/=. lia.
    + intros [H1 H2]. split; [|intros i m' Hm; by apply (H2 (Datatypes.S i))]. destruct b; [|done].
      specialize (H2 O m eq_refl). lia.
Qed.

(** The message was refused by the worker pool. *)
Definition refused (m : ConsumerMessage) : Prop :=
  exists job n, Unmarshal (Value m) = Ok job /\ env_submit n job = false.

Lemma exec_Handle m w :
  match exec (Handle m) w with
  | (None, w') => w_submitted w' = w_submitted w ++ option_list (job_of m)
  | (Some _, w') => w_submitted w' = w_submitted w /\ refused m
  end.
Proof.
  unfold Handle, job_of. destruct (Unmarshal (Value m)) as [job|e] eqn:Hu; [|simpl; by rewrite app_nil_r].
  rewrite exec_vis. cbn [handle fst snd]. destruct (env_submit (w_tick w) job) eqn:Hs; cbn [fst snd]; change (exec (Ret ?x) ?y) with (x, y); cbv beta iota.
  - done.
  - split; [done|]. by exists job, (w_tick w).
Qed.

Lemma exec_ConsumeClaim events s w :
  marks_forward S ->
  let '(s', w') := exec (ConsumeClaim Handle events s) w in
  exists oks, Forall2 (fun m ok => ok = true \/ (ok = false /\ refused m)) (received events) oks /\
    w_submitted w' = w_submitted w ++ delivered (zip (received events) oks) /\
    next s' = marked (next s) (zip (received events) oks).
Proof.
  intros Hmark. revert s w. induction events as [|[m| |] events IH]; intros s w; cbn [ConsumeClaim received].
  1,3,4: change (exec (Ret ?x) ?y) with (x, y); exists []; split; [constructor|]; by rewrite app_nil_r.
  rewrite exec_bind. pose proof (exec_Handle m w) as Hh. destruct (exec (Handle m) w) as [[e|] w1].
  - destruct Hh as [Hw Hr]. specialize (IH s w1). destruct (exec _ w1) as [s' w']. destruct IH as (oks & H1 & H2 & H3).
    exists (false :: oks). split; [constructor; auto|]. by rewrite H2, Hw.
  - specialize (IH (MarkMessage m s) w1). destruct (exec _ w1) as [s' w']. destruct IH as (oks & H1 & H2 & H3).
    exists (true :: oks). split; [constructor; auto|]. rewrite H2, Hh, H3, Hmark. split; [|done].
    unfold delivered. cbn [zip zip_with omap list_omap fst snd]. by destruct (job_of m); rewrite <- app_assoc.
Qed.

Lemma zip_lookup_pair (ms : list ConsumerMessage) (oks : list bool) j m :
  zip ms oks !! j = Some (m, true) -> ms !! j = Some m /\ oks !! j = Some true.
Proof. intros (x & y & [= <- <-] & H1 & H2)%lookup_zip_with_Some. done. Qed.


(** A session that is not cancelled and a pool that never refuses handle every message: the
    partition is resumed after the last one. *)
Theorem kafka_all_handled events s w :
  marks_forward S -> (forall n job, env_submit n job = true) ->
  let '(s', w') := exec (ConsumeClaim Handle events s) w in
  w_submitted w' = w_submitted w ++ omap job_of (received events) /\
  forall i m, received events !! i = Some m -> Offset m < next s'.
Proof.
  intros Hmark Hpool. pose proof (exec_ConsumeClaim events s w Hmark) as H. destruct (exec _ w) as [s' w'].
  destruct H as (oks & Hoks & Hsub & Hnext).
  assert (oks = replicate (length (received events)) true) as ->.
  { clear Hsub Hnext. induction Hoks as [|m ok ms oks H _ ->]; [done|]. destruct H as [->|[_ (job & n & _ & H)]]; [done|]. by rewrite Hpool in H. }
  split.
  - rewrite Hsub. f_equal. unfold delivered. clear. induction (received events) as [|m ms IH]; [done|]. cbn. by rewrite IH.
  - intros i m Hm. rewrite Hnext. apply Z.lt_nge. intros [_ H]%marked_le.
    assert (zip (received events) (replicate (length (received events)) true) !! i = Some (m, true)) as Hz.
    { apply lookup_zip_with_Some. exists m, true. split_and!; [done|done|]. apply lookup_replicate. split; [done|by eapply lookup_lt_Some]. }
    specialize (H i m Hz). lia.
Qed.

(** The consumer loop runs until the first round that fails or ends with its context. *)
Theorem kafka_consume_ends rounds e :
  Consume rounds = Some e <->
  exists before after r, rounds = replicate before (None, None) ++ r :: after /\ (r.1 = Some e \/ (r.1 = None /\ r.2 = Some e)).
Proof.
  split.
  - induction rounds as [|[[e1|] [e2|]] rounds IH]; cbn [Consume]; intros H; simplify_eq.
    1,2,3: eexists O, rounds, _; split; [done|]; simpl; auto.
    destruct (IH H) as (n & after & r & -> & Hr). by exists (Datatypes.S n), after, r.
  - intros (n & after & [e1 e2] & -> & Hr). induction n as [|n IH]; simpl; [|done]. destruct Hr as [Hr|[Hr1 Hr2]]; simpl in *; by subst.
Qed.

End Consume.

(** ** On a concrete partition *)

(** A session that remembers the offset it would commit. *)
Definition plain_session : Session := {| session := Z; next := id; MarkMessage m s := Z.max s (Offset m + 1) |}.

Lemma plain_session_forward : marks_forward plain_session.
Proof. done. Qed.

(** A codec that knows the sample job under two names. *)
Definition two_jobs (s : string) : res Job error :=
  if String.eqb s "a" || String.eqb s "b" then Ok (Job.set_ID s (sample_job JobStatePending 0 "")) else Err (New "invalid character").

(** A pool that is full for the first submission only. *)
Definition busy_once : Env := {|
  env_now n := t0 + Z.of_nat n * Millisecond;
  env_rand n k := Some (replicate k (Z.of_nat n mod 256));
  env_float _ := Float64.Fin 1 (-1);
  env_view := calm_view;
  env_sql _ := NoFault;
  env_redis _ := NoFault;
  env_ctx _ := None;
  env_handler _ _ := Finished None;
  env_submit n _ := negb (n =? 0)%nat;
|}.

Definition partition : list Event :=
  [Message (mkConsumerMessage "a" 7); Message (mkConsumerMessage "b" 8); Message (mkConsumerMessage "?" 9); SessionDone].


(** The handler logs that a refused message stays uncommitted, but handling the next message
    of the partition commits past it: Kafka does not deliver it again. *)
Example refused_message_skipped :
  let '(s', w') := exec (env := busy_once) (ConsumeClaim (S := plain_session) (Handle two_jobs) partition 7) (world 3 ∅) in
  (next (Session := plain_session) s', Job.ID <$> w_submitted w') = (10, ["b"]).
Proof. vm_compute. reflexivity. Qed.

(** A codec number that does not fit a byte is silently another codec: 258 is snappy. *)
Example codec_truncated : sc_Compression (sarama_config (mkKafkaConfig [] "" "" "" 1 258 5 0 256)) = 2.
Proof. reflexivity. Qed.

End Kafka.
