(* ===== verification/Readiness.v ===== *)
(** * cmd/server: readinessHandler

    The readiness probe: one ping of PostgreSQL and one of each Redis node under the
    request's context, a verdict, and a snapshot that answers every request of the next two
    seconds.  The mutex protects the snapshot, not the probe, so requests interleave: the
    cache is a transition system whose actions are a request that finds the snapshot fresh,
    a request that does not and starts to ping, and a probe that ends. *)

From S2P Require Import Prelude GoLib Models Float64 Redlock.

Module Readiness.

Definition readinessCacheTTL : Z := 2 * Second.

Abbreviation Checks := (gmap string string).

Record Body := mkBody { body_status : string; checks : Checks }.

Record readinessSnapshot := mkSnapshot { status : Z; body : Body; expires : Z }.

(** The zero snapshot. *)
Definition zero_snapshot : readinessSnapshot := mkSnapshot 0 (mkBody "" ∅) zero_time.

(** ** One probe *)

(** What the pings answered. *)
Record Pings := mkPings { pg_ping : option error; redis_pings : list (option error) }.

Definition describe (r : option error) : string := match r with Some e => Error e | None => "ok" end.

Definition redis_name (i : nat) : string := "redis[" +:+ Itoa (Z.of_nat i) +:+ "]".

(** The loop over the clients: the checks and the number alive. *)
Fixpoint ping_nodes (i : nat) (pings : list (option error)) (c : Checks) (alive : Z) : Checks * Z :=
  match pings with
  | [] => (c, alive)
  | r :: pings' =>
      ping_nodes (S i) pings' (<[redis_name i := describe r]> c) (match r with Some _ => alive | None => alive + 1 end)
  end.

Definition quorum (n : nat) : Z := Z.of_nat n / 2 + 1.

Definition probe (now : Z) (p : Pings) : readinessSnapshot :=
  let '(c, alive) := ping_nodes 0 (redis_pings p) {["postgres" := describe (pg_ping p)]} 0 in
  let n := length (redis_pings p) in
  let short := alive <? quorum n in
  let c := if short
           then <["redis_quorum" := Itoa alive +:+ "/" +:+ Itoa (Z.of_nat n) +:+ " (need " +:+ Itoa (quorum n) +:+ ")"]> c
           else c in
  let ok := negb (bool_decide (is_Some (pg_ping p))) && negb short in
  mkSnapshot (if ok then 200 else 503) (mkBody (if ok then "ready" else "not_ready") c) (now + readinessCacheTTL).

(** ** The cache under concurrent requests *)

Definition fresh (now : Z) (s : readinessSnapshot) : bool := negb (IsZero (expires s)) && (now <? expires s).

(** An answer: when the request asked, and what it was told. *)
Record Answer := mkAnswer { asked : Z; told : Z; told_body : Body }.

(** [pending] are the requests that are pinging, by when they asked. *)
Record State := mkState { snapshot : readinessSnapshot; pending : list Z; answers : list Answer }.

Definition initial : State := mkState zero_snapshot [] [].

Inductive Action :=
| Request (now : Z)
| Pinged (i : nat) (p : Pings).

Definition act (a : Action) (s : State) : option State :=
  match a with
  | Request now =>
      if fresh now (snapshot s)
      then Some (mkState (snapshot s) (pending s) (mkAnswer now (status (snapshot s)) (body (snapshot s)) :: answers s))
      else Some (mkState (snapshot s) (now :: pending s) (answers s))
  | Pinged i p =>
      match pending s !! i with
      | Some now =>
          let snap := probe now p in
          Some (mkState snap (delete i (pending s)) (mkAnswer now (status snap) (body snap) :: answers s))
      | None => None
      end
  end.

Fixpoint acts (l : list Action) (s : State) : option State :=
  match l with
  | [] => Some s
  | a :: l' => match act a s with Some s' => acts l' s' | None => None end
  end.

(** ** The verdict *)

Definition alive_count (pings : list (option error)) : Z :=
  Z.of_nat (length (filter (fun r => r = None) pings)).

Lemma ping_nodes_alive i pings c alive : (ping_nodes i pings c alive).2 = alive + alive_count pings.
Proof.
  revert i c alive. induction pings as [|[e|] pings IH]; intros i c alive; cbn [ping_nodes].
  - simpl. unfold alive_count. simpl. lia.
  - rewrite IH. unfold alive_count. rewrite filter_cons_False; done.
  - rewrite IH. unfold alive_count. rewrite filter_cons_True by done. simpl. lia.
Qed.

Lemma app_char_inj c (a b : string) : a +:+ String c "" = b +:+ String c "" -> a = b.
Proof.
  assert (forall (s : string) d, s +:+ String d "" <> "") as Hne by by destruct s.
  revert b. induction a as [|x a IH]; intros [|y b] H; [done|..].
  - injection H as _ H. by symmetry in H; apply Hne in H.
  - injection H as _ H. by apply Hne in H.
  - injection H as -> H. f_equal. by apply IH.
Qed.

Lemma Itoa_inj a b : 0 <= a -> 0 <= b -> Itoa a = Itoa b -> a = b.
Proof.
  intros Ha Hb H. set (m := Z.max a b). assert (forall n, 0 <= n <= m -> fits (m + 1) n = true) as Hfits.
  { intros n Hn. unfold fits. replace (m + 1 - 1) with m by lia. assert (m < 2 ^ m) by (apply Z.pow_gt_lin_r; lia).
    apply andb_true_iff. split; [apply Z.leb_le|apply Z.ltb_lt]; lia. }
  pose proof (ParseInt_Itoa (m + 1) a (Hfits a ltac:(lia))) as H1. rewrite H, (ParseInt_Itoa (m + 1) b (Hfits b ltac:(lia))) in H1. congruence.
Qed.

(** The names of the nodes' checks are different from each other and from the others. *)
Lemma redis_name_inj i j : redis_name i = redis_name j -> i = j.
Proof.
  unfold redis_name. intros H. apply (inj (String.app "redis[")), (app_char_inj "]"), Itoa_inj in H; lia.
Qed.

Lemma ping_nodes_checks i pings c alive j r :
  pings !! j = Some r -> (ping_nodes i pings c alive).1 !! redis_name (i + j) = Some (describe r).
Proof.
  assert (forall i pings c alive k, (forall j, k <> redis_name (i + j)) -> (ping_nodes i pings c alive).1 !! k = c !! k) as Hother.
  { clear. intros i pings. revert i. induction pings as [|r pings IH]; intros i c alive k Hk; cbn [ping_nodes]; [done|].
    rewrite IH; [|intros j; specialize (Hk (S j)); by rewrite Nat.add_succ_comm]. apply lookup_insert_ne.
    specialize (Hk O). rewrite Nat.add_0_r in Hk. congruence. }
  revert i c alive j. induction pings as [|x pings IH]; intros i c alive [|j] Hj; [done..| |].
  - simpl in Hj. simplify_eq. cbn [ping_nodes]. rewrite Hother, Nat.add_0_r; [apply lookup_insert_eq|].
    intros j H. apply redis_name_inj in H. lia.
  - cbn [ping_nodes]. rewrite <- Nat.add_succ_comm. by apply IH.
Qed.

(** What a probe reports. *)
Record reports (p : Pings) (st : Z) (b : Body) : Prop := {
  reports_ready : st = 200 <-> pg_ping p = None /\ quorum (length (redis_pings p)) <= alive_count (redis_pings p);
  reports_status : (st, body_status b) = (200, "ready") \/ (st, body_status b) = (503, "not_ready");
  reports_nodes : forall i r, redis_pings p !! i = Some r -> checks b !! redis_name i = Some (describe r);
}.

Lemma probe_reports now p : reports p (status (probe now p)) (body (probe now p)).
Proof.
  unfold probe. pose proof (ping_nodes_alive 0 (redis_pings p) {["postgres" := describe (pg_ping p)]} 0) as Halive.
  pose proof (fun i r => ping_nodes_checks 0 (redis_pings p) {["postgres" := describe (pg_ping p)]} 0 i r) as Hnodes.
  destruct (ping_nodes _ _ _ _) as [c alive]. cbn [fst snd] in *. rewrite Z.add_0_l in Halive. subst alive.
  set (n := length _). set (short := _ <? quorum n). assert (if short then alive_count (redis_pings p) < quorum n else quorum n <= alive_count (redis_pings p)) as Hshort
    by (unfold short; by destruct (Z.ltb_spec (alive_count (redis_pings p)) (quorum n))).
  clearbody short.
  split; cbn [status body body_status checks].
  - subst n. destruct (pg_ping p), short; simpl; (split; [intros H|intros [H1 H2]]); done || lia || (split; [done|lia]).
  - destruct (_ && _); auto.
  - intros i r Hi. destruct short; [|by apply Hnodes]. rewrite lookup_insert_ne; [by apply Hnodes|done].
Qed.

(** ** Every answer rests on a probe of the last two seconds *)

(** Among the actions [l], the [i]-th pending request, made at [start], ends its probe with
    the pings [p], and [rest] follows. *)
Definition probed (l : list Action) (start : Z) (i : nat) (p : Pings) (rest : list Action) : Prop :=
  exists before s, l = before ++ Pinged i p :: rest /\ acts before initial = Some s /\
    pending s !! i = Some start /\ Request start ∈ before.

(** The answer is the verdict of a probe, to the request that made it or to a later one. *)
Definition rests_on (l : list Action) (a : Answer) : Prop :=
  exists start i p rest, probed l start i p rest /\ (asked a = start \/ Request (asked a) ∈ rest) /\
    asked a < start + readinessCacheTTL /\ told a = status (probe start p) /\ told_body a = body (probe start p).

Record inv (l : list Action) (s : State) : Prop := {
  inv_run : acts l initial = Some s;
  inv_snapshot : snapshot s = zero_snapshot \/
    exists start i p rest, probed l start i p rest /\ snapshot s = probe start p;
  inv_pending : forall now, now ∈ pending s -> Request now ∈ l;
  inv_answers : forall a, a ∈ answers s -> rests_on l a;
}.

Lemma acts_snoc l a s : acts (l ++ [a]) s = match acts l s with Some s' => act a s' | None => None end.
Proof.
  revert s. induction l as [|x l IH]; intros s; simpl; [by destruct (act a s)|]. by destruct (act x s).
Qed.

Lemma probed_more l start i p rest a : probed l start i p rest -> probed (l ++ [a]) start i p (rest ++ [a]).
Proof. intros (before & s & -> & H). exists before, s. by rewrite <- app_assoc. Qed.

Lemma rests_on_more l a x : rests_on l x -> rests_on (l ++ [a]) x.
Proof.
  intros (start & i & p & rest & Hp & Ho & H). exists start, i, p, (rest ++ [a]).
  split; [by apply probed_more|]. split; [|done]. destruct Ho; [by left|right]. apply elem_of_app. by left.
Qed.

Lemma probe_expires now p : expires (probe now p) = now + readinessCacheTTL.
Proof. unfold probe. by destruct (ping_nodes _ _ _ _). Qed.

Lemma readiness_act_inv l a s s' : inv l s -> act a s = Some s' -> inv (l ++ [a]) s'.
Proof.
  intros [H0 H1 H2 H3] Hact. assert (acts (l ++ [a]) initial = Some s') as Hrun by (by rewrite acts_snoc, H0).
  assert (snapshot s = zero_snapshot \/
    exists start i p rest, probed (l ++ [a]) start i p (rest ++ [a]) /\ snapshot s = probe start p) as Hsnap.
  { destruct H1 as [?|(start & i & p & rest & Hp & ?)]; [by left|]. right. exists start, i, p, rest. auto using probed_more. }
  assert (forall now, now ∈ pending s -> Request now ∈ l ++ [a]) as Hpend by (intros; apply elem_of_app; auto).
  assert (forall x, x ∈ answers s -> rests_on (l ++ [a]) x) as Hans by auto using rests_on_more.
  clear H1 H3. destruct a as [now|i p]; cbn [act] in Hact.
  - destruct (fresh now (snapshot s)) eqn:Hf; injection Hact as <-; split; cbn [snapshot pending answers]; auto.
    1, 3: destruct Hsnap as [|(start & i & p & rest & ? & ?)]; [by left|right; by exists start, i, p, (rest ++ [Request now])].
    + intros a [->|Hin]%elem_of_cons; [|auto]. destruct Hsnap as [Hz|(start & i & p & rest & Hp & Hs)]; [by rewrite Hz in Hf|].
      exists start, i, p, (rest ++ [Request now]). cbn [asked told told_body]. rewrite Hs in *. split; [done|].
      split; [right; apply elem_of_app; right; by apply list_elem_of_singleton|]. split; [|done].
      unfold fresh in Hf. rewrite andb_true_iff, probe_expires, Z.ltb_lt in Hf. by destruct Hf.
    + intros x [->|Hin]%elem_of_cons; [|auto]. apply elem_of_app. right. by apply list_elem_of_singleton.
  - destruct (pending s !! i) as [now|] eqn:Hi; [|done]. injection Hact as <-.
    assert (probed (l ++ [Pinged i p]) now i p []) as Hp.
    { exists l, s. split_and!; [done..|]. by eapply H2, list_elem_of_lookup_2. }
    split; cbn [snapshot pending answers]; [done| | |].
    + right. by exists now, i, p, [].
    + intros x Hx. apply Hpend. eapply elem_of_sublist; [exact Hx|apply sublist_delete].
    + intros a [->|Hin]%elem_of_cons; [|auto]. exists now, i, p, []. cbn [asked told told_body].
      split_and!; [done|by left| |done|done]. unfold readinessCacheTTL, Second. lia.
Qed.

Lemma initial_inv : inv [] initial.
Proof. split; [done|by left|intros now H; by apply elem_of_nil in H|intros a H; by apply elem_of_nil in H]. Qed.

Lemma acts_inv l s : acts l initial = Some s -> inv l s.
Proof.
  revert s. induction l as [|a l IH] using rev_ind; intros s; [intros [= <-]; apply initial_inv|].
  rewrite acts_snoc. destruct (acts l initial) as [s1|]; [|done]. intros H. eapply readiness_act_inv; [by apply IH|done].
Qed.

(** The quorum of the probe is the one the lock manager of cmd/server needs. *)
Lemma quorum_is_lock_quorum n : quorum n = Redlock.Quorum (Redlock.cfg (Redlock.NewManager n Redlock.main_config)).
Proof. reflexivity. Qed.

(** C39: a readiness answer can be trusted for two seconds.  However requests and probes
    interleave, every answer is the verdict of a probe that ended: of the one its own
    request made, or of an earlier one whose request was made, at [start], less than two
    seconds before this one asked.  It says 200 if and only if that probe reached
    PostgreSQL and as many Redis nodes as the lock manager needs for a lock; otherwise it
    says 503; and it tells for each node what its ping answered. *)
Theorem readiness_answers l s a :
  acts l initial = Some s -> a ∈ answers s ->
  exists before s1 i p rest start,
    (* the probe of the request made at [start], which was waiting for its pings *)
    l = before ++ Pinged i p :: rest /\ acts before initial = Some s1 /\ pending s1 !! i = Some start /\
    Request start ∈ before /\
    (* who asked, and when *)
    (asked a = start \/ Request (asked a) ∈ rest) /\ asked a < start + 2 * Second /\
    (* the verdict *)
    (told a = 200 <-> pg_ping p = None /\
       Redlock.Quorum (Redlock.cfg (Redlock.NewManager (length (redis_pings p)) Redlock.main_config)) <= alive_count (redis_pings p)) /\
    (told a = 200 \/ told a = 503) /\
    forall k r, redis_pings p !! k = Some r -> checks (told_body a) !! redis_name k = Some (describe r).
Proof.
  intros Hl Ha. apply acts_inv in Hl.
  destruct (inv_answers _ _ Hl a Ha) as (start & i & p & rest & (before & s1 & H1 & H2 & H3 & H4) & H5 & H6 & Hst & ->).
  exists before, s1, i, p, rest, start. destruct (probe_reports start p) as [Hready Hcode Hnodes].
  rewrite <- quorum_is_lock_quorum, Hst. do 7 (split; [done|]). split; [|done]. destruct Hcode as [[= -> _]|[= -> _]]; auto.
Qed.

(** ** A cancelled request *)

Section Cancelled.
(** Ping under a context that is done with the given error, or not done. *)
Context (pg : option error -> option error) (redis : list (option error -> option error)).

Definition ping_all (ctx : option error) : Pings := mkPings (pg ctx) ((fun f => f ctx) <$> redis).

(** The pings run under the context of the request that started the probe.  When that
    client goes away, the pings fail, and for the next two seconds every other client is
    told 503 although every server answers. *)
Theorem readiness_cancelled_cached e start now :
  (forall x, is_Some (pg (Some x))) -> start <= now < start + readinessCacheTTL -> start <> zero_time - readinessCacheTTL ->
  exists s, acts [Request start; Pinged 0 (ping_all (Some e)); Request now] initial = Some s /\
    told <$> head (answers s) = Some 503.
Proof.
  intros Hpg Hnow Hz. cbn [acts act]. change (fresh start (snapshot initial)) with false. cbv iota. cbn [pending lookup list_lookup].
  set (snap := probe start _). assert (status snap = 503) as Hst.
  { destruct (probe_reports start (ping_all (Some e))) as [Hr Hst _]. fold snap in Hr, Hst. destruct Hst as [[= Hst _]|[= Hst _]]; [|done].
    apply Hr in Hst as [Hst _]. simpl in Hst. destruct (Hpg e) as [x Hx]. congruence. }
  assert (expires snap = start + readinessCacheTTL) as Hexp by (unfold snap, probe; by destruct (ping_nodes _ _ _ _)).
  clearbody snap. cbn [initial pending snapshot answers list_lookup lookup delete list_delete act].
  assert (fresh now snap = true) as ->.
  { unfold fresh, IsZero. rewrite Hexp. apply andb_true_iff. split; [|apply Z.ltb_lt; lia].
    apply negb_true_iff, Z.eqb_neq. lia. }
  eexists. split; [done|]. simpl. by rewrite Hst.
Qed.

End Cancelled.

(** ** On a concrete run *)

Definition node_down : option error := Some (New "dial tcp: connection refused").

(** Two of three nodes answer: ready, also for a request half a second later. *)
Definition healthy_run : list Action :=
  [Request 1000; Pinged 0 (mkPings None [None; node_down; None]); Request (1000 + 500 * Millisecond)].

Definition healthy_state : State := default initial (acts healthy_run initial).

Lemma readiness_answers_witness :
  exists before s1 i p rest start,
    healthy_run = before ++ Pinged i p :: rest /\ acts before initial = Some s1 /\ pending s1 !! i = Some start /\
    1000 + 500 * Millisecond < start + 2 * Second /\ pg_ping p = None.
Proof.
  destruct (readiness_answers healthy_run healthy_state
              (mkAnswer (1000 + 500 * Millisecond) 200 (body (snapshot healthy_state))))
    as (before & s1 & i & p & rest & start & H1 & H2 & H3 & _ & _ & H4 & H5 & _).
  - vm_compute. reflexivity.
  - vm_compute. left.
  - exists before, s1, i, p, rest, start. split_and!; [exact H1|exact H2|exact H3|exact H4|].
    apply H5. reflexivity.
Defined.

(** A driver whose pings fail when the context is done and succeed otherwise. *)
Definition up (ctx : option error) : option error := ctx.

Lemma readiness_cancelled_witness :
  exists s, acts [Request 1000; Pinged 0 (ping_all up [up; up; up] (Some (New "context canceled"))); Request (1000 + Second)] initial = Some s /\
    told <$> head (answers s) = Some 503.
Proof.
  apply (readiness_cancelled_cached up [up; up; up] (New "context canceled") 1000 (1000 + Second)).
  - intros x. by exists x.
  - vm_compute. split; [discriminate|reflexivity].
  - vm_compute. discriminate.
Defined.

(** The same servers are ready for a request that waits for its answer. *)
Example servers_up : status (probe 1000 (ping_all up [up; up; up] None)) = 200.
Proof. reflexivity. Qed.

(** Without a Redis node the server is never ready. *)
Example no_redis_not_ready : status (probe 1000 (mkPings None [])) = 503.
Proof. reflexivity. Qed.

End Readiness.
