(* ===== verification/Metrics.v ===== *)
(** * internal/metrics

    The collectors of the registry and their registration.  The registerer is Prometheus's:
    an interface of which only the documented refusal of a name that is taken is assumed. *)

From S2P Require Import Prelude.

Module Metrics.

Record Opts := mkOpts { Namespace : string; Subsystem : string; Name : string; Help : string }.

Inductive Collector :=
| Counter (o : Opts)
| Gauge (o : Opts)
| Histogram (o : Opts)
| CounterVec (o : Opts) (labels : list string).

Definition opts_of (c : Collector) : Opts :=
  match c with Counter o | Gauge o | Histogram o | CounterVec o _ => o end.

(** What identifies a collector: its fully qualified name. *)
Definition id_of (c : Collector) : string * string * string :=
  (Namespace (opts_of c), Subsystem (opts_of c), Name (opts_of c)).

Record Registry := mkRegistry {
  JobEnqueued : Collector;
  JobStarted : Collector;
  JobCompleted : Collector;
  JobFailed : Collector;
  JobCancelled : Collector;
  WorkerInFlight : Collector;
  JobDuration : Collector;
  HTTPRequests : Collector;
}.

Definition NewRegistry (namespace subsystem : string) : Registry :=
  mkRegistry
    (Counter (mkOpts namespace subsystem "jobs_enqueued_total" "Total number of jobs enqueued."))
    (Counter (mkOpts namespace subsystem "jobs_started_total" "Total number of jobs started."))
    (Counter (mkOpts namespace subsystem "jobs_completed_total" "Total number of jobs completed successfully."))
    (Counter (mkOpts namespace subsystem "jobs_failed_total" "Total number of jobs that failed."))
    (Counter (mkOpts namespace subsystem "jobs_cancelled_total" "Total number of jobs cancelled."))
    (Gauge (mkOpts namespace subsystem "worker_in_flight" "Number of jobs currently being processed."))
    (Histogram (mkOpts namespace subsystem "job_duration_seconds" "Execution duration of jobs in seconds."))
    (CounterVec (mkOpts namespace subsystem "http_requests_total" "Total HTTP requests partitioned by method, path, and status.")
       ["method"; "path"; "status"]).

Definition collectors (r : Registry) : list Collector :=
  [JobEnqueued r; JobStarted r; JobCompleted r; JobFailed r; JobCancelled r; WorkerInFlight r; JobDuration r; HTTPRequests r].

(** prometheus.Registerer: what it holds, and Register. *)
Class Registerer := {
  registerer : Type;
  registered : registerer -> list (string * string * string);
  register : Collector -> registerer -> option error * registerer;
}.

(** A collector whose name is free is added; one whose name is taken is refused. *)
Definition refuses_duplicates (R : Registerer) : Prop :=
  forall c g,
    let '(err, g') := register c g in
    if bool_decide (id_of c ∈ registered g) then is_Some err /\ g' = g
    else err = None /\ registered g' = id_of c :: registered g.

Section Register.
Context {R : Registerer}.

Fixpoint register_all (cs : list Collector) (g : registerer) : option error * registerer :=
  match cs with
  | [] => (None, g)
  | c :: cs' =>
      match register c g with
      | (Some e, g') => (Some e, g')
      | (None, g') => register_all cs' g'
      end
  end.

Definition Register (r : Registry) (g : registerer) : option error * registerer := register_all (collectors r) g.

Lemma register_all_fresh cs g :
  refuses_duplicates R -> NoDup (id_of <$> cs) -> (forall c, c ∈ cs -> id_of c ∉ registered g) ->
  exists g', register_all cs g = (None, g') /\ registered g' ≡ₚ (id_of <$> cs) ++ registered g.
Proof.
  intros HR. revert g. induction cs as [|c cs IH]; intros g Hnd Hfree; cbn [register_all fmap list_fmap].
  { exists g. done. }
  apply NoDup_cons in Hnd as [Hc Hnd]. pose proof (HR c g) as Hreg. destruct (register c g) as [err g1].
  rewrite bool_decide_false in Hreg by (apply Hfree; left). destruct Hreg as [-> Hg1].
  destruct (IH g1 Hnd) as (g' & Hall & Hg').
  { intros d Hd. rewrite Hg1, not_elem_of_cons. split; [|apply Hfree; by right]. intros Heq. apply Hc. rewrite <- Heq. by apply list_elem_of_fmap_2. }
  exists g'. split; [done|]. rewrite Hg', Hg1. by rewrite <- Permutation_middle.
Qed.

(** A registry's collectors have different names: in a registerer that holds none of them
    all eight are registered; registering a second registry of the same name then fails and
    changes nothing. *)
Theorem registry_registers ns sub g :
  refuses_duplicates R -> (forall c, c ∈ collectors (NewRegistry ns sub) -> id_of c ∉ registered g) ->
  exists g', Register (NewRegistry ns sub) g = (None, g') /\
    registered g' ≡ₚ (id_of <$> collectors (NewRegistry ns sub)) ++ registered g /\
    exists e, Register (NewRegistry ns sub) g' = (Some e, g').
Proof.
  intros HR Hfree. destruct (register_all_fresh (collectors (NewRegistry ns sub)) g HR) as (g' & Hall & Hg'); [|done|].
  { simpl. repeat (constructor; [rewrite ?not_elem_of_cons; split_and?; try done; apply not_elem_of_nil|]). constructor. }
  exists g'. split_and!; [done|done|]. unfold Register, collectors at 1. cbn [register_all].
  pose proof (HR (JobEnqueued (NewRegistry ns sub)) g') as Hreg. destruct (register _ g') as [err g2].
  rewrite bool_decide_true in Hreg; [|rewrite Hg'; by left]. destruct Hreg as [[e ->] ->]. by exists e.
Qed.

End Register.

(** ** A concrete registerer *)

Definition list_registerer : Registerer := {|
  registerer := list (string * string * string);
  registered := id;
  register c g := if bool_decide (id_of c ∈ g) then (Some (New "duplicate metrics collector registration attempted"), g) else (None, id_of c :: g);
|}.

Lemma list_registerer_refuses : refuses_duplicates list_registerer.
Proof. intros c g. simpl. unfold id. case_bool_decide; [split; eauto|done]. Qed.

Example registered_once :
  (Register (R := list_registerer) (NewRegistry "conduit" "server") []).1 = None.
Proof. vm_compute. reflexivity. Qed.

End Metrics.
