(* ===== verification/Server.v ===== *)
(** * cmd/server: run, and internal/logger

    How run builds the components from the configuration, in which order it brings their
    goroutines and connections up, what it does when one cannot be built, and in which order
    it takes them down after the signal.  The third-party constructors are parameters. *)

From S2P Require Import Prelude GoLib Models Retry Redlock Worker Reconciler Pool Scheduler Webhook Config Kafka Metrics.

Module Server.

(** ** internal/logger *)

Record LogConfig := mkLogConfig {
  lc_Level : string;
  lc_Format : string;
  lc_ServiceName : string;
  lc_Environment : string;
  lc_Pretty : bool;
  lc_AddCaller : bool;
}.

(** The logger: its level, writer and the fields of its context. *)
Record Log := mkLog {
  log_level : Z;
  log_console : bool;
  log_fields : list (string * string);
  log_caller : bool;
}.

(** What zerolog.Ctx falls back to when a context has no logger of its own. *)
Definition ConfigureGlobal (log : Log) (_ : option Log) : option Log := Some log.

Definition WithComponent (log : Log) (component : string) : Log :=
  mkLog (log_level log) (log_console log) (log_fields log ++ [("component", component)]) (log_caller log).

(** The loggers run hands to the service, the worker, the reconciler, the consumer and the API. *)
Definition component_logs (log : Log) : list Log :=
  WithComponent log <$> ["service"; "worker"; "reconciler"; "consumer"; "api"].

(** The components log at the level and to the writer of the configured logger, with its
    fields, and no two of them can be confused. *)
Lemma component_logs_apart log :
  NoDup (log_fields <$> component_logs log) /\
  forall l, l ∈ component_logs log -> log_level l = log_level log /\ log_console l = log_console log /\
    log_caller l = log_caller log /\ exists c, log_fields l = log_fields log ++ [("component", c)].
Proof.
  split.
  - unfold component_logs. rewrite <- list_fmap_compose. apply NoDup_fmap_2; [intros c c' H; apply app_inv_head in H; congruence|].
    apply (bool_decide_unpack _). vm_compute. exact I.
  - intros l (c & -> & _)%list_elem_of_fmap. split_and!; try done. by exists c.
Qed.

(** ** The parts of a running server *)

Inductive Part := PgPool | RedisClients | Producer | Group | WorkerPool | ReconcilerLoop | Consumer | SchedulerLoop | HTTPServer.

#[global] Instance Part_eq_dec : EqDecision Part.
Proof. solve_decision. Defined.

Inductive Act := Up (p : Part) | Down (p : Part) | Signal.

Definition conn_part (c : Kafka.Conn) : Part := match c with Kafka.ProducerConn => Producer | Kafka.GroupConn => Group end.
Definition conn_act (a : Kafka.ConnAct) : Act :=
  match a with Kafka.Opened c => Up (conn_part c) | Kafka.Closed c => Down (conn_part c) end.

(** pgxpool.Config and redis.UniversalOptions, as far as the code sets them. *)
Record PgOptions := mkPgOptions {
  po_DSN : string;
  po_MaxConns : Z;
  po_MinConns : Z;
  po_MaxConnLifetime : Z;
  po_MaxConnIdleTime : Z;
  po_HealthCheckPeriod : Z;
}.

Record RedisOptions := mkRedisOptions {
  ro_Addrs : list string;
  ro_Username : string;
  ro_Password : string;
  ro_DB : Z;
  ro_PoolSize : Z;
}.

(** What run has built when the server listens. *)
Record Server := mkServer {
  s_log : Log;
  s_metrics : Metrics.Registry;
  s_pg : PgOptions;
  s_redis : list RedisOptions;
  s_kafka : Kafka.KafkaClient;
  s_runner : Worker.jobWorker;
  s_webhook : Webhook.Executor;
  s_pool : Pool.Pool;
  s_reconciler : Reconciler.Config;
  s_scheduler : Scheduler.Scheduler;
  s_http : HTTPConfig;
}.

Inductive Result :=
| Failed (e : error)
| Panicked
| Exited (s : Server).

Section Run.
(** zerolog.ParseLevel, pgxpool.ParseConfig, pgxpool.NewWithConfig, sarama's constructors and
    Close, and whether the HTTP server and the pool finish within the shutdown context. *)
Context (ParseLevel : string -> res Z error) (ParseConfig : string -> option error) (NewWithConfig : PgOptions -> option error).
Context (NewSyncProducer : list string -> Kafka.SaramaConfig -> option error).
Context (NewConsumerGroup : list string -> string -> Kafka.SaramaConfig -> option error).
Context (CloseConn : Kafka.Conn -> option error).
Context (http_drained pool_drained : bool).

Definition logger_New (cfg : LogConfig) : res Log error :=
  match ParseLevel (lc_Level cfg) with
  | Err e => Err (wrapf ("logger: invalid level " +:+ Quote (lc_Level cfg) +:+ ": ") e)
  | Ok level =>
      Ok (mkLog level (lc_Pretty cfg) [("service", lc_ServiceName cfg); ("env", lc_Environment cfg)] (lc_AddCaller cfg))
  end.

Definition log_config (cfg : LoggerConfig) : LogConfig :=
  mkLogConfig (Models.log_Level cfg) (log_Format cfg) (log_ServiceName cfg) (log_Environment cfg) (log_Pretty cfg) (log_AddCaller cfg).

Definition pg_options (cfg : PostgresConfig) : PgOptions :=
  mkPgOptions (pg_DSN cfg) (pg_MaxConns cfg) (pg_MinConns cfg) (pg_MaxConnLifetime cfg) (pg_MaxConnIdleTime cfg) (pg_HealthCheckPeriod cfg).

Definition redis_options (cfg : RedisConfig) : list RedisOptions :=
  (fun addr => mkRedisOptions [addr] (redis_Username cfg) (redis_Password cfg) (redis_Database cfg) (redis_PoolSize cfg)) <$> redis_Addresses cfg.

Definition runner (cfg : Config) : Worker.jobWorker :=
  Worker.mkWorker (Redlock.NewManager (length (redis_options (Redis cfg))) Redlock.main_config) (Retry.NewEngine Retry.main_config)
    Worker.default_names (rec_RunningLease (Reconciler cfg)).

Definition webhook_executor (cfg : WebhookConfig) : Webhook.Executor :=
  Webhook.NewExecutorWithConfig (Webhook.mkConfig None (webhook_Timeout cfg) (webhook_MaxRedirects cfg) (webhook_AllowPrivateNetworks cfg)).

Definition reconciler_config (cfg : ReconcilerConfig) : Reconciler.Config :=
  Reconciler.New (Reconciler.mkConfig (rec_Interval cfg) (rec_IdleInterval cfg) (rec_BatchSize cfg) (rec_RunningLease cfg)).

(** A deferred action runs after the rest, whichever way the rest ends. *)
Definition deferring (up down : list Act) (rest : Result * list Act) : Result * list Act := (rest.1, up ++ rest.2 ++ down).

Definition when (b : bool) (l : list Act) : list Act := if b then l else [].

(** From the pool to the end of run: the reconciler and the scheduler are stopped by deferred
    calls too, the reconciler a second time, which does nothing. *)
Definition serve_until_signal (cfg : Config) (log : Log) (kafka : Kafka.KafkaClient) : Result * list Act :=
  match Pool.NewPool (Config.pool_config cfg) with
  | None => (Panicked, [])
  | Some pool =>
      let reconciling := rec_Enabled (Reconciler cfg) in
      let scheduling := sched_Enabled (Scheduler cfg) in
      (Exited (mkServer log (Metrics.NewRegistry (metrics_Namespace (Metrics cfg)) (metrics_Subsystem (Metrics cfg))) (pg_options (Postgres cfg))
          (redis_options (Redis cfg)) kafka (runner cfg) (webhook_executor (Webhook cfg)) (Pool.Start pool)
          (reconciler_config (Reconciler cfg)) (Scheduler.New (sched_TickInterval (Scheduler cfg))) (HTTP cfg)),
       Up WorkerPool :: when reconciling [Up ReconcilerLoop] ++ [Up Consumer] ++ when scheduling [Up SchedulerLoop] ++
       [Up HTTPServer; Signal] ++ when http_drained [Down HTTPServer] ++ when reconciling [Down ReconcilerLoop] ++
       when pool_drained [Down WorkerPool] ++ when scheduling [Down SchedulerLoop])
  end.

Definition run_with (cfg : Config) : Result * list Act :=
  match logger_New (log_config (Logger cfg)) with
  | Err e => (Failed (wrapf "logger: " e), [])
  | Ok log =>
      match ParseConfig (pg_DSN (Postgres cfg)) with
      | Some e => (Failed (wrapf "postgres config: " e), [])
      | None =>
          match NewWithConfig (pg_options (Postgres cfg)) with
          | Some e => (Failed (wrapf "postgres: " e), [])
          | None =>
              deferring [Up PgPool] [Down PgPool]
                (deferring [Up RedisClients] [Down RedisClients]
                   match Kafka.NewKafkaClient NewSyncProducer NewConsumerGroup (Kafka cfg) with
                   | (Err e, acts) => (Failed (wrapf "kafka: " e), conn_act <$> acts)
                   | (Ok kafka, acts) => deferring (conn_act <$> acts) (conn_act <$> (Kafka.Close CloseConn).2) (serve_until_signal cfg log kafka)
                   end)
          end
      end
  end.

Definition run (env : gmap string string) : Result * list Act :=
  match Config.LoadFromEnvironment env with
  | (_, Some e) => (Failed (wrapf "config: " e), [])
  | (cfg, None) => run_with cfg
  end.

(** main: what is written to standard error, and the exit status (the runtime's own is 2
    after a panic). *)
Definition main (env : gmap string string) : option string * Z :=
  match (run env).1 with
  | Failed e => if errors_Is e "context canceled" then (None, 0) else (Some ("conduit: " +:+ Error e), 1)
  | Panicked => (None, 2)
  | Exited _ => (None, 0)
  end.

(** The process exits with status 0 exactly when the server came up and was shut down by a
    signal, or failed with a cancelled context. *)
Lemma main_status env :
  (main env).2 = 0 <-> (exists s, (run env).1 = Exited s) \/ (exists e, (run env).1 = Failed e /\ errors_Is e "context canceled" = true).
Proof.
  unfold main. destruct (run env).1 as [e| |s]; [destruct (errors_Is e "context canceled") eqn:He|..]; simpl; split; try done; [eauto|..|eauto];
    intros [[? ?]|(? & [= <-] & ?)]; congruence.
Qed.

End Run.

(** ** Who needs whom *)

(** The parts a running part calls: the handlers of the API and the readiness probe, the two
    loops that feed the pool, and the jobs the pool runs. *)
Definition uses (p : Part) : list Part :=
  match p with
  | HTTPServer => [PgPool; RedisClients; Producer]
  | ReconcilerLoop => [PgPool; WorkerPool]
  | Consumer => [Group; WorkerPool]
  | WorkerPool => [PgPool; RedisClients]
  | PgPool | RedisClients | Producer | Group | SchedulerLoop => []
  end.

Definition after (a : Act) (up : list Part) : list Part :=
  match a with Up p => p :: up | Down p => filter (fun q => q <> p) up | Signal => up end.

(** The parts that are up after the actions. *)
Definition still_up (acts : list Act) : list Part := foldl (fun up a => after a up) [] acts.

(** The action at each place comes up after everything it calls, or goes down after
    everything that calls it, the consumer apart. *)
Definition well_placed (up : list Part) (a : Act) : bool :=
  match a with
  | Up p => forallb (fun q => bool_decide (q ∈ up)) (uses p)
  | Down p => forallb (fun q => bool_decide (q = p) || bool_decide (q = Consumer) || negb (bool_decide (p ∈ uses q))) up
  | Signal => true
  end.

Definition brings_up (a : Act) : bool := match a with Up _ => true | _ => false end.

(** Every action of the kind [which] is well placed. *)
Fixpoint in_order (which : Act -> bool) (up : list Part) (acts : list Act) : bool :=
  match acts with
  | [] => true
  | a :: acts' => (negb (which a) || well_placed up a) && in_order which (after a up) acts'
  end.

Lemma in_order_lookup which up acts n a :
  in_order which up acts = true -> acts !! n = Some a -> which a = true ->
  well_placed (foldl (fun up a => after a up) up (take n acts)) a = true.
Proof.
  revert up n. induction acts as [|x acts IH]; intros up n; [done|]. cbn [in_order]. intros [Hx Hrest]%andb_true_iff.
  destruct n as [|n]; cbn [lookup list_lookup take foldl]; [|by apply IH].
  intros [= ->] Ha. rewrite Ha in Hx. done.
Qed.

Lemma well_placed_up up p : well_placed up (Up p) = true -> forall q, q ∈ uses p -> q ∈ up.
Proof.
  cbn. rewrite forallb_forall. intros H q Hq. specialize (H q ltac:(by apply list_elem_of_In)). by bool_to_prop.
Qed.

Lemma well_placed_down up p :
  well_placed up (Down p) = true -> forall q, q ∈ up -> q <> p -> p ∈ uses q -> q = Consumer.
Proof.
  cbn. rewrite forallb_forall. intros H q Hq Hne Hu. specialize (H q ltac:(by apply list_elem_of_In)).
  rewrite !orb_true_iff, negb_true_iff, !bool_decide_eq_true, bool_decide_eq_false in H. by destruct H as [[?|?]|?].
Qed.

(** Configurations that differ only in values nothing reads. *)
Record same_effect (a b : Config) : Prop := {
  same_http : HTTP a = HTTP b;
  same_kafka : Kafka a = Kafka b;
  same_redis : Redis a = Redis b;
  same_postgres : pg_options (Postgres a) = pg_options (Postgres b);
  same_worker : worker_Concurrency (Worker a) = worker_Concurrency (Worker b) /\ worker_QueueSize (Worker a) = worker_QueueSize (Worker b);
  same_scheduler : sched_Enabled (Scheduler a) = sched_Enabled (Scheduler b) /\ sched_TickInterval (Scheduler a) = sched_TickInterval (Scheduler b);
  same_reconciler : Reconciler a = Reconciler b;
  same_metrics : metrics_Namespace (Metrics a) = metrics_Namespace (Metrics b) /\ metrics_Subsystem (Metrics a) = metrics_Subsystem (Metrics b);
  same_logger : Models.log_Level (Logger a) = Models.log_Level (Logger b) /\ log_ServiceName (Logger a) = log_ServiceName (Logger b) /\
    log_Environment (Logger a) = log_Environment (Logger b) /\ log_Pretty (Logger a) = log_Pretty (Logger b) /\
    log_AddCaller (Logger a) = log_AddCaller (Logger b);
  same_webhook : Webhook a = Webhook b;
}.

(** A result without the timeout in the pool's configuration, which nothing reads. *)
Definition without_timeout (r : Result) : Result :=
  match r with
  | Exited s =>
      let p := s_pool s in
      let c := Pool.mkConfig (Pool.Concurrency (Pool.cfg p)) (Pool.QueueSize (Pool.cfg p)) 0 in
      Exited (mkServer (s_log s) (s_metrics s) (s_pg s) (s_redis s) (s_kafka s) (s_runner s) (s_webhook s)
        (Pool.mkPool c (Pool.jobs p) (Pool.closed p) (Pool.cancelled p) (Pool.dispatcher p) (Pool.running p) (Pool.finished p)
           (Pool.accepted p) (Pool.started p) (Pool.crashed p))
        (s_reconciler s) (s_scheduler s) (s_http s))
  | r => r
  end.

Section Theorems.
Context (ParseLevel : string -> res Z error) (ParseConfig : string -> option error) (NewWithConfig : PgOptions -> option error).
Context (NewSyncProducer : list string -> Kafka.SaramaConfig -> option error).
Context (NewConsumerGroup : list string -> string -> Kafka.SaramaConfig -> option error).
Context (CloseConn : Kafka.Conn -> option error).

Abbreviation runs := (run ParseLevel ParseConfig NewWithConfig NewSyncProducer NewConsumerGroup CloseConn).
Abbreviation runs_with := (run_with ParseLevel ParseConfig NewWithConfig NewSyncProducer NewConsumerGroup CloseConn).

(** The connections to the outside. *)
Abbreviation connections := [PgPool; RedisClients; Producer; Group].

Lemma run_with_in_order hd pd cfg :
  let acts := (runs_with hd pd cfg).2 in
  in_order brings_up [] acts = true /\ Forall (fun p => p ∉ connections) (still_up acts) /\
  (hd = true -> pd = true -> in_order (fun _ => true) [] acts = true /\ Forall (fun p => p = Consumer) (still_up acts)).
Proof.
  enough (let acts := (runs_with hd pd cfg).2 in
    in_order brings_up [] acts && forallb (fun p => bool_decide (p ∉ connections)) (still_up acts) &&
    (negb (hd && pd) || in_order (fun _ => true) [] acts && forallb (fun p => bool_decide (p = Consumer)) (still_up acts)) = true) as H.
  { cbv zeta in *. rewrite !andb_true_iff, orb_true_iff, andb_true_iff, !forallb_forall in H. destruct H as [[H1 H2] H3].
    assert (forall (P : Part -> Prop) `{!forall p, Decision (P p)} l, (forall p, In p l -> bool_decide (P p) = true) -> Forall P l) as Hall.
    { intros P ? l Hl. apply Forall_forall. intros p Hp. by eapply bool_decide_eq_true, Hl, list_elem_of_In. }
    split_and!; [exact H1|by eapply Hall, H2|]. intros -> ->. destruct H3 as [?|[H3 H4]]; [done|]. split; [exact H3|]. by eapply Hall, H4. }
  cbv zeta. unfold run_with, Kafka.NewKafkaClient, serve_until_signal. destruct (logger_New _ _) as [log|e]; [|by destruct hd, pd].
  destruct (ParseConfig _); [by destruct hd, pd|]. destruct (NewWithConfig _); [by destruct hd, pd|].
  destruct (NewSyncProducer _ _); [by destruct hd, pd|]. destruct (NewConsumerGroup _ _ _); [by destruct hd, pd|].
  destruct (Pool.NewPool _); [|by destruct hd, pd]. destruct hd, pd, (rec_Enabled _), (sched_Enabled _); vm_compute; reflexivity.
Qed.

(** The server that came up was built from the configuration. *)
Lemma run_with_exited hd pd cfg s :
  (runs_with hd pd cfg).1 = Exited s ->
  s_runner s = runner cfg /\ exists pool, Pool.NewPool (Config.pool_config cfg) = Some pool /\ s_pool s = Pool.Start pool.
Proof.
  unfold run_with, serve_until_signal. destruct (logger_New _ _) as [log|e]; [|done]. destruct (ParseConfig _); [done|].
  destruct (NewWithConfig _); [done|]. destruct (Kafka.NewKafkaClient _ _ _) as [[kafka|e] acts]; [|done].
  destruct (Pool.NewPool _) as [pool|] eqn:Hpool; [|done]. intros [= <-]. simpl. eauto.
Qed.

Lemma NewPool_bounds c pool : Pool.NewPool c = Some pool -> Pool.cfg (Pool.Start pool) = c /\ 0 <= Pool.QueueSize c.
Proof. unfold Pool.NewPool. destruct (_ || _) eqn:Hneg; [done|]. bool_to_prop. intros [= <-]. split; [done|lia]. Qed.

Lemma Validate_concurrency cfg : Config.Validate cfg = None -> 0 < worker_Concurrency (Worker cfg).
Proof.
  unfold Config.Validate. repeat (case_match; [done|]). intros _. bool_to_prop. lia.
Qed.


(** Some values of the configuration have no effect: the worker's shutdown timeout, the
    scheduler's limit of concurrent runs, the metrics address, the log format and the path
    of the migrations. *)
Theorem unused_values hd pd a b :
  same_effect a b ->
  without_timeout (runs_with hd pd a).1 = without_timeout (runs_with hd pd b).1 /\ (runs_with hd pd a).2 = (runs_with hd pd b).2.
Proof.
  intros [Hh Hk Hre Hpg [Hw1 Hw2] [Hs1 Hs2] Hr [Hm1 Hm2] (Hl1 & Hl2 & Hl3 & Hl4 & Hl5) Hwh].
  assert (logger_New ParseLevel (log_config (Logger a)) = logger_New ParseLevel (log_config (Logger b))) as Hlog.
  { unfold logger_New, log_config. cbn. by rewrite Hl1, Hl2, Hl3, Hl4, Hl5. }
  assert (pg_DSN (Postgres a) = pg_DSN (Postgres b)) as Hdsn by (by injection Hpg).
  assert (Hrun : runner a = runner b) by (unfold runner; by rewrite Hre, Hr).
  unfold run_with. rewrite Hlog, Hdsn, Hpg, Hk.
  destruct (logger_New ParseLevel (log_config (Logger b))) as [log|e]; [|done].
  destruct (ParseConfig _); [done|]. destruct (NewWithConfig _); [done|].
  destruct (Kafka.NewKafkaClient _ _ _) as [[kafka|e] acts]; [|done]. cbn [deferring fst snd].
  unfold serve_until_signal, Pool.NewPool, Config.pool_config. cbn [Pool.QueueSize Pool.Concurrency].
  rewrite Hw1, Hw2, Hr, Hs1, Hs2, Hm1, Hm2, Hpg, Hre, Hrun, Hh, Hwh. by destruct (_ || _).
Qed.
End Theorems.

(** ** On concrete runs *)

Abbreviation everything_works := (run (fun _ => Ok 1) (fun _ => None) (fun _ => None) (fun _ _ => None) (fun _ _ _ => None) (fun _ => None)).

(** The defaults bring everything up and take it down again, but nothing waits for the
    consumer: it is up when the pool's queue is closed. *)
Example default_shutdown :
  (everything_works true true ∅).2 =
  [Up PgPool; Up RedisClients; Up Producer; Up Group; Up WorkerPool; Up ReconcilerLoop; Up Consumer; Up SchedulerLoop; Up HTTPServer;
   Signal; Down HTTPServer; Down ReconcilerLoop; Down WorkerPool; Down SchedulerLoop; Down Producer; Down Group; Down RedisClients; Down PgPool].
Proof. vm_compute. reflexivity. Qed.

(** Jobs that outlast the shutdown time lose their database while they run. *)
Example slow_jobs_lose_store : in_order (fun _ => true) [] (everything_works true false ∅).2 = false.
Proof. vm_compute. reflexivity. Qed.

(** A negative queue size passes the validation and crashes run. *)
Example negative_queue_crashes : (everything_works true true {["WORKER_QUEUE_SIZE" := "-1"]}).1 = Panicked.
Proof. vm_compute. reflexivity. Qed.

End Server.
