(* ===== verification/Rfc3339.v ===== *)
(** * RFC 3339 instants, as encoding/json writes and reads them

    [time.Time.MarshalJSON] and [UnmarshalJSON] without the quotes, on bytes: the layout
    2006-01-02T15:04:05.999999999Z in UTC and its parser parseRFC3339 with any offset.
    What parseRFC3339 rejects goes to the general [time.Parse], which is left open. *)

From S2P Require Import Prelude GoLib Calendar.

Module Rfc3339.

(** ** Decimal digits *)

Definition is_digit (b : Z) : bool := (48 <=? b) && (b <=? 57).

(** The [k] last decimal digits of [n], as bytes. *)
Fixpoint pad (k : nat) (n : Z) : list Z :=
  match k with O => [] | S k' => pad k' (n / 10) ++ [48 + n mod 10] end.

(** parseUint without its range check. *)
Fixpoint uint (acc : Z) (l : list Z) : option Z :=
  match l with
  | [] => Some acc
  | b :: l' => if is_digit b then uint (acc * 10 + (b - 48)) l' else None
  end.

Definition uint_in (lo hi : Z) (l : list Z) : option Z :=
  match uint 0 l with Some n => if (lo <=? n) && (n <=? hi) then Some n else None | None => None end.

Lemma uint_app acc l1 l2 : uint acc (l1 ++ l2) = uint acc l1 ≫= fun n => uint n l2.
Proof. revert acc. induction l1 as [|b l1 IH]; intros acc; [done|]. cbn [app uint]. by destruct (is_digit b). Qed.

Lemma is_digit_of d : 0 <= d < 10 -> is_digit (48 + d) = true.
Proof. intros Hd. unfold is_digit. apply andb_true_iff. split; apply Z.leb_le; lia. Qed.

Lemma length_pad k n : length (pad k n) = k.
Proof. revert n. induction k as [|k IH]; intros n; [done|]. cbn [pad]. rewrite length_app, IH. simpl. lia. Qed.

Lemma uint_pad k n acc : 0 <= n < 10 ^ Z.of_nat k -> uint acc (pad k n) = Some (acc * 10 ^ Z.of_nat k + n).
Proof.
  revert n acc. induction k as [|k IH]; intros n acc Hn; [simpl in *; f_equal; lia|]. cbn [pad]. rewrite uint_app.
  rewrite Nat2Z.inj_succ, Z.pow_succ_r in * by lia. pose proof (Z.div_mod n 10 ltac:(lia)). pose proof (Z.mod_pos_bound n 10 ltac:(lia)).
  rewrite IH by (split; [apply Z.div_pos; lia|apply Z.div_lt_upper_bound; lia]). cbn [mbind option_bind uint].
  rewrite is_digit_of by lia. f_equal. lia.
Qed.

Lemma uint_in_pad k n lo hi : lo <= n <= hi -> 0 <= n < 10 ^ Z.of_nat k -> uint_in lo hi (pad k n) = Some n.
Proof.
  intros Hr Hn. unfold uint_in. rewrite uint_pad by done. rewrite Z.mul_0_l, Z.add_0_l.
  by rewrite (proj2 (Z.leb_le _ _) (proj1 Hr)), (proj2 (Z.leb_le _ _) (proj2 Hr)).
Qed.

Lemma pad_digits k n : Forall (fun b => is_digit b = true) (pad k n).
Proof.
  revert n. induction k as [|k IH]; intros n; cbn [pad]; [constructor|]. apply Forall_app. split; [apply IH|].
  constructor; [|constructor]. apply is_digit_of. apply Z.mod_pos_bound. lia.
Qed.

(** ** Formatting *)

Definition SecondOf (t : Z) : Z := (t - zero_time) / Second mod 60.
Definition Nano (t : Z) : Z := (t - zero_time) mod Second.

(** Trailing zeros of the fraction are dropped. *)
Fixpoint drop_zeros (l : list Z) : list Z :=
  match l with b :: l' => if b =? 48 then drop_zeros l' else l | [] => [] end.

Definition strip_zeros (l : list Z) : list Z := reverse (drop_zeros (reverse l)).

Definition fraction (nsec : Z) : list Z := if nsec =? 0 then [] else 46 :: strip_zeros (pad 9 nsec).

(** AppendFormat(RFC3339Nano) of an instant in UTC. *)
Definition format (t : Z) : list Z :=
  pad 4 (Year t) ++ 45 :: pad 2 (Month t) ++ 45 :: pad 2 (DayOfMonth t) ++ 84 :: pad 2 (HourOf t) ++ 58 :: pad 2 (MinuteOf t) ++
  58 :: pad 2 (SecondOf t) ++ fraction (Nano t) ++ [90].

(** MarshalJSON refuses a year that does not have four digits. *)
Definition MarshalTime (t : Z) : option (list Z) :=
  if (0 <=? Year t) && (Year t <=? 9999) then Some (format t) else None.

(** ** Parsing *)

Definition days_in (month year : Z) : Z := days_before_month (is_leap year) (month + 1) - days_before_month (is_leap year) month.

Definition full_date (year month day hour min sec nsec : Z) : Z := Date year month day hour + min * Minute + sec * Second + nsec.

(** The digits at the head of a byte sequence, and the rest. *)
Fixpoint span_digits (l : list Z) : list Z * list Z :=
  match l with
  | b :: l' => if is_digit b then let '(ds, rest) := span_digits l' in (b :: ds, rest) else ([], l)
  | [] => ([], [])
  end.

(** Digits after the ninth are dropped. *)
Definition nanoseconds (ds : list Z) : option Z :=
  let ds := take 9 ds in n ← uint 0 ds; Some (n * 10 ^ (9 - Z.of_nat (length ds))).

Definition parse_fraction (l : list Z) : option (Z * list Z) :=
  match l with
  | c :: b :: _ =>
      if (c =? 46) && is_digit b
      then let '(ds, rest) := span_digits (tail l) in n ← nanoseconds ds; Some (n, rest)
      else Some (0, l)
  | _ => Some (0, l)
  end.

Definition parse_zone (l : list Z) : option Z :=
  match l with
  | [90] => Some 0
  | [sign; h1; h2; colon; m1; m2] =>
      hr ← uint_in 0 23 [h1; h2];
      mm ← uint_in 0 59 [m1; m2];
      if ((sign =? 45) || (sign =? 43)) && (colon =? 58)
      then Some (if sign =? 45 then - ((hr * 60 + mm) * 60) else (hr * 60 + mm) * 60) else None
  | _ => None
  end.

(** parseRFC3339 *)
Definition parse (l : list Z) : option Z :=
  match l with
  | y1 :: y2 :: y3 :: y4 :: c1 :: m1 :: m2 :: c2 :: d1 :: d2 :: c3 :: h1 :: h2 :: c4 :: n1 :: n2 :: c5 :: s1 :: s2 :: rest =>
      year ← uint_in 0 9999 [y1; y2; y3; y4];
      month ← uint_in 1 12 [m1; m2];
      day ← uint_in 1 (days_in month year) [d1; d2];
      hour ← uint_in 0 23 [h1; h2];
      min ← uint_in 0 59 [n1; n2];
      sec ← uint_in 0 59 [s1; s2];
      if (c1 =? 45) && (c2 =? 45) && (c3 =? 84) && (c4 =? 58) && (c5 =? 58) then
        '(nsec, zone) ← parse_fraction rest;
        offset ← parse_zone zone;
        Some (full_date year month day hour min sec nsec - offset * Second)
      else None
  | _ => None
  end.

(** [time.Parse(RFC3339, s)] for what parseRFC3339 rejects. *)
Class TimeParse := { Parse : list Z -> option Z }.

Definition UnmarshalTime `{TimeParse} (l : list Z) : option Z :=
  match parse l with Some t => Some t | None => Parse l end.

(** ** Round trip *)

Lemma full_date_of t :
  full_date (Year t) (Month t) (DayOfMonth t) (HourOf t) (MinuteOf t) (SecondOf t) (Nano t) = t.
Proof.
  unfold full_date. rewrite Date_month by apply Month_range. unfold DayOfMonth, yday.
  replace (days_before_year (Year t) + days_before_month (is_leap (Year t)) (Month t) +
    (days t - days_before_year (Year t) - days_before_month (is_leap (Year t)) (Month t) + 1 - 1)) with (days t) by lia.
  unfold days, HourOf, MinuteOf, SecondOf, Nano, Day. set (x := t - zero_time).
  assert (x = 24 * Hour * (x / (24 * Hour)) + (x / Hour mod 24) * Hour + (x / Minute mod 60) * Minute + (x / Second mod 60) * Second + x mod Second) as Hx.
  { assert (x / (24 * Hour) = x / Hour / 24) as -> by (rewrite (Z.mul_comm 24), Z.div_div by done; reflexivity).
    assert (x / Hour = x / Minute / 60) as -> by (rewrite Z.div_div by done; reflexivity).
    assert (x / Minute = x / Second / 60) as -> by (rewrite Z.div_div by done; reflexivity).
    pose proof (Z.div_mod x Second ltac:(done)). set (s := x / Second) in *.
    pose proof (Z.div_mod s 60 ltac:(done)). set (m := s / 60) in *. pose proof (Z.div_mod m 60 ltac:(done)). set (h := m / 60) in *.
    pose proof (Z.div_mod h 24 ltac:(done)). unfold Hour, Minute. lia. }
  unfold x in *. lia.
Qed.

Lemma strip_zeros_spec l : exists k, l = strip_zeros l ++ replicate k 48.
Proof.
  assert (forall r, exists k, reverse r = reverse (drop_zeros r) ++ replicate k 48) as H.
  { intros r. induction r as [|b r (k & IH)]; [by exists O|]. cbn [drop_zeros]. destruct (Z.eqb_spec b 48) as [->|Hb]; [|exists O; by rewrite app_nil_r].
    exists (S k). rewrite reverse_cons, IH, <- app_assoc. f_equal. by rewrite <- replicate_cons_app. }
  destruct (H (reverse l)) as (k & Hk). exists k. by rewrite reverse_involutive in Hk.
Qed.

Lemma uint_zeros acc k : uint acc (replicate k 48) = Some (acc * 10 ^ Z.of_nat k).
Proof.
  revert acc. induction k as [|k IH]; intros acc; [simpl; f_equal; lia|]. cbn [replicate uint]. change (is_digit 48) with true.
  cbv iota. rewrite IH, Nat2Z.inj_succ, Z.pow_succ_r by lia. f_equal. lia.
Qed.

Lemma nanoseconds_strip nsec : 0 <= nsec < Second -> nanoseconds (strip_zeros (pad 9 nsec)) = Some nsec.
Proof.
  intros Hn. destruct (strip_zeros_spec (pad 9 nsec)) as (k & Hk). pose proof (length_pad 9 nsec) as Hlen.
  pose proof (uint_pad 9 nsec 0 Hn) as Hu. set (s := strip_zeros _) in *. rewrite Hk in Hlen, Hu. rewrite length_app, length_replicate in Hlen.
  unfold nanoseconds. rewrite take_ge by lia. rewrite uint_app in Hu. destruct (uint 0 s) as [n|]; [|done]. cbn [mbind option_bind] in *.
  rewrite uint_zeros in Hu. rewrite Z.mul_0_l, Z.add_0_l in Hu. replace (9 - Z.of_nat (length s)) with (Z.of_nat k) by lia. done.
Qed.

Lemma span_digits_app ds rest :
  Forall (fun b => is_digit b = true) ds -> match rest with b :: _ => is_digit b = false | [] => True end ->
  span_digits (ds ++ rest) = (ds, rest).
Proof.
  intros Hd Hr. induction Hd as [|b ds Hb _ IH]; cbn [app span_digits].
  - destruct rest as [|b rest]; [done|]. cbn [span_digits]. by rewrite Hr.
  - by rewrite Hb, IH.
Qed.

Lemma fraction_parse nsec : 0 <= nsec < Second -> parse_fraction (fraction nsec ++ [90]) = Some (nsec, [90]).
Proof.
  intros Hn. unfold fraction. destruct (Z.eqb_spec nsec 0) as [->|Hne]; [done|].
  pose proof (nanoseconds_strip nsec Hn) as Hns. destruct (strip_zeros_spec (pad 9 nsec)) as (k & Hk). pose proof (pad_digits 9 nsec) as Hd.
  set (s := strip_zeros _) in *. rewrite Hk in Hd. apply Forall_app in Hd as [Hd _]. destruct s as [|b s].
  { injection Hns as Hns. lia. }
  apply Forall_cons in Hd as Hb. destruct Hb as [Hb _]. cbn [app]. unfold parse_fraction. rewrite Hb. cbn [Z.eqb Pos.eqb andb tail].
  change (b :: s ++ [90]) with ((b :: s) ++ [90]). rewrite span_digits_app by done. by rewrite Hns.
Qed.

Lemma DayOfMonth_range t : 1 <= DayOfMonth t <= days_in (Month t) (Year t) /\ days_in (Month t) (Year t) <= 31.
Proof.
  unfold DayOfMonth, days_in, yday. pose proof (month_days t). pose proof (Month_range t). split; [lia|].
  assert (Month t ∈ seqZ 1 12) as Hin by (apply elem_of_seqZ; lia). clear -Hin. revert Hin. generalize (Month t). intros m Hin.
  repeat (apply elem_of_cons in Hin as [->|Hin]); [..|by apply elem_of_nil in Hin]; destruct (is_leap (Year t)); simpl; lia.
Qed.

(** An instant whose year has four digits is read back as it was. *)
Lemma parse_format t : 0 <= Year t <= 9999 -> parse (format t) = Some t.
Proof.
  intros Hy. assert (0 <= HourOf t < 24 /\ 0 <= MinuteOf t < 60 /\ 0 <= SecondOf t < 60 /\ 0 <= Nano t < Second) as (Hh & Hm & Hs & Hn).
  { unfold HourOf, MinuteOf, SecondOf, Nano. split_and!; apply Z.mod_pos_bound; done. }
  pose proof (Month_range t) as Hmo. destruct (DayOfMonth_range t) as [Hd H31].
  pose proof (uint_in_pad 4 (Year t) 0 9999 Hy ltac:(simpl; lia)) as H1. pose proof (uint_in_pad 2 (Month t) 1 12 Hmo ltac:(simpl; lia)) as H2.
  pose proof (uint_in_pad 2 (DayOfMonth t) 1 _ Hd ltac:(simpl; lia)) as H3. pose proof (uint_in_pad 2 (HourOf t) 0 23 ltac:(lia) ltac:(simpl; lia)) as H4.
  pose proof (uint_in_pad 2 (MinuteOf t) 0 59 ltac:(lia) ltac:(simpl; lia)) as H5. pose proof (uint_in_pad 2 (SecondOf t) 0 59 ltac:(lia) ltac:(simpl; lia)) as H6.
  unfold format. cbn [pad app] in *. cbn [parse]. rewrite H1. cbn [mbind option_bind]. rewrite H2. cbn [mbind option_bind]. rewrite H3. cbn [mbind option_bind].
  rewrite H4. cbn [mbind option_bind]. rewrite H5. cbn [mbind option_bind]. rewrite H6. cbn [mbind option_bind]. cbn [Z.eqb Pos.eqb andb].
  rewrite fraction_parse by done. cbn [mbind option_bind parse_zone]. rewrite full_date_of. f_equal. lia.
Qed.

Lemma UnmarshalTime_MarshalTime `{TimeParse} t l : MarshalTime t = Some l -> UnmarshalTime l = Some t.
Proof.
  unfold MarshalTime, UnmarshalTime. destruct (_ && _) eqn:Hy; [|done]. bool_to_prop. intros [= <-]. by rewrite parse_format by lia.
Qed.

(** The bytes of an instant need no escape in a JSON string. *)
Lemma format_plain t : Forall (fun b => is_digit b = true \/ b ∈ [45; 84; 58; 46; 90]) (format t).
Proof.
  assert (forall k n, Forall (fun b => is_digit b = true \/ b ∈ [45; 84; 58; 46; 90]) (pad k n)) as Hpad.
  { intros k n. eapply Forall_impl; [apply pad_digits|]. auto. }
  assert (Forall (fun b => is_digit b = true \/ b ∈ [45; 84; 58; 46; 90]) (fraction (Nano t))) as Hfrac.
  { unfold fraction. destruct (_ =? 0); [constructor|]. constructor; [right; set_solver|]. destruct (strip_zeros_spec (pad 9 (Nano t))) as (k & Hk).
    specialize (Hpad 9%nat (Nano t)). rewrite Hk in Hpad. by apply Forall_app in Hpad as [? _]. }
  unfold format. repeat first [apply Forall_app; split; [apply Hpad|] | apply Forall_cons; split; [right; set_solver|]].
  apply Forall_app. split; [done|]. constructor; [right; set_solver|constructor].
Qed.

(** 2024-02-29T12:34:56.789Z, and the same instant two hours east. *)
Example parse_offset :
  parse (bytes_of_string "2024-02-29T12:34:56.789Z") = parse (bytes_of_string "2024-02-29T14:34:56.789+02:00") /\
  parse (bytes_of_string "2023-02-29T12:34:56Z") = None.
Proof. split; vm_compute; reflexivity. Qed.

Example format_sample : string_of_bytes (format (1700000000 * Second + 5 * Millisecond)) = "2023-11-14T22:13:20.005Z".
Proof. vm_compute. reflexivity. Qed.

End Rfc3339.
