(* ===== verification/Json.v ===== *)
(** * encoding/json: texts and values

    The strings, numbers, arrays and objects of JSON on bytes: the scanner of Unmarshal with
    its limit on nesting, the writer of Marshal (with HTML escaping), and the conversion of
    string literals in both directions.  A literal keeps its text: what is in it is read
    when it is stored in a Go value. *)

From S2P Require Import Prelude GoLib Unicode Rfc3339.

Module Json.
Import Rfc3339.Rfc3339.

(** ** UTF-8 *)

(** A rune and the bytes it was decoded from. *)
Definition invalid (x : Z * list Z) : bool := (x.1 =? RuneError) && (length x.2 =? 1)%nat.

Definition runes_of (l : list Z) : list (Z * list Z) := runes_fuel (length l) l.

(** Every invalid byte replaced by U+FFFD, as in [strings.ToValidUTF8]. *)
Definition clean_rune (x : Z * list Z) : list Z := if invalid x then EncodeRune RuneError else x.2.
Definition clean (l : list Z) : list Z := concat (clean_rune <$> runes_of l).

(** [utf8.Valid] *)
Definition valid_utf8 (l : list Z) : bool := forallb (fun x => negb (invalid x)) (runes_of l).

(** What a rune of a byte sequence can be. *)
Inductive rune_ok : Z * list Z -> Prop :=
| RuneAscii b : 0 <= b < 128 -> rune_ok (b, [b])
| RuneInvalid b : 128 <= b < 256 -> rune_ok (RuneError, [b])
| RuneWide r b bs :
    128 <= b -> bs <> [] -> EncodeRune r = b :: bs -> Forall (fun x => 128 <= x < 256) (b :: bs) ->
    (forall rest, DecodeRune (b :: bs ++ rest) = (r, S (length bs))) -> rune_ok (r, b :: bs).

Lemma DecodeRune_ok b l : is_byte b -> Forall is_byte l -> let '(r, w) := DecodeRune (b :: l) in w <> 0%nat /\ rune_ok (r, take w (b :: l)).
Proof.
  intros Hb Hl. unfold DecodeRune, is_byte in *. destruct (b <? 128) eqn:E0; bool_to_prop.
  { split; [done|]. simpl. rewrite take_0. constructor. lia. }
  assert (1%nat <> 0%nat /\ rune_ok (RuneError, take 1 (b :: l))) as Herr by (split; [done|]; simpl; rewrite take_0; constructor; lia).
  destruct ((194 <=? b) && (b <=? 223)) eqn:E2; bool_to_prop.
  { destruct l as [|b1 l]; [exact Herr|]. destruct (cont_byte b1) eqn:E1; [|exact Herr]. unfold cont_byte in E1. bool_to_prop.
    split; [done|]. simpl. rewrite take_0. constructor; [lia|done|..|repeat constructor; lia|].
    - unfold EncodeRune. set (r := (b - 192) * 64 + (b1 - 128)). assert (128 <= r < 2048) by (unfold r; lia).
      rewrite (proj2 (Z.ltb_ge r 0)), (proj2 (Z.leb_gt 55296 r)), (proj2 (Z.ltb_ge 1114111 r)), (proj2 (Z.ltb_ge r 128)), (proj2 (Z.ltb_lt r 2048)) by lia.
      cbn [orb andb]. unfold r. f_equal; [|f_equal]; Z.to_euclidean_division_equations; lia.
    - intros rest. unfold DecodeRune. cbn [app]. rewrite (proj2 (Z.ltb_ge b 128)) by lia. rewrite (proj2 (Z.leb_le 194 b)), (proj2 (Z.leb_le b 223)) by lia. cbn [andb].
      unfold cont_byte. by rewrite (proj2 (Z.leb_le 128 b1)), (proj2 (Z.leb_le b1 191)) by lia. }
  destruct ((224 <=? b) && (b <=? 239)) eqn:E3; bool_to_prop.
  { destruct l as [|b1 [|b2 l]]; [exact Herr..|]. destruct (_ && _ && _) eqn:E1; [|exact Herr]. pose proof (or_introl E1 : _ \/ False) as Hkeep. unfold cont_byte in E1. bool_to_prop.
    assert (128 <= b1 <= 191 /\ (b = 224 -> 160 <= b1) /\ (b = 237 -> b1 <= 159)) as (Hb1 & Hlo & Hhi).
    { destruct (Z.eqb_spec b 224), (Z.eqb_spec b 237); lia. }
    split; [done|]. simpl. rewrite take_0. constructor; [lia|done|..|repeat constructor; lia|].
    - unfold EncodeRune. set (r := (b - 224) * 4096 + (b1 - 128) * 64 + (b2 - 128)).
      assert (2048 <= r < 65536) by (unfold r; lia). assert (r < 55296 \/ 57343 < r) as Hs by (unfold r; lia).
      rewrite (proj2 (Z.ltb_ge r 0)), (proj2 (Z.ltb_ge 1114111 r)), (proj2 (Z.ltb_ge r 128)), (proj2 (Z.ltb_ge r 2048)), (proj2 (Z.ltb_lt r 65536)) by lia.
      assert ((55296 <=? r) && (r <=? 57343) = false) as ->.
      { apply andb_false_iff. destruct Hs; [left; apply Z.leb_gt|right; apply Z.leb_gt]; lia. }
      cbn [orb]. unfold r. f_equal; [|f_equal; [|f_equal]]; Z.to_euclidean_division_equations; lia.
    - intros rest. unfold DecodeRune. cbn [app]. rewrite (proj2 (Z.ltb_ge b 128)) by lia. rewrite (proj2 (Z.leb_gt b 223)) by lia. rewrite andb_false_r.
      rewrite (proj2 (Z.leb_le 224 b)), (proj2 (Z.leb_le b 239)) by lia. cbn [andb]. destruct Hkeep as [Hkeep|[]]. by rewrite Hkeep. }
  destruct ((240 <=? b) && (b <=? 244)) eqn:E4; bool_to_prop; [|exact Herr].
  destruct l as [|b1 [|b2 [|b3 l]]]; [exact Herr..|]. destruct (_ && _ && _ && _) eqn:E1; [|exact Herr]. pose proof (or_introl E1 : _ \/ False) as Hkeep. unfold cont_byte in E1. bool_to_prop.
  assert (128 <= b1 <= 191 /\ (b = 240 -> 144 <= b1) /\ (b = 244 -> b1 <= 143)) as (Hb1 & Hlo & Hhi).
  { destruct (Z.eqb_spec b 240), (Z.eqb_spec b 244); lia. }
  split; [done|]. simpl. rewrite take_0. constructor; [lia|done|..|repeat constructor; lia|].
  - unfold EncodeRune. set (r := (b - 240) * 262144 + (b1 - 128) * 4096 + (b2 - 128) * 64 + (b3 - 128)).
    assert (65536 <= r <= 1114111) by (unfold r; lia).
    rewrite (proj2 (Z.ltb_ge r 0)), (proj2 (Z.leb_gt r 57343)), (proj2 (Z.ltb_ge 1114111 r)), (proj2 (Z.ltb_ge r 128)), (proj2 (Z.ltb_ge r 2048)), (proj2 (Z.ltb_ge r 65536)) by lia.
    rewrite andb_false_r. cbn [orb]. unfold r. f_equal; [|f_equal; [|f_equal; [|f_equal]]]; Z.to_euclidean_division_equations; lia.
  - intros rest. unfold DecodeRune. cbn [app]. rewrite (proj2 (Z.ltb_ge b 128)) by lia. rewrite (proj2 (Z.leb_gt b 223)), (proj2 (Z.leb_gt b 239)) by lia. rewrite !andb_false_r.
    rewrite (proj2 (Z.leb_le 240 b)), (proj2 (Z.leb_le b 244)) by lia. cbn [andb]. destruct Hkeep as [Hkeep|[]]. by rewrite Hkeep.
Qed.

Lemma runes_fuel_ok fuel l : Forall is_byte l -> Forall rune_ok (runes_fuel fuel l).
Proof.
  revert l. induction fuel as [|fuel IH]; intros [|b l] Hl; cbn [runes_fuel]; try constructor. apply Forall_cons in Hl as [Hb Hl].
  pose proof (DecodeRune_ok b l Hb Hl) as Hd. destruct (DecodeRune (b :: l)) as [r w]. destruct Hd as [_ Hd]. constructor; [done|].
  apply IH. apply Forall_drop. by constructor.
Qed.

(** The runes of a byte sequence are all of it. *)
Lemma runes_of_concat l : concat (runes_of l).*2 = l.
Proof.
  unfold runes_of. assert (length l <= length l)%nat as Hf by done. revert Hf. generalize (length l) at 2 3. intros fuel. revert l.
  induction fuel as [|fuel IH]; intros [|b l] Hf; simpl in Hf; try done; [lia|]. cbn [runes_fuel].
  assert (exists r w, DecodeRune (b :: l) = (r, S w)) as (r & w & Hd).
  { unfold DecodeRune. repeat case_match; eauto. }
  rewrite Hd, fmap_cons. cbn [snd concat]. rewrite IH by (rewrite length_drop; simpl; lia). apply take_drop.
Qed.

Lemma clean_valid l : valid_utf8 l = true -> clean l = l.
Proof.
  intros Hv. unfold clean. rewrite <- (runes_of_concat l) at 2. f_equal. unfold valid_utf8 in Hv. rewrite forallb_forall in Hv.
  apply list_fmap_ext. intros i x Hx. apply list_elem_of_lookup_2, list_elem_of_In, Hv in Hx. unfold clean_rune.
  by destruct (invalid x).
Qed.

(** ** String literals *)

Definition hex_digit (d : Z) : Z := if d <? 10 then 48 + d else 87 + d.
Definition hex4 (r : Z) : list Z := [hex_digit (r / 4096); hex_digit (r / 256 mod 16); hex_digit (r / 16 mod 16); hex_digit (r mod 16)].

Definition hex_value (b : Z) : option Z :=
  if (48 <=? b) && (b <=? 57) then Some (b - 48)
  else if (97 <=? b) && (b <=? 102) then Some (b - 87)
  else if (65 <=? b) && (b <=? 70) then Some (b - 55) else None.

(** htmlSafeSet: the ASCII bytes that stand for themselves. *)
Definition html_safe (b : Z) : bool := (32 <=? b) && negb (bool_decide (b ∈ [34; 38; 60; 62; 92])).

Definition quote_byte (b : Z) : list Z :=
  if html_safe b then [b]
  else if (b =? 34) || (b =? 92) then [92; b]
  else if b =? 8 then [92; 98] else if b =? 12 then [92; 102] else if b =? 10 then [92; 110]
  else if b =? 13 then [92; 114] else if b =? 9 then [92; 116]
  else 92 :: 117 :: hex4 b.

(** Invalid bytes are written as U+FFFD, and the line separators that JavaScript does not
    accept are escaped. *)
Definition quote_rune (x : Z * list Z) : list Z :=
  if invalid x then 92 :: 117 :: hex4 RuneError
  else if x.1 <? 128 then quote_byte x.1
  else if (x.1 =? 8232) || (x.1 =? 8233) then 92 :: 117 :: hex4 x.1
  else x.2.

(** appendString, without the quotes around it. *)
Definition quote (l : list Z) : list Z := concat (quote_rune <$> runes_of l).

(** *** Reading a literal *)

(** The four hexadecimal digits of an escape at the head of a text. *)
Definition getu4 (l : list Z) : option Z :=
  match l with
  | c1 :: c2 :: h1 :: h2 :: h3 :: h4 :: _ =>
      if (c1 =? 92) && (c2 =? 117) then
        d1 ← hex_value h1; d2 ← hex_value h2; d3 ← hex_value h3; d4 ← hex_value h4;
        Some (((d1 * 16 + d2) * 16 + d3) * 16 + d4)
      else None
  | _ => None
  end.

Definition IsSurrogate (r : Z) : bool := (55296 <=? r) && (r <=? 57343).

(** [utf16.DecodeRune] *)
Definition surrogates (r1 r2 : Z) : option Z :=
  if (55296 <=? r1) && (r1 <=? 56319) && (56320 <=? r2) && (r2 <=? 57343)
  then Some ((r1 - 55296) * 1024 + (r2 - 56320) + 65536) else None.

Definition escaped (c : Z) : option Z :=
  if bool_decide (c ∈ [34; 92; 47]) then Some c
  else if c =? 98 then Some 8 else if c =? 102 then Some 12 else if c =? 110 then Some 10
  else if c =? 114 then Some 13 else if c =? 116 then Some 9 else None.

(** unquoteBytes on a literal without its quotes; [fuel] bounds the number of characters. *)
Fixpoint unquote_fuel (fuel : nat) (l : list Z) : option (list Z) :=
  match fuel, l with
  | _, [] => Some []
  | O, _ => None
  | S f, b :: l1 =>
      if b =? 92 then
        match l1 with
        | [] => None
        | c :: l2 =>
            if c =? 117 then
              rr ← getu4 l;
              let l6 := drop 6 l in
              if IsSurrogate rr then
                match getu4 l6 ≫= surrogates rr with
                | Some r => app (EncodeRune r) <$> unquote_fuel f (drop 6 l6)
                | None => app (EncodeRune RuneError) <$> unquote_fuel f l6
                end
              else app (EncodeRune rr) <$> unquote_fuel f l6
            else x ← escaped c; cons x <$> unquote_fuel f l2
        end
      else if (b =? 34) || (b <? 32) then None
      else if b <? 128 then cons b <$> unquote_fuel f l1
      else let '(r, w) := DecodeRune l in app (EncodeRune r) <$> unquote_fuel f (drop w l)
  end.

Definition unquote (l : list Z) : option (list Z) := unquote_fuel (length l) l.

Lemma hex_value_digit d : 0 <= d < 16 -> hex_value (hex_digit d) = Some d.
Proof.
  intros Hd. assert (d ∈ seqZ 0 16) as Hin by (apply elem_of_seqZ; lia).
  repeat (apply elem_of_cons in Hin as [->|Hin]); [done..|by apply elem_of_nil in Hin].
Qed.

Lemma getu4_hex4 r rest : 0 <= r < 65536 -> getu4 (92 :: 117 :: hex4 r ++ rest) = Some r.
Proof.
  intros Hr. unfold getu4, hex4. cbn [app Z.eqb Pos.eqb andb].
  rewrite !hex_value_digit by (Z.to_euclidean_division_equations; lia). cbn [mbind option_bind]. f_equal.
  Z.to_euclidean_division_equations; lia.
Qed.

Lemma quote_byte_cases b :
  0 <= b < 128 ->
  (quote_byte b = [b] /\ 32 <= b /\ b <> 34 /\ b <> 92) \/
  (exists c, quote_byte b = [92; c] /\ escaped c = Some b /\ c <> 117 /\ c ∈ [98; 102; 110; 114; 116; 92; 47; 34]) \/
  quote_byte b = 92 :: 117 :: hex4 b.
Proof.
  intros Hb. unfold quote_byte. destruct (html_safe b) eqn:Hs.
  { left. unfold html_safe in Hs. apply andb_true_iff in Hs as [H1 H2]. bool_to_prop. split_and!; [done|lia|set_solver|set_solver]. }
  destruct ((b =? 34) || (b =? 92)) eqn:Hq.
  { right. left. exists b. apply orb_true_iff in Hq. rewrite !Z.eqb_eq in Hq. destruct Hq as [->| ->]; (split_and!; [done|done|done|set_solver]). }
  clear Hs Hq. destruct (Z.eqb_spec b 8) as [->|_]; [right; left; exists 98; split_and!; [done..|set_solver]|].
  destruct (Z.eqb_spec b 12) as [->|_]; [right; left; exists 102; split_and!; [done..|set_solver]|].
  destruct (Z.eqb_spec b 10) as [->|_]; [right; left; exists 110; split_and!; [done..|set_solver]|].
  destruct (Z.eqb_spec b 13) as [->|_]; [right; left; exists 114; split_and!; [done..|set_solver]|].
  destruct (Z.eqb_spec b 9) as [->|_]; [right; left; exists 116; split_and!; [done..|set_solver]|]. by right; right.
Qed.

Lemma unquote_hex4 f r rest :
  0 <= r < 65536 -> IsSurrogate r = false ->
  unquote_fuel (S f) (92 :: 117 :: hex4 r ++ rest) = app (EncodeRune r) <$> unquote_fuel f rest.
Proof.
  intros Hr Hs. cbn [unquote_fuel]. cbn [Z.eqb Pos.eqb]. rewrite getu4_hex4 by done. cbn [mbind option_bind]. rewrite Hs. reflexivity.
Qed.

Lemma rune_wide_ge r b bs :
  128 <= b -> bs <> [] -> EncodeRune r = b :: bs -> (forall rest, DecodeRune (b :: bs ++ rest) = (r, S (length bs))) -> 128 <= r.
Proof.
  intros Hb Hbs Henc Hdec. destruct (Z.lt_ge_cases r 128) as [Hlt|]; [|done]. unfold EncodeRune in Henc. destruct (Z.lt_ge_cases r 0) as [Hn|Hn].
  - specialize (Hdec []). rewrite (proj2 (Z.ltb_lt r 0)) in Henc by done. cbn in Henc. simplify_eq/=.
  - rewrite (proj2 (Z.ltb_ge r 0)), (proj2 (Z.leb_gt 55296 r)), (proj2 (Z.ltb_ge 1114111 r)), (proj2 (Z.ltb_lt r 128)) in Henc by lia. cbn in Henc. by simplify_eq.
Qed.

(** Reading what was written for one rune gives the rune, or U+FFFD for an invalid byte. *)
Lemma unquote_quote_rune f x rest :
  rune_ok x -> unquote_fuel (S f) (quote_rune x ++ rest) = app (clean_rune x) <$> unquote_fuel f rest.
Proof.
  intros Hx. destruct Hx as [b Hb|b Hb|r b bs Hb Hbs Henc Hrange Hdec].
  - assert (invalid (b, [b]) = false) as Hi by (unfold invalid; simpl; apply andb_false_iff; left; apply Z.eqb_neq; unfold RuneError; lia).
    unfold quote_rune, clean_rune. rewrite Hi. cbn [fst snd]. rewrite (proj2 (Z.ltb_lt b 128)) by lia.
    destruct (quote_byte_cases b Hb) as [(-> & H32 & H34 & H92)|[(c & -> & Hc & H117 & _)| ->]].
    + cbn [app unquote_fuel]. rewrite (proj2 (Z.eqb_neq b 92)), (proj2 (Z.eqb_neq b 34)), (proj2 (Z.ltb_ge b 32)), (proj2 (Z.ltb_lt b 128)) by lia. done.
    + cbn [app unquote_fuel]. cbn [Z.eqb Pos.eqb]. rewrite (proj2 (Z.eqb_neq c 117)), Hc by done. done.
    + cbn [app]. rewrite unquote_hex4; [|lia|].
      * unfold EncodeRune. by rewrite (proj2 (Z.ltb_ge b 0)), (proj2 (Z.leb_gt 55296 b)), (proj2 (Z.ltb_ge 1114111 b)), (proj2 (Z.ltb_lt b 128)) by lia.
      * unfold IsSurrogate. apply andb_false_iff. left. apply Z.leb_gt. lia.
  - unfold quote_rune, clean_rune, invalid. cbn [fst snd length Nat.eqb]. rewrite Z.eqb_refl. cbn [andb app]. by rewrite unquote_hex4.
  - assert (invalid (r, b :: bs) = false) as Hi.
    { unfold invalid. simpl. apply andb_false_iff. right. destruct bs; [done|reflexivity]. }
    unfold quote_rune, clean_rune. rewrite Hi. cbn [fst snd].
    pose proof (rune_wide_ge r b bs Hb Hbs Henc Hdec) as Hr.
    rewrite (proj2 (Z.ltb_ge r 128)) by lia. destruct ((r =? 8232) || (r =? 8233)) eqn:Hsep.
    + apply orb_true_iff in Hsep. rewrite !Z.eqb_eq in Hsep. cbn [app]. rewrite unquote_hex4; [by rewrite Henc|lia|].
      unfold IsSurrogate. apply andb_false_iff. left. apply Z.leb_gt. lia.
    + cbn [app unquote_fuel]. apply Forall_cons in Hrange as Hb2. destruct Hb2 as [Hb2 _].
      rewrite (proj2 (Z.eqb_neq b 92)), (proj2 (Z.eqb_neq b 34)), (proj2 (Z.ltb_ge b 32)), (proj2 (Z.ltb_ge b 128)) by lia. cbn [orb].
      rewrite Hdec, Henc. cbn [drop]. by rewrite drop_app_length.
Qed.

Lemma quote_rune_nonempty x : rune_ok x -> quote_rune x <> [].
Proof.
  unfold quote_rune. intros [b Hb|b Hb|r b bs Hb Hbs Henc Hrange Hdec]; destruct (invalid _); try done; cbn [fst snd].
  - rewrite (proj2 (Z.ltb_lt b 128)) by lia. by destruct (quote_byte_cases b Hb) as [(-> & _)|[(c & -> & _)| ->]].
  - pose proof (rune_wide_ge r b bs Hb Hbs Henc Hdec) as Hr. rewrite (proj2 (Z.ltb_ge r 128)) by lia. by destruct (_ || _).
Qed.

(** A written string is read back with its invalid bytes replaced. *)
Lemma unquote_quote l : Forall is_byte l -> unquote (quote l) = Some (clean l).
Proof.
  intros Hl. unfold unquote, quote, clean. pose proof (runes_fuel_ok (length l) l Hl) as Hok. fold (runes_of l) in Hok.
  assert (length (concat (quote_rune <$> runes_of l)) <= length (concat (quote_rune <$> runes_of l)))%nat as Hf by done. revert Hf.
  generalize (length (concat (quote_rune <$> runes_of l))) at 2 3. intros fuel. revert fuel.
  induction Hok as [|x rs Hx _ IH]; intros fuel Hf; [by destruct fuel|]. rewrite !fmap_cons in *. cbn [concat] in *.
  pose proof (quote_rune_nonempty x Hx) as Hne. rewrite length_app in Hf. destruct (quote_rune x) as [|c q] eqn:Hq; [done|].
  simpl in Hf. destruct fuel as [|fuel]; [lia|]. rewrite <- Hq, unquote_quote_rune by done. by rewrite IH by lia.
Qed.

(** ** Values *)

(** Strings, keys and numbers are kept as they are written, strings without the quotes. *)
Inductive json :=
| JNull
| JBool (b : bool)
| JNumber (lit : list Z)
| JString (lit : list Z)
| JArray (l : list json)
| JObject (members : list (list Z * json)).

(** Induction through the lists of arrays and objects. *)
Lemma json_nested_ind (P : json -> Prop) :
  P JNull -> (forall b, P (JBool b)) -> (forall l, P (JNumber l)) -> (forall l, P (JString l)) ->
  (forall l, Forall P l -> P (JArray l)) -> (forall ms, Forall (fun m => P m.2) ms -> P (JObject ms)) -> forall v, P v.
Proof.
  intros H1 H2 H3 H4 H5 H6. fix IH 1. intros [|b|l|l|l|ms]; [auto..| |].
  - apply H5. induction l; constructor; [apply IH|assumption].
  - apply H6. induction ms as [|[k v] ms]; constructor; [apply IH|assumption].
Defined.

(** *** Writing *)

Definition comma_sep (l : list (list Z)) : list Z :=
  match l with [] => [] | x :: l' => x ++ concat ((fun y => 44 :: y) <$> l') end.

Fixpoint write (v : json) : list Z :=
  match v with
  | JNull => [110; 117; 108; 108]
  | JBool true => [116; 114; 117; 101]
  | JBool false => [102; 97; 108; 115; 101]
  | JNumber lit => lit
  | JString lit => 34 :: lit ++ [34]
  | JArray l => 91 :: comma_sep (write <$> l) ++ [93]
  | JObject ms => 123 :: comma_sep ((fun m => 34 :: m.1 ++ 34 :: 58 :: write m.2) <$> ms) ++ [125]
  end.

(** *** Scanning *)

Definition is_space (b : Z) : bool := bool_decide (b ∈ [32; 9; 13; 10]).

Fixpoint skip_space (l : list Z) : list Z :=
  match l with b :: l' => if is_space b then skip_space l' else l | [] => [] end.

Definition is_hex (b : Z) : bool := match hex_value b with Some _ => true | None => false end.

(** A string literal after its opening quote: the text up to the closing one, and the rest. *)
Fixpoint scan_string (l : list Z) : option (list Z * list Z) :=
  match l with
  | [] => None
  | b :: l1 =>
      if b =? 34 then Some ([], l1)
      else if b =? 92 then
        match l1 with
        | c :: l2 =>
            if bool_decide (c ∈ [98; 102; 110; 114; 116; 92; 47; 34]) then
              '(lit, rest) ← scan_string l2; Some (92 :: c :: lit, rest)
            else if c =? 117 then
              match l2 with
              | h1 :: h2 :: h3 :: h4 :: l6 =>
                  if is_hex h1 && is_hex h2 && is_hex h3 && is_hex h4
                  then '(lit, rest) ← scan_string l6; Some (92 :: 117 :: h1 :: h2 :: h3 :: h4 :: lit, rest)
                  else None
              | _ => None
              end
            else None
        | [] => None
        end
      else if b <? 32 then None
      else '(lit, rest) ← scan_string l1; Some (b :: lit, rest)
  end.

(** The parts of a number: its fraction and its exponent, when they are there. *)
Definition scan_fraction (l : list Z) : option (list Z * list Z) :=
  match l with
  | c :: l1 =>
      if c =? 46 then match span_digits l1 with ([], _) => None | (ds, rest) => Some (46 :: ds, rest) end
      else Some ([], l)
  | [] => Some ([], [])
  end.

Definition scan_exponent (l : list Z) : option (list Z * list Z) :=
  match l with
  | c :: l1 =>
      if (c =? 101) || (c =? 69) then
        let '(sign, l2) := match l1 with
                           | d :: l2 => if (d =? 43) || (d =? 45) then ([d], l2) else ([], l1)
                           | [] => ([], [])
                           end in
        match span_digits l2 with ([], _) => None | (ds, rest) => Some (c :: sign ++ ds, rest) end
      else Some ([], l)
  | [] => Some ([], [])
  end.

Definition scan_number (l : list Z) : option (list Z * list Z) :=
  let '(sign, l1) := match l with d :: l1 => if d =? 45 then ([45], l1) else ([], l) | [] => ([], []) end in
  '(int, l2) ← match l1 with
               | d :: l2 => if d =? 48 then Some ([48], l2) else if is_digit d then Some (span_digits l1) else None
               | [] => None
               end;
  '(frac, l3) ← scan_fraction l2;
  '(exp, rest) ← scan_exponent l3;
  Some (sign ++ int ++ frac ++ exp, rest).

Fixpoint scan_word (word l : list Z) : option (list Z) :=
  match word, l with
  | [], _ => Some l
  | a :: word', b :: l' => if a =? b then scan_word word' l' else None
  | _, [] => None
  end.

Definition maxNestingDepth : Z := 10000.

(** A value, the elements of an array or the members of an object up to the bracket that
    ends them; [depth] counts the arrays and objects around.  Each call takes at least one
    byte or makes [fuel] smaller with it: twice the number of bytes is enough. *)
Fixpoint scan_value (fuel : nat) (depth : Z) (l : list Z) : option (json * list Z) :=
  match fuel with
  | O => None
  | S f =>
      match skip_space l with
      | [] => None
      | b :: l1 =>
          if b =? 34 then '(lit, rest) ← scan_string l1; Some (JString lit, rest)
          else if b =? 91 then
            if maxNestingDepth <? depth + 1 then None
            else match skip_space l1 with
                 | c :: l2 => if c =? 93 then Some (JArray [], l2) else '(vs, rest) ← scan_elements f (depth + 1) l1; Some (JArray vs, rest)
                 | [] => None
                 end
          else if b =? 123 then
            if maxNestingDepth <? depth + 1 then None
            else match skip_space l1 with
                 | c :: l2 => if c =? 125 then Some (JObject [], l2) else '(ms, rest) ← scan_members f (depth + 1) l1; Some (JObject ms, rest)
                 | [] => None
                 end
          else if b =? 110 then rest ← scan_word [117; 108; 108] l1; Some (JNull, rest)
          else if b =? 116 then rest ← scan_word [114; 117; 101] l1; Some (JBool true, rest)
          else if b =? 102 then rest ← scan_word [97; 108; 115; 101] l1; Some (JBool false, rest)
          else '(lit, rest) ← scan_number (b :: l1); Some (JNumber lit, rest)
      end
  end
with scan_elements (fuel : nat) (depth : Z) (l : list Z) : option (list json * list Z) :=
  match fuel with
  | O => None
  | S f =>
      '(v, rest) ← scan_value f depth l;
      match skip_space rest with
      | c :: rest' =>
          if c =? 44 then '(vs, rest'') ← scan_elements f depth rest'; Some (v :: vs, rest'')
          else if c =? 93 then Some ([v], rest') else None
      | [] => None
      end
  end
with scan_members (fuel : nat) (depth : Z) (l : list Z) : option (list (list Z * json) * list Z) :=
  match fuel with
  | O => None
  | S f =>
      match skip_space l with
      | q :: l1 =>
          if q =? 34 then
            '(key, l2) ← scan_string l1;
            match skip_space l2 with
            | c :: l3 =>
                if c =? 58 then
                  '(v, rest) ← scan_value f depth l3;
                  match skip_space rest with
                  | d :: rest' =>
                      if d =? 44 then '(ms, rest'') ← scan_members f depth rest'; Some ((key, v) :: ms, rest'')
                      else if d =? 125 then Some ([(key, v)], rest') else None
                  | [] => None
                  end
                else None
            | [] => None
            end
          else None
      | [] => None
      end
  end.

(** A whole text: one value and nothing after it but space. *)
Definition read (l : list Z) : option json :=
  match scan_value (S (2 * length l)) 0 l with
  | Some (v, rest) => match skip_space rest with [] => Some v | _ => None end
  | None => None
  end.

Definition braces : list Z := bytes_of_string " { } ".

Example read_sample :
  read (bytes_of_string "[ 1, -0.5e+3 ,true,null, {} ]") =
  Some (JArray [JNumber [49]; JNumber (bytes_of_string "-0.5e+3"); JBool true; JNull; JObject []]) /\
  read (bytes_of_string "[1,]") = None /\ read (bytes_of_string "01") = None /\ read braces = Some (JObject []).
Proof. split_and!; vm_compute; reflexivity. Qed.

(** ** What is written is read back *)

(** *** Strings *)

Inductive literal : list Z -> Prop :=
| LitNil : literal []
| LitChar b l : 32 <= b < 256 -> b <> 34 -> b <> 92 -> literal l -> literal (b :: l)
| LitEscape c l : c ∈ [98; 102; 110; 114; 116; 92; 47; 34] -> literal l -> literal (92 :: c :: l)
| LitUnicode h1 h2 h3 h4 l :
    is_hex h1 = true -> is_hex h2 = true -> is_hex h3 = true -> is_hex h4 = true -> literal l ->
    literal (92 :: 117 :: h1 :: h2 :: h3 :: h4 :: l).

Lemma scan_string_literal l rest : literal l -> scan_string (l ++ 34 :: rest) = Some (l, rest).
Proof.
  induction 1 as [|b l H1 H2 H3 _ IH|c l Hc _ IH|h1 h2 h3 h4 l H1 H2 H3 H4 _ IH]; cbn [app scan_string]; [done|..].
  - rewrite (proj2 (Z.eqb_neq b 34)), (proj2 (Z.eqb_neq b 92)), (proj2 (Z.ltb_ge b 32)) by (done || lia). by rewrite IH.
  - cbn [Z.eqb Pos.eqb]. rewrite bool_decide_true by done. by rewrite IH.
  - cbn [Z.eqb Pos.eqb]. change (bool_decide (117 ∈ _)) with false. cbv iota. rewrite H1, H2, H3, H4. cbn [andb]. by rewrite IH.
Qed.

Lemma literal_app l1 l2 : literal l1 -> literal l2 -> literal (l1 ++ l2).
Proof. intros H1 H2. induction H1; cbn [app]; [done|..]; by constructor. Qed.

Lemma is_hex_digit d : 0 <= d < 16 -> is_hex (hex_digit d) = true.
Proof. intros Hd. unfold is_hex. by rewrite hex_value_digit. Qed.

Lemma literal_hex4 r : 0 <= r < 65536 -> literal (92 :: 117 :: hex4 r).
Proof.
  intros Hr. unfold hex4. apply LitUnicode; [apply is_hex_digit; Z.to_euclidean_division_equations; lia..|constructor].
Qed.

Lemma literal_quote l : Forall is_byte l -> literal (quote l).
Proof.
  intros Hl. unfold quote. pose proof (runes_fuel_ok (length l) l Hl) as Hok. fold (runes_of l) in Hok.
  induction Hok as [|x rs Hx _ IH]; [constructor|]. rewrite fmap_cons. cbn [concat]. apply literal_app; [|done]. clear IH. unfold quote_rune.
  destruct Hx as [b Hb|b Hb|r b bs Hb Hbs Henc Hrange Hdec]; destruct (invalid _); try (by apply literal_hex4); cbn [fst snd].
  - rewrite (proj2 (Z.ltb_lt b 128)) by lia. destruct (quote_byte_cases b Hb) as [(-> & ? & ? & ?)|[(c & -> & _ & _ & Hc)| ->]].
    + apply LitChar; [lia|done..|constructor].
    + apply LitEscape; [done|constructor].
    + apply literal_hex4. lia.
  - cbn. apply LitChar; [lia..|constructor].
  - pose proof (rune_wide_ge r b bs Hb Hbs Henc Hdec) as Hr. rewrite (proj2 (Z.ltb_ge r 128)) by lia.
    destruct ((r =? 8232) || (r =? 8233)) eqn:Hsep; [apply literal_hex4; apply orb_true_iff in Hsep; rewrite !Z.eqb_eq in Hsep; lia|].
    clear -Hrange. induction Hrange as [|x l Hx _ IH]; [constructor|]. apply LitChar; [lia..|done].
Qed.

(** Bytes that need no escape. *)
Lemma literal_plain l : Forall (fun b => 32 <= b < 256 /\ b <> 34 /\ b <> 92) l -> literal l.
Proof. induction 1 as [|b l (? & ? & ?) _ IH]; [constructor|]. by apply LitChar. Qed.

(** *** Numbers *)

(** Nothing of a number follows. *)
Definition number_end (rest : list Z) : Prop :=
  match rest with b :: _ => is_digit b = false /\ b <> 46 /\ b <> 101 /\ b <> 69 | [] => True end.

Record number (lit : list Z) : Prop := {
  number_scan : forall rest, number_end rest -> scan_number (lit ++ rest) = Some (lit, rest);
  number_head : exists b l, lit = b :: l /\ (b = 45 \/ is_digit b = true);
  number_bytes : Forall is_byte lit;
}.

Lemma scan_number_end rest : number_end rest -> scan_fraction rest = Some ([], rest) /\ scan_exponent rest = Some ([], rest).
Proof.
  destruct rest as [|b rest]; [done|]. intros (_ & H1 & H2 & H3). unfold scan_fraction, scan_exponent.
  by rewrite (proj2 (Z.eqb_neq b 46)), (proj2 (Z.eqb_neq b 101)), (proj2 (Z.eqb_neq b 69)).
Qed.

(** The digits of a positive number do not start with zero. *)
Lemma format_digits_shape fuel n acc :
  0 < n -> (Z.to_nat (Z.log2 n) < fuel)%nat ->
  exists d ds, bytes_of_string (format_digits fuel n acc) = (d :: ds) ++ bytes_of_string acc /\ d <> 48 /\ Forall (fun b => is_digit b = true) (d :: ds).
Proof.
  assert (forall d, 0 <= d < 10 -> byte_of (digit_char d) = 48 + d) as Hbyte.
  { intros d Hd. apply byte_of_ascii_of. unfold is_byte. lia. }
  revert n acc. induction fuel as [|fuel IH]; intros n acc Hn Hf; [lia|]. cbn [format_digits]. pose proof (Z.mod_pos_bound n 10 ltac:(lia)) as Hm.
  pose proof (is_digit_of (n mod 10) Hm) as Hdig. destruct (Z.ltb_spec n 10) as [Hlt|Hge].
  - exists (48 + n mod 10), []. split_and!; [|rewrite Z.mod_small by lia; lia|by repeat constructor].
    change (bytes_of_string (String ?c ?s)) with (byte_of c :: bytes_of_string s). by rewrite Hbyte.
  - assert (Z.log2 (n / 10) < Z.log2 n) as Hlog.
    { apply Z.log2_lt_pow2; [apply Z.div_str_pos; lia|]. apply Z.div_lt_upper_bound; [lia|]. pose proof (Z.log2_spec n ltac:(lia)) as [_ H].
      rewrite Z.pow_succ_r in H by apply Z.log2_nonneg. lia. }
    destruct (IH (n / 10) (String (digit_char (n mod 10)) acc)) as (d & ds & Heq & Hd & Hall).
    { apply Z.div_str_pos. lia. }
    { pose proof (Z.log2_nonneg (n / 10)). lia. }
    exists d, (ds ++ [48 + n mod 10]). split_and!; [|done|].
    + rewrite Heq. change (bytes_of_string (String ?c ?s)) with (byte_of c :: bytes_of_string s). rewrite Hbyte by done. cbn [app]. by rewrite <- app_assoc.
    + apply Forall_cons in Hall as [? ?]. constructor; [done|]. apply Forall_app. split; [done|]. by repeat constructor.
Qed.

Lemma format_nat_shape n :
  0 <= n -> bytes_of_string (format_nat n) = [48] \/
  exists d ds, bytes_of_string (format_nat n) = d :: ds /\ d <> 48 /\ Forall (fun b => is_digit b = true) (d :: ds).
Proof.
  intros Hn. unfold format_nat. destruct (Z.eq_dec n 0) as [->|Hne]; [by left|]. right.
  destruct (format_digits_shape (S (Z.to_nat (Z.log2 n))) n "" ltac:(lia) ltac:(lia)) as (d & ds & Heq & Hd & Hall).
  exists d, ds. by rewrite Heq, app_nil_r.
Qed.

Lemma number_Itoa n : number (bytes_of_string (Itoa n)).
Proof.
  assert (forall sign l rest, (sign = [] \/ sign = [45]) -> number_end rest ->
    (l = [48] \/ exists d ds, l = d :: ds /\ d <> 48 /\ Forall (fun b => is_digit b = true) (d :: ds)) ->
    scan_number (sign ++ l ++ rest) = Some (sign ++ l, rest)) as Hscan.
  { intros sign l rest Hsign Hend Hl. destruct (scan_number_end rest Hend) as [Hfrac Hexp]. unfold scan_number.
    assert (match sign ++ l ++ rest with d :: l1 => if d =? 45 then ([45], l1) else ([], sign ++ l ++ rest) | [] => ([], []) end = (sign, l ++ rest)) as ->.
    { destruct Hsign as [->| ->]; [|done]. cbn [app]. destruct Hl as [->|(d & ds & -> & _ & Hd)]; [done|]. cbn [app]. apply Forall_cons in Hd as [Hd _].
      destruct (Z.eqb_spec d 45) as [->|]; done. }
    destruct Hl as [->|(d & ds & -> & H48 & Hd)].
    - cbn [app Z.eqb Pos.eqb mbind option_bind]. rewrite Hfrac. cbn [mbind option_bind]. rewrite Hexp. done.
    - cbn [app]. rewrite (proj2 (Z.eqb_neq d 48)) by done. apply Forall_cons in Hd as Hd1. destruct Hd1 as [Hd1 _]. rewrite Hd1.
      change (d :: ds ++ rest) with ((d :: ds) ++ rest). rewrite span_digits_app; [|done|destruct rest; [done|by destruct Hend]].
      cbn [mbind option_bind]. rewrite Hfrac. cbn [mbind option_bind]. rewrite Hexp. cbn [mbind option_bind]. by rewrite !app_nil_r. }
  unfold Itoa. destruct (Z.ltb_spec n 0) as [Hn|Hn].
  - change (bytes_of_string (String ?c ?s)) with (byte_of c :: bytes_of_string s). change (byte_of "-") with 45. split; [|eauto|constructor; [done|apply bytes_range]].
    intros rest Hend. apply (Hscan [45]); [auto|done|]. apply format_nat_shape. lia.
  - pose proof (format_nat_shape n Hn) as Hshape. split; [intros rest Hend; apply (Hscan []); [by left|done..]| |apply bytes_range].
    destruct Hshape as [->|(d & ds & -> & _ & Hd)]; [by eauto|]. apply Forall_cons in Hd as [Hd _]. eauto.
Qed.

(** *** Values *)

Fixpoint wf (v : json) : Prop :=
  match v with
  | JNull | JBool _ => True
  | JNumber lit => number lit
  | JString lit => literal lit
  | JArray l => foldr (fun x P => wf x /\ P) True l
  | JObject ms => foldr (fun m P => (literal m.1 /\ wf m.2) /\ P) True ms
  end.

Fixpoint height (v : json) : Z :=
  match v with
  | JArray l => 1 + foldr (fun x h => Z.max (height x) h) 0 l
  | JObject ms => 1 + foldr (fun m h => Z.max (height m.2) h) 0 ms
  | _ => 0
  end.

(** No value starts with space or a closing bracket. *)
Lemma write_head v : wf v -> exists b l, write v = b :: l /\ is_space b = false /\ b <> 93 /\ b <> 125.
Proof.
  destruct v as [|[]|lit|lit|l|ms]; cbn [write wf]; try (intros _; by do 2 eexists). intros [_ (b & l & -> & Hb) _].
  exists b, l. split; [done|]. unfold is_space, is_digit in *. destruct Hb as [->|Hb]; [done|]. bool_to_prop.
  split_and!; [|lia..]. apply bool_decide_false. set_unfold. lia.
Qed.

Lemma skip_space_write v rest : wf v -> skip_space (write v ++ rest) = write v ++ rest.
Proof. intros Hv. destruct (write_head v Hv) as (b & l & -> & Hb & _). cbn [app skip_space]. by rewrite Hb. Qed.

Definition reads_back (v : json) : Prop :=
  forall fuel depth rest, (2 * length (write v) <= fuel)%nat -> depth + height v <= maxNestingDepth -> number_end rest ->
    scan_value fuel depth (write v ++ rest) = Some (v, rest).

Lemma number_end_after c rest : c ∈ [44; 93; 125] -> number_end (c :: rest).
Proof. intros Hc. set_unfold in Hc. destruct Hc as [->|[->|[->|[]]]]; done. Qed.

Lemma comma_sep_cons x y l : comma_sep (x :: y :: l) = x ++ 44 :: comma_sep (y :: l).
Proof. cbn [comma_sep fmap list_fmap concat]. reflexivity. Qed.

Lemma scan_elements_write v vs fuel depth rest :
  Forall (fun x => wf x /\ reads_back x) (v :: vs) ->
  (S (2 * length (comma_sep (write <$> v :: vs))) <= fuel)%nat -> Forall (fun x => depth + height x <= maxNestingDepth) (v :: vs) ->
  scan_elements fuel depth (comma_sep (write <$> v :: vs) ++ 93 :: rest) = Some (v :: vs, rest).
Proof.
  revert v fuel. induction vs as [|v' vs IH]; intros v fuel Hall Hf Hd; apply Forall_cons in Hall as [[Hw Hv] Hall]; apply Forall_cons in Hd as [Hdv Hd];
    (destruct fuel as [|fuel]; [lia|]); cbn [scan_elements].
  - cbn [fmap list_fmap comma_sep concat] in *. rewrite app_nil_r in *. rewrite Hv; [done|lia|done|by apply number_end_after; set_solver].
  - rewrite !fmap_cons in *. rewrite comma_sep_cons in *. rewrite <- app_assoc. rewrite length_app in Hf. cbn [length] in Hf.
    rewrite Hv; [|lia|done|cbn [app]; by apply number_end_after; set_solver]. cbn [mbind option_bind app skip_space]. change (is_space 44) with false. cbv iota.
    cbn [Z.eqb Pos.eqb]. change (write v' :: (write <$> vs)) with (write <$> v' :: vs). rewrite IH; [done|done|rewrite fmap_cons; lia|done].
Qed.

Definition write_member (m : list Z * json) : list Z := 34 :: m.1 ++ 34 :: 58 :: write m.2.

Lemma scan_members_write m ms fuel depth rest :
  Forall (fun m => literal m.1 /\ wf m.2 /\ reads_back m.2) (m :: ms) ->
  (S (2 * length (comma_sep (write_member <$> m :: ms))) <= fuel)%nat -> Forall (fun m => depth + height m.2 <= maxNestingDepth) (m :: ms) ->
  scan_members fuel depth (comma_sep (write_member <$> m :: ms) ++ 125 :: rest) = Some (m :: ms, rest).
Proof.
  assert (forall k v rest' fuel, literal k -> wf v -> reads_back v -> depth + height v <= maxNestingDepth ->
    (2 * length (write v) <= fuel)%nat -> number_end rest' ->
    scan_members (S fuel) depth (write_member (k, v) ++ rest') =
    match skip_space rest' with
    | d :: rest'' => if d =? 44 then '(ms, r) ← scan_members fuel depth rest''; Some ((k, v) :: ms, r) else if d =? 125 then Some ([(k, v)], rest'') else None
    | [] => None
    end) as Hone.
  { intros k v rest' fuel0 Hk Hw Hv Hh Hf Hend. unfold write_member. cbn [fst snd scan_members app]. change (skip_space (34 :: ?x)) with (34 :: x). cbn [Z.eqb Pos.eqb].
    rewrite <- app_assoc. cbn [app]. rewrite scan_string_literal by done. cbn [mbind option_bind]. change (skip_space (58 :: ?x)) with (58 :: x). cbn [Z.eqb Pos.eqb].
    rewrite Hv by done. cbn [mbind option_bind]. reflexivity. }
  revert m fuel. induction ms as [|m' ms IH]; intros [k v] fuel Hall Hf Hd; apply Forall_cons in Hall as [(Hk & Hw & Hv) Hall]; apply Forall_cons in Hd as [Hdv Hd];
    cbn [fst snd] in *; (destruct fuel as [|fuel]; [lia|]).
  - cbn [fmap list_fmap comma_sep concat] in *. rewrite app_nil_r in *. unfold write_member in Hf. cbn [fst snd] in Hf. rewrite length_cons, length_app in Hf. cbn [length] in Hf.
    rewrite Hone; [done..|lia|by apply number_end_after; set_solver].
  - rewrite !fmap_cons in *. rewrite comma_sep_cons in *. rewrite <- app_assoc. cbn [app]. rewrite length_app in Hf. unfold write_member at 1 in Hf. cbn [fst snd] in Hf.
    rewrite length_cons, length_app in Hf. cbn [length] in Hf.
    rewrite Hone; [|done..|lia|by apply number_end_after; set_solver]. change (skip_space (44 :: ?x)) with (44 :: x). cbn [Z.eqb Pos.eqb].
    change (write_member m' :: (write_member <$> ms)) with (write_member <$> m' :: ms). rewrite IH; [done|done|rewrite fmap_cons; lia|done].
Qed.

Lemma reads_back_array l : Forall (fun x => wf x -> reads_back x) l -> wf (JArray l) -> reads_back (JArray l).
Proof.
  intros IH Hw fuel depth rest Hf Hh Hend. cbn [wf write height] in *. destruct fuel as [|fuel]; [simpl in Hf; lia|]. cbn [scan_value app].
  change (skip_space (91 :: ?x)) with (91 :: x). cbn [Z.eqb Pos.eqb].
  assert (maxNestingDepth <? depth + 1 = false) as ->.
  { apply Z.ltb_ge. enough (0 <= foldr (fun x h => Z.max (height x) h) 0 l) by lia. clear. induction l; simpl; lia. }
  rewrite <- app_assoc. cbn [app]. destruct l as [|x l]; [done|].
  assert (Forall (fun x => wf x /\ reads_back x) (x :: l)) as Hall.
  { clear -IH Hw. revert Hw. induction IH as [|y l1 Hy _ IHl]; intros Hw; constructor; destruct Hw as [Hwy Hw]; auto. }
  assert (Forall (fun y => depth + 1 + height y <= maxNestingDepth) (x :: l)) as Hheights.
  { clear -Hh. revert Hh. generalize (x :: l). intros l1. clear x l. induction l1 as [|y l1 IHl]; intros Hh; constructor; cbn [foldr] in Hh; [lia|apply IHl; lia]. }
  pose proof Hall as Hfirst. apply Forall_cons in Hfirst as [[Hwx _] _]. rewrite length_cons, length_app in Hf. cbn [length] in Hf.
  assert (skip_space (comma_sep (write <$> x :: l) ++ 93 :: rest) = comma_sep (write <$> x :: l) ++ 93 :: rest /\
    exists b r, comma_sep (write <$> x :: l) ++ 93 :: rest = b :: r /\ b <> 93) as [Hskip (b & r & Hbr & Hb)].
  { destruct (write_head x Hwx) as (b & r & Hx & Hsp & Hb & _). cbn [fmap list_fmap comma_sep]. rewrite Hx. cbn [app skip_space]. rewrite Hsp. eauto. }
  rewrite Hskip, Hbr. rewrite (proj2 (Z.eqb_neq b 93)) by done. rewrite <- Hbr. by rewrite scan_elements_write by (done || lia).
Qed.

Lemma reads_back_object ms : Forall (fun m => wf m.2 -> reads_back m.2) ms -> wf (JObject ms) -> reads_back (JObject ms).
Proof.
  intros IH Hw fuel depth rest Hf Hh Hend. cbn [wf write height] in *.
  change (fun m : list Z * json => 34 :: m.1 ++ 34 :: 58 :: write m.2) with write_member in *.
  destruct fuel as [|fuel]; [simpl in Hf; lia|]. cbn [scan_value app]. change (skip_space (123 :: ?x)) with (123 :: x). cbn [Z.eqb Pos.eqb].
  assert (maxNestingDepth <? depth + 1 = false) as ->.
  { apply Z.ltb_ge. enough (0 <= foldr (fun (m : list Z * json) h => Z.max (height m.2) h) 0 ms) by lia. clear. induction ms; simpl; lia. }
  rewrite <- app_assoc. cbn [app]. destruct ms as [|m ms]; [done|].
  assert (Forall (fun m => literal m.1 /\ wf m.2 /\ reads_back m.2) (m :: ms)) as Hall.
  { clear -IH Hw. revert Hw. induction IH as [|y l1 Hy _ IHl]; intros Hw; constructor; destruct Hw as [[Hky Hwy] Hw]; auto. }
  assert (Forall (fun m => depth + 1 + height m.2 <= maxNestingDepth) (m :: ms)) as Hheights.
  { clear -Hh. revert Hh. generalize (m :: ms). intros l1. clear m ms. induction l1 as [|y l1 IHl]; intros Hh; constructor; cbn [foldr] in Hh; [lia|apply IHl; lia]. }
  rewrite length_cons, length_app in Hf. cbn [length] in Hf.
  assert (exists r, comma_sep (write_member <$> m :: ms) ++ 125 :: rest = 34 :: r) as (r & Hr).
  { cbn [fmap list_fmap comma_sep]. unfold write_member at 1. cbn [app]. eauto. }
  rewrite Hr. change (skip_space (34 :: ?x)) with (34 :: x). cbn [Z.eqb Pos.eqb]. rewrite <- Hr. by rewrite scan_members_write by (done || lia).
Qed.

Lemma reads_back_all v : wf v -> reads_back v.
Proof.
  induction v as [|b|lit|lit|l IH|ms IH] using json_nested_ind; [| | | |by apply reads_back_array|by apply reads_back_object];
    intros Hw fuel depth rest Hf Hh Hend.
  - destruct fuel as [|fuel]; [simpl in Hf; lia|]. done.
  - destruct fuel as [|fuel]; [destruct b; simpl in Hf; lia|]. by destruct b.
  - cbn [wf write] in *. destruct Hw as [Hs (b & l & -> & Hb) _]. destruct fuel as [|fuel]; [simpl in Hf; lia|]. specialize (Hs rest Hend). cbn [app] in *. cbn [scan_value].
    assert (skip_space (b :: l ++ rest) = b :: l ++ rest) as ->.
    { cbn [skip_space]. replace (is_space b) with false; [done|]. symmetry. unfold is_space, is_digit in *. destruct Hb as [->|Hb]; [done|]. bool_to_prop.
      apply bool_decide_false. set_unfold. lia. }
    assert (b <> 34 /\ b <> 91 /\ b <> 123 /\ b <> 110 /\ b <> 116 /\ b <> 102) as (? & ? & ? & ? & ? & ?).
    { unfold is_digit in Hb. destruct Hb as [->|Hb]; [done|]. bool_to_prop. lia. }
    rewrite !(proj2 (Z.eqb_neq b _)) by done. by rewrite Hs.
  - cbn [wf write] in *. destruct fuel as [|fuel]; [simpl in Hf; lia|]. cbn [scan_value app]. change (skip_space (34 :: ?x)) with (34 :: x). cbn [Z.eqb Pos.eqb].
    rewrite <- app_assoc. cbn [app]. by rewrite scan_string_literal.
Qed.

(** A value that is written is read back. *)
Theorem read_write v : wf v -> height v <= maxNestingDepth -> read (write v) = Some v.
Proof.
  intros Hw Hh. unfold read. pose proof (reads_back_all v Hw (S (2 * length (write v))) 0 [] ltac:(lia) Hh I) as H. rewrite app_nil_r in H. by rewrite H.
Qed.

(** *** Bytes *)

Lemma literal_bytes l : literal l -> Forall is_byte l.
Proof.
  assert (forall h, is_hex h = true -> is_byte h) as Hhex.
  { intros h. unfold is_hex, hex_value, is_byte. repeat case_match; bool_to_prop; lia || done. }
  induction 1 as [|b l Hb _ _ _ IH|c l Hc _ IH|h1 h2 h3 h4 l H1 H2 H3 H4 _ IH].
  - constructor.
  - constructor; [unfold is_byte; lia|done].
  - constructor; [done|]. constructor; [|done]. unfold is_byte. set_unfold in Hc. lia.
  - do 2 (constructor; [done|]). do 4 (constructor; [by apply Hhex|]). done.
Qed.

Lemma comma_sep_bytes l : Forall (Forall is_byte) l -> Forall is_byte (comma_sep l).
Proof.
  destruct 1 as [|x l' Hx Hl]; cbn [comma_sep]; [constructor|]. apply Forall_app. split; [done|].
  induction Hl as [|y l' Hy _ IH]; [constructor|]. cbn. constructor; [unfold is_byte; lia|]. by apply Forall_app.
Qed.

Lemma write_bytes v : wf v -> Forall is_byte (write v).
Proof.
  assert (forall l, Forall (fun b => bool_decide (0 <= b < 256) = true) l -> Forall is_byte l) as Hconst.
  { intros l Hl. eapply Forall_impl; [exact Hl|]. intros b Hb. by apply bool_decide_eq_true in Hb. }
  induction v as [|b|lit|lit|l IH|ms IH] using json_nested_ind; cbn [wf write].
  - intros _. apply Hconst. by repeat constructor.
  - intros _. apply Hconst. destruct b; by repeat constructor.
  - by intros [_ _ ?].
  - intros Hl%literal_bytes. constructor; [done|]. apply Forall_app. split; [done|]. by repeat constructor.
  - intros Hw. constructor; [done|]. apply Forall_app. split; [|by repeat constructor]. apply comma_sep_bytes.
    revert Hw. induction IH as [|x l Hx _ IHl]; cbn [foldr fmap list_fmap]; [constructor|]. intros [H1 H2]. constructor; [auto|by apply IHl].
  - intros Hw. constructor; [done|]. apply Forall_app. split; [|by repeat constructor]. apply comma_sep_bytes.
    revert Hw. induction IH as [|m l Hm _ IHl]; cbn [foldr fmap list_fmap]; [constructor|]. intros [[H1 H2] H3]. constructor; [|by apply IHl].
    constructor; [done|]. apply Forall_app. split; [by apply literal_bytes|]. repeat (constructor; [done|]). auto.
Qed.

End Json.
