(* ===== verification/Codec.v ===== *)
(** * encoding/json: Go values

    How Unmarshal stores a JSON value in a string, a number, an instant, a byte slice, a map
    or a struct, and how Marshal writes them, by the json tags of the code's types.  Null
    leaves most values as they are; a member whose key names no field is ignored; a key names
    a field exactly or up to case.  An error of Unmarshal is a value: which one of several
    is reported is left out. *)

From S2P Require Import Prelude GoLib Models Unicode Rfc3339 Json.

Module Codec.
Import Rfc3339.Rfc3339 Json.Json.

(** ** encoding/base64: StdEncoding *)

Definition std_char (v : Z) : Z :=
  if v <? 26 then 65 + v else if v <? 52 then 71 + v else if v <? 62 then v - 4 else if v =? 62 then 43 else 47.

Definition std_value (b : Z) : option Z :=
  if (65 <=? b) && (b <=? 90) then Some (b - 65)
  else if (97 <=? b) && (b <=? 122) then Some (b - 71)
  else if (48 <=? b) && (b <=? 57) then Some (b + 4)
  else if b =? 43 then Some 62 else if b =? 47 then Some 63 else None.

Definition padding (n : nat) : list Z := match (n mod 3)%nat with 1%nat => [61; 61] | 2%nat => [61] | _ => [] end.

Definition std_encode (l : list Z) : list Z := (std_char <$> b64_sextets l) ++ padding (length l).

(** Quanta of four characters; padding ends the text.  Unused bits are not checked. *)
Fixpoint std_quanta (l : list Z) : option (list Z) :=
  match l with
  | [] => Some []
  | a :: b :: c :: d :: l' =>
      va ← std_value a; vb ← std_value b;
      if (c =? 61) && (d =? 61) then match l' with [] => b64_unsextets [va; vb] | _ => None end
      else vc ← std_value c;
        if d =? 61 then match l' with [] => b64_unsextets [va; vb; vc] | _ => None end
        else vd ← std_value d; rest ← std_quanta l'; q ← b64_unsextets [va; vb; vc; vd]; Some (q ++ rest)
  | _ => None
  end.

(** Carriage returns and line feeds are skipped. *)
Definition std_decode (l : list Z) : option (list Z) := std_quanta (List.filter (fun b => negb ((b =? 13) || (b =? 10))) l).

Lemma std_char_spec v :
  is_sextet v -> std_value (std_char v) = Some v /\ std_char v <> 61 /\ (std_char v =? 13) || (std_char v =? 10) = false /\
  32 <= std_char v < 256 /\ std_char v <> 34 /\ std_char v <> 92.
Proof.
  intros Hv. assert (v ∈ seqZ 0 64) as Hin by (apply elem_of_seqZ; unfold is_sextet in Hv; lia).
  repeat (apply elem_of_cons in Hin as [->|Hin]); [split_and!; done..|by apply elem_of_nil in Hin].
Qed.

Lemma std_quanta_encode l : Forall is_byte l -> std_quanta (std_encode l) = Some l.
Proof.
  unfold std_encode. induction l as [|a|a b|a b c l IH] using list_ind3; intros Hl; [done|..];
    pose proof (b64_sextets_range _ Hl) as Hs; pose proof (b64_unsextets_sextets _ Hl) as Hu.
  - cbn [b64_sextets fmap list_fmap length padding] in *. set (s1 := a / 4) in *. set (s2 := (a mod 4) * 16) in *. clearbody s1 s2.
    apply Forall_cons in Hs as [H1 Hs]. apply Forall_cons in Hs as [H2 _].
    destruct (std_char_spec s1 H1) as (E1 & _). destruct (std_char_spec s2 H2) as (E2 & _). change (padding 1) with [61; 61].
    cbn [app std_quanta]. rewrite E1, E2. exact Hu.
  - cbn [b64_sextets fmap list_fmap length] in *. set (s1 := a / 4) in *. set (s2 := (a mod 4) * 16 + b / 16) in *. set (s3 := (b mod 16) * 4) in *. clearbody s1 s2 s3.
    apply Forall_cons in Hs as [H1 Hs]. apply Forall_cons in Hs as [H2 Hs]. apply Forall_cons in Hs as [H3 _].
    destruct (std_char_spec s1 H1) as (E1 & _). destruct (std_char_spec s2 H2) as (E2 & _). destruct (std_char_spec s3 H3) as (E3 & N3 & _). change (padding 2) with [61].
    cbn [app std_quanta]. rewrite E1, E2. cbn [mbind option_bind]. rewrite (proj2 (Z.eqb_neq (std_char s3) 61) N3). cbn [andb]. rewrite E3. exact Hu.
  - apply Forall_cons in Hl as [Ha Hl]. apply Forall_cons in Hl as [Hb Hl]. apply Forall_cons in Hl as [Hc Hl].
    assert (padding (length (a :: b :: c :: l)) = padding (length l)) as ->.
    { unfold padding. cbn [length]. replace (S (S (S (length l)))) with (length l + 1 * 3)%nat by lia. by rewrite Nat.Div0.mod_add. }
    pose proof (b64_unsextets_sextets [a; b; c] ltac:(do 3 (apply Forall_cons; split; [done|]); by apply Forall_nil)) as Hq. cbn [b64_sextets] in Hs, Hq. cbn [b64_sextets fmap list_fmap].
    set (s1 := a / 4) in *. set (s2 := (a mod 4) * 16 + b / 16) in *. set (s3 := (b mod 16) * 4 + c / 64) in *. set (s4 := c mod 64) in *. clearbody s1 s2 s3 s4.
    repeat (apply Forall_cons in Hs as [? Hs]). destruct (std_char_spec s1) as (E1 & _); [done|]. destruct (std_char_spec s2) as (E2 & _); [done|].
    destruct (std_char_spec s3) as (E3 & N3 & _); [done|]. destruct (std_char_spec s4) as (E4 & N4 & _); [done|].
    cbn [app std_quanta]. rewrite E1, E2. cbn [mbind option_bind]. rewrite (proj2 (Z.eqb_neq _ 61) N3). cbn [andb]. rewrite E3. cbn [mbind option_bind].
    rewrite (proj2 (Z.eqb_neq _ 61) N4), E4. cbn [mbind option_bind]. change (list_fmap Z Z std_char (b64_sextets l)) with (std_char <$> b64_sextets l).
    rewrite (IH Hl). cbn [mbind option_bind]. by rewrite Hq.
Qed.

Lemma std_encode_plain l : Forall is_byte l -> Forall (fun b => 32 <= b < 256 /\ b <> 34 /\ b <> 92 /\ (b =? 13) || (b =? 10) = false) (std_encode l).
Proof.
  intros Hl. unfold std_encode. apply Forall_app. split.
  - pose proof (b64_sextets_range l Hl) as Hs. induction Hs as [|v vs Hv _ IH]; [constructor|]. cbn. constructor; [|done].
    by destruct (std_char_spec v Hv) as (_ & _ & ? & ? & ? & ?).
  - unfold padding. repeat case_match; repeat constructor; done.
Qed.

Lemma std_decode_encode l : Forall is_byte l -> std_decode (std_encode l) = Some l.
Proof.
  intros Hl. unfold std_decode. rewrite bfilter_id; [by apply std_quanta_encode|]. intros b Hb.
  pose proof (std_encode_plain l Hl) as Hp. rewrite Forall_forall in Hp. destruct (Hp b Hb) as (_ & _ & _ & ->). done.
Qed.

(** ** Storing *)

Definition store_string (v : json) (prev : string) : option string :=
  match v with JNull => Some prev | JString lit => string_of_bytes <$> unquote lit | _ => None end.

(** An int: the literal must be an integer in range. *)
Definition store_int (v : json) (prev : Z) : option Z :=
  match v with JNull => Some prev | JNumber lit => ParseInt 64 (string_of_bytes lit) | _ => None end.

Section Time.
Context {TP : TimeParse}.

Definition store_time (v : json) (prev : Z) : option Z :=
  match v with JNull => Some prev | JString lit => UnmarshalTime lit | _ => None end.

(** A pointer to an instant: null makes it nil. *)
Definition store_time_ptr (v : json) (prev : option Z) : option (option Z) :=
  match v with JNull => Some None | _ => Some <$> store_time v (default zero_time prev) end.
End Time.

(** A slice: null makes it nil, an element keeps what was at its place before. *)
Fixpoint store_list {A} (store : json -> A -> option A) (zero : A) (vs : list json) (prev : list A) : option (list A) :=
  match vs with
  | [] => Some []
  | v :: vs' =>
      x ← store v (default zero (head prev));
      xs ← store_list store zero vs' (tail prev);
      Some (x :: xs)
  end.

Definition store_slice {A} (store : json -> A -> option A) (zero : A) (v : json) (prev : list A) : option (list A) :=
  match v with JNull => Some [] | JArray vs => store_list store zero vs prev | _ => None end.

Definition store_byte (v : json) (prev : Z) : option Z :=
  match v with
  | JNull => Some prev
  | JNumber lit => n ← ParseInt 64 (string_of_bytes lit); if (0 <=? n) && (n <=? 255) then Some n else None
  | _ => None
  end.

(** A byte slice: base64 text, or an array of numbers. *)
Definition store_bytes (v : json) (prev : string) : option string :=
  match v with
  | JString lit => l ← unquote lit; string_of_bytes <$> std_decode l
  | _ => string_of_bytes <$> store_slice store_byte 0 v (bytes_of_string prev)
  end.

(** A map of strings: the members are added to what is there. *)
Fixpoint store_entries (ms : list (list Z * json)) (m : gmap string string) : option (gmap string string) :=
  match ms with
  | [] => Some m
  | (k, v) :: ms' =>
      key ← unquote k;
      x ← store_string v "";
      store_entries ms' (<[string_of_bytes key := x]> m)
  end.

Definition store_map (v : json) (prev : gmap string string) : option (gmap string string) :=
  match v with JNull => Some ∅ | JObject ms => store_entries ms prev | _ => None end.

(** *** Structs *)

Definition Field (S : Type) : Type := string * (json -> S -> option S).

Definition fold_name (l : list Z) : list Z := fold_ascii <$> (runes_of l).*1.

(** The field a key names: the one of that name, else the first that differs in case only. *)
Definition find_field {S} (fs : list (Field S)) (key : list Z) : option (json -> S -> option S) :=
  match List.find (fun f => bool_decide (bytes_of_string f.1 = key)) fs with
  | Some f => Some f.2
  | None => option_map snd (List.find (fun f => bool_decide (fold_name (bytes_of_string f.1) = fold_name key)) fs)
  end.

Fixpoint store_members {S} (fs : list (Field S)) (ms : list (list Z * json)) (s : S) : option S :=
  match ms with
  | [] => Some s
  | (k, v) :: ms' =>
      key ← unquote k;
      s' ← match find_field fs key with Some store => store v s | None => Some s end;
      store_members fs ms' s'
  end.

Definition store_struct {S} (fs : list (Field S)) (v : json) (s : S) : option S :=
  match v with JNull => Some s | JObject ms => store_members fs ms s | _ => None end.

(** ** Writing *)

Definition enc_string (s : string) : json := JString (quote (bytes_of_string s)).
Definition enc_int (n : Z) : json := JNumber (bytes_of_string (Itoa n)).
Definition enc_bytes (s : string) : json := JString (std_encode (bytes_of_string s)).

(** Maps are written in the order of their keys. *)
Fixpoint bytes_le (a b : list Z) : bool :=
  match a, b with
  | [], _ => true
  | _, [] => false
  | x :: a', y :: b' => (x <? y) || ((x =? y) && bytes_le a' b')
  end.

Definition key_le (a b : string * string) : Prop := bytes_le (bytes_of_string a.1) (bytes_of_string b.1) = true.

#[global] Instance key_le_dec a b : Decision (key_le a b).
Proof. unfold key_le. apply _. Defined.

Definition enc_map (m : gmap string string) : json :=
  JObject ((fun kv => (quote (bytes_of_string kv.1), enc_string kv.2)) <$> merge_sort key_le (map_to_list m)).

(** A member, left out when [omit] (omitempty). *)
Definition member (omit : bool) (name : string) (v : json) : list (list Z * json) :=
  if omit then [] else [(quote (bytes_of_string name), v)].

Definition time_member (name : string) (t : option Z) : option (list (list Z * json)) :=
  match t with
  | None => Some []
  | Some t => l ← MarshalTime t; Some (member false name (JString l))
  end.

(** ** Round trips of the parts *)

Definition good_string (s : string) : Prop := valid_utf8 (bytes_of_string s) = true.
Definition good_int (n : Z) : Prop := fits 64 n = true.
Definition good_map (m : gmap string string) : Prop := map_Forall (fun k v => good_string k /\ good_string v) m.

Lemma unquote_good s : good_string s -> unquote (quote (bytes_of_string s)) = Some (bytes_of_string s).
Proof. intros Hs. rewrite unquote_quote by apply bytes_range. by rewrite clean_valid. Qed.

Lemma store_string_enc s prev : good_string s -> store_string (enc_string s) prev = Some s.
Proof. intros Hs. unfold store_string, enc_string. rewrite unquote_good by done. cbn. by rewrite string_of_bytes_of_string. Qed.

Lemma store_int_enc n prev : good_int n -> store_int (enc_int n) prev = Some n.
Proof. intros Hn. unfold store_int, enc_int. rewrite string_of_bytes_of_string. by apply ParseInt_Itoa. Qed.

(** Text of plain bytes stands for itself. *)
Lemma unquote_plain l : Forall (fun b => 32 <= b < 128 /\ b <> 34 /\ b <> 92) l -> unquote l = Some l.
Proof.
  unfold unquote. intros Hl. induction Hl as [|b l (Hb & H34 & H92) _ IH]; [done|]. cbn [length unquote_fuel].
  rewrite (proj2 (Z.eqb_neq b 92)), (proj2 (Z.eqb_neq b 34)), (proj2 (Z.ltb_ge b 32)), (proj2 (Z.ltb_lt b 128)) by (done || lia). cbn [orb]. by rewrite IH.
Qed.

Lemma std_encode_ascii l : Forall is_byte l -> Forall (fun b => 32 <= b < 128 /\ b <> 34 /\ b <> 92) (std_encode l).
Proof.
  intros Hl. unfold std_encode. apply Forall_app. split.
  - pose proof (b64_sextets_range l Hl) as Hs. induction Hs as [|v vs Hv _ IH]; [constructor|]. cbn. constructor; [|done].
    unfold is_sextet, std_char in *. repeat case_match; bool_to_prop; lia.
  - unfold padding. repeat case_match; repeat constructor; done.
Qed.

Lemma store_bytes_enc s prev : store_bytes (enc_bytes s) prev = Some s.
Proof.
  unfold store_bytes, enc_bytes. rewrite unquote_plain by apply std_encode_ascii, bytes_range. cbn [mbind option_bind].
  rewrite std_decode_encode by apply bytes_range. cbn. by rewrite string_of_bytes_of_string.
Qed.

Lemma store_entries_enc kvs m :
  Forall (fun kv => good_string kv.1 /\ good_string kv.2) kvs ->
  store_entries ((fun kv => (quote (bytes_of_string kv.1), enc_string kv.2)) <$> kvs) m =
  Some (foldl (fun m kv => <[kv.1 := kv.2]> m) m kvs).
Proof.
  intros Hg. revert m. induction Hg as [|[k v] kvs [Hk Hv] _ IH]; intros m; [done|]. cbn [fmap list_fmap fst snd store_entries foldl] in *.
  rewrite unquote_good by done. cbn [mbind option_bind]. rewrite store_string_enc by done. cbn [mbind option_bind].
  rewrite string_of_bytes_of_string. apply IH.
Qed.

Lemma foldl_insert_map (kvs : list (string * string)) (m : gmap string string) :
  NoDup kvs.*1 -> foldl (fun (m : gmap string string) kv => <[kv.1 := kv.2]> m) m kvs = (list_to_map kvs : gmap string string) ∪ m.
Proof.
  revert m. induction kvs as [|[k v] kvs IH]; intros m Hnd; cbn [foldl list_to_map fst snd foldr]; [by rewrite (left_id_L ∅ (∪))|].
  cbn [fmap list_fmap fst] in Hnd. apply NoDup_cons in Hnd as [Hk Hnd]. rewrite IH by done. rewrite <- insert_union_r by (by apply not_elem_of_list_to_map_1).
  by rewrite <- insert_union_l.
Qed.

Lemma store_map_enc m : good_map m -> store_map (enc_map m) ∅ = Some m.
Proof.
  intros Hm. unfold store_map, enc_map. set (kvs := merge_sort key_le (map_to_list m)).
  assert (kvs ≡ₚ map_to_list m) as Hperm by apply merge_sort_Permutation. rewrite store_entries_enc.
  - assert (NoDup kvs.*1) as Hnd by (rewrite Hperm; apply NoDup_fst_map_to_list). rewrite foldl_insert_map by done. f_equal.
    rewrite (right_id_L ∅ (∪)). rewrite (list_to_map_proper kvs (map_to_list m)) by done. apply list_to_map_to_list.
  - rewrite Hperm. apply Forall_forall. intros [k v] Hkv%elem_of_map_to_list. by apply Hm.
Qed.

Section TimeRoundTrip.
Context {TP : TimeParse}.

Lemma store_time_enc t l prev : MarshalTime t = Some l -> store_time (JString l) prev = Some t.
Proof. intros Hl. cbn. by apply UnmarshalTime_MarshalTime. Qed.

End TimeRoundTrip.

(** *** Members *)

Lemma store_members_app {S} (fs : list (Field S)) ms1 ms2 s :
  store_members fs (ms1 ++ ms2) s = store_members fs ms1 s ≫= store_members fs ms2.
Proof.
  revert s. induction ms1 as [|[k v] ms1 IH]; intros s; [done|]. cbn [app store_members]. destruct (unquote k); [|done]. cbn [mbind option_bind].
  destruct (find_field fs l); [destruct (o v s)|]; cbn [mbind option_bind]; auto.
Qed.

Lemma store_member {S} (fs : list (Field S)) (omit : bool) name (v : json) (s s' : S) (store : json -> S -> option S) :
  good_string name -> find_field fs (bytes_of_string name) = Some store -> (if omit then s' = s else store v s = Some s') ->
  store_members fs (member omit name v) s = Some s'.
Proof.
  intros Hn Hf Hs. unfold member. destruct omit; [by subst|]. cbn [store_members]. rewrite unquote_good by done. cbn [mbind option_bind]. by rewrite Hf, Hs.
Qed.

End Codec.
