(* ===== verification/JobCodec.v ===== *)
(** * encoding/json on the types of the program

    Marshal and Unmarshal of jobs and tasks (what Kafka carries and the API answers), of the
    webhook's request body and of the ETL pipeline's specification, by the json tags of the
    structs.  A job that can be written is read back as it was. *)

From S2P Require Import Prelude GoLib Models Calendar Unicode Rfc3339 Json Codec.

Module JobCodec.
Import Rfc3339.Rfc3339 Json.Json Codec.Codec.

(** ** Fields *)

(** The field [name] of a struct, by its place in it. *)
Definition field {S A} (name : string) (store : json -> A -> option A) (get : S -> A) (set : A -> S -> S) : Field S :=
  (name, fun v s => (fun x => set x s) <$> store v (get s)).

Lemma find_field_in {S} (fs : list (Field S)) (f : Field S) :
  NoDup fs.*1 -> f ∈ fs -> find_field fs (bytes_of_string f.1) = Some f.2.
Proof.
  intros Hnd Hin. unfold find_field.
  enough (List.find (fun g => bool_decide (bytes_of_string g.1 = bytes_of_string f.1)) fs = Some f) as -> by done.
  induction fs as [|g fs IH]; [by apply elem_of_nil in Hin|]. apply elem_of_cons in Hin. cbn [fmap list_fmap] in Hnd. apply NoDup_cons in Hnd as [Hg Hnd].
  cbn [List.find]. case_bool_decide as Heq.
  - apply (f_equal string_of_bytes) in Heq. rewrite !string_of_bytes_of_string in Heq. destruct Hin as [->|Hin]; [done|].
    destruct Hg. rewrite Heq. by apply list_elem_of_fmap_2.
  - destruct Hin as [->|Hin]; [done|auto].
Qed.

Create HintDb codec.

(** A member written for a field is stored there. *)
Lemma store_field {S A} (fs : list (Field S)) name store (get : S -> A) set (omit : bool) v x (acc : S) :
  good_string name -> NoDup fs.*1 -> field name store get set ∈ fs ->
  (omit = true -> set x acc = acc) -> (omit = false -> store v (get acc) = Some x) ->
  store_members fs (member omit name v) acc = Some (set x acc).
Proof.
  intros Hn Hnd Hf Ho Hs. eapply store_member; [done|exact (find_field_in _ _ Hnd Hf)|]. destruct omit; [auto|]. cbn. by rewrite Hs.
Qed.

(** ** Tasks *)

Definition is_empty (s : string) : bool := bool_decide (s = "").
Definition is_empty_map (m : gmap string string) : bool := bool_decide (m = ∅).
Definition is_nil {A} (l : list A) : bool := match l with [] => true | _ => false end.

Definition task_fields : list (Field Task) :=
  [field "id" store_string Task.ID (fun x t => Task.mkTask x (Task.Name t) (Task.Payload t) (Task.RetryCount t) (Task.MaxRetries t) (Task.Timeout t) (Task.CronExpression t) (Task.Queue t) (Task.Metadata t));
   field "name" store_string Task.Name (fun x t => Task.mkTask (Task.ID t) x (Task.Payload t) (Task.RetryCount t) (Task.MaxRetries t) (Task.Timeout t) (Task.CronExpression t) (Task.Queue t) (Task.Metadata t));
   field "payload" store_bytes Task.Payload (fun x t => Task.mkTask (Task.ID t) (Task.Name t) x (Task.RetryCount t) (Task.MaxRetries t) (Task.Timeout t) (Task.CronExpression t) (Task.Queue t) (Task.Metadata t));
   field "retry_count" store_int Task.RetryCount (fun x t => Task.mkTask (Task.ID t) (Task.Name t) (Task.Payload t) x (Task.MaxRetries t) (Task.Timeout t) (Task.CronExpression t) (Task.Queue t) (Task.Metadata t));
   field "max_retries" store_int Task.MaxRetries (fun x t => Task.mkTask (Task.ID t) (Task.Name t) (Task.Payload t) (Task.RetryCount t) x (Task.Timeout t) (Task.CronExpression t) (Task.Queue t) (Task.Metadata t));
   field "timeout" store_int Task.Timeout (fun x t => Task.mkTask (Task.ID t) (Task.Name t) (Task.Payload t) (Task.RetryCount t) (Task.MaxRetries t) x (Task.CronExpression t) (Task.Queue t) (Task.Metadata t));
   field "cron_expression" store_string Task.CronExpression (fun x t => Task.mkTask (Task.ID t) (Task.Name t) (Task.Payload t) (Task.RetryCount t) (Task.MaxRetries t) (Task.Timeout t) x (Task.Queue t) (Task.Metadata t));
   field "queue" store_string Task.Queue (fun x t => Task.mkTask (Task.ID t) (Task.Name t) (Task.Payload t) (Task.RetryCount t) (Task.MaxRetries t) (Task.Timeout t) (Task.CronExpression t) x (Task.Metadata t));
   field "metadata" store_map Task.Metadata (fun x t => Task.mkTask (Task.ID t) (Task.Name t) (Task.Payload t) (Task.RetryCount t) (Task.MaxRetries t) (Task.Timeout t) (Task.CronExpression t) (Task.Queue t) x)].

Lemma task_fields_nodup : NoDup task_fields.*1.
Proof. apply (bool_decide_unpack _). vm_compute. exact I. Qed.
#[local] Hint Resolve task_fields_nodup : codec.

Definition task_members (t : Task) : list (list Z * json) :=
  member false "id" (enc_string (Task.ID t)) ++ member false "name" (enc_string (Task.Name t)) ++
  member (is_empty (Task.Payload t)) "payload" (enc_bytes (Task.Payload t)) ++ member false "retry_count" (enc_int (Task.RetryCount t)) ++
  member false "max_retries" (enc_int (Task.MaxRetries t)) ++ member false "timeout" (enc_int (Task.Timeout t)) ++
  member (is_empty (Task.CronExpression t)) "cron_expression" (enc_string (Task.CronExpression t)) ++
  member (is_empty (Task.Queue t)) "queue" (enc_string (Task.Queue t)) ++
  member (is_empty_map (Task.Metadata t)) "metadata" (enc_map (Task.Metadata t)).

Record good_task (t : Task) : Prop := {
  good_task_id : good_string (Task.ID t);
  good_task_name : good_string (Task.Name t);
  good_retry_count : good_int (Task.RetryCount t);
  good_max_retries : good_int (Task.MaxRetries t);
  good_timeout : good_int (Task.Timeout t);
  good_cron : good_string (Task.CronExpression t);
  good_queue : good_string (Task.Queue t);
  good_task_metadata : good_map (Task.Metadata t);
}.

#[export] Hint Resolve store_string_enc store_int_enc store_bytes_enc store_map_enc : codec.

Ltac project :=
  unfold Job.set_ID, Job.set_State, Job.set_Attempt, Job.set_ScheduledAt, Job.set_StartedAt, Job.set_LeaseExpiresAt,
    Job.set_LeaseToken, Job.set_CompletedAt, Job.set_LastError, Job.set_CreatedAt, Job.set_UpdatedAt in *;
  cbn [mbind option_bind zero_task zero_job
       Task.ID Task.Name Task.Payload Task.RetryCount Task.MaxRetries Task.Timeout Task.CronExpression Task.Queue Task.Metadata
       Job.ID Job.IdempotencyKey Job.Task Job.State Job.Attempt Job.ScheduledAt Job.StartedAt Job.LeaseExpiresAt Job.LeaseToken
       Job.CompletedAt Job.LastError Job.Metadata Job.CreatedAt Job.UpdatedAt] in *.

(** Store the next member, closing what [store_field] asks for. *)
Ltac store_next :=
  rewrite ?store_members_app;
  match goal with
  | |- context [store_members ?fs (member ?o ?n ?v) ?acc] =>
      let l := eval hnf in fs in
      match l with
      | context [field n ?store ?get ?set] =>
          erewrite (store_field fs n store get set o v _ acc);
          [|reflexivity|auto with codec|by repeat constructor| |intros _; eauto with codec];
          [project|first [discriminate | intros ->%bool_decide_eq_true; reflexivity]]
      end
  end.

Lemma store_task t : good_task t -> store_struct task_fields (JObject (task_members t)) zero_task = Some t.
Proof.
  destruct t. intros []. cbn [store_struct]. unfold task_members. project. do 9 store_next. reflexivity.
Qed.

#[export] Hint Resolve store_task : codec.

(** ** Jobs *)

Section Job.
Context {TP : TimeParse}.

Definition job_fields : list (Field Job) :=
  [field "id" store_string Job.ID Job.set_ID;
   field "idempotency_key" store_string Job.IdempotencyKey (fun x j => Job.mkJob (Job.ID j) x (Job.Task j) (Job.State j) (Job.Attempt j) (Job.ScheduledAt j) (Job.StartedAt j) (Job.LeaseExpiresAt j) (Job.LeaseToken j) (Job.CompletedAt j) (Job.LastError j) (Job.Metadata j) (Job.CreatedAt j) (Job.UpdatedAt j));
   field "task" (store_struct task_fields) Job.Task (fun x j => Job.mkJob (Job.ID j) (Job.IdempotencyKey j) x (Job.State j) (Job.Attempt j) (Job.ScheduledAt j) (Job.StartedAt j) (Job.LeaseExpiresAt j) (Job.LeaseToken j) (Job.CompletedAt j) (Job.LastError j) (Job.Metadata j) (Job.CreatedAt j) (Job.UpdatedAt j));
   field "state" store_string Job.State Job.set_State;
   field "attempt" store_int Job.Attempt Job.set_Attempt;
   field "scheduled_at" store_time_ptr Job.ScheduledAt Job.set_ScheduledAt;
   field "started_at" store_time_ptr Job.StartedAt Job.set_StartedAt;
   field "lease_expires_at" store_time_ptr Job.LeaseExpiresAt Job.set_LeaseExpiresAt;
   field "lease_token" store_string Job.LeaseToken Job.set_LeaseToken;
   field "completed_at" store_time_ptr Job.CompletedAt Job.set_CompletedAt;
   field "last_error" store_string Job.LastError Job.set_LastError;
   field "metadata" store_map Job.Metadata (fun x j => Job.mkJob (Job.ID j) (Job.IdempotencyKey j) (Job.Task j) (Job.State j) (Job.Attempt j) (Job.ScheduledAt j) (Job.StartedAt j) (Job.LeaseExpiresAt j) (Job.LeaseToken j) (Job.CompletedAt j) (Job.LastError j) x (Job.CreatedAt j) (Job.UpdatedAt j));
   field "created_at" store_time Job.CreatedAt Job.set_CreatedAt;
   field "updated_at" store_time Job.UpdatedAt Job.set_UpdatedAt].

Lemma job_fields_nodup : NoDup job_fields.*1.
Proof. apply (bool_decide_unpack _). vm_compute. exact I. Qed.
#[local] Hint Resolve job_fields_nodup : codec.

(** Left out when a nil pointer; it fails for a year that has not four digits. *)
Definition job_members (j : Job) : option (list (list Z * json)) :=
  scheduled ← time_member "scheduled_at" (Job.ScheduledAt j);
  started ← time_member "started_at" (Job.StartedAt j);
  lease ← time_member "lease_expires_at" (Job.LeaseExpiresAt j);
  completed ← time_member "completed_at" (Job.CompletedAt j);
  created ← time_member "created_at" (Some (Job.CreatedAt j));
  updated ← time_member "updated_at" (Some (Job.UpdatedAt j));
  Some (member false "id" (enc_string (Job.ID j)) ++
    member (is_empty (Job.IdempotencyKey j)) "idempotency_key" (enc_string (Job.IdempotencyKey j)) ++
    member false "task" (JObject (task_members (Job.Task j))) ++
    member false "state" (enc_string (Job.State j)) ++ member false "attempt" (enc_int (Job.Attempt j)) ++
    scheduled ++ started ++ lease ++
    member (is_empty (Job.LeaseToken j)) "lease_token" (enc_string (Job.LeaseToken j)) ++ completed ++
    member (is_empty (Job.LastError j)) "last_error" (enc_string (Job.LastError j)) ++
    member (is_empty_map (Job.Metadata j)) "metadata" (enc_map (Job.Metadata j)) ++ created ++ updated).

Record good_job (j : Job) : Prop := {
  good_id : good_string (Job.ID j);
  good_key : good_string (Job.IdempotencyKey j);
  good_task_of : good_task (Job.Task j);
  good_state : good_string (Job.State j);
  good_attempt : good_int (Job.Attempt j);
  good_token : good_string (Job.LeaseToken j);
  good_error : good_string (Job.LastError j);
  good_metadata : good_map (Job.Metadata j);
}.

(** Years 0 to 9999, which RFC 3339 can write. *)
Definition good_time (t : Z) : Prop := 0 <= Year t <= 9999.

Definition good_times (j : Job) : Prop :=
  Forall good_time (omap id [Job.ScheduledAt j; Job.StartedAt j; Job.LeaseExpiresAt j; Job.CompletedAt j; Some (Job.CreatedAt j); Some (Job.UpdatedAt j)]).

Lemma store_field_time (fs : list (Field Job)) name (get : Job -> Z) set t ms (acc : Job) :
  good_string name -> NoDup fs.*1 -> field name store_time get set ∈ fs ->
  time_member name (Some t) = Some ms -> store_members fs ms acc = Some (set t acc).
Proof.
  intros Hn Hnd Hf. cbn [time_member]. destruct (MarshalTime t) as [l|] eqn:Hl; [|done]. cbn [mbind option_bind]. intros [= <-].
  apply (store_field fs name store_time get set false _ t acc); [done|done|done|done|]. intros _. by apply store_time_enc.
Qed.

Lemma store_field_time_ptr (fs : list (Field Job)) name (get : Job -> option Z) set t ms (acc : Job) :
  good_string name -> NoDup fs.*1 -> field name store_time_ptr get set ∈ fs ->
  time_member name t = Some ms -> (t = None -> set t acc = acc) -> store_members fs ms acc = Some (set t acc).
Proof.
  intros Hn Hnd Hf. destruct t as [t|]; cbn [time_member].
  - destruct (MarshalTime t) as [l|] eqn:Hl; [|done]. cbn [mbind option_bind]. intros [= <-] _.
    apply (store_field fs name store_time_ptr get set false _ (Some t) acc); [done|done|done|done|]. intros _. cbn [store_time_ptr].
    by rewrite (store_time_enc t).
  - intros [= <-] H. cbn. by rewrite H.
Qed.

Ltac store_next_time :=
  rewrite ?store_members_app;
  match goal with
  | H : time_member ?n ?t = Some ?ms |- context [store_members ?fs ?ms ?acc] =>
      let l := eval hnf in fs in
      match l with
      | context [field n store_time_ptr ?get ?set] =>
          rewrite (store_field_time_ptr fs n get set t ms acc); [project|reflexivity|auto with codec|by repeat constructor|exact H|intros ->; reflexivity]
      | context [field n store_time ?get ?set] =>
          match t with Some ?t' => rewrite (store_field_time fs n get set t' ms acc); [project|reflexivity|auto with codec|by repeat constructor|exact H] end
      end
  end.

Lemma store_job j ms : good_job j -> job_members j = Some ms -> store_struct job_fields (JObject ms) zero_job = Some j.
Proof.
  destruct j. intros []. unfold job_members. project.
  repeat match goal with |- context [time_member ?n ?t] => let H := fresh "Ht" in destruct (time_member n t) eqn:H; [|done]; project end.
  intros <-%(inj Some). cbn [store_struct]. do 5 store_next.
  do 3 store_next_time. store_next. store_next_time. do 2 store_next. do 2 store_next_time. reflexivity.
Qed.

End Job.

(** ** The text *)

(** Members that can be written, of values nested less than [h] deep. *)
Definition writable (h : Z) (ms : list (list Z * json)) : Prop := Forall (fun m => literal m.1 /\ wf m.2 /\ height m.2 <= h) ms.

Lemma writable_object h ms : 0 <= h -> writable h ms -> wf (JObject ms) /\ height (JObject ms) <= h + 1.
Proof.
  intros Hh Hms. cbn [wf height]. induction Hms as [|[k v] ms (Hk & Hv & Hhv) _ IH]; cbn [foldr fst snd] in *; [lia|].
  destruct IH as [IH1 IH2]. split; [done|lia].
Qed.

Lemma writable_member h (omit : bool) name v :
  (omit = false -> wf v /\ height v <= h) -> writable h (member omit name v).
Proof.
  intros H. unfold member. destruct omit; [constructor|]. constructor; [|constructor]. destruct H; [done|].
  split; [apply literal_quote, bytes_range|done].
Qed.

Lemma writable_app h ms1 ms2 : writable h ms1 -> writable h ms2 -> writable h (ms1 ++ ms2).
Proof. intros. by apply Forall_app. Qed.

Lemma wf_enc_string h s : 0 <= h -> wf (enc_string s) /\ height (enc_string s) <= h.
Proof. split; [apply literal_quote, bytes_range|done]. Qed.

Lemma wf_enc_int h n : 0 <= h -> wf (enc_int n) /\ height (enc_int n) <= h.
Proof. split; [apply number_Itoa|done]. Qed.

Lemma wf_enc_bytes h s : 0 <= h -> wf (enc_bytes s) /\ height (enc_bytes s) <= h.
Proof.
  split; [|done]. apply literal_plain. eapply Forall_impl; [apply std_encode_ascii, bytes_range|]. intros b (? & ? & ?). cbn. lia.
Qed.

Lemma wf_enc_map h m : 1 <= h -> wf (enc_map m) /\ height (enc_map m) <= h.
Proof.
  intros Hh. destruct (writable_object 0 ((fun kv => (quote (bytes_of_string kv.1), enc_string kv.2)) <$> merge_sort key_le (map_to_list m))) as [H1 H2].
  - done.
  - apply Forall_fmap, Forall_forall. intros [k v] _. split; [apply literal_quote, bytes_range|by apply wf_enc_string].
  - split; [exact H1|]. unfold enc_map. lia.
Qed.

#[export] Hint Resolve writable_app writable_member wf_enc_string wf_enc_int wf_enc_bytes wf_enc_map : codec.
#[export] Hint Extern 5 (_ <= _) => lia : codec.

Section Text.
Context {TP : TimeParse}.

Lemma writable_time name t ms : time_member name t = Some ms -> writable 2 ms.
Proof.
  destruct t as [t|]; cbn [time_member]; [|intros [= <-]; constructor]. unfold MarshalTime. destruct (_ && _); [|done].
  intros <-%(inj Some). apply writable_member. intros _. split; [|done]. apply literal_plain.
  eapply Forall_impl; [apply format_plain|]. intros b [Hb|Hb]; cbn.
  - unfold is_digit in Hb. bool_to_prop. lia.
  - repeat (apply elem_of_cons in Hb as [->|Hb]; [lia|]). by apply elem_of_nil in Hb.
Qed.

Lemma writable_task t : writable 1 (task_members t).
Proof. unfold task_members. repeat apply writable_app; apply writable_member; intros _; auto with codec. Qed.

Lemma writable_job j ms : job_members j = Some ms -> writable 2 ms.
Proof.
  unfold job_members.
  repeat match goal with |- context [time_member ?n ?t] => let H := fresh "Ht" in destruct (time_member n t) eqn:H; [apply writable_time in H|done]; cbn [mbind option_bind] end.
  intros <-%(inj Some). repeat first [assumption|apply writable_app]; apply writable_member; intros _; auto with codec.
  apply (writable_object 1); [done|apply writable_task].
Qed.

Lemma job_members_some j : good_times j -> exists ms, job_members j = Some ms.
Proof.
  intros Hj. unfold job_members.
  assert (forall n t, (forall x, t = Some x -> good_time x) -> exists ms, time_member n t = Some ms) as Hms.
  { intros n [t|] Ht; cbn [time_member]; [|by eexists]. specialize (Ht t eq_refl). unfold MarshalTime. unfold good_time in Ht.
    rewrite (proj2 (Z.leb_le 0 (Year t))), (proj2 (Z.leb_le (Year t) 9999)) by lia. by eexists. }
  unfold good_times in Hj.
  repeat match goal with |- context [time_member ?n ?t] =>
    destruct (Hms n t) as [? ->]; [intros ? Hx; eapply Forall_forall; [exact Hj|]; apply list_elem_of_omap; exists t; split; [by repeat constructor|done]|];
    cbn [mbind option_bind]
  end. by eexists.
Qed.

Lemma job_members_times j ms : job_members j = Some ms -> good_times j.
Proof.
  assert (forall n t l, time_member n t = Some l -> forall x, t = Some x -> good_time x) as Hms.
  { intros n t l Hl x ->. cbn [time_member] in Hl. unfold MarshalTime in Hl. destruct (_ && _) eqn:Ht; [|done].
    unfold good_time. bool_to_prop. lia. }
  unfold job_members.
  repeat match goal with |- context [time_member ?n ?t] => let H := fresh "Ht" in destruct (time_member n t) eqn:H; [|done]; cbn [mbind option_bind] end.
  intros _. apply Forall_forall. intros x (t & Hin & Hx)%list_elem_of_omap. unfold id in Hx. subst t.
  repeat (apply elem_of_cons in Hin as [Hin|Hin]; [eapply Hms; [|symmetry; exact Hin]; eassumption|]). by apply elem_of_nil in Hin.
Qed.

(** ** Marshal and Unmarshal *)

(** What a text that cannot be stored is refused with; the text of the error is left open. *)
Context (DecodeError : string -> error).

Definition msg_year : string := "json: error calling MarshalJSON for type time.Time: Time.MarshalJSON: year outside of range [0,9999]".

Definition MarshalJob (j : Job) : res string error :=
  match job_members j with
  | Some ms => Ok (string_of_bytes (write (JObject ms)))
  | None => Err (New msg_year)
  end.

Definition Unmarshal {S} (fs : list (Field S)) (zero : S) (text : string) : res S error :=
  match read (bytes_of_string text) ≫= fun v => store_struct fs v zero with
  | Some s => Ok s
  | None => Err (DecodeError text)
  end.

Definition UnmarshalJob : string -> res Job error := Unmarshal job_fields zero_job.

Lemma Unmarshal_write {S} (fs : list (Field S)) zero h ms s :
  0 <= h < maxNestingDepth -> writable h ms -> store_struct fs (JObject ms) zero = Some s ->
  Unmarshal fs zero (string_of_bytes (write (JObject ms))) = Ok s.
Proof.
  intros Hh Hms Hs. destruct (writable_object h ms) as [Hw Hheight]; [lia|done|]. unfold Unmarshal.
  rewrite bytes_of_string_of_bytes by (by apply write_bytes). rewrite read_write by (done || lia). cbn [mbind option_bind]. by rewrite Hs.
Qed.

Lemma UnmarshalJob_MarshalJob j text : good_job j -> MarshalJob j = Ok text -> UnmarshalJob text = Ok j.
Proof.
  intros Hj. unfold MarshalJob. destruct (job_members j) as [ms|] eqn:Hms; [|done]. intros [= <-].
  eapply (Unmarshal_write _ _ 2); [done|by eapply writable_job|by eapply store_job].
Qed.

Lemma MarshalJob_ok j : good_times j -> exists text, MarshalJob j = Ok text.
Proof. intros [ms Hms]%job_members_some. unfold MarshalJob. rewrite Hms. by eexists. Qed.

End Text.

End JobCodec.
