(* ===== verification/KafkaCodec.v ===== *)
(** * Jobs through Kafka

    The producer of internal/queue and the consumer of cmd/server put together, with the JSON
    text of jobs between them. *)

From S2P Require Import Prelude GoLib Models Sql Effects Concrete Kafka Calendar Rfc3339 Json Codec JobCodec.

Module KafkaCodec.
Import Kafka.Kafka JobCodec.JobCodec.

Section Codec.
Context {TP : Rfc3339.Rfc3339.TimeParse} {env : Env} {S : Session}.
Context (DecodeError : string -> error).

(** The message Publish sends for a job, if the job can be written. *)
Definition message_of (topic : string) (job : Job) : option ProducerMessage :=
  match MarshalJob job with
  | Ok text => Some (mkProducerMessage topic (Job.ID job) text [("job_id", Job.ID job); ("job_name", Task.Name (Job.Task job))])
  | Err _ => None
  end.

Lemma Publish_message SendMessage topic job :
  Publish MarshalJob SendMessage topic job =
  match message_of topic job with
  | Some m => SendMessage m
  | None => Some (wrapf "queue: marshal job: " (New msg_year))
  end.
Proof. unfold Publish, message_of, MarshalJob. by destruct (job_members job). Qed.

Lemma message_of_some topic job : good_times job -> exists m, message_of topic job = Some m.
Proof. intros [text Ht]%MarshalJob_ok. unfold message_of. rewrite Ht. by eexists. Qed.

(** The jobs the pool took. *)
Definition taken (jobs : list Job) (oks : list bool) : list Job :=
  omap (fun x : Job * bool => if x.2 then Some x.1 else None) (zip jobs oks).

Lemma delivered_taken jobs ms oks :
  Forall2 (fun job m => job_of (UnmarshalJob DecodeError) m = Some job) jobs ms ->
  delivered (UnmarshalJob DecodeError) (zip ms oks) = taken jobs oks.
Proof.
  intros H. revert oks. induction H as [|job m jobs ms Hm _ IH]; intros oks; [done|]. destruct oks as [|ok oks]; [done|].
  unfold delivered, taken in *. cbn [zip zip_with omap list_omap fst snd]. rewrite IH, Hm. by destruct ok.
Qed.

Lemma message_decodes topic job m offset :
  good_job job -> message_of topic job = Some m -> job_of (UnmarshalJob DecodeError) (mkConsumerMessage (pm_Value m) offset) = Some job.
Proof.
  intros Hj. unfold message_of, job_of. destruct (MarshalJob job) as [text|] eqn:Ht; [|done]. intros [= <-]. cbn [Value pm_Value].
  by rewrite (UnmarshalJob_MarshalJob DecodeError job text).
Qed.

(** C7: what is published is what is run.  Publish sends exactly one message for a job whose
    times have years RFC 3339 can write, and for another it sends nothing and returns an
    error.  When the values of those messages, in order, are what a claim receives, the jobs
    the handler submits to the pool are, in order, exactly the published ones, field for
    field, but for those the pool refuses; those of a run that refuses none are all of them. *)
Theorem kafka_publish_consume topic jobs :
  Forall good_job jobs ->
  (forall SendMessage job, job ∈ jobs ->
     (good_times job -> exists m, message_of topic job = Some m /\ Publish MarshalJob SendMessage topic job = SendMessage m) /\
     (~ good_times job -> Publish MarshalJob SendMessage topic job = Some (wrapf "queue: marshal job: " (New msg_year)))) /\
  forall events s w, marks_forward S ->
    Forall2 (fun job m => exists p, message_of topic job = Some p /\ Value m = pm_Value p) jobs (received events) ->
    let '(s', w') := exec (ConsumeClaim (Handle (UnmarshalJob DecodeError)) events s) w in
    exists oks, Forall2 (fun job ok => ok = true \/ (ok = false /\ exists n, env_submit n job = false)) jobs oks /\
      w_submitted w' = w_submitted w ++ taken jobs oks.
Proof.
  intros Hgood. split.
  - intros SendMessage job Hin. rewrite Publish_message. split; intros Ht.
    + destruct (message_of_some topic job Ht) as [m ->]. eauto.
    + unfold message_of, MarshalJob. destruct (job_members job) eqn:Hms; [|done]. destruct Ht. by eapply job_members_times.
  - intros events s w Hmark Hvals. pose proof (exec_ConsumeClaim (UnmarshalJob DecodeError) events s w Hmark) as H.
    destruct (exec _ w) as [s' w']. destruct H as (oks & Hoks & Hsub & _). exists oks.
    assert (Forall2 (fun job m => job_of (UnmarshalJob DecodeError) m = Some job) jobs (received events)) as Hjobs.
    { clear -Hgood Hvals. induction Hvals as [|job [v o] jobs ms (p & Hp & Hv) _ IH]; constructor.
      - cbn [Value] in Hv. subst v. eapply message_decodes; [by apply Forall_cons in Hgood as [? _]|done].
      - apply IH. by apply Forall_cons in Hgood as [_ ?]. }
    split; [|by rewrite Hsub, (delivered_taken jobs)].
    clear -Hoks Hjobs. revert oks Hoks. induction Hjobs as [|job m jobs ms Hm _ IH]; intros oks Hoks; inversion_clear Hoks as [|? ok ? oks' Hok Hrest]; constructor; [|auto].
    destruct Hok as [?|[? (j & n & Hj & Hn)]]; [by left|right]. split; [done|]. unfold job_of in Hm. rewrite Hj in Hm. exists n. congruence.
Qed.

End Codec.

(** ** On concrete jobs *)

(** No other layout is accepted. *)
Definition strict_times : Rfc3339.Rfc3339.TimeParse := {| Rfc3339.Rfc3339.Parse _ := None |}.
#[local] Existing Instance strict_times.

Definition odd_job : Job :=
  Job.mkJob "a" "" (Task.mkTask "t" "<webhook> é" "hi" 1 3 (-5) "" "" {["k" := "v"]}) JobStatePending 0 (Some (t0 + 1500000)) None None "" None
    "" ∅ t0 t0.

Definition plain_job : Job := Job.set_ID "b" odd_job.

(** Text with ' in place of the double quote. *)
Definition json_text (s : string) : string := string_of_bytes ((fun b => if b =? 39 then 34 else b) <$> bytes_of_string s).

Example odd_job_text :
  MarshalJob odd_job = Ok (json_text "{'id':'a','task':{'id':'t','name':'\u003cwebhook\u003e é','payload':'aGk=','retry_count':1,'max_retries':3,'timeout':-5,'metadata':{'k':'v'}},'state':'PENDING','attempt':0,'scheduled_at':'2023-11-14T22:13:20.0015Z','created_at':'2023-11-14T22:13:20Z','updated_at':'2023-11-14T22:13:20Z'}").
Proof. vm_compute. reflexivity. Qed.

(** Keys up to case, unknown keys, nulls and escapes. *)
Example odd_text :
  UnmarshalJob New (json_text "{'ID':'\u0061','other':[1,{}],'task':{'Name':'\ud83d\ude00\ud800','payload':[104,105]},'state':null,'scheduled_at':'2023-11-14T23:13:20+01:00'}") =
  Ok (Job.mkJob "a" "" (Task.mkTask "" "😀�" "hi" 0 0 0 "" "" ∅) "" 0 (Some t0) None None "" None "" ∅ zero_time zero_time).
Proof. vm_compute. reflexivity. Qed.

Definition published : list Event :=
  [Message (mkConsumerMessage (default "" (pm_Value <$> message_of "jobs" odd_job)) 7);
   Message (mkConsumerMessage (default "" (pm_Value <$> message_of "jobs" plain_job)) 8); SessionDone].

Lemma odd_job_good : good_job odd_job /\ good_times odd_job.
Proof.
  split.
  - split; [done|done| |done|done|done|done|apply map_Forall_empty]. split; try done. by apply map_Forall_singleton.
  - change (Forall good_time [t0 + 1500000; t0; t0]). repeat (apply Forall_cons; split; [vm_compute; split; discriminate|]). by apply Forall_nil.
Qed.

Lemma kafka_publish_witness :
  Forall good_job [odd_job; plain_job] /\
  let '(s', w') := exec (env := busy_once) (ConsumeClaim (S := plain_session) (Handle (UnmarshalJob New)) published 7) (world 3 ∅) in
  exists oks, Forall2 (fun job ok => ok = true \/ (ok = false /\ exists n, env_submit (Env := busy_once) n job = false)) [odd_job; plain_job] oks /\
    w_submitted w' = w_submitted (world 3 ∅) ++ taken [odd_job; plain_job] oks.
Proof.
  assert (Forall good_job [odd_job; plain_job]) as Hgood.
  { destruct odd_job_good as [[? ? ? ? ? ? ? ?] _]. repeat (apply Forall_cons; split; [by split|]). by apply Forall_nil. }
  split; [exact Hgood|].
  pose proof (proj2 (kafka_publish_consume (env := busy_once) (S := plain_session) New "jobs" [odd_job; plain_job] Hgood)
                published 7 (world 3 ∅) plain_session_forward) as H.
  destruct (message_of_some "jobs" odd_job (proj2 odd_job_good)) as [m1 H1].
  destruct (message_of_some "jobs" plain_job (proj2 odd_job_good)) as [m2 H2].
  set (claim := exec _ _) in *. clearbody claim. apply H. cbn [published received]. rewrite H1, H2.
  constructor; [exists m1; by split|]. constructor; [exists m2; by split|]. constructor.
Defined.

End KafkaCodec.
