(* ===== verification/BodyCodec.v ===== *)
(** * The JSON the executors exchange

    The body of a webhook request and the specification of an ETL pipeline, by their json
    tags: what a webhook's receiver reads, and what the ETL handler makes of a payload. *)

From S2P Require Import Prelude GoLib Models Calendar Unicode Concrete Retry Etl Webhook Rfc3339 Json Codec JobCodec.

Module BodyCodec.
Import Json.Json Codec.Codec JobCodec.JobCodec.

(** ** The webhook's request body *)

Section Body.
Import Webhook.Webhook.

Definition body_fields : list (Field requestBody) :=
  [field "job_id" store_string JobID (fun x b => mkBody x (TaskID b) (TaskName b) (Attempt b) (Payload b) (BodyMetadata b));
   field "task_id" store_string TaskID (fun x b => mkBody (JobID b) x (TaskName b) (Attempt b) (Payload b) (BodyMetadata b));
   field "task_name" store_string TaskName (fun x b => mkBody (JobID b) (TaskID b) x (Attempt b) (Payload b) (BodyMetadata b));
   field "attempt" store_int Attempt (fun x b => mkBody (JobID b) (TaskID b) (TaskName b) x (Payload b) (BodyMetadata b));
   field "payload" store_bytes Payload (fun x b => mkBody (JobID b) (TaskID b) (TaskName b) (Attempt b) x (BodyMetadata b));
   field "metadata" store_map BodyMetadata (fun x b => mkBody (JobID b) (TaskID b) (TaskName b) (Attempt b) (Payload b) x)].

Lemma body_fields_nodup : NoDup body_fields.*1.
Proof. apply (bool_decide_unpack _). vm_compute. exact I. Qed.
#[local] Hint Resolve body_fields_nodup : codec.

Definition body_members (b : requestBody) : list (list Z * json) :=
  member false "job_id" (enc_string (JobID b)) ++ member (is_empty (TaskID b)) "task_id" (enc_string (TaskID b)) ++
  member false "task_name" (enc_string (TaskName b)) ++ member false "attempt" (enc_int (Attempt b)) ++
  member (is_empty (Payload b)) "payload" (enc_bytes (Payload b)) ++
  member (is_empty_map (BodyMetadata b)) "metadata" (enc_map (BodyMetadata b)).

(** json.Marshal of the body, which cannot fail. *)
Definition MarshalRequestBody (b : requestBody) : res string error := Ok (string_of_bytes (write (JObject (body_members b)))).

Definition zero_body : requestBody := mkBody "" "" "" 0 "" ∅.

(** What a receiver that decodes the body reads. *)
Definition UnmarshalRequestBody (DecodeError : string -> error) : string -> res requestBody error :=
  Unmarshal DecodeError body_fields zero_body.

Record good_body (b : requestBody) : Prop := {
  good_job_id : good_string (JobID b);
  good_body_task_id : good_string (TaskID b);
  good_body_task_name : good_string (TaskName b);
  good_body_attempt : good_int (Attempt b);
  good_body_metadata : good_map (BodyMetadata b);
}.

Ltac project_body := cbn [zero_body JobID TaskID TaskName Attempt Payload BodyMetadata] in *.

Lemma store_body b : good_body b -> store_struct body_fields (JObject (body_members b)) zero_body = Some b.
Proof.
  destruct b. intros []. cbn [store_struct]. unfold body_members. project_body. do 6 (store_next; project_body). reflexivity.
Qed.

Lemma UnmarshalRequestBody_Marshal DecodeError b text :
  good_body b -> MarshalRequestBody b = Ok text -> UnmarshalRequestBody DecodeError text = Ok b.
Proof.
  unfold MarshalRequestBody. set (out := string_of_bytes _). intros Hb Hout. assert (text = out) as -> by congruence. apply (Unmarshal_write _ _ _ 1); [done| |by apply store_body].
  unfold body_members. repeat apply writable_app; apply writable_member; intros _; auto with codec.
Qed.

(** ** What the handler sends *)

Definition body_of (job : Job) : requestBody :=
  mkBody (Job.ID job) (Task.ID (Job.Task job)) (Task.Name (Job.Task job)) (Job.Attempt job) (Task.Payload (Job.Task job)) (Job.Metadata job).

Section Sent.
Context {U : Unicode} {N : Net} (e : Executor) (DecodeError : string -> error).
Hypothesis json_body : forall b, MarshalBody b = MarshalRequestBody b.

(** A request made for [r]: [r] on the way, or a GET without a body. *)
Definition made_for (r : Request) (s : Sent) : Prop :=
  JobIDHeader (s_request s) = JobIDHeader r /\ AttemptHeader (s_request s) = AttemptHeader r /\
  ((Method (s_request s) = Method r /\ Body (s_request s) = Body r) \/ (Method (s_request s) = "GET" /\ Body (s_request s) = None)).

Lemma made_for_redirect r status u s : made_for (redirect_request r status u) s -> made_for r s.
Proof. unfold made_for, redirect_request. destruct (_ || _); cbn; naive_solver. Qed.

Lemma Do_made fuel : forall n via r, Forall (made_for r) (Do e fuel n via r).1.
Proof.
  assert (forall n r, made_for r (round_trip n r).1) as Hrt by (intros; repeat split; by left).
  induction fuel as [|fuel IH]; intros n via r; specialize (Hrt n r); cbn [Do]; destruct (round_trip n r) as [sent result]; cbn [fst] in Hrt;
    repeat case_match; simplify_eq; try (constructor; [done|constructor]).
  match goal with H : Do e fuel ?m ?v ?q = _ |- _ => specialize (IH m v q); rewrite H in IH end. constructor; [done|].
  eapply Forall_impl; [exact IH|]. intros s. apply made_for_redirect.
Qed.

Lemma Do_first fuel n via r : s_request <$> head (Do e fuel n via r).1 = Some r.
Proof. destruct fuel; cbn; repeat case_match; simplify_eq; done. Qed.

(** C16: what a webhook receives.  With the executor's own client, for a job whose strings are
    UTF-8 and whose attempt is an int64: every request the handler makes carries the job's id
    and attempt in its headers; the first one has the job's method (POST when none is given)
    and a body; each of the others repeats them or is a GET without a body, as a redirect by
    301, 302 or 303 makes it; and a receiver that decodes a body reads exactly the job's id,
    attempt and metadata and its task's id, name and payload. *)
Theorem webhook_body_delivered job :
  let task := Job.Task job in
  let m := ToUpper (TrimSpace (default "" (Task.Metadata task !! "method"))) in
  let sent_body := mkBody (Job.ID job) (Task.ID task) (Task.Name task) (Job.Attempt job) (Task.Payload task) (Job.Metadata job) in
  client e = None -> good_body sent_body ->
  Forall (fun s =>
    JobIDHeader (s_request s) = Job.ID job /\ AttemptHeader (s_request s) = Itoa (Job.Attempt job) /\
    match Body (s_request s) with
    | Some text => Method (s_request s) = (if decide (m = "") then "POST" else m) /\
                   UnmarshalRequestBody DecodeError text = Ok sent_body
    | None => Method (s_request s) = "GET"
    end) (Handler e job).1 /\
  (forall s more, (Handler e job).1 = s :: more -> Body (s_request s) <> None).
Proof.
  intros task m sent_body Hclient Hgood. change sent_body with (body_of job) in *.
  pose proof (method_of_default job) as Hmeth. cbv zeta in Hmeth. fold task m in Hmeth. unfold Handler. destruct (String.eqb _ ""); [by split|]. destruct (ParseURL _) as [u|]; [|by split].
  destruct (validateURL e 0 u); [by split|]. destruct (_ && _ && _); [by split|].
  rewrite json_body. change (mkBody _ _ _ _ _ _) with (body_of job). destruct (MarshalRequestBody (body_of job)) as [text|] eqn:Ht; [|done].
  pose proof (UnmarshalRequestBody_Marshal DecodeError _ _ Hgood Ht) as Hdec. set (r := mkRequest _ u _ _ _).
  assert ((send e r).1 = (Do e (Z.to_nat (maxRedirects e)) 1 0 r).1) as Hsend by (unfold send; by rewrite Hclient).
  pose proof (Do_made (Z.to_nat (maxRedirects e)) 1 0 r) as Hmade. pose proof (Do_first (Z.to_nat (maxRedirects e)) 1 0 r) as Hfirst.
  rewrite <- Hsend in Hmade, Hfirst. destruct (send e r) as [sent result]. cbn [fst] in *.
  enough (Forall (fun s => JobIDHeader (s_request s) = Job.ID job /\ AttemptHeader (s_request s) = Itoa (Job.Attempt job) /\
    match Body (s_request s) with
    | Some text => Method (s_request s) = (if decide (m = "") then "POST" else m) /\
                   UnmarshalRequestBody DecodeError text = Ok (body_of job)
    | None => Method (s_request s) = "GET"
    end) sent /\ forall s more, sent = s :: more -> Body (s_request s) <> None) by by destruct result.
  split.
  - eapply Forall_impl; [exact Hmade|]. intros s (-> & -> & [[-> ->]|[-> ->]]); [|done].
    split; [done|]. split; [done|]. split; [exact Hmeth|exact Hdec].
  - intros s more ->. apply (inj Some) in Hfirst. by rewrite Hfirst.
Qed.

End Sent.

(** *** On a concrete network *)

Definition json_net : Net.
Proof.
  refine {| resolve := fun _ _ => Ok [public_addr]; connect := fun _ l => head l; answer := fun _ _ _ => Ok (mkResponse 200 "" "");
            ParseURL := fun s => Ok (mkURL "https" false s "/"); ParseRef := fun _ s => Ok (mkURL "https" false s "/");
            ParseAddr := fun _ => None; AddrString := fun _ => "address"; MarshalBody := MarshalRequestBody |}.
  intros n l a H. destruct l; simplify_eq/=. apply elem_of_cons. by left.
Defined.

Lemma webhook_body_delivered_witness :
  exists s text, (Handler (U := latin1_unicode) (N := json_net) (server_default 3) hook_job).1 = [s] /\
    Body (s_request s) = Some text /\ Method (s_request s) = "POST" /\
    UnmarshalRequestBody New text = Ok (mkBody "j1" "t1" "webhook" 1 "x" ∅).
Proof.
  destruct (webhook_body_delivered (U := latin1_unicode) (N := json_net) (server_default 3) New
              ltac:(done) hook_job) as [Hall _].
  - done.
  - split; [done..|]. apply map_Forall_empty.
  - do 2 eexists. split; [reflexivity|]. split; [reflexivity|].
    apply Forall_inv in Hall. destruct Hall as (_ & _ & Hmeth & Hdec). split; [exact Hmeth|exact Hdec].
Defined.
End Body.

(** ** The pipeline specification *)

Section Spec.
Import Etl.Etl.

Definition store_strings : json -> list string -> option (list string) := store_slice store_string "".

Definition spec_fields : list (Field PipelineSpec) :=
  [field "extract_sql" store_string ExtractSQL (fun x p => mkSpec x (TargetTable p) (TargetColumns p) (WriteMode p) (ConflictColumns p) (UpdateColumns p));
   field "target_table" store_string TargetTable (fun x p => mkSpec (ExtractSQL p) x (TargetColumns p) (WriteMode p) (ConflictColumns p) (UpdateColumns p));
   field "target_columns" store_strings TargetColumns (fun x p => mkSpec (ExtractSQL p) (TargetTable p) x (WriteMode p) (ConflictColumns p) (UpdateColumns p));
   field "write_mode" store_string WriteMode (fun x p => mkSpec (ExtractSQL p) (TargetTable p) (TargetColumns p) x (ConflictColumns p) (UpdateColumns p));
   field "conflict_columns" store_strings ConflictColumns (fun x p => mkSpec (ExtractSQL p) (TargetTable p) (TargetColumns p) (WriteMode p) x (UpdateColumns p));
   field "update_columns" store_strings UpdateColumns (fun x p => mkSpec (ExtractSQL p) (TargetTable p) (TargetColumns p) (WriteMode p) (ConflictColumns p) x)].

Definition UnmarshalSpec (DecodeError : string -> error) : string -> res PipelineSpec error :=
  Unmarshal DecodeError spec_fields (mkSpec "" "" [] "" [] []).

#[local] Existing Instance latin1_unicode.
#[local] Existing Instance plain_pgx.

Definition spec_text : string :=
  string_of_bytes ((fun b => if b =? 39 then 34 else b) <$> bytes_of_string
    "{'extract_sql':' SELECT id FROM orders ','target_table':'daily','target_columns':['id', null],'write_mode':'APPEND'}").

(** A null column name is the empty string, which BuildInsertSQL refuses. *)
Example spec_null_column :
  ParseSpec (UnmarshalSpec New) spec_text = Ok (mkSpec "SELECT id FROM orders" "daily" ["id"; ""] "append" [] []) /\
  (Handler (UnmarshalSpec New) (Some (fun _ => None)) (Job.mkJob "a" "" (Task.mkTask "" "" spec_text 0 0 0 "" "" ∅) "" 0 None None None "" None "" ∅ 0 0)).1 = [].
Proof. split; vm_compute; reflexivity. Qed.
End Spec.
End BodyCodec.
